(* ===== verification/_CoqProject ===== *)
-Q . S2P
Prelude.v
Utf8.v
Types.v
Asset.v
Text.v
WriteSet.v
Canonical.v
Chain.v
Capability.v
Policy.v
Msp.v
Ledger.v
Storage.v
Transient.v
Bft.v
Rounds.v
Validators.v
Node.v
Ocsp.v
CertVerifier.v
Custody.v
Auth.v
Indexer.v
Channel.v
Wire.v
Peers.v
Handshake.v
Outbound.v
Private.v
Contracts.v
Gas.v
Wasm.v
Watcher.v
Runtime.v
PeerLoop.v
Repl.v
Boot.v
Server.v
Specs.v
Client.v
Swarm.v
Workflow.v
Flows.v
Scenario.v
ScenarioRun.v
Bridge.v
Codec.v
Witnesses.v
AppWitnesses.v
NodeWitnesses.v
NetWitnesses.v
ScenarioWitnesses.v
