(* ===== verification/Prelude.v ===== *)
(** GlassChain: a verification library for the ledger, consensus, endorsement,
    identity, networking, contract, workflow, server and client crates of the
    repository, its node binary, and its demonstration scenario with the bridge that
    serves it.

    * The program

    GlassChain is a permissioned supply-chain ledger.  A node keeps a [Ledger]
    (chain of blocks, pending pool, incremental indexes), mines or certifies
    candidate blocks, judges the blocks and chains of its peers, and replays
    every committed block into three projections: the capability history (which
    rules are active from which height), the policy history (who must endorse
    what) and the world state (the committed write sets).  Endorsements are
    checked by an identity provider against the policy history; finality comes
    from proof of work or, with the [bft] feature, from BLS quorum certificates
    of a validator set that is itself world state.

    Around this core, nodes authenticate each other with organization certificates
    and pinned transport keys, deliver private payloads to the members of a
    collection, run contracts in a metered Wasm host, drive long business flows
    from durable checkpoints, and project the chain for queries.  A node binary boots
    all of this from flags and files and takes commands, a gRPC server answers signed
    requests, a client library and a command-line tool send them, and a scripted scenario
    drives a federation of nodes round by round behind an HTTP bridge.

    * Files and sources (crate paths under src/crates)

    - Prelude.v: [result], its notation scope, tactics and hint database; strings,
      lists, byte encodings, machine-width arithmetic.
    - Types.v: the data model (core: transaction.rs, canonical.rs, endorsement.rs,
      capability.rs, write_set.rs, consensus.rs, block.rs, error.rs).
    - Asset.v: trust score and schema report (core: asset.rs, schema.rs).
    - WriteSet.v: scoped writes, canonical form, replay (core: write_set.rs).
    - Canonical.v: the record registry and validator (core: canonical.rs).
    - Chain.v: hashing, proof of work, links, certificate shape (core: block.rs,
      consensus.rs, parts of providers.rs).
    - Capability.v: activations and effective sets (core: capability.rs).
    - Policy.v: the policy language, policy history, transaction evaluation
      against the interface [EndorsementProvider] (core: endorsement.rs).
    - Msp.v: identities, the key directory with its height windows, the MSP
      provider as an instance of that interface, and the signature-counting engine
      (identity: possession.rs, identity.rs, msp_policy.rs, endorsement.rs).
    - Ledger.v: admission, mining slices, commit, replacement (core: ledger.rs).
    - Storage.v: the interface [StorageProvider] with its laws, the in-memory
      backend and redb under faults (core: providers.rs; storage:
      redb_backend.rs).  Transient.v: private payload retention over any lawful
      backend (storage: transient.rs).
    - Bft.v: quorums, bitmaps, vote encodings, certificates, equivocation proofs
      (core: bft.rs).
    - Rounds.v: the round driver, collector, proposal and precommit handlers, and
      the receipt journal (core: rounds.rs; network: rounds.rs, node.rs).
    - Validators.v: live and historical validator sets, the vote handler, restart
      (network: node.rs).
    - Node.v: the commit paths [mine_async], peer blocks and chain adoption, over
      all of the above (network: node.rs).
    - Utf8.v: the standard library's UTF-8 validation and lossy decoding.
    - Ocsp.v: DER writer and reader, minting and verifying of staples (identity:
      ocsp.rs).  CertVerifier.v: trust store and certificate verification
      (identity: cert_verifier.rs).  Custody.v: the certificate authority and its
      snapshot (identity: msp.rs, identity.rs).  Auth.v: RPC authentication and
      the admin gate (rpc: auth.rs; identity: possession.rs).
    - Channel.v: channels and the payload gate (identity: channel.rs,
      payload_gate.rs).  Wire.v: framed connections (network: peer.rs,
      protocol.rs).  Peers.v: pins, the Hello handshake and connection state
      (core: pin.rs; network: node.rs).  Private.v: private payload delivery
      (network: node.rs).
    - Contracts.v: contract engine and approval gate (contracts crate).  Gas.v and
      Wasm.v: gas counter and Wasm execution provider (vm: gas.rs, wasm.rs).
    - Watcher.v, Workflow.v, Flows.v: the inventory watcher, the flow runner with
      its checkpoints, and the business flows (workflows crate).
    - Indexer.v: custody index, block index, event log, flat records and lineage
      (indexer crate).
    - Outbound.v: the two bounded queues of a connection and its writer task.
      Handshake.v: the certificate preamble and the accept and connect paths (network:
      node.rs, net.rs).
    - Runtime.v: the running node: submission, every message handler for transactions,
      blocks and chains, all projections after a commit, catch-up, start and rebuild
      (network: node.rs).  PeerLoop.v: the dispatch of every message and the receive loop
      over all connections, composing Runtime, Private, Rounds and Validators (network:
      node.rs).  Swarm.v: the libp2p swarm loop and its two channels (network:
      libp2p_swarm.rs).
    - Text.v: the standard library's trim, split and integer parsers.  Repl.v: argument
      scanning and command parsing.  Boot.v: the identity file, the trust store, start-up and
      the execution of commands (node: main.rs).
    - Server.v: the gRPC handlers, their dispatch behind the interceptor, channel
      administration and the two streams (rpc: server.rs; network: node.rs).  Client.v:
      the signing client (sdk crate) and the command-line client (cli crate).
    - Specs.v: the specification functions and contracts the sources carry in their Verus
      blocks and Kani harnesses, against the modelled code (core: bft.rs, consensus.rs,
      pin.rs, rounds.rs, proofs.rs; identity: msp_policy.rs, channel.rs, payload_gate.rs,
      proofs.rs).
    - Scenario.v: parameters, companies, builders, private terms and the run state with
      its books.  ScenarioRun.v: the round, phase by phase, manual purchases, setup and the
      member views, over the interface [Federation] that the nodes of Runtime.v
      implement (src/demo/src/scenario.rs).  Bridge.v: the HTTP bridge in front of a run
      (src/demo/src/main.rs).
    - Codec.v: a text encoding for every data type, with which the serialization
      hypotheses are instantiated.  Witnesses.v, AppWitnesses.v, NodeWitnesses.v,
      NetWitnesses.v and ScenarioWitnesses.v: concrete parameters, and each theorem applied to inputs
      where its hypotheses hold.

    Methods that take a value by mutable reference are functions to the new value
    and a [result]; on an [Err] the value is the one the source leaves behind, so
    early returns through the question-mark operator keep the partial updates
    made before them.  Errors carry the source's constructors, and their texts
    where the text is data the code returns.  Unsigned integers are [Z] with
    wrap-around or saturation written out where the source has it; hash maps are
    [gmap]; where the iteration order of a map reaches a result, the code sorts
    and the model sorts.

    * Parameters: code outside the repository

    [Types.Env] holds SHA-256 and the JSON renderings; [Bft.Bls] the BLS12-381
    group and pairing operations, with [BlsLaws] the correctness the code relies
    on; [Msp]'s classes the ed25519 and X.509 crates; [Storage] a fault oracle for
    redb's calls; Transient.v, Validators.v, Peers.v and Workflow.v the serde
    codecs; Node.v the contract executor; [Ocsp.OcspCrates], [CertVerifier.Pki] and
    [Custody.CaCrates] the time, ring, webpki and rcgen crates; Wasm.v wasmtime's
    compiler, with a guest as a tree of fuel burns, host calls and traps; Boot.v the files
    of the operating system; Server.v and Client.v tonic and the protobuf messages; Swarm.v
    the events libp2p reports; ScenarioRun.v and Bridge.v fresh ids, clocks and serde.
    Collision resistance is never assumed: the tamper-evidence theorems conclude "or these
    two inputs collide".
    The witness files instantiate each parameter by an executable function and
    prove the laws for it.

    * Fuel and bounds

    Mining searches nonces with fuel; [Chain.mine_correct] shows that fuel up to
    the first satisfying nonce is enough and that the loop stops exactly there.
    Vote rounds recurse with fuel [MAX_ROUNDS], the bound of the source, and
    [Rounds.vote_round_certifies] shows that it never runs out.
    Clocks, and what has arrived on the vote channel when a phase ends, are
    arguments, so the theorems hold for every timing.  All other functions are
    total.

    * What the theorems show

    - Consensus (Bft, Rounds, Validators): quorum intersection and its
      consequence, that two conflicting certificates name more than a third of the
      validators twice; soundness and completeness of certificates; injectivity
      of the signed envelopes; the certificate a round returns verifies; a chain
      that passes historical verification was certified by the sets the live
      derivation saw; receipts stay bounded and recorded equivocations are real.
    - Ledger and chain: tamper evidence, the mining loop, the mining round and
      chain replacement keep a valid chain and consistent indexes, admission is
      bounded and free of duplicates, restart restores what was stored.
    - Governance (Capability, Policy, Msp): rules never change retroactively; the
      policy language is fail-closed and monotone; a replayed history contains
      only valid metadata; accepted transactions are covered and endorsed, down to
      verified signatures of keys authorized at the height.
    - Data (WriteSet, Canonical, Asset, Storage, Transient): canonical write sets
      and order-free replay; what the record validator accepts; atomic commit
      under any database failure; purge removes exactly what expired.
    - Node: the mined block, the accepted peer block and the adopted chain have
      passed every gate.
    - Identity (Ocsp, CertVerifier, Custody, Auth): a minted staple parses and
      verifies exactly inside its window and for its serial; which certificates and
      which admin requests are accepted; a revoked serial stays on every later
      CRL; a snapshot restores the authority.
    - Networking (Wire, Peers, Private, Channel): frames arrive as sent whatever
      follows; a pin changes only under its own key, across restarts; cleartext is
      pushed only to connections that proved membership; when a payload is taken.
    - Contracts and execution (Contracts, Gas, Wasm): budgets hold over any history;
      the chain's replay equals the live engine; output is paid for, and which
      budget an exhaustion error names.
    - Workflows (Workflow, Flows, Watcher): the runner refines a small delivery
      machine over any lawful backend, no action is lost across crashes and
      redelivery leaves the ledger unchanged; two mirrored configurations run a
      purchase to settlement on each other's records.
    - Running node (Outbound, Handshake, Runtime, PeerLoop): background traffic never
      delays or drops a consensus message; whatever arrives on whatever connections, every
      projection of a node equals the replay of its chain, and private cleartext leaves it
      only towards connections that proved membership; a node that asks a longer honest
      peer catches up with it.
    - Swarm: its caller receives the events in the order they occurred, and a caller that
      stops reading stops the task.
    - Specifications the code carries (Specs): the modelled code meets them on every
      input, where the harnesses bound theirs.
    - Entry points (Repl, Boot, Server): what a rendered command parses to; a restarted
      node keeps its identity; the admin gate follows the trust store; channels change
      only by granted calls; what each gRPC handler answers, errors included.
    - Clients (Client): a channel created or changed from the command line takes effect
      on the server, and what the commands do that need no server.
    - Scenario (Scenario, ScenarioRun): rounds never panic while every company has a node,
      and every lot is delivered and certified; the books balance; the projections
      may be folded incrementally; what a member's page shows to whom.  Only authorized
      commands change the run behind the bridge.
    - Projections (Indexer): custody chains are exactly the chain's registrations.
    - Limits of the code, stated as theorems about what it does: a leader that
      proposes twice in one round collects both precommit quorums; a policy update
      is not tied to the scope of its carriers; an unsigned carrier covers writes
      on replay; a failed candidate drops its transactions; a refused peer block
      still updates the caches; the committed-id index can skip peer blocks; a
      reissued certificate can no longer be revoked; captured request headers pass
      the admin gate; a federated root vouches for any name; a module's start
      function is not metered; a node answers and adopts chains before any Hello; a
      second Hello strands the first address; one closed connection makes the swarm
      forget a peer that has others; and others, each with its theorem.

    * What is not modelled

    Sockets, TLS sessions, libp2p itself and task scheduling (each handler is one atomic
    step, as under the node's locks, and what a channel delivers is a sequence); wasmtime's
    instruction semantics; protobuf and JSON encodings; the flag parser of the command-line
    client; logging and signal handling; the test modules. *)

From stdpp Require Export base gmap strings list pretty sorting.
From Stdlib Require Export ZArith Lia Bool.

(** ** Results: Rust's [Result<A, E>] *)

Inductive result (E A : Type) : Type :=
| Ok (a : A)
| Err (e : E).
Arguments Ok {E A} a.
Arguments Err {E A} e.

Declare Scope glass_scope.
Delimit Scope glass_scope with glass.
Open Scope glass_scope.

(** The [?] operator: stop at the first [Err]. *)
Notation "'let?' x := c 'in' k" :=
  (match c with Ok x => k | Err e => Err e end)
  (at level 10, x pattern, c at level 200, k at level 200) : glass_scope.

(** An early [return Err(e)] guarded by a condition. *)
Notation "'guard?' b 'else' e 'in' k" :=
  (if b then k else Err e)
  (at level 10, b at level 100, e at level 100, k at level 200) : glass_scope.

Definition is_ok {E A} (r : result E A) : bool :=
  match r with Ok _ => true | Err _ => false end.

Definition map_err {E F A} (f : E → F) (r : result E A) : result F A :=
  match r with Ok a => Ok a | Err e => Err (f e) end.

Definition ok_or {E A} (o : option A) (e : E) : result E A :=
  match o with Some a => Ok a | None => Err e end.

Definition is_some {A} (o : option A) : bool :=
  match o with Some _ => true | None => false end.

(** [for x in l { s = f(s, x)?; }] *)
Fixpoint fold_result {E S A} (f : S → A → result E S) (l : list A) (s : S)
  : result E S :=
  match l with
  | [] => Ok s
  | x :: l => match f s x with Ok s' => fold_result f l s' | Err e => Err e end
  end.

(** [for x in l { f(x)?; }] *)
Section each_result.
Context {E A : Type} (f : A → result E unit).
Fixpoint each_result (l : list A) : result E unit :=
  match l with
  | [] => Ok tt
  | x :: l => match f x with Ok _ => each_result l | Err e => Err e end
  end.
End each_result.

Lemma is_ok_true {E A} (r : result E A) : is_ok r = true ↔ ∃ a, r = Ok a.
Proof. destruct r as [a|e]; simpl; split; [eauto | done | done | by intros [? [=]]]. Qed.

(** [collect] into a [Result] *)
Fixpoint try_map {A B Er} (f : A → result Er B) (l : list A) : result Er (list B) :=
  match l with
  | [] => Ok []
  | a :: l => let? b := f a in let? bs := try_map f l in Ok (b :: bs)
  end.

Lemma try_map_fmap {A B Er} (f : A → B) (g : B → result Er A) l :
  (∀ x, x ∈ l → g (f x) = Ok x) → try_map g (f <$> l) = Ok l.
Proof.
  induction l as [|x l IH]; intros H; csimpl; [done|]. rewrite H by left. rewrite IH; [done|].
  intros y Hy. apply H. by right.
Qed.

Lemma fold_result_app {E S A} (f : S → A → result E S) l1 l2 s :
  fold_result f (l1 ++ l2) s =
  match fold_result f l1 s with Ok s' => fold_result f l2 s' | Err e => Err e end.
Proof.
  revert s. induction l1 as [|x l1 IH]; intros s; simpl; [done|].
  destruct (f s x); [apply IH | done].
Qed.

Lemma fold_result_snoc {E S A} (f : S → A → result E S) l x s :
  fold_result f (l ++ [x]) s =
  match fold_result f l s with Ok s' => f s' x | Err e => Err e end.
Proof.
  rewrite fold_result_app. destruct (fold_result f l s) as [s'|]; simpl; [|done].
  by destruct (f s' x).
Qed.

Lemma each_result_Ok {E A} (f : A → result E unit) l :
  each_result f l = Ok tt ↔ Forall (λ x, f x = Ok tt) l.
Proof.
  induction l as [|x l IH]; simpl.
  - split; [constructor | done].
  - rewrite Forall_cons. destruct (f x) as [[]|e].
    + rewrite IH. tauto.
    + split; [discriminate | intros [??]; discriminate].
Qed.

(** An invariant of every step is an invariant of the loop. *)
Lemma fold_result_invariant {E S A} (P : S → Prop) (f : S → A → result E S) l s s' :
  (∀ s x s', P s → x ∈ l → f s x = Ok s' → P s') →
  P s → fold_result f l s = Ok s' → P s'.
Proof.
  revert s. induction l as [|x l IH]; intros s Hstep Hs; simpl.
  - by intros [= <-].
  - destruct (f s x) as [s1|] eqn:Hf; [|done]. intros Hl.
    eapply IH; [| |exact Hl].
    + intros ??? ?? ?. eapply Hstep; [done| |done]. by right.
    + eapply Hstep; [exact Hs| |exact Hf]. left.
Qed.

(** ** Machine integers

    An unsigned w-bit integer is a [Z] in [0, 2^w).  Rust's [+] on a fixed-width
    integer wraps in the release profile (the debug profile panics instead);
    [wrapping_add] is the release meaning of it. *)

Definition U8_MAX : Z := 255.
Definition U16_MAX : Z := 65535.
Definition U32_MAX : Z := 4294967295.
Definition U64_MAX : Z := 18446744073709551615.
Definition I64_MAX : Z := 9223372036854775807.
Definition I64_MIN : Z := -9223372036854775808.
(** [usize] on the 64-bit targets the workspace builds for. *)
Definition USIZE_MAX : Z := U64_MAX.

Definition in_u32 (z : Z) : Prop := (0 ≤ z ≤ U32_MAX)%Z.
Definition in_u64 (z : Z) : Prop := (0 ≤ z ≤ U64_MAX)%Z.
Definition in_i64 (z : Z) : Prop := (I64_MIN ≤ z ≤ I64_MAX)%Z.

Definition wrapping_add (w a b : Z) : Z := ((a + b) mod 2 ^ w)%Z.
Definition add64 (a b : Z) : Z := wrapping_add 64 a b.
Definition add32 (a b : Z) : Z := wrapping_add 32 a b.
(** Two's-complement addition on [i64]. *)
Definition addi64 (a b : Z) : Z :=
  (((a + b + 9223372036854775808) mod 18446744073709551616) - 9223372036854775808)%Z.
Definition saturating_add64 (a b : Z) : Z := Z.min (a + b) U64_MAX.
Definition saturating_mul64 (a b : Z) : Z := Z.min (a * b) U64_MAX.
Definition saturating_sub (a b : Z) : Z := Z.max (a - b) 0.
Definition checked_add64 (a b : Z) : option Z :=
  if (a + b <=? U64_MAX)%Z then Some (a + b)%Z else None.

Definition checked_mul64 (a b : Z) : option Z :=
  if (a * b <=? U64_MAX)%Z then Some (a * b)%Z else None.

Lemma add64_small a b : (0 ≤ a + b ≤ U64_MAX)%Z → add64 a b = (a + b)%Z.
Proof.
  intros H. unfold add64, wrapping_add. apply Z.mod_small.
  change (2 ^ 64)%Z with 18446744073709551616%Z. unfold U64_MAX in H. lia.
Qed.

Lemma add64_range a b : in_u64 (add64 a b).
Proof.
  unfold add64, wrapping_add, in_u64.
  pose proof (Z.mod_pos_bound (a + b) (2 ^ 64) ltac:(lia)).
  change (2 ^ 64)%Z with 18446744073709551616%Z in *. unfold U64_MAX. lia.
Qed.

Lemma add32_small a b : (0 ≤ a + b ≤ U32_MAX)%Z → add32 a b = (a + b)%Z.
Proof.
  intros H. unfold add32, wrapping_add. apply Z.mod_small.
  change (2 ^ 32)%Z with 4294967296%Z. unfold U32_MAX in H. lia.
Qed.

(** The successor on [u64] is injective on the machine range. *)
Lemma add64_1_inj a b : in_u64 a → in_u64 b → add64 a 1 = add64 b 1 → a = b.
Proof.
  unfold in_u64, add64, wrapping_add, U64_MAX.
  change (2 ^ 64)%Z with 18446744073709551616%Z. intros Ha Hb.
  destruct (Z.eq_dec a 18446744073709551615), (Z.eq_dec b 18446744073709551615); subst;
    rewrite ?(Z.mod_small (a + 1)), ?(Z.mod_small (b + 1)) by lia; try lia;
    change ((18446744073709551615 + 1) mod 18446744073709551616)%Z with 0%Z; lia.
Qed.

(** ** Strings: UTF-8 byte sequences *)

(** [s.is_empty()] *)
Definition is_empty (s : string) : bool :=
  match s with EmptyString => true | _ => false end.

(** [s.len()]: the byte length. *)
Definition slen (s : string) : nat := String.length s.

Fixpoint bytes (s : string) : list Ascii.ascii :=
  match s with EmptyString => [] | String a s => a :: bytes s end.

Fixpoint of_bytes (l : list Ascii.ascii) : string :=
  match l with [] => EmptyString | a :: l => String a (of_bytes l) end.

(** The double quote character, and [{:?}] of a string without escapes. *)
Definition quote : string := String (Ascii.ascii_of_nat 34) EmptyString.
Definition debug_str (s : string) : string := quote +:+ s +:+ quote.

Fixpoint join (sep : string) (l : list string) : string :=
  match l with
  | [] => ""
  | [s] => s
  | s :: l => s +:+ sep +:+ join sep l
  end.

(** [{:?}] of a slice of strings. *)
Definition debug_strs (l : list string) : string :=
  "[" +:+ join ", " (debug_str <$> l) +:+ "]".

Definition str_eqb (a b : string) : bool := bool_decide (a = b).
Notation "a ==? b" := (str_eqb a b) (at level 70) : glass_scope.

Lemma str_eqb_eq a b : (a ==? b) = true ↔ a = b.
Proof. unfold str_eqb. apply bool_decide_eq_true. Qed.
Lemma str_eqb_neq a b : (a ==? b) = false ↔ a ≠ b.
Proof. unfold str_eqb. apply bool_decide_eq_false. Qed.
Lemma str_eqb_refl a : (a ==? a) = true.
Proof. by apply str_eqb_eq. Qed.

Lemma is_empty_true s : is_empty s = true ↔ s = "".
Proof. destruct s; simpl; split; congruence. Qed.
Lemma is_empty_false s : is_empty s = false ↔ s ≠ "".
Proof. destruct s; simpl; split; congruence. Qed.

Definition starts_with (p s : string) : bool := String.prefix p s.

(** [s.strip_prefix(p)] *)
Fixpoint strip_prefix (p s : string) : option string :=
  match p, s with
  | EmptyString, s => Some s
  | String a p, String b s => if Ascii.eqb a b then strip_prefix p s else None
  | String _ _, EmptyString => None
  end.

Lemma app_str_cons a s t : String a s +:+ t = String a (s +:+ t).
Proof. done. Qed.

Lemma app_str_nil_r s : s +:+ "" = s.
Proof. induction s as [|a s IH]; [done|]. by rewrite app_str_cons, IH. Qed.

Lemma app_str_assoc a b c : (a +:+ b) +:+ c = a +:+ (b +:+ c).
Proof. induction a as [|x a IH]; [done|]. by rewrite !app_str_cons, IH. Qed.

Lemma app_str_inj_l a b c : a +:+ b = a +:+ c → b = c.
Proof. induction a as [|x a IH]; [done|]. rewrite !app_str_cons. intros [= H]. by apply IH. Qed.

Lemma strip_prefix_Some p s r : strip_prefix p s = Some r ↔ s = p +:+ r.
Proof.
  revert s. induction p as [|a p IH]; intros s; simpl.
  - split; [by intros [= ->] | by intros ->].
  - destruct s as [|b s]; simpl; [split; discriminate|].
    destruct (Ascii.eqb_spec a b) as [->|Hne].
    + rewrite IH, app_str_cons. split; [by intros -> | by intros [= ->]].
    + rewrite app_str_cons. split; [discriminate | intros [= ]; congruence].
Qed.

Lemma strip_prefix_app p r : strip_prefix p (p +:+ r) = Some r.
Proof. by apply strip_prefix_Some. Qed.

Lemma starts_with_strip p s : starts_with p s = is_some (strip_prefix p s).
Proof.
  unfold starts_with.
  revert s. induction p as [|a p IH]; intros s; simpl.
  - by destruct s.
  - destruct s as [|b s]; simpl; [done|].
    destruct (Ascii.ascii_dec a b) as [->|Hne].
    + rewrite Ascii.eqb_refl. apply IH.
    + by destruct (Ascii.eqb_spec a b).
Qed.

Lemma starts_with_app p r : starts_with p (p +:+ r) = true.
Proof. by rewrite starts_with_strip, strip_prefix_app. Qed.

Lemma slen_app a b : slen (a +:+ b) = slen a + slen b.
Proof. unfold slen. induction a as [|x a IH]; [done|]. rewrite app_str_cons. simpl. by rewrite IH. Qed.

Lemma length_bytes s : length (bytes s) = slen s.
Proof. unfold slen. induction s as [|a s IH]; simpl; [done | by rewrite IH]. Qed.

Lemma of_bytes_bytes s : of_bytes (bytes s) = s.
Proof. induction s as [|a s IH]; simpl; [done | by rewrite IH]. Qed.

Lemma bytes_inj s t : bytes s = bytes t → s = t.
Proof. intros H. by rewrite <- (of_bytes_bytes s), <- (of_bytes_bytes t), H. Qed.

Lemma bytes_app a b : bytes (a +:+ b) = bytes a ++ bytes b.
Proof. induction a as [|x a IH]; [done|]. rewrite app_str_cons. simpl. by rewrite IH. Qed.

(** [c] does not occur in [s]. *)
Fixpoint no_char (c : Ascii.ascii) (s : string) : bool :=
  match s with
  | EmptyString => true
  | String a s => negb (Ascii.eqb a c) && no_char c s
  end.

(** A separator that neither head contains splits a string in one way. *)
Lemma split_at_char c a1 a2 b1 b2 :
  no_char c a1 = true → no_char c a2 = true →
  a1 +:+ String c b1 = a2 +:+ String c b2 → a1 = a2 ∧ b1 = b2.
Proof.
  revert a2. induction a1 as [|x a1 IH]; intros [|y a2]; simpl;
    rewrite ?app_str_cons; intros H1 H2 [=].
  - done.
  - subst. by rewrite Ascii.eqb_refl in H2.
  - subst. by rewrite Ascii.eqb_refl in H1.
  - subst. apply andb_prop in H1 as [_ H1]. apply andb_prop in H2 as [_ H2].
    destruct (IH a2 H1 H2) as [-> ->]; done.
Qed.

(** *** Byte-wise lexicographic order: [Ord for str] *)

Definition str_ltb (a b : string) : bool :=
  match String.compare a b with Lt => true | _ => false end.

Lemma ascii_compare_trans a b c :
  Ascii.compare a b = Lt → Ascii.compare b c = Lt → Ascii.compare a c = Lt.
Proof. unfold Ascii.compare. rewrite !N.compare_lt_iff. lia. Qed.

Lemma str_compare_refl a : String.compare a a = Eq.
Proof.
  induction a as [|x a IH]; simpl; [done|].
  unfold Ascii.compare. rewrite N.compare_refl. done.
Qed.

Lemma str_compare_trans a b c :
  String.compare a b = Lt → String.compare b c = Lt → String.compare a c = Lt.
Proof.
  revert b c. induction a as [|x a IH]; intros [|y b] [|z c]; simpl; try done.
  destruct (Ascii.compare x y) eqn:E1; try done;
    destruct (Ascii.compare y z) eqn:E2; try done.
  - apply Ascii.compare_eq_iff in E1, E2. subst. unfold Ascii.compare.
    rewrite N.compare_refl. apply IH.
  - apply Ascii.compare_eq_iff in E1. subst. by rewrite E2.
  - apply Ascii.compare_eq_iff in E2. subst. by rewrite E1.
  - by rewrite (ascii_compare_trans _ _ _ E1 E2).
Qed.

Lemma str_leb_refl a : String.leb a a = true.
Proof. unfold String.leb. by rewrite str_compare_refl. Qed.

Lemma str_leb_trans a b c :
  String.leb a b = true → String.leb b c = true → String.leb a c = true.
Proof.
  unfold String.leb.
  destruct (String.compare a b) eqn:E1; try done;
    destruct (String.compare b c) eqn:E2; try done; intros _ _.
  - apply String.compare_eq_iff in E1, E2. subst. by rewrite str_compare_refl.
  - apply String.compare_eq_iff in E1. subst. by rewrite E2.
  - apply String.compare_eq_iff in E2. subst. by rewrite E1.
  - by rewrite (str_compare_trans _ _ _ E1 E2).
Qed.

(** [Ord] on a tuple of three strings: lexicographic. *)
Definition triple_compare (a b : string * string * string) : comparison :=
  match String.compare a.1.1 b.1.1 with
  | Eq => match String.compare a.1.2 b.1.2 with Eq => String.compare a.2 b.2 | c => c end
  | c => c
  end.

Definition triple_leb (a b : string * string * string) : bool :=
  match triple_compare a b with Gt => false | _ => true end.

Lemma triple_leb_total a b : triple_leb a b = true ∨ triple_leb b a = true.
Proof.
  unfold triple_leb, triple_compare.
  rewrite (String.compare_antisym b.1.1), (String.compare_antisym b.1.2),
    (String.compare_antisym b.2).
  destruct (String.compare a.1.1 _), (String.compare a.1.2 _), (String.compare a.2 _);
    simpl; auto.
Qed.

(** Transitivity of a lexicographic step. *)
Lemma lex_trans (x y z : string) (p q r : comparison) :
  (p ≠ Gt → q ≠ Gt → r ≠ Gt) →
  match String.compare x y with Eq => p | c => c end ≠ Gt →
  match String.compare y z with Eq => q | c => c end ≠ Gt →
  match String.compare x z with Eq => r | c => c end ≠ Gt.
Proof.
  intros Hr.
  destruct (String.compare x y) eqn:E1; [apply String.compare_eq_iff in E1 as -> | | done];
    destruct (String.compare y z) eqn:E2; try done;
    try (apply String.compare_eq_iff in E2 as ->; rewrite E1; done).
  by rewrite (str_compare_trans _ _ _ E1 E2).
Qed.

Lemma triple_leb_compare a b : triple_leb a b = true ↔ triple_compare a b ≠ Gt.
Proof. unfold triple_leb. by destruct (triple_compare a b). Qed.

Lemma triple_leb_trans a b c :
  triple_leb a b = true → triple_leb b c = true → triple_leb a c = true.
Proof.
  rewrite !triple_leb_compare. unfold triple_compare. apply lex_trans, lex_trans.
  unfold not. destruct (String.compare a.2 b.2) eqn:E1; [|  |done];
    destruct (String.compare b.2 c.2) eqn:E2; try done.
  - apply String.compare_eq_iff in E1, E2. rewrite E1, E2. by rewrite str_compare_refl.
  - apply String.compare_eq_iff in E1. by rewrite E1, E2.
  - apply String.compare_eq_iff in E2. by rewrite <- E2, E1.
  - by rewrite (str_compare_trans _ _ _ E1 E2).
Qed.

Lemma triple_leb_antisym a b : triple_leb a b = true → triple_leb b a = true → a = b.
Proof.
  rewrite !triple_leb_compare. unfold triple_compare.
  rewrite (String.compare_antisym b.1.1), (String.compare_antisym b.1.2),
    (String.compare_antisym b.2).
  destruct (String.compare a.1.1 _) eqn:E1; try done.
  destruct (String.compare a.1.2 _) eqn:E2; try done.
  destruct (String.compare a.2 _) eqn:E3; try done.
  apply String.compare_eq_iff in E1, E2, E3. intros. destruct a as [[??]?], b as [[??]?].
  simpl in *. congruence.
Qed.

(** Strictly smaller first components decide. *)
Lemma triple_leb_fst a b : String.leb a.1.1 b.1.1 = true → a.1.1 ≠ b.1.1 → triple_leb a b = true.
Proof.
  unfold triple_leb, triple_compare, String.leb.
  destruct (String.compare a.1.1 b.1.1) eqn:E1; try done.
  by apply String.compare_eq_iff in E1.
Qed.

(** ** Stable sorting: [slice::sort_by] *)

Section sorting.
Context {A : Type} (leb : A → A → bool).

Fixpoint insert_sorted (x : A) (l : list A) : list A :=
  match l with
  | [] => [x]
  | y :: l' => if leb x y then x :: l else y :: insert_sorted x l'
  end.

Fixpoint sort_by (l : list A) : list A :=
  match l with [] => [] | x :: l => insert_sorted x (sort_by l) end.

Lemma insert_sorted_perm x l : insert_sorted x l ≡ₚ x :: l.
Proof.
  induction l as [|y l IH]; simpl; [done|].
  destruct (leb x y); [done|]. rewrite IH. apply Permutation_swap.
Qed.

Lemma sort_by_perm l : sort_by l ≡ₚ l.
Proof.
  induction l as [|x l IH]; simpl; [done|]. by rewrite insert_sorted_perm, IH.
Qed.

Context (leb_total : ∀ x y, leb x y = true ∨ leb y x = true)
        (leb_trans : ∀ x y z, leb x y = true → leb y z = true → leb x z = true).

Lemma insert_sorted_sorted x l :
  StronglySorted (λ x y, leb x y = true) l →
  StronglySorted (λ x y, leb x y = true) (insert_sorted x l).
Proof.
  induction 1 as [|y l Hl IH Hy]; simpl; [by repeat constructor|].
  destruct (leb x y) eqn:E.
  - constructor; [by constructor|]. constructor; [done|].
    eapply Forall_impl; [exact Hy|]. intros z. by apply leb_trans.
  - constructor; [done|]. rewrite Forall_forall. intros z.
    rewrite insert_sorted_perm. intros Hz. apply elem_of_cons in Hz as [->|Hz].
    + destruct (leb_total x y); congruence.
    + by eapply Forall_forall in Hy.
Qed.

Lemma sort_by_sorted l : StronglySorted (λ x y, leb x y = true) (sort_by l).
Proof. induction l; simpl; [constructor | by apply insert_sorted_sorted]. Qed.

(** A sorted list with antisymmetric elements is the only sorted permutation. *)
Lemma strongly_sorted_unique l1 l2 :
  (∀ x y, x ∈ l1 → y ∈ l1 → leb x y = true → leb y x = true → x = y) →
  l1 ≡ₚ l2 →
  StronglySorted (λ x y, leb x y = true) l1 →
  StronglySorted (λ x y, leb x y = true) l2 → l1 = l2.
Proof.
  revert l2. induction l1 as [|x l1 IH]; intros l2 Hanti Hp H1 H2.
  - by apply Permutation_nil_l in Hp as ->.
  - destruct l2 as [|y l2]; [by apply Permutation_nil_r in Hp|].
    inversion_clear H1 as [|?? H1l H1x]. inversion_clear H2 as [|?? H2l H2y].
    assert (x = y) as ->.
    { assert (x ∈ y :: l2) as Hx by (rewrite <- Hp; left).
      assert (y ∈ x :: l1) as Hy by (rewrite Hp; left).
      apply elem_of_cons in Hx as [->|Hx]; [done|].
      apply elem_of_cons in Hy as [->|Hy]; [done|].
      apply Hanti; [left | by right | |].
      - by eapply Forall_forall in H1x.
      - by eapply Forall_forall in H2y. }
    f_equal. apply IH; [| |done|done].
    + intros a b Ha Hb. apply Hanti; by right.
    + by apply Permutation_cons_inv in Hp.
Qed.
End sorting.

(** Iteration order of a [BTreeMap<String, _>]: ascending keys. *)
Definition btree_items {A} (m : gmap string A) : list (string * A) :=
  sort_by (λ x y, String.leb x.1 y.1) (map_to_list m).

Definition btree_keys {A} (m : gmap string A) : list string := (btree_items m).*1.

Lemma btree_items_elem {A} (m : gmap string A) k v :
  (k, v) ∈ btree_items m ↔ m !! k = Some v.
Proof. unfold btree_items. rewrite sort_by_perm. apply elem_of_map_to_list. Qed.

Lemma btree_items_sorted {A} (m : gmap string A) :
  StronglySorted (λ x y, String.leb x.1 y.1 = true) (btree_items m).
Proof.
  apply sort_by_sorted.
  - intros. apply String.leb_total.
  - intros ???. apply str_leb_trans.
Qed.

Lemma btree_items_NoDup {A} (m : gmap string A) : NoDup (btree_items m).*1.
Proof. unfold btree_items. rewrite sort_by_perm. apply NoDup_fst_map_to_list. Qed.

(** ** Boolean reflection and the development's automation *)

Create HintDb glass discriminated.
Create Rewrite HintDb glass_bool.
#[export] Hint Resolve str_eqb_refl str_leb_refl starts_with_app add64_range : glass.
#[export] Hint Rewrite @bool_decide_eq_true @bool_decide_eq_false andb_true_iff
  andb_false_iff orb_true_iff orb_false_iff negb_true_iff negb_false_iff
  str_eqb_eq str_eqb_neq is_empty_true is_empty_false Z.leb_le Z.leb_gt Z.ltb_lt
  Z.ltb_ge Z.eqb_eq Z.eqb_neq Nat.leb_le Nat.leb_gt Nat.ltb_lt Nat.ltb_ge
  Nat.eqb_eq Nat.eqb_neq : glass_bool.

(** Turn boolean tests in the hypotheses into propositions. *)
Ltac bool_hyps :=
  repeat match goal with
  | H : _ = true |- _ => progress (autorewrite with glass_bool in H)
  | H : _ = false |- _ => progress (autorewrite with glass_bool in H)
  end.

(** Step through the [?]s, guards and matches of a computation that returned. *)
Ltac step_result :=
  repeat match goal with
  | H : Err _ = Ok _ |- _ => discriminate H
  | H : Ok _ = Err _ |- _ => discriminate H
  | H : Ok _ = Ok _ |- _ => injection H as H
  | H : (if ?b then _ else _) = Ok _ |- _ => destruct b eqn:?
  | H : (match ?c with Ok _ => _ | Err _ => _ end) = Ok _ |- _ => destruct c eqn:?
  | H : (match ?c with Some _ => _ | None => _ end) = Ok _ |- _ => destruct c eqn:?
  end.

Lemma existsb_elem_of {A} (f : A → bool) (l : list A) :
  existsb f l = true ↔ ∃ x, x ∈ l ∧ f x = true.
Proof.
  rewrite existsb_exists. split; intros (x & H & ?); exists x; split; try done;
    by apply list_elem_of_In.
Qed.

Lemma existsb_not_elem_of {A} (f : A → bool) (l : list A) :
  existsb f l = false ↔ ∀ x, x ∈ l → f x = false.
Proof.
  rewrite <- not_true_iff_false, existsb_elem_of. split.
  - intros H x Hx. apply not_true_iff_false. intros Hf. apply H. eauto.
  - intros H (x & Hx & Hf). rewrite (H x Hx) in Hf. done.
Qed.

Lemma forallb_elem_of {A} (f : A → bool) (l : list A) :
  forallb f l = true ↔ ∀ x, x ∈ l → f x = true.
Proof.
  rewrite forallb_forall. split; intros H x Hx; apply H; by apply list_elem_of_In.
Qed.

(** A stronger filter keeps no more elements. *)
Lemma filter_length_le {A} (f g : A → bool) l :
  (∀ x, x ∈ l → f x = true → g x = true) →
  length (List.filter f l) ≤ length (List.filter g l).
Proof.
  induction l as [|x l IH]; intros Hfg; simpl; [done|].
  assert (length (List.filter f l) ≤ length (List.filter g l)) as Hl.
  { apply IH. intros y Hy. apply Hfg. by right. }
  specialize (Hfg x ltac:(left)). destruct (f x), (g x); simpl; try lia; naive_solver.
Qed.

Lemma find_elem_of {A} (f : A → bool) (l : list A) x :
  List.find f l = Some x → x ∈ l ∧ f x = true.
Proof. intros H. apply find_some in H as [? ?]. split; [by apply list_elem_of_In|done]. Qed.

(** Finite executions of a step function or relation. *)
Inductive steps {S : Type} (step : S → S → Prop) : S → S → Prop :=
| steps_refl s : steps step s s
| steps_cons s1 s2 s3 : step s1 s2 → steps step s2 s3 → steps step s1 s3.

Lemma steps_invariant {S} (step : S → S → Prop) (P : S → Prop) s s' :
  (∀ s1 s2, P s1 → step s1 s2 → P s2) → P s → steps step s s' → P s'.
Proof. intros Hstep Hs Hr. induction Hr; eauto. Qed.

(** ** Byte encodings *)

Definition byte_list (s : string) : list Z :=
  (λ c, Z.of_nat (Ascii.nat_of_ascii c)) <$> bytes s.

(** [x.to_be_bytes()] at a width of [w] bytes. *)
Fixpoint be_bytes (w : nat) (x : Z) : list Z :=
  match w with
  | 0 => []
  | S w => ((x / 256 ^ Z.of_nat w) mod 256)%Z :: be_bytes w x
  end.

(** A length-prefixed string; the source panics above [u32::MAX] bytes. *)
Definition len_prefixed (s : string) : list Z := be_bytes 4 (Z.of_nat (slen s)) ++ byte_list s.

(** [hex::encode] *)
Definition hex_digit (n : Z) : string :=
  match String.get (Z.to_nat n) "0123456789abcdef" with
  | Some c => String c EmptyString
  | None => ""
  end.
Definition hex_encode (s : string) : string :=
  foldr (λ b acc, hex_digit (b / 16) +:+ hex_digit (b mod 16) +:+ acc) "" (byte_list s).

Lemma length_be_bytes w x : length (be_bytes w x) = w.
Proof. induction w as [|w IH]; simpl; [done | by rewrite IH]. Qed.

Lemma be_bytes_mod w x y :
  be_bytes w x = be_bytes w y → (x mod 256 ^ Z.of_nat w = y mod 256 ^ Z.of_nat w)%Z.
Proof.
  induction w as [|w IH]; [by rewrite !Z.mod_1_r|]. simpl be_bytes.
  intros [= Hhd Htl]. specialize (IH Htl).
  rewrite Nat2Z.inj_succ, Z.pow_succ_r, Z.mul_comm by lia.
  rewrite !Z.rem_mul_r by lia. rewrite IH, Hhd. done.
Qed.

Lemma be_bytes_inj w x y :
  (0 ≤ x < 256 ^ Z.of_nat w)%Z → (0 ≤ y < 256 ^ Z.of_nat w)%Z →
  be_bytes w x = be_bytes w y → x = y.
Proof. intros Hx Hy H%be_bytes_mod. by rewrite !Z.mod_small in H. Qed.

Lemma byte_list_inj s t : byte_list s = byte_list t → s = t.
Proof.
  intros H. apply bytes_inj. revert H. unfold byte_list. apply list_fmap_eq_inj.
  intros a b Hab. apply Nat2Z.inj in Hab.
  by rewrite <- (Ascii.ascii_nat_embedding a), <- (Ascii.ascii_nat_embedding b), Hab.
Qed.

Lemma length_byte_list s : length (byte_list s) = slen s.
Proof. unfold byte_list. by rewrite length_fmap, length_bytes. Qed.

(** Strings the source can length-prefix. *)
Definition fits_u32 (s : string) : Prop := (Z.of_nat (slen s) ≤ U32_MAX)%Z.

Lemma len_prefixed_inj s t r r' :
  fits_u32 s → fits_u32 t → len_prefixed s ++ r = len_prefixed t ++ r' → s = t ∧ r = r'.
Proof.
  intros Hs Ht. unfold len_prefixed. rewrite <- !app_assoc. intros H.
  apply app_inj_1 in H as [Hlen H]; [|by rewrite !length_be_bytes].
  apply be_bytes_inj in Hlen; [|unfold fits_u32, U32_MAX in *; lia..].
  apply app_inj_1 in H as [H ?]; [|by rewrite !length_byte_list; lia].
  apply byte_list_inj in H. done.
Qed.
