(* ===== verification/Utf8.v ===== *)
(** UTF-8 in the standard library: what [String::from_utf8] accepts and what
    [String::from_utf8_lossy] makes of any bytes. *)

From S2P Require Import Prelude.

(** [String::from_utf8] accepts exactly the well-formed UTF-8 byte sequences. *)
Definition utf8_cont (b : Z) : bool := (0x80 <=? b)%Z && (b <=? 0xBF)%Z.
Definition between (lo b hi : Z) : bool := (lo <=? b)%Z && (b <=? hi)%Z.

Fixpoint utf8_valid (l : list Z) : bool :=
  match l with
  | [] => true
  | b :: r =>
      if (b <? 0x80)%Z then utf8_valid r
      else if between 0xC2 b 0xDF then
        match r with c1 :: r => utf8_cont c1 && utf8_valid r | _ => false end
      else if between 0xE0 b 0xEF then
        match r with
        | c1 :: c2 :: r =>
            between (if (b =? 0xE0)%Z then 0xA0 else 0x80) c1 (if (b =? 0xED)%Z then 0x9F else 0xBF)
            && utf8_cont c2 && utf8_valid r
        | _ => false
        end
      else if between 0xF0 b 0xF4 then
        match r with
        | c1 :: c2 :: c3 :: r =>
            between (if (b =? 0xF0)%Z then 0x90 else 0x80) c1 (if (b =? 0xF4)%Z then 0x8F else 0xBF)
            && utf8_cont c2 && utf8_cont c3 && utf8_valid r
        | _ => false
        end
      else false
  end.

(** U+FFFD *)
Definition REPLACEMENT : list Z := [0xEF; 0xBF; 0xBD]%Z.

Definition second_of_3 (b c : Z) : bool :=
  between (if (b =? 0xE0)%Z then 0xA0 else 0x80) c (if (b =? 0xED)%Z then 0x9F else 0xBF).
Definition second_of_4 (b c : Z) : bool :=
  between (if (b =? 0xF0)%Z then 0x90 else 0x80) c (if (b =? 0xF4)%Z then 0x8F else 0xBF).

(** Each maximal prefix of an ill-formed sequence becomes one replacement
    character. *)
Fixpoint utf8_lossy (l : list Z) : list Z :=
  match l with
  | [] => []
  | b :: r =>
      if (b <? 0x80)%Z then b :: utf8_lossy r
      else if between 0xC2 b 0xDF then
        match r with
        | c1 :: r1 => if utf8_cont c1 then b :: c1 :: utf8_lossy r1 else REPLACEMENT ++ utf8_lossy r
        | [] => REPLACEMENT
        end
      else if between 0xE0 b 0xEF then
        match r with
        | c1 :: r1 =>
            if second_of_3 b c1 then
              match r1 with
              | c2 :: r2 =>
                  if utf8_cont c2 then b :: c1 :: c2 :: utf8_lossy r2
                  else REPLACEMENT ++ utf8_lossy r1
              | [] => REPLACEMENT
              end
            else REPLACEMENT ++ utf8_lossy r
        | [] => REPLACEMENT
        end
      else if between 0xF0 b 0xF4 then
        match r with
        | c1 :: r1 =>
            if second_of_4 b c1 then
              match r1 with
              | c2 :: r2 =>
                  if utf8_cont c2 then
                    match r2 with
                    | c3 :: r3 =>
                        if utf8_cont c3 then b :: c1 :: c2 :: c3 :: utf8_lossy r3
                        else REPLACEMENT ++ utf8_lossy r2
                    | [] => REPLACEMENT
                    end
                  else REPLACEMENT ++ utf8_lossy r1
              | [] => REPLACEMENT
              end
            else REPLACEMENT ++ utf8_lossy r
        | [] => REPLACEMENT
        end
      else REPLACEMENT ++ utf8_lossy r
  end.

(** A string of bytes. *)
Definition of_byte_list (l : list Z) : string :=
  of_bytes ((λ z, Ascii.ascii_of_nat (Z.to_nat z)) <$> l).

Lemma of_byte_list_len l : slen (of_byte_list l) = length l.
Proof. unfold slen, of_byte_list. induction l as [|z l IH]; [done|]. simpl. by f_equal. Qed.

Lemma of_byte_list_byte_list s : of_byte_list (byte_list s) = s.
Proof.
  unfold of_byte_list, byte_list. rewrite <- list_fmap_compose.
  rewrite <- (of_bytes_bytes s) at 2. f_equal. rewrite <- (list_fmap_id (bytes s)) at 2.
  apply list_fmap_ext. intros i c _. simpl. by rewrite Nat2Z.id, Ascii.ascii_nat_embedding.
Qed.

(** The lossy conversion keeps well-formed text. *)
Lemma utf8_lossy_valid l : utf8_valid l = true → utf8_lossy l = l.
Proof.
  remember (length l) as n eqn:Hn. assert (Hle : length l ≤ n) by lia. clear Hn. revert l Hle.
  induction n as [|n IH]; intros [|b r] Hle H; try done; simpl in Hle; [lia|].
  simpl in H |- *. destruct (b <? 0x80)%Z; [by rewrite IH by (done || lia)|].
  destruct (between 0xC2 b 0xDF).
  { destruct r as [|c1 r]; [done|]. apply andb_true_iff in H as [-> H]. simpl in Hle.
    by rewrite IH by (done || lia). }
  destruct (between 0xE0 b 0xEF).
  { destruct r as [|c1 [|c2 r]]; [done..|]. apply andb_true_iff in H as [H H3].
    apply andb_true_iff in H as [H1 H2]. unfold second_of_3. rewrite H1, H2. simpl in Hle.
    by rewrite IH by (done || lia). }
  destruct (between 0xF0 b 0xF4); [|done].
  destruct r as [|c1 [|c2 [|c3 r]]]; [done..|]. apply andb_true_iff in H as [H H4].
  apply andb_true_iff in H as [H H3]. apply andb_true_iff in H as [H1 H2].
  unfold second_of_4. rewrite H1, H2, H3. simpl in Hle. by rewrite IH by (done || lia).
Qed.
