(* ===== verification/Types.v ===== *)
(** The data model shared by every component: error values, JSON values, the
    transaction payloads, canonical records, endorsement carriers, persistent
    writes, quorum certificates and blocks
    (glasschain-core: error.rs, asset.rs, transaction.rs, canonical.rs,
    endorsement.rs, capability.rs, write_set.rs, consensus.rs, block.rs).

    Rust's [String] and the opaque byte vectors (signatures, keys, values,
    payloads) are Stdlib strings, i.e. byte sequences; a signer bitmap, whose
    bits the code inspects, is a list of [Z] in [0, 256).  u64/u32/i64 fields
    are [Z].  SHA-256 and serde_json are outside the repository: they are the
    parameters of the class [Env]. *)

From S2P Require Import Prelude.

Set Warnings "-register-all".

(** ** Errors (error.rs) *)

Inductive GasMeter := Fuel | Operation.

Inductive CoreError :=
| InvalidBlock (msg : string)
| InvalidTransaction (msg : string)
| EmptyLedger
| Serialization (msg : string)
| GasExhausted (meter : GasMeter) (used limit : Z)
| Execution (msg : string)
| Storage (msg : string).

(** [{e}] of a [CoreError]. *)
Definition display_error (e : CoreError) : string :=
  match e with
  | InvalidBlock m => "invalid block: " +:+ m
  | InvalidTransaction m => "invalid transaction: " +:+ m
  | EmptyLedger => "ledger is empty"
  | Serialization m => "serialization error: " +:+ m
  | GasExhausted m used limit =>
      match m with Fuel => "Fuel" | Operation => "Operation" end +:+ " gas exhausted after "
      +:+ pretty used +:+ " units (limit: " +:+ pretty limit +:+ ")"
  | Execution m => "execution error: " +:+ m
  | Storage m => "storage error: " +:+ m
  end.

(** ** serde_json values *)

(** [serde_json::Number]: a non-negative integer, a negative integer, or a
    double (kept as its bit pattern; no code of the development computes on it). *)
Inductive Number := PosInt (n : Z) | NegInt (n : Z) | Float (bits : Z).

Inductive Value :=
| VNull
| VBool (b : bool)
| VNumber (n : Number)
| VString (s : string)
| VArray (l : list Value)
| VObject (m : gmap string Value).

Definition as_str (v : Value) : option string :=
  match v with VString s => Some s | _ => None end.
Definition as_array (v : Value) : option (list Value) :=
  match v with VArray l => Some l | _ => None end.
Definition as_u64 (v : Value) : option Z :=
  match v with VNumber (PosInt n) => Some n | _ => None end.
Definition as_i64 (v : Value) : option Z :=
  match v with
  | VNumber (PosInt n) => if (n <=? I64_MAX)%Z then Some n else None
  | VNumber (NegInt n) => Some n
  | _ => None
  end.
Definition is_string (v : Value) : bool := is_some (as_str v).

(** ** Signatures (wire.rs) *)

Inductive SignatureAlgorithm := Ed25519 | Bls12381.

#[export] Instance SignatureAlgorithm_eq_dec : EqDecision SignatureAlgorithm.
Proof. solve_decision. Defined.

Definition is_ed25519 (a : SignatureAlgorithm) : bool :=
  match a with Ed25519 => true | Bls12381 => false end.

Record RecordSignature := mkRecordSignature {
  rs_signer : string;
  rs_signature_bytes : string;
  rs_algorithm : SignatureAlgorithm }.

(** ** Traceable assets (asset.rs) *)

Record TraceableAsset := mkTraceableAsset {
  gtin : option string;
  batch_number : option string;
  expiry_date : option string;
  serial_number : option string;
  anvisa_registration : option string;
  manufacturer_id : option string;
  product_name : string;
  custodian_id : string;
  country_of_origin : option string;
  storage_temp_celsius : option string;
  asset_quantity : Z }.

(** ** Canonical records (canonical.rs) *)

Record ExtensionValue := mkExtensionValue {
  ev_schema_version : Z;
  ev_value : gmap string Value }.

Record CanonicalRecord := mkCanonicalRecord {
  record_id : string;
  schema_id : string;
  schema_version : Z;
  commitment : option string;
  occurred_at : Z;
  issuer : string;
  signatures : list RecordSignature;
  pdc_ref : option string;
  extensions : gmap string ExtensionValue;
  payload : gmap string Value }.

(** ** Capability activations (capability.rs) *)

Record CapabilityActivation := mkCapabilityActivation {
  ca_capability_id : string;
  ca_version : Z;
  ca_hash : string;
  ca_activation_height : Z;
  ca_signatures : list RecordSignature }.

(** ** Endorsement policies and carriers (endorsement.rs) *)

(** [Principal(String)] *)
Definition Principal := string.

Inductive PolicyExpression :=
| SignedBy (p : Principal)
| NOutOf (required : nat) (rules : list PolicyExpression).

Record ScopedTarget := mkScopedTarget {
  st_channel : string;
  st_contract : string;
  st_keys : list string;
  st_collection : option string }.

Record ScopedPolicies := mkScopedPolicies {
  channel_default : PolicyExpression;
  contract_default : option PolicyExpression;
  collection_policy : option PolicyExpression;
  key_policies : list (string * PolicyExpression) }.

Record EndorserIdentity := mkEndorserIdentity {
  claimed_principal : Principal;
  ei_public_key : string;
  ei_signature : string;
  ei_algorithm : SignatureAlgorithm }.

Record TransactionEndorsement := mkTransactionEndorsement {
  te_target : ScopedTarget;
  te_signers : list EndorserIdentity }.

Record EndorsementRequest := mkEndorsementRequest {
  er_target : ScopedTarget;
  er_payload : string;
  er_signers : list EndorserIdentity }.

Record EndorsementEvaluation := mkEndorsementEvaluation {
  satisfied : bool;
  distinct_principals : list Principal;
  required : nat }.

Record PolicyUpdate := mkPolicyUpdate {
  pu_channel : string;
  pu_contract : string;
  pu_policies : ScopedPolicies }.

(** ** Transactions (transaction.rs) *)

Record SupplyOffer := mkSupplyOffer {
  so_product_id : string;
  so_product_name : string;
  so_seller_id : string;
  so_quantity_available : Z;
  so_price_per_unit : Z;
  so_lead_time_days : Z;
  so_currency : string }.

Record PurchaseOrder := mkPurchaseOrder {
  po_product_id : string;
  po_buyer_id : string;
  po_seller_id : string;
  po_quantity : Z;
  po_agreed_price_per_unit : Z;
  po_currency : string;
  po_contract_id : option string }.

Record PurchaseConditions := mkPurchaseConditions {
  max_price_per_unit : Z;
  min_quantity : Z;
  max_quantity : Z;
  max_lead_time_days : Z;
  preferred_seller_id : option string;
  pc_currency : string;
  auto_execute : bool }.

Record SmartContractDef := mkSmartContractDef {
  scd_contract_id : string;
  scd_buyer_id : string;
  scd_product_id : string;
  scd_conditions : PurchaseConditions;
  wasm_code_b64 : option string }.

Record TraceableAssetRegistration := mkTraceableAssetRegistration {
  tar_asset : TraceableAsset;
  event_type : string;
  originator_id : string;
  purchase_order_ref : option string }.

Record ContractExecution := mkContractExecution {
  ce_contract_id : string;
  purchase_order_tx_id : string;
  ce_buyer_id : string;
  ce_seller_id : string;
  ce_product_id : string;
  ce_quantity : Z;
  total_price : Z;
  ce_currency : string }.

Record InventoryUpdate := mkInventoryUpdate {
  iu_product_id : string;
  owner_id : string;
  quantity_delta : Z;
  reason : string }.

Inductive TransactionKind :=
| KSupplyOffer (o : SupplyOffer)
| KPurchaseOrder (o : PurchaseOrder)
| KContractCreation (d : SmartContractDef)
| KContractExecution (e : ContractExecution)
| KInventoryUpdate (u : InventoryUpdate)
| KAssetRegistration (r : TraceableAssetRegistration)
| KCanonicalRecord (r : CanonicalRecord)
| KCapabilityActivation (a : CapabilityActivation)
| KPolicyUpdate (u : PolicyUpdate).

Record Transaction := mkTransaction {
  tx_id : string;
  tx_timestamp : Z;
  tx_kind : TransactionKind;
  tx_endorsements : list TransactionEndorsement }.

(** [Transaction::with_id] at wall-clock second [now]; [Transaction::new] is the
    same with a fresh UUID as the id. *)
Definition Transaction_with_id (now : Z) (id : string) (kind : TransactionKind)
  : Transaction := mkTransaction id now kind [].

(** ** Persistent writes (write_set.rs) *)

Inductive WriteVisibility := Public | Pdc (name : string).
Inductive WriteOp := WSet (value : string) | WDelete.

Record PersistentWrite := mkPersistentWrite {
  pw_channel : string;
  pw_contract : string;
  pw_key : string;
  pw_op : WriteOp;
  pw_visibility : WriteVisibility }.

Record ExecutionResult := mkExecutionResult {
  ephemeral : list (string * string);
  writes : list PersistentWrite }.

(** [impl From<Vec<(String, Vec<u8>)>> for ExecutionResult] *)
Definition ExecutionResult_from (e : list (string * string)) : ExecutionResult :=
  mkExecutionResult e [].

#[export] Instance WriteOp_eq_dec : EqDecision WriteOp.
Proof. solve_decision. Defined.
#[export] Instance WriteVisibility_eq_dec : EqDecision WriteVisibility.
Proof. solve_decision. Defined.
#[export] Instance PersistentWrite_eq_dec : EqDecision PersistentWrite.
Proof. solve_decision. Defined.

(** ** Certificates and blocks (consensus.rs, block.rs) *)

Record QuorumCertificate := mkQuorumCertificate {
  qc_block_index : Z;
  qc_block_hash : string;
  signers_bitmap : list Z;
  aggregate_signature : string;
  qc_algorithm : SignatureAlgorithm }.

#[export] Instance QuorumCertificate_eq_dec : EqDecision QuorumCertificate.
Proof. solve_decision. Defined.

Record Block := mkBlock {
  index : Z;
  timestamp : Z;
  transactions : list Transaction;
  write_set : list PersistentWrite;
  previous_hash : string;
  nonce : Z;
  hash : string;
  certificate : option QuorumCertificate }.

Definition set_hash (b : Block) (h : string) : Block :=
  mkBlock (index b) (timestamp b) (transactions b) (write_set b) (previous_hash b)
    (nonce b) h (certificate b).
Definition set_nonce (b : Block) (n : Z) : Block :=
  mkBlock (index b) (timestamp b) (transactions b) (write_set b) (previous_hash b)
    n (hash b) (certificate b).
Definition set_timestamp (b : Block) (t : Z) : Block :=
  mkBlock (index b) t (transactions b) (write_set b) (previous_hash b)
    (nonce b) (hash b) (certificate b).
Definition set_certificate (b : Block) (c : option QuorumCertificate) : Block :=
  mkBlock (index b) (timestamp b) (transactions b) (write_set b) (previous_hash b)
    (nonce b) (hash b) c.

(** ** Code outside the repository

    [sha256] is the hex digest of the sha2 crate; the [json_*] functions are
    serde_json's rendering of a value of the given type (which cannot fail for
    these in-memory types). *)
Class Env := mkEnv {
  sha256 : string → string;
  (** [serde_json::to_string] of the tuple (index, timestamp, transactions,
      write_set, previous_hash, nonce) *)
  json_header : Z * Z * list Transaction * list PersistentWrite * string * Z → string;
  (** [serde_json::to_vec] of a transaction *)
  json_tx : Transaction → string;
  (** [serde_json::to_string] of the tuple (record_id, schema_id, schema_version,
      occurred_at, issuer, pdc_ref, payload, extensions) *)
  json_canonical : string * string * Z * Z * string * option string *
                   gmap string Value * gmap string ExtensionValue → string }.
