(* ===== verification/Asset.v ===== *)
(** Trust scoring of traceable assets and the SNCM compliance schema
    (glasschain-core: asset.rs, schema.rs).

    [TrustScore] models the scoring kernel and [MetadataTrustScore::compute];
    [Schema] models [validate_asset].  The theorems tie the two: they agree on
    what makes an asset compliant, the score is the exact weighted count and
    stays in a [u8], and the lists reported to the user are exactly the flags
    the score was computed from. *)

From S2P Require Import Prelude Types.

Module TrustScore.

Definition plus : Ascii.ascii := Ascii.ascii_of_nat 43.
Definition dash : Ascii.ascii := Ascii.ascii_of_nat 45.

(** [c.is_ascii_digit()] with its value. *)
Definition digit (c : Ascii.ascii) : option Z :=
  let n := Z.of_nat (Ascii.nat_of_ascii c) in
  if ((48 <=? n) && (n <=? 57))%Z then Some (n - 48)%Z else None.

Fixpoint digits_value (max acc : Z) (l : list Ascii.ascii) : option Z :=
  match l with
  | [] => Some acc
  | c :: l =>
      match digit c with
      | Some d => if (acc * 10 + d <=? max)%Z then digits_value max (acc * 10 + d) l else None
      | None => None
      end
  end.

(** [str::parse] at an unsigned type: one optional leading plus sign, then at
    least one decimal digit, every digit in range. *)
Definition parse_unsigned (max : Z) (l : list Ascii.ascii) : option Z :=
  match l with
  | [] => None
  | c :: l' =>
      if Ascii.eqb c plus then
        match l' with [] => None | _ => digits_value max 0 l' end
      else digits_value max 0 l
  end.

(** Parsing reads back what formatting printed. *)
Lemma digit_pretty d : (0 <= d < 10)%N → digit (pretty_N_char d) = Some (Z.of_N d).
Proof.
  intros H. assert (d = 0 ∨ d = 1 ∨ d = 2 ∨ d = 3 ∨ d = 4 ∨ d = 5 ∨ d = 6 ∨ d = 7 ∨ d = 8 ∨ d = 9)%N as Hd by lia.
  by repeat destruct Hd as [->|Hd]; try (rewrite Hd).
Qed.

Lemma digits_value_go max x : ∀ s,
  (Z.of_N x <= max)%Z →
  digits_value max 0 (bytes (pretty_N_go x s)) = digits_value max (Z.of_N x) (bytes s).
Proof.
  induction (N.lt_wf_0 x) as [x _ IH]. intros s Hx.
  destruct (decide (x = 0)%N) as [->|Hne]; [by rewrite pretty_N_go_0|].
  rewrite pretty_N_go_step by lia.
  pose proof (N.div_mod x 10 ltac:(lia)) as Hdm. pose proof (N.mod_lt x 10 ltac:(lia)) as Hlt.
  pose proof (N.div_lt x 10 ltac:(lia) ltac:(lia)) as Hdl.
  rewrite IH; [|done|lia]. simpl. rewrite digit_pretty by (split; [apply N.le_0_l|done]).
  assert (Hv : (Z.of_N (x / 10) * 10 + Z.of_N (x mod 10) = Z.of_N x)%Z).
  { generalize dependent (x / 10)%N. generalize dependent (x mod 10)%N. lia. }
  rewrite Hv. by destruct (Z.leb_spec (Z.of_N x) max); [|lia].
Qed.

Lemma parse_unsigned_pretty max z :
  (0 <= z <= max)%Z → parse_unsigned max (bytes (pretty z)) = Some z.
Proof.
  intros Hz.
  assert (H : digits_value max 0 (bytes (pretty z)) = Some z ∧ bytes (pretty z) ≠ []).
  { destruct z as [|z|z]; [| |lia].
    - split; [|done]. change ((if (0 <=? max)%Z then Some 0%Z else None) = Some 0%Z). by destruct (Z.leb_spec 0 max); [|lia].
    - change (pretty (Z.pos z)) with (pretty (N.pos z)). unfold pretty, pretty_N.
      case_decide; [done|]. rewrite digits_value_go by lia. split; [done|].
      rewrite pretty_N_go_step by lia. intros Hnil.
      assert (Hd : ∀ x s, bytes (pretty_N_go x s) = [] → s = ""%string).
      { clear. intros x. induction (N.lt_wf_0 x) as [x _ IH]. intros s.
        destruct (decide (x = 0)%N) as [->|Hne]; [rewrite pretty_N_go_0; by destruct s|].
        rewrite pretty_N_go_step by lia. intros H. apply IH in H; [done|]. apply N.div_lt; lia. }
      by apply Hd in Hnil. }
  destruct H as [H Hne]. unfold parse_unsigned. destruct (bytes (pretty z)) as [|c l]; [done|].
  destruct (Ascii.eqb c plus) eqn:Hc; [|done].
  apply Ascii.eqb_eq in Hc as ->. by vm_compute in H.
Qed.

(** [&s[i..j]]; in [is_valid_iso8601_date] every boundary is next to an ASCII
    dash or an end of the string, so the slices never split a character. *)
Definition slice (i j : nat) (l : list Ascii.ascii) : list Ascii.ascii :=
  take (j - i) (drop i l).

(** The (year, month, day) the date check parses, once the shape is right. *)
Definition date_parts (s : string) : option (Z * Z * Z) :=
  let b := bytes s in
  if negb (slen s =? 10)%nat then None else
  if negb (bool_decide (b !! 4 = Some dash)) || negb (bool_decide (b !! 7 = Some dash))
  then None else
  year ← parse_unsigned U16_MAX (slice 0 4 b);
  month ← parse_unsigned U8_MAX (slice 5 7 b);
  day ← parse_unsigned U8_MAX (slice 8 10 b);
  Some (year, month, day).

Definition is_valid_iso8601_date (s : string) : bool :=
  match date_parts s with
  | None => false
  | Some (year, month, day) =>
      (1900 <=? year)%Z && ((1 <=? month) && (month <=? 12))%Z
      && ((1 <=? day) && (day <=? 31))%Z
  end.

Definition TRUST_SCORE_STANDARD_THRESHOLD : Z := 80.

Definition points (flag : bool) (weight : Z) : Z := if flag then weight else 0%Z.

(** u8 addition: the sum is taken modulo 256. *)
Definition add8 (a b : Z) : Z := wrapping_add 8 a b.

(** [core : [bool; 4]], [bonus : [bool; 2]] *)
Definition trust_score_value (core : bool * bool * bool * bool) (bonus : bool * bool) : Z :=
  let '(c0, c1, c2, c3) := core in
  let '(b0, b1) := bonus in
  add8 (add8 (add8 (add8 (add8 (points c0 20) (points c1 20)) (points c2 20))
    (points c3 20)) (points b0 10)) (points b1 10).

Definition is_standard_score (score : Z) : bool :=
  (TRUST_SCORE_STANDARD_THRESHOLD <=? score)%Z.

Record MetadataTrustScore := mkScore {
  score : Z;
  is_standard : bool;
  missing_core_fields : list string;
  bonus_fields_present : list string }.

(** [o.as_deref().is_some_and(|s| !s.is_empty())] *)
Definition nonempty (o : option string) : bool :=
  match o with Some s => negb (is_empty s) | None => false end.

Definition some_and (p : string → bool) (o : option string) : bool :=
  match o with Some s => p s | None => false end.

Definition push_if (b : bool) (name : string) (l : list string) : list string :=
  if b then l ++ [name] else l.

Definition compute (asset : TraceableAsset) : MetadataTrustScore :=
  let c0 := nonempty (gtin asset) in
  let c1 := nonempty (batch_number asset) in
  let c2 := some_and is_valid_iso8601_date (expiry_date asset) in
  let c3 := nonempty (serial_number asset) in
  let b0 := nonempty (anvisa_registration asset) in
  let b1 := nonempty (manufacturer_id asset) in
  let score := trust_score_value (c0, c1, c2, c3) (b0, b1) in
  let missing :=
    push_if (negb c3) "serial_number"
      (push_if (negb c2) "expiry_date"
        (push_if (negb c1) "batch_number"
          (push_if (negb c0) "gtin" []))) in
  let bonus_fields :=
    push_if b1 "manufacturer_id" (push_if b0 "anvisa_registration" []) in
  mkScore score (is_standard_score score) missing bonus_fields.

(** [fee_multiplier], in hundredths: 0.5 or 1.0. *)
Definition fee_multiplier (s : MetadataTrustScore) : Z :=
  if is_standard s then 50%Z else 100%Z.

Definition display (s : MetadataTrustScore) : string :=
  "TrustScore(" +:+ pretty (score s) +:+ "/100, standard="
  +:+ (if is_standard s then "true" else "false") +:+ ", missing="
  +:+ debug_strs (missing_core_fields s) +:+ ")".

End TrustScore.

Module Schema.
Import TrustScore.

Record SncmField := mkField {
  name : string; description : string; is_mandatory : bool; regex_hint : option string }.

Definition SNCM_SCHEMA : list SncmField :=
  [ mkField "gtin" "Global Trade Item Number (GTIN-14 or EAN-13), 13-14 numeric digits"
      true (Some "^\d{13,14}$");
    mkField "batch_number" "Production batch/lot number (alfanumérico)" true None;
    mkField "expiry_date" "Expiry date in ISO-8601 format YYYY-MM-DD"
      true (Some "^\d{4}-\d{2}-\d{2}$");
    mkField "serial_number" "Unique serialization number per unit" true None;
    mkField "anvisa_registration" "Anvisa MS registration code (e.g., MS 1.0000.0001.001-1)"
      false None;
    mkField "manufacturer_id" "CNPJ or legal entity ID of the manufacturer" false None ].

Inductive ViolationSeverity := Critical | Warning.

#[export] Instance ViolationSeverity_eq_dec : EqDecision ViolationSeverity.
Proof. solve_decision. Defined.

Record SchemaViolation := mkViolation {
  field : string; message : string; severity : ViolationSeverity }.

(** [gas_fee_multiplier] is in hundredths: 0.7 or 1.0. *)
Record SchemaValidationReport := mkReport {
  is_compliant : bool;
  violations : list SchemaViolation;
  field_count_present : nat;
  field_count_total : nat;
  gas_fee_multiplier : Z }.

Definition is_critical (v : SchemaViolation) : bool :=
  bool_decide (severity v = Critical).

Definition critical_count (r : SchemaValidationReport) : nat :=
  length (List.filter is_critical (violations r)).
Definition warning_count (r : SchemaValidationReport) : nat :=
  length (List.filter (λ v, bool_decide (severity v = Warning)) (violations r)).

(** One call of the closure [check]. *)
Definition check (expiry_bad : bool) (st : list SchemaViolation * nat)
    (fp : SncmField * bool) : list SchemaViolation * nat :=
  let '(vs, n) := st in
  let '(f, present) := fp in
  if present then (vs, S n) else
  let '(sev, pre) :=
    if is_mandatory f then (Critical, "Mandatory") else (Warning, "Recommended") in
  let problem :=
    if (name f ==? "expiry_date") && expiry_bad
    then "invalid format (expected YYYY-MM-DD)" else "missing or empty" in
  (vs ++ [mkViolation (name f)
     (pre +:+ " field '" +:+ name f +:+ "' is " +:+ problem +:+ ". " +:+ description f) sev], n).

Definition presences (asset : TraceableAsset) : list bool :=
  [ nonempty (gtin asset); nonempty (batch_number asset);
    some_and is_valid_iso8601_date (expiry_date asset);
    nonempty (serial_number asset); nonempty (anvisa_registration asset);
    nonempty (manufacturer_id asset) ].

Definition validate_asset (asset : TraceableAsset) : SchemaValidationReport :=
  let expiry_bad :=
    some_and (λ s, negb (is_empty s) && negb (is_valid_iso8601_date s)) (expiry_date asset) in
  let '(vs, n) :=
    foldl (check expiry_bad) ([], 0) (zip SNCM_SCHEMA (presences asset)) in
  let ok := forallb (λ v, negb (is_critical v)) vs in
  mkReport ok vs n (length SNCM_SCHEMA) (if ok then 70%Z else 100%Z).

End Schema.

Import TrustScore Schema.

Lemma trust_score_exact c0 c1 c2 c3 b0 b1 :
  trust_score_value (c0, c1, c2, c3) (b0, b1) =
  (20 * (Z.b2z c0 + Z.b2z c1 + Z.b2z c2 + Z.b2z c3) + 10 * (Z.b2z b0 + Z.b2z b1))%Z.
Proof. by destruct c0, c1, c2, c3, b0, b1. Qed.

(** The trust score of every asset is exactly 20 points per core field
    present plus 10 per bonus field, where the counts are those of the reported
    lists (so the [u8] sum never wraps and stays at most 100); the asset is
    standard exactly when no core field is missing, or one is and both bonus
    fields make up for it. *)
Theorem compute_exact a :
  score (compute a) =
    (80 - 20 * Z.of_nat (length (missing_core_fields (compute a)))
     + 10 * Z.of_nat (length (bonus_fields_present (compute a))))%Z
  ∧ (0 ≤ score (compute a) ≤ 100)%Z
  ∧ (is_standard (compute a) = true ↔
     missing_core_fields (compute a) = [] ∨
     (length (missing_core_fields (compute a)) = 1 ∧
      length (bonus_fields_present (compute a)) = 2)).
Proof.
  unfold compute.
  destruct (nonempty (gtin a)), (nonempty (batch_number a)),
    (some_and _ (expiry_date a)), (nonempty (serial_number a)),
    (nonempty (anvisa_registration a)), (nonempty (manufacturer_id a));
    cbn; (split; [done|]); (split; [done|]); naive_solver.
Qed.

(** The two mechanisms agree: an asset passes the SNCM compliance gate
    exactly when the trust score reports no missing core field; the report
    counts every field once (present or violated), criticals are the missing
    core fields, and a compliant asset is always a standard one. *)
Theorem schema_agrees_with_score a :
  let r := validate_asset a in
  let s := compute a in
  (is_compliant r = true ↔ missing_core_fields s = [])
  ∧ field <$> List.filter is_critical (violations r) = missing_core_fields s
  ∧ field_count_present r + length (violations r) = field_count_total r
  ∧ critical_count r = length (missing_core_fields s)
  ∧ warning_count r + length (bonus_fields_present s) = 2
  ∧ (is_compliant r = true → is_standard s = true).
Proof.
  unfold validate_asset, compute, presences.
  generalize (some_and (λ s, negb (is_empty s) && negb (is_valid_iso8601_date s))
    (expiry_date a)) as e; intros e.
  destruct (nonempty (gtin a)), (nonempty (batch_number a)),
    (some_and _ (expiry_date a)), (nonempty (serial_number a)),
    (nonempty (anvisa_registration a)), (nonempty (manufacturer_id a));
    vm_compute; naive_solver.
Qed.
