(* ===== verification/Text.v ===== *)
(** Text functions of the standard library that the command parsers use: white space,
    [trim], [split_whitespace], [split_once] and the integer parsers, on UTF-8 bytes. *)

From S2P Require Import Prelude Types Asset.
Import TrustScore.

Definition code (a : Ascii.ascii) : Z := Z.of_nat (Ascii.nat_of_ascii a).

(** The byte length of the White_Space character at the head, zero if there is none. *)
Definition white_len (l : list Ascii.ascii) : nat :=
  match code <$> l with
  | a :: rest =>
      if ((9 <=? a) && (a <=? 13) || (a =? 32))%Z then 1 else
      match rest with
      | b :: rest =>
          if ((a =? 194) && ((b =? 133) || (b =? 160)))%Z then 2 else
          match rest with
          | c :: _ =>
              if (((a =? 225) && (b =? 154) && (c =? 128))
                 || ((a =? 226) && (b =? 128)
                     && (((128 <=? c) && (c <=? 138)) || (c =? 168) || (c =? 169) || (c =? 175)))
                 || ((a =? 226) && (b =? 129) && (c =? 159))
                 || ((a =? 227) && (b =? 128) && (c =? 128)))%Z
              then 3 else 0
          | [] => 0
          end
      | [] => 0
      end
  | [] => 0
  end.

(** The words between white space; [skip] bytes of the current separator remain. *)
Fixpoint split_go (skip : nat) (word : list Ascii.ascii) (l : list Ascii.ascii)
  : list (list Ascii.ascii) :=
  match l with
  | [] => match word with [] => [] | _ => [word] end
  | a :: l' =>
      match skip with
      | S skip => split_go skip word l'
      | 0 =>
          match white_len l with
          | 0 => split_go 0 (word ++ [a]) l'
          | S more => match word with [] => [] | _ => [word] end ++ split_go more [] l'
          end
      end
  end.

Definition split_whitespace (s : string) : list string := of_bytes <$> split_go 0 [] (bytes s).

Fixpoint trim_start_go (skip : nat) (l : list Ascii.ascii) : list Ascii.ascii :=
  match l with
  | [] => []
  | _ :: l' =>
      match skip with
      | S skip => trim_start_go skip l'
      | 0 => match white_len l with 0 => l | S more => trim_start_go more l' end
      end
  end.

(** [kept] holds white space that is dropped unless something follows it. *)
Fixpoint trim_end_go (skip : nat) (kept : list Ascii.ascii) (l : list Ascii.ascii) : list Ascii.ascii :=
  match l with
  | [] => []
  | a :: l' =>
      match skip with
      | S skip => trim_end_go skip (kept ++ [a]) l'
      | 0 =>
          match white_len l with
          | 0 => kept ++ a :: trim_end_go 0 [] l'
          | S more => trim_end_go more (kept ++ [a]) l'
          end
      end
  end.

Definition trim (s : string) : string :=
  of_bytes (trim_end_go 0 [] (trim_start_go 0 (bytes s))).

(** [s.split_once(c)] *)
Fixpoint split_once (c : Ascii.ascii) (s : string) : option (string * string) :=
  match s with
  | EmptyString => None
  | String a s' =>
      if Ascii.eqb a c then Some (EmptyString, s')
      else match split_once c s' with Some (w, f) => Some (String a w, f) | None => None end
  end.

Definition all_digits (s : string) : bool := forallb (λ a, is_some (digit a)) (bytes s).

(** [parse::<u64>], [parse::<u32>] and [parse::<usize>] on a 64-bit target. *)
Definition parse_u64 (s : string) : option Z := parse_unsigned U64_MAX (bytes s).
Definition parse_u32 (s : string) : option Z := parse_unsigned U32_MAX (bytes s).

(** [parse::<i64>]: one optional sign. *)
Definition parse_i64 (s : string) : option Z :=
  match bytes s with
  | [] => None
  | c :: l =>
      if Ascii.eqb c dash then
        match l with
        | [] => None
        | _ => (λ z, (- z)%Z) <$> digits_value (I64_MAX + 1) 0 l
        end
      else parse_unsigned I64_MAX (bytes s)
  end.

(** ** Words without white space *)

(** Printable ASCII: what a command line is normally made of. *)
Definition printable (a : Ascii.ascii) : bool := ((33 <=? code a) && (code a <=? 126))%Z.
Definition word (s : string) : Prop := s ≠ "" ∧ forallb printable (bytes s) = true.

Definition space : Ascii.ascii := Ascii.ascii_of_nat 32.

Lemma printable_white a l : printable a = true → white_len (a :: l) = 0.
Proof.
  unfold printable, white_len. csimpl. intros H. apply andb_prop in H as [H1 H2].
  apply Z.leb_le in H1, H2.
  assert (∀ n, (n < 33 ∨ 126 < n)%Z → (code a =? n)%Z = false) as Hn by (intros; lia).
  assert ((code a <=? 13)%Z = false) as -> by lia. rewrite !Hn, andb_false_r by lia. cbn [andb orb].
  by destruct (code <$> l) as [|b [|c r]].
Qed.

Lemma split_go_word w acc l :
  forallb printable w = true → split_go 0 acc (w ++ l) = split_go 0 (acc ++ w) l.
Proof.
  revert acc. induction w as [|a w IH]; intros acc H; [by rewrite app_nil_r|].
  cbn in H. apply andb_prop in H as [Ha Hw]. cbn [app split_go].
  rewrite printable_white by done. rewrite IH by done. by rewrite <- app_assoc.
Qed.

Lemma split_go_space acc l :
  split_go 0 acc (space :: l) = match acc with [] => [] | _ => [acc] end ++ split_go 0 [] l.
Proof. done. Qed.

(** A line of words separated by single spaces. *)
Definition line (ws : list string) : string := join " " ws.

Lemma join_bytes_cons w ws :
  ws ≠ [] → bytes (join " " (w :: ws)) = bytes w ++ space :: bytes (join " " ws).
Proof. destruct ws; [done|]. intros _. cbn [join]. by rewrite bytes_app. Qed.

Lemma split_line ws : Forall word ws → split_whitespace (line ws) = ws.
Proof.
  unfold split_whitespace, line. induction ws as [|w ws IH]; intros H; [done|].
  apply Forall_cons in H as [[Hne Hw] H]. specialize (IH H).
  assert (bytes w ≠ []) as Hb by (by destruct w).
  destruct ws as [|w' ws].
  - cbn [join]. rewrite <- (app_nil_r (bytes w)), split_go_word by done. cbn.
    destruct (bytes w) eqn:He; [done|]. rewrite <- He. cbn. by rewrite of_bytes_bytes.
  - rewrite join_bytes_cons by done. rewrite split_go_word by done. cbn [app].
    rewrite split_go_space. rewrite fmap_app, IH.
    destruct (bytes w) eqn:He; [done|]. rewrite <- He. cbn. by rewrite of_bytes_bytes.
Qed.

(** ** Numbers *)

Lemma digit_printable a : is_some (digit a) = true → printable a = true.
Proof.
  unfold digit, printable, code. destruct ((48 <=? _) && _)%Z eqn:H; [|done]. intros _.
  apply andb_prop in H as [H1 H2]. apply Z.leb_le in H1, H2.
  apply andb_true_intro. split; apply Z.leb_le; lia.
Qed.

Lemma digits_value_all max acc l v : digits_value max acc l = Some v → forallb (λ a, is_some (digit a)) l = true.
Proof.
  revert acc. induction l as [|a l IH]; intros acc; cbn; [done|].
  destruct (digit a); [|done]. destruct (_ <=? max)%Z; [|done]. cbn. apply IH.
Qed.

Lemma all_digits_printable s : all_digits s = true → forallb printable (bytes s) = true.
Proof.
  unfold all_digits. rewrite !forallb_forall. intros H a Ha. by apply digit_printable, H.
Qed.

(** The decimal digits of a natural number. *)
Lemma pretty_digits z : (0 ≤ z)%Z → all_digits (pretty z) = true ∧ pretty z ≠ "".
Proof.
  intros Hz. pose proof (parse_unsigned_pretty z z ltac:(lia)) as H.
  unfold all_digits. unfold parse_unsigned in H. destruct (pretty z) as [|a s] eqn:Hp; [done|]. split; [|done].
  cbn [bytes] in H. destruct (Ascii.eqb a plus) eqn:Ha; [|by apply digits_value_all in H].
  exfalso. apply Ascii.eqb_eq in Ha as ->. destruct z as [|z|z]; [done| |lia].
  change (pretty (Z.pos z)) with (pretty (N.pos z)) in Hp. unfold pretty, pretty_N in Hp.
  case_decide; [done|].
  pose proof (digits_value_go (Z.pos z) (N.pos z) "" ltac:(lia)) as Hg. rewrite Hp in Hg. by cbn in Hg.
Qed.

Lemma pretty_word z : (0 ≤ z)%Z → word (pretty z).
Proof. intros [H1 H2]%pretty_digits. split; [done|]. by apply all_digits_printable. Qed.

Lemma parse_u64_pretty z : in_u64 z → parse_u64 (pretty z) = Some z.
Proof. intros H. apply parse_unsigned_pretty. unfold in_u64 in H. lia. Qed.

Lemma parse_u32_pretty z : (0 ≤ z ≤ U32_MAX)%Z → parse_u32 (pretty z) = Some z.
Proof. apply parse_unsigned_pretty. Qed.
