(* ===== verification/WriteSet.v ===== *)
(** Execution results and scoped persistent writes (glasschain-core:
    write_set.rs).

    [canonicalize] is the single validation point of a write set.  The theorems
    say what it accepts (every scope component present, each scope written at
    most once), that the result is the scope-sorted permutation and hence does
    not depend on the order in which a guest produced the writes, and that the
    replay of such a set into the world-state cache is order-independent when
    scopes carry no colon. *)

From S2P Require Import Prelude Types.

Section write_set.
Context `{E : Env}.

Definition block_form (w : PersistentWrite) : PersistentWrite :=
  let op :=
    match pw_op w, pw_visibility w with
    | WSet value, Pdc _ => WSet (sha256 value)
    | op, _ => op
    end in
  mkPersistentWrite (pw_channel w) (pw_contract w) (pw_key w) op (pw_visibility w).

Definition state_key (w : PersistentWrite) : string :=
  "ws:" +:+ pw_channel w +:+ ":" +:+ pw_contract w +:+ ":" +:+ pw_key w.

Definition apply_to_cache (w : PersistentWrite) (cache : gmap string string)
  : gmap string string :=
  match pw_op w with
  | WSet value => <[state_key w := value]> cache
  | WDelete => delete (state_key w) cache
  end.

(** The scope of a write: [(channel, contract, key)]. *)
Definition scope (w : PersistentWrite) : string * string * string :=
  (pw_channel w, pw_contract w, pw_key w).

(** The checks [canonicalize] makes on one write, before the duplicate check. *)
Definition check_write (w : PersistentWrite) : result CoreError unit :=
  guard? negb (is_empty (pw_channel w)) else
    InvalidTransaction "persistent write: channel scope must not be empty" in
  guard? negb (is_empty (pw_contract w)) else
    InvalidTransaction "persistent write: contract scope must not be empty" in
  guard? negb (is_empty (pw_key w)) else
    InvalidTransaction "persistent write: key must not be empty" in
  match pw_visibility w with
  | Pdc name =>
      guard? negb (is_empty name) else
        InvalidTransaction "persistent write: PDC visibility must name a collection" in
      Ok tt
  | Public => Ok tt
  end.

(** One iteration of the loop of [canonicalize]; [seen] is the scopes so far. *)
Definition scan_write (seen : gset (string * string * string)) (w : PersistentWrite)
  : result CoreError (gset (string * string * string)) :=
  let? _ := check_write w in
  guard? negb (bool_decide (scope w ∈ seen)) else
    InvalidTransaction ("persistent write: scoped key (" +:+ pw_channel w +:+ ", "
      +:+ pw_contract w +:+ ", " +:+ pw_key w +:+ ") has more than one operation") in
  Ok ({[scope w]} ∪ seen).

(** [cmp] on [(&channel, &contract, &key)]: lexicographic. *)
Definition scope_leb (a b : PersistentWrite) : bool := triple_leb (scope a) (scope b).

Definition canonicalize (r : ExecutionResult) : result CoreError ExecutionResult :=
  let? _ := fold_result scan_write (writes r) ∅ in
  Ok (mkExecutionResult (ephemeral r) (sort_by scope_leb (writes r))).

(** ** The order on scopes *)

Lemma scope_leb_total a b : scope_leb a b = true ∨ scope_leb b a = true.
Proof. apply triple_leb_total. Qed.

Lemma scope_leb_trans a b c :
  scope_leb a b = true → scope_leb b c = true → scope_leb a c = true.
Proof. apply triple_leb_trans. Qed.

Lemma scope_leb_antisym a b :
  scope_leb a b = true → scope_leb b a = true → scope a = scope b.
Proof. apply triple_leb_antisym. Qed.

(** ** Specification of the validation *)

(** A write whose scope components and collection are all named. *)
Definition well_scoped (w : PersistentWrite) : Prop :=
  pw_channel w ≠ "" ∧ pw_contract w ≠ "" ∧ pw_key w ≠ ""
  ∧ match pw_visibility w with Pdc name => name ≠ "" | Public => True end.

Lemma check_write_spec w : check_write w = Ok tt ↔ well_scoped w.
Proof.
  unfold check_write, well_scoped.
  destruct (pw_channel w), (pw_contract w), (pw_key w), (pw_visibility w) as [|[|]]; simpl;
    naive_solver.
Qed.

Lemma scan_writes_spec ws seen :
  (∃ s, fold_result scan_write ws seen = Ok s) ↔
  Forall well_scoped ws ∧ NoDup (scope <$> ws) ∧ (∀ w, w ∈ ws → scope w ∉ seen).
Proof.
  revert seen. induction ws as [|w ws IH]; intros seen; simpl.
  - split; [|eauto]. intros _. split; [constructor|]. split; [constructor|].
    by intros w Hw%elem_of_nil.
  - unfold scan_write at 1. rewrite Forall_cons, NoDup_cons.
    destruct (check_write w) as [[]|e] eqn:Hc.
    2:{ split; [by intros [? ?]|]. intros ([Hw _] & _).
        apply check_write_spec in Hw. congruence. }
    apply check_write_spec in Hc.
    destruct (bool_decide (scope w ∈ seen)) eqn:Hs; simpl; bool_hyps.
    + split; [by intros [? ?]|]. intros (_ & _ & H). exfalso.
      apply (H w); [left | done].
    + rewrite IH. split.
      * intros (H1 & H2 & H3). split; [done|]. split; [split; [|done]|].
        -- intros (w' & Heq & Hw')%list_elem_of_fmap. specialize (H3 w' Hw').
           apply H3, elem_of_union_l, elem_of_singleton. done.
        -- intros w' Hw'. apply elem_of_cons in Hw' as [->|Hw']; [done|].
           specialize (H3 w' Hw'). intros ?. by apply H3, elem_of_union_r.
      * intros ([_ H1] & [Hn H2] & H3). split; [done|]. split; [done|].
        intros w' Hw'. apply not_elem_of_union. split.
        -- intros Heq%elem_of_singleton. apply Hn. rewrite <- Heq.
           by apply list_elem_of_fmap_2.
        -- apply H3. by right.
Qed.

Lemma canonicalize_Ok r r' :
  canonicalize r = Ok r' ↔
  Forall well_scoped (writes r) ∧ NoDup (scope <$> writes r) ∧
  r' = mkExecutionResult (ephemeral r) (sort_by scope_leb (writes r)).
Proof.
  unfold canonicalize. pose proof (scan_writes_spec (writes r) ∅) as H.
  destruct (fold_result _ _ _) as [s|e].
  - destruct H as [H _]. destruct H as (H1 & H2 & _); [eauto|]. naive_solver.
  - split; [done|]. intros (H1 & H2 & _). destruct H as [_ H].
    destruct H as [? ?]; [|done]. split; [done|]. split; [done|]. intros ? _. apply not_elem_of_empty.
Qed.

Lemma sort_scopes_unique ws ws' :
  NoDup (scope <$> ws) → ws ≡ₚ ws' →
  sort_by scope_leb ws = sort_by scope_leb ws'.
Proof.
  intros Hnd Hp. eapply (strongly_sorted_unique scope_leb).
  - intros x y Hx Hy Hxy Hyx. pose proof (scope_leb_antisym _ _ Hxy Hyx) as Hs.
    rewrite sort_by_perm in Hx, Hy.
    apply list_elem_of_lookup in Hx as [i Hi]. apply list_elem_of_lookup in Hy as [j Hj].
    assert (i = j) as <-; [|congruence].
    eapply NoDup_lookup; [exact Hnd| |]; rewrite list_lookup_fmap; [by rewrite Hi|].
    rewrite Hj. simpl. by rewrite Hs.
  - by rewrite !sort_by_perm.
  - apply sort_by_sorted; [apply scope_leb_total | apply scope_leb_trans].
  - apply sort_by_sorted; [apply scope_leb_total | apply scope_leb_trans].
Qed.

(** C28: [canonicalize] accepts exactly the results whose writes are all fully
    scoped and name each (channel, contract, key) at most once; the output is
    sorted by scope, is a permutation of the input writes, keeps the ephemeral
    output and is itself canonical (a second pass changes nothing). *)
Theorem canonicalize_spec r :
  (is_ok (canonicalize r) = true ↔
     Forall well_scoped (writes r) ∧ NoDup (scope <$> writes r))
  ∧ ∀ r', canonicalize r = Ok r' →
      writes r' ≡ₚ writes r
      ∧ StronglySorted (λ a b, scope_leb a b = true) (writes r')
      ∧ ephemeral r' = ephemeral r
      ∧ canonicalize r' = Ok r'.
Proof.
  split.
  - rewrite is_ok_true. setoid_rewrite canonicalize_Ok. naive_solver.
  - intros r' (H1 & H2 & ->)%canonicalize_Ok. simpl.
    split; [apply sort_by_perm|].
    split; [apply sort_by_sorted; [apply scope_leb_total | apply scope_leb_trans]|].
    split; [done|]. apply canonicalize_Ok. simpl.
    split; [by rewrite sort_by_perm|]. split; [by rewrite sort_by_perm|]. f_equal.
    apply sort_scopes_unique; [done | by rewrite sort_by_perm].
Qed.

(** The committed write set has one canonical form whatever the order in
    which the guest produced its writes: permuting an accepted result's writes
    gives an accepted result with the same canonical writes. *)
Theorem canonicalize_order_independent r1 r2 c1 :
  writes r1 ≡ₚ writes r2 → canonicalize r1 = Ok c1 →
  ∃ c2, canonicalize r2 = Ok c2 ∧ writes c2 = writes c1.
Proof.
  intros Hp (H1 & H2 & ->)%canonicalize_Ok. eexists. split.
  - apply canonicalize_Ok. split; [by rewrite <- Hp|]. split; [by rewrite <- Hp | done].
  - simpl. symmetry. by apply sort_scopes_unique.
Qed.

(** ** Keys of the world state *)

Definition colon : Ascii.ascii := Ascii.ascii_of_nat 58.

Definition colon_free (w : PersistentWrite) : Prop :=
  no_char colon (pw_channel w) = true ∧ no_char colon (pw_contract w) = true.

(** A write's key in the cache determines its scope when neither the channel
    nor the contract contains the separator. *)
Lemma state_key_inj w1 w2 :
  colon_free w1 → colon_free w2 → state_key w1 = state_key w2 → scope w1 = scope w2.
Proof.
  intros [H1 H1'] [H2 H2']. unfold state_key, scope. intros H%app_str_inj_l.
  apply split_at_char in H as [-> H]; [|done|done].
  apply split_at_char in H as [-> H]; [|done|done]. by rewrite H.
Qed.

(** Without that restriction the cache key does not determine the scope: a
    write of one channel and a write of a different channel and contract, both
    accepted together as distinct scopes by [canonicalize], address the same
    world-state key, so the committed state depends on which is replayed last. *)
Theorem state_key_collision :
  ∃ w1 w2 c,
    scope w1 ≠ scope w2 ∧ pw_channel w1 ≠ pw_channel w2
    ∧ canonicalize (mkExecutionResult [] [w1; w2]) = Ok c
    ∧ state_key w1 = state_key w2
    ∧ apply_to_cache w1 (apply_to_cache w2 ∅) ≠ apply_to_cache w2 (apply_to_cache w1 ∅).
Proof.
  exists (mkPersistentWrite "a" "b:c" "k" (WSet "1") Public),
    (mkPersistentWrite "a:b" "c" "k" (WSet "2") Public). eexists.
  split; [done|]. split; [done|]. split; [by vm_compute|]. split; [done|].
  intros H. apply (f_equal (lookup "ws:a:b:c:k")) in H. vm_compute in H. done.
Qed.

(** Folding a write set into the derived cache. *)
Definition apply_writes (ws : list PersistentWrite) (cache : gmap string string)
  : gmap string string := foldl (λ c w, apply_to_cache w c) cache ws.

Lemma apply_to_cache_comm w1 w2 c :
  state_key w1 ≠ state_key w2 →
  apply_to_cache w1 (apply_to_cache w2 c) = apply_to_cache w2 (apply_to_cache w1 c).
Proof.
  intros Hne. unfold apply_to_cache. destruct (pw_op w1), (pw_op w2).
  - by apply insert_insert_ne.
  - rewrite delete_insert_ne; done.
  - rewrite delete_insert_ne; done.
  - apply delete_delete.
Qed.

Lemma apply_writes_perm ws1 ws2 c :
  NoDup (state_key <$> ws1) → ws1 ≡ₚ ws2 → apply_writes ws1 c = apply_writes ws2 c.
Proof.
  intros Hnd Hp. revert c Hnd. unfold apply_writes.
  induction Hp as [|w l1 l2 Hp IH|w1 w2 l|l1 l2 l3 Hp1 IH1 Hp2 IH2]; intros c Hnd; simpl.
  - done.
  - apply IH. by apply NoDup_cons in Hnd as [_ ?].
  - f_equal. apply apply_to_cache_comm. simpl in Hnd.
    apply NoDup_cons in Hnd as [Hw _]. intros Heq. apply Hw. rewrite Heq. by left.
  - rewrite IH1; [|done]. apply IH2. by rewrite <- Hp1.
Qed.

Lemma distinct_state_keys ws :
  Forall colon_free ws → NoDup (scope <$> ws) → NoDup (state_key <$> ws).
Proof.
  induction ws as [|w ws IH]; simpl; [constructor|].
  rewrite Forall_cons, !NoDup_cons. intros [Hw Hws] [Hn Hnd]. split; [|by apply IH].
  intros (w' & Heq & Hw')%list_elem_of_fmap. apply Hn.
  rewrite (state_key_inj w w'); [by apply list_elem_of_fmap_2 | done | | done].
  by eapply Forall_forall in Hws.
Qed.

(** The value the last operation on a key leaves. *)
Definition op_value (op : WriteOp) : option string :=
  match op with WSet v => Some v | WDelete => None end.

Lemma apply_writes_lookup ws c w :
  NoDup (state_key <$> ws) → w ∈ ws →
  apply_writes ws c !! state_key w = op_value (pw_op w).
Proof.
  revert c. induction ws as [|w' ws IH] using rev_ind; intros c Hnd Hw;
    [by apply elem_of_nil in Hw|].
  unfold apply_writes in *. rewrite foldl_app. simpl.
  rewrite fmap_app, NoDup_app in Hnd. destruct Hnd as (Hnd & Hdis & _).
  apply elem_of_app in Hw as [Hw|Hw%list_elem_of_singleton].
  - assert (state_key w ≠ state_key w') as Hne.
    { intros Heq. apply (Hdis (state_key w)); [by apply list_elem_of_fmap_2|].
      simpl. rewrite Heq. by left. }
    unfold apply_to_cache at 1. destruct (pw_op w').
    + rewrite lookup_insert_ne by done. by apply IH.
    + rewrite lookup_delete_ne by done. by apply IH.
  - subst w'. unfold apply_to_cache, op_value. destruct (pw_op w).
    + by rewrite lookup_insert_eq.
    + by rewrite lookup_delete_eq.
Qed.

(** Replaying a canonical write set of colon-free scopes gives each written
    key exactly its operation's effect, whatever the order of the writes: the
    derived world state of two permutations is the same. *)
Theorem replay_canonical r c cache ws' :
  canonicalize r = Ok c → Forall colon_free (writes r) → ws' ≡ₚ writes c →
  apply_writes ws' cache = apply_writes (writes c) cache
  ∧ ∀ w, w ∈ writes r → apply_writes (writes c) cache !! state_key w = op_value (pw_op w).
Proof.
  intros (H1 & H2 & ->)%canonicalize_Ok Hc Hp. simpl in *.
  assert (NoDup (state_key <$> sort_by scope_leb (writes r))) as Hnd.
  { rewrite sort_by_perm. by apply distinct_state_keys. }
  split.
  - symmetry. by apply apply_writes_perm.
  - intros w Hw. apply apply_writes_lookup; [done | by rewrite sort_by_perm].
Qed.

Lemma block_form_scope w : scope (block_form w) = scope w.
Proof. done. Qed.

Lemma block_form_public w : pw_visibility w = Public → block_form w = w.
Proof. destruct w as [? ? ? [|] ?]; simpl; intros ->; done. Qed.

(** The block form of a private write is a function of the digest of its value. *)
Lemma block_form_hides ch ct k v1 v2 name :
  sha256 v1 = sha256 v2 →
  block_form (mkPersistentWrite ch ct k (WSet v1) (Pdc name)) =
  block_form (mkPersistentWrite ch ct k (WSet v2) (Pdc name)).
Proof. intros H. unfold block_form. simpl. by rewrite H. Qed.

End write_set.
