(* ===== verification/Canonical.v ===== *)
(** The canonical record registry and its strict validator (glasschain-core:
    canonical.rs).

    [Registry] holds the schema tables; [validate_record_with] is the linear
    validator, split here into the sections the source delimits with comments
    (envelope, family lookup, required fields and whitelist, family rules,
    status vocabulary, anchor, extensions).  The theorems characterise what an
    accepted record satisfies, the tamper evidence of anchored families, and the
    legacy migration path. *)

From S2P Require Import Prelude Types Asset.
Import TrustScore.

Section canonical.
Context `{E : Env}.

Definition SCHEMA_VERSION_V1 : Z := 1.

(** [CanonicalRecord::new], the fresh UUID being [uuid]. *)
Definition CanonicalRecord_new (uuid : string) (occurred_at : Z) (schema_id : string)
    (payload : gmap string Value) (issuer : string) : CanonicalRecord :=
  mkCanonicalRecord uuid schema_id SCHEMA_VERSION_V1 None occurred_at issuer [] None ∅ payload.

(** The fields the canonical form covers. *)
Definition canonical_fields (r : CanonicalRecord) :=
  (record_id r, schema_id r, schema_version r, occurred_at r, issuer r, pdc_ref r,
   payload r, extensions r).

Definition canonical_form (r : CanonicalRecord) : string := json_canonical (canonical_fields r).

Definition record_commitment (r : CanonicalRecord) : string := sha256 (canonical_form r).

Inductive ExtensionFieldType := TString | TInteger | TNumber | TBoolean | TObject | TArray.

Record NamespaceDescriptor := mkNamespace {
  ns_namespace : string;
  ns_version : Z;
  ns_private : bool;
  ns_required : list string;
  ns_properties : list (string * ExtensionFieldType) }.

Record SchemaDescriptor := mkSchema {
  sd_schema_id : string;
  sd_version : Z;
  sd_required : list string;
  sd_optional : list string;
  sd_anchored : bool;
  sd_status_values : option (list string) }.

Definition SCHEMA_V1 : list SchemaDescriptor :=
  [ mkSchema "party_identity" 1 ["org_id"; "legal_name"] [] false None;
    mkSchema "product" 1 ["product_id"; "gtin"; "product_name"] [] false None;
    mkSchema "lot" 1 ["lot_id"; "product_id"; "batch_number"] ["expiry_date"] true None;
    mkSchema "inventory_threshold" 1
      ["trigger_id"; "product_id"; "owner_id"; "reorder_threshold"] [] false None;
    mkSchema "purchase_order" 1
      ["product_id"; "buyer_id"; "seller_id"; "quantity"; "currency"] [] false None;
    mkSchema "shipment" 1 ["lot_ref"; "from_org"; "to_org"] [] false None;
    mkSchema "transit_event" 1 ["shipment_ref"; "event_type"; "location"] [] false None;
    mkSchema "delivery_receipt" 1 ["shipment_ref"; "receiver_id"; "received_at"] [] false None;
    mkSchema "inventory_transformation" 1 ["lot_ref"; "transformation_type"] [] false None;
    mkSchema "recall" 1 ["lot_ref"; "reason"; "status"; "issued_by"] [] false
      (Some ["issued"; "active"; "completed"]);
    mkSchema "quality_certification" 1
      ["lot_ref"; "issuer"; "scope"; "valid_from"; "valid_to"; "status"; "evidence_manifest"]
      [] true (Some ["valid"; "suspended"; "revoked"]);
    mkSchema "audit_attestation" 1
      ["lot_ref"; "issuer"; "scope"; "valid_from"; "valid_to"; "status"; "evidence_manifest"]
      [] true (Some ["valid"; "suspended"; "revoked"]);
    mkSchema "state_commitment" 1 ["merkle_root"; "counterparties"] ["aggregation_ratio"]
      true None ].

Definition NAMESPACE_V1 : list NamespaceDescriptor := [mkNamespace "anvisa" 1 false [] []].

Definition CORE_FIELD_NAMES : list string :=
  [ "record_id"; "schema_id"; "schema_version"; "commitment"; "occurred_at"; "issuer";
    "signatures"; "pdc_ref"; "extensions"; "payload"; "org_id"; "legal_name"; "product_id";
    "gtin"; "product_name"; "lot_id"; "batch_number"; "expiry_date"; "trigger_id"; "owner_id";
    "reorder_threshold"; "buyer_id"; "seller_id"; "quantity"; "currency"; "lot_ref"; "from_org";
    "to_org"; "shipment_ref"; "event_type"; "location"; "receiver_id"; "received_at";
    "transformation_type"; "reason"; "status"; "issued_by"; "scope"; "valid_from"; "valid_to";
    "evidence_manifest"; "manifest_commitment"; "merkle_root"; "counterparties";
    "aggregation_ratio" ].

Definition LEGACY_ASSET_KEYS : list string :=
  [ "gtin"; "batch_number"; "expiry_date"; "serial_number"; "anvisa_registration";
    "manufacturer_id" ].

Record SchemaEntry := mkEntry { descriptor : SchemaDescriptor; schema_hash : string }.

Record Registry := mkRegistry {
  schemas : gmap (string * Z) SchemaEntry;
  namespaces : gmap string NamespaceDescriptor }.

Definition bool_text (b : bool) : string := if b then "true" else "false".

Definition descriptor_hash (d : SchemaDescriptor) : string :=
  sha256 (sd_schema_id d +:+ "|v" +:+ pretty (sd_version d)
    +:+ "|required=" +:+ join "," (sd_required d)
    +:+ "|optional=" +:+ join "," (sd_optional d)
    +:+ "|anchored=" +:+ bool_text (sd_anchored d)
    +:+ "|status=" +:+ match sd_status_values d with
                       | Some vs => "Some(" +:+ debug_strs vs +:+ ")"
                       | None => "None"
                       end).

Definition with_namespace (reg : Registry) (n : NamespaceDescriptor) : Registry :=
  mkRegistry (schemas reg) (<[ns_namespace n := n]> (namespaces reg)).

Definition with_schema (reg : Registry) (d : SchemaDescriptor) : Registry :=
  mkRegistry (<[(sd_schema_id d, sd_version d) := mkEntry d (descriptor_hash d)]> (schemas reg))
    (namespaces reg).

(** [Registry::from_static], shared as [Registry::v1()]. *)
Definition v1 : Registry :=
  mkRegistry
    (list_to_map ((λ d, ((sd_schema_id d, sd_version d), mkEntry d (descriptor_hash d)))
      <$> SCHEMA_V1))
    (list_to_map ((λ n, (ns_namespace n, n)) <$> NAMESPACE_V1)).

Definition lookup_schema (reg : Registry) (id : string) (version : Z) : option SchemaEntry :=
  schemas reg !! (id, version).

Definition lookup_namespace (reg : Registry) (ns : string) : option NamespaceDescriptor :=
  namespaces reg !! ns.

Definition err {A} (schema_id message : string) : result CoreError A :=
  Err (InvalidTransaction ("canonical record " +:+ schema_id +:+ ": " +:+ message)).

(** [b.is_ascii_digit()], [b.is_ascii_hexdigit()] *)
Definition is_digit (c : Ascii.ascii) : bool := is_some (digit c).
Definition is_hexdigit (c : Ascii.ascii) : bool :=
  let n := Ascii.nat_of_ascii c in
  is_digit c || ((65 <=? n) && (n <=? 70))%nat || ((97 <=? n) && (n <=? 102))%nat.

Definition is_hex64 (s : string) : bool := (slen s =? 64)%nat && forallb is_hexdigit (bytes s).

Definition is_present (v : option Value) : bool :=
  match v with
  | Some (VString s) => negb (is_empty s)
  | Some VNull | None => false
  | Some _ => true
  end.

Definition matches_type (v : Value) (ty : ExtensionFieldType) : bool :=
  match ty, v with
  | TString, VString _ => true
  | TInteger, VNumber (PosInt _ | NegInt _) => true
  | TNumber, VNumber _ => true
  | TBoolean, VBool _ => true
  | TObject, VObject _ => true
  | TArray, VArray _ => true
  | _, _ => false
  end.

Definition has_key (m : gmap string Value) (k : string) : bool := is_some (m !! k).

Definition looks_like_legacy_asset (payload : gmap string Value) : bool :=
  (3 <=? length (List.filter (has_key payload) LEGACY_ASSET_KEYS))%nat.

Definition mem (k : string) (l : list string) : bool := existsb (str_eqb k) l.

(** [payload.get(key).and_then(Value::as_str).unwrap_or_default()] *)
Definition get_str (m : gmap string Value) (key : string) : string :=
  default "" (m !! key ≫= as_str).

Definition check_envelope (r : CanonicalRecord) : result CoreError unit :=
  if is_empty (record_id r) then err (schema_id r) "record_id must not be empty" else
  if is_empty (issuer r) then err (schema_id r) "issuer must not be empty" else
  if bool_decide (signatures r = []) then err (schema_id r) "at least one signature is required"
  else
  if (schema_version r =? 0)%Z then err (schema_id r) "schema version 0 is not a valid version"
  else Ok tt.

Definition find_family (reg : Registry) (r : CanonicalRecord) : result CoreError SchemaDescriptor :=
  match lookup_schema reg (schema_id r) (schema_version r) with
  | Some entry => Ok (descriptor entry)
  | None =>
      if existsb (λ kv, kv.1.1 ==? schema_id r) (map_to_list (schemas reg))
      then err (schema_id r) ("unsupported schema version " +:+ pretty (schema_version r))
      else err (schema_id r)
             ("unknown schema " +:+ schema_id r +:+ "/v" +:+ pretty (schema_version r))
  end.

Definition check_required (d : SchemaDescriptor) (p : gmap string Value) : result CoreError unit :=
  each_result (λ key,
    if is_present (p !! key) then Ok tt
    else err (sd_schema_id d) ("missing required field '" +:+ key +:+ "'"))
    (sd_required d).

Definition check_whitelist (d : SchemaDescriptor) (p : gmap string Value) : result CoreError unit :=
  let allowed := sd_required d ++ sd_optional d in
  match List.find (λ key, negb (mem key allowed)) (btree_keys p) with
  | Some unknown =>
      err (sd_schema_id d) ("unknown payload field '" +:+ unknown
        +:+ "' (use a registered extension namespace)")
  | None => Ok tt
  end.

Definition check_product (p : gmap string Value) : result CoreError unit :=
  let gtin := get_str p "gtin" in
  if (negb (slen gtin =? 13)%nat && negb (slen gtin =? 14)%nat)
     || negb (forallb is_digit (bytes gtin))
  then err "product" "gtin must be 13 or 14 numeric digits" else Ok tt.

Definition check_delivery_receipt (p : gmap string Value) : result CoreError unit :=
  if negb (is_valid_iso8601_date (get_str p "received_at"))
  then err "delivery_receipt" "received_at must be an ISO-8601 date (YYYY-MM-DD)" else Ok tt.

Definition manifest_commitment (p : gmap string Value) : string :=
  match p !! "evidence_manifest" with
  | Some (VObject m) => get_str m "manifest_commitment"
  | _ => ""
  end.

Definition check_certification (family : string) (p : gmap string Value) : result CoreError unit :=
  let valid_from := get_str p "valid_from" in
  let valid_to := get_str p "valid_to" in
  if negb (is_valid_iso8601_date valid_from) || negb (is_valid_iso8601_date valid_to)
  then err family "valid_from and valid_to must be ISO-8601 dates (YYYY-MM-DD)" else
  if str_ltb valid_to valid_from then err family "valid_to must not precede valid_from" else
  if negb (is_hex64 (manifest_commitment p))
  then err family "evidence_manifest.manifest_commitment must be a 64-hex commitment"
  else Ok tt.

Definition check_state_commitment (r : CanonicalRecord) : result CoreError unit :=
  let p := payload r in
  if negb (is_hex64 (get_str p "merkle_root"))
  then err "state_commitment" "merkle_root must be a 64-hex commitment" else
  match p !! "counterparties" ≫= as_array with
  | None => err "state_commitment" "counterparties must be an array"
  | Some cs =>
      if bool_decide (length cs = 0)
         || negb (forallb (λ c, match as_str c with Some s => negb (is_empty s) | None => false end) cs)
      then err "state_commitment" "counterparties must name at least one non-empty organization"
      else
      if (length (signatures r) <? length cs)%nat
      then err "state_commitment"
             "signature set must carry at least one signature per counterparty" else
      match p !! "aggregation_ratio" with
      | Some (VNumber ratio) =>
          if (default 0 (as_u64 (VNumber ratio)) <? 1)%Z
          then err "state_commitment" "aggregation_ratio must be at least 1 when present"
          else Ok tt
      | _ => Ok tt
      end
  end.

Definition check_family (d : SchemaDescriptor) (r : CanonicalRecord) : result CoreError unit :=
  let id := sd_schema_id d in
  if id ==? "product" then check_product (payload r) else
  if id ==? "delivery_receipt" then check_delivery_receipt (payload r) else
  if (id ==? "quality_certification") || (id ==? "audit_attestation")
  then check_certification id (payload r) else
  if id ==? "state_commitment" then check_state_commitment r else Ok tt.

Definition check_status (d : SchemaDescriptor) (p : gmap string Value) : result CoreError unit :=
  match sd_status_values d with
  | None => Ok tt
  | Some values =>
      let status := get_str p "status" in
      if mem status values then Ok tt
      else err (sd_schema_id d)
             ("status '" +:+ status +:+ "' is not in the v1 vocabulary " +:+ debug_strs values)
  end.

Definition check_anchor (d : SchemaDescriptor) (r : CanonicalRecord) : result CoreError unit :=
  if sd_anchored d then
    match commitment r with
    | None => err (sd_schema_id d) "anchored family requires a commitment"
    | Some c =>
        if c ==? record_commitment r then Ok tt
        else err (sd_schema_id d) "commitment does not match the canonical record form"
    end
  else if is_some (commitment r)
  then err (sd_schema_id d) "commitment is only allowed on anchored families" else Ok tt.

(** The body of the extension loop, for one [(namespace, extension)]. *)
Definition check_private (ns : string) (r : CanonicalRecord) (ext : ExtensionValue)
  : result CoreError unit :=
  let p := "private extension namespace '" +:+ ns +:+ "' " in
  if match pdc_ref r with None => true | Some s => is_empty s end
  then err (schema_id r) (p +:+ "requires a pdc_ref on the record") else
  if negb (size (ev_value ext) =? 1)%nat
  then err (schema_id r) (p +:+ "must carry exactly a 'commitment'") else
  if negb (is_hex64 (get_str (ev_value ext) "commitment"))
  then err (schema_id r) (p +:+ "commitment must be 64 hex characters") else Ok tt.

Definition check_extension (reg : Registry) (r : CanonicalRecord)
    (ne : string * ExtensionValue) : result CoreError unit :=
  let '(ns, ext) := ne in
  let p := "extension namespace '" +:+ ns +:+ "' " in
  match lookup_namespace reg ns with
  | None => err (schema_id r) ("unknown extension namespace '" +:+ ns +:+ "'")
  | Some d =>
      if negb (ev_schema_version ext =? ns_version d)%Z
      then err (schema_id r) (p +:+ "uses unsupported version " +:+ pretty (ev_schema_version ext))
      else
      let? _ := each_result (λ key,
        if negb (key ==? "commitment") && mem key CORE_FIELD_NAMES
        then err (schema_id r) (p +:+ "shadows core field '" +:+ key +:+ "'") else Ok tt)
        (btree_keys (ev_value ext)) in
      let? _ := each_result (λ key,
        if is_present (ev_value ext !! key) then Ok tt
        else err (schema_id r) (p +:+ "missing required field '" +:+ key +:+ "'"))
        (ns_required d) in
      let? _ := each_result (λ nt,
        match ev_value ext !! nt.1 with
        | Some v => if matches_type v nt.2 then Ok tt
                    else err (schema_id r) (p +:+ "field '" +:+ nt.1 +:+ "' has the wrong type")
        | None => Ok tt
        end) (ns_properties d) in
      if ns_private d then check_private ns r ext else Ok tt
  end.

Definition validate_record_with (reg : Registry) (r : CanonicalRecord) : result CoreError unit :=
  let? _ := check_envelope r in
  let? d := find_family reg r in
  if looks_like_legacy_asset (payload r)
  then err (sd_schema_id d) "payload is TraceableAsset-shaped: legacy assets are not valid v1 records; migrate with `migrate_legacy_asset` and re-register as product + lot records"
  else
  let? _ := check_required d (payload r) in
  let? _ := check_whitelist d (payload r) in
  let? _ := check_family d r in
  let? _ := check_status d (payload r) in
  let? _ := check_anchor d r in
  each_result (check_extension reg r) (btree_items (extensions r)).

Definition validate_record (r : CanonicalRecord) : result CoreError unit :=
  validate_record_with v1 r.

Definition product_payload (g name : string) : gmap string Value :=
  list_to_map [("product_id", VString g); ("gtin", VString g); ("product_name", VString name)].

Definition lot_payload (g batch : string) (expiry : option string) : gmap string Value :=
  let m := list_to_map [("lot_id", VString (g +:+ "-" +:+ batch)); ("product_id", VString g);
                        ("batch_number", VString batch)] in
  match expiry with
  | Some e => <["expiry_date" := VString e]> m
  | None => m
  end.

Definition set_commitment (r : CanonicalRecord) (c : option string) : CanonicalRecord :=
  mkCanonicalRecord (record_id r) (schema_id r) (schema_version r) c (occurred_at r)
    (issuer r) (signatures r) (pdc_ref r) (extensions r) (payload r).

(** [migrate_legacy_asset]; [uuid1] and [uuid2] are the two fresh record ids. *)
Definition migrate_legacy_asset (uuid1 uuid2 : string) (asset : TraceableAsset)
    (issuer : string) (occurred_at : Z) : CanonicalRecord * CanonicalRecord :=
  let g := default "" (gtin asset) in
  let batch := default "" (batch_number asset) in
  let product := CanonicalRecord_new uuid1 occurred_at "product"
    (product_payload g (product_name asset)) issuer in
  let lot := CanonicalRecord_new uuid2 occurred_at "lot"
    (lot_payload g batch (expiry_date asset)) issuer in
  (product, set_commitment lot (Some (record_commitment lot))).

(** ** What an accepted record satisfies *)

Lemma mem_elem k l : mem k l = true ↔ k ∈ l.
Proof.
  unfold mem. rewrite existsb_elem_of. split.
  - intros (x & Hx & Heq). apply str_eqb_eq in Heq. by subst.
  - intros Hk. exists k. split; [done | apply str_eqb_refl].
Qed.

Lemma schemas_v1 id ver e :
  schemas v1 !! (id, ver) = Some e →
  descriptor e ∈ SCHEMA_V1 ∧ sd_schema_id (descriptor e) = id ∧ sd_version (descriptor e) = ver.
Proof.
  intros H%elem_of_list_to_map_2. apply list_elem_of_fmap in H as (d & Heq & Hd).
  injection Heq as -> -> ->. done.
Qed.

Lemma schema_v1_version d : d ∈ SCHEMA_V1 → sd_version d = 1%Z.
Proof.
  intros Hd. assert (Forall (λ d, sd_version d = 1%Z) SCHEMA_V1) as HF by (repeat constructor).
  by eapply Forall_forall in HF.
Qed.

Lemma namespaces_v1 ns d : namespaces v1 !! ns = Some d → d = mkNamespace "anvisa" 1 false [] [] ∧ ns = "anvisa".
Proof.
  intros H%elem_of_list_to_map_2. apply list_elem_of_fmap in H as (d' & Heq & Hd).
  apply list_elem_of_singleton in Hd as ->. by injection Heq as -> ->.
Qed.

Lemma check_whitelist_Ok d p :
  check_whitelist d p = Ok tt → ∀ k, is_Some (p !! k) → k ∈ sd_required d ++ sd_optional d.
Proof.
  unfold check_whitelist. destruct (List.find _ _) eqn:Hf; [done|]. intros _ k [v Hk].
  apply mem_elem, negb_false_iff. eapply (find_none _ _ Hf), list_elem_of_In.
  unfold btree_keys. apply list_elem_of_fmap. exists (k, v).
  split; [done|]. by apply btree_items_elem.
Qed.

Lemma check_required_Ok d p :
  check_required d p = Ok tt → Forall (λ k, is_present (p !! k) = true) (sd_required d).
Proof.
  unfold check_required. rewrite each_result_Ok. intros H.
  eapply Forall_impl; [exact H|]. cbv beta. intros k. by destruct (is_present _).
Qed.

Lemma check_anchor_Ok d r :
  check_anchor d r = Ok tt →
  commitment r = if sd_anchored d then Some (record_commitment r) else None.
Proof.
  unfold check_anchor. destruct (sd_anchored d), (commitment r) as [c|]; try done; simpl.
  destruct (c ==? record_commitment r) eqn:Hc; [|done]. bool_hyps. by subst.
Qed.

Lemma check_envelope_Ok r :
  check_envelope r = Ok tt →
  record_id r ≠ "" ∧ issuer r ≠ "" ∧ signatures r ≠ [] ∧ schema_version r ≠ 0%Z.
Proof. unfold check_envelope, err. intros H. step_result. bool_hyps. done. Qed.

Lemma check_extension_Ok r ns ext :
  check_extension v1 r (ns, ext) = Ok tt →
  ns = "anvisa" ∧ ev_schema_version ext = 1%Z ∧
  ∀ k, is_Some (ev_value ext !! k) → k = "commitment" ∨ k ∉ CORE_FIELD_NAMES.
Proof.
  unfold check_extension, lookup_namespace. destruct (namespaces v1 !! ns) eqn:Hn; [|done].
  apply namespaces_v1 in Hn as [-> ->]. cbn [ns_version ns_required ns_properties ns_private].
  destruct (ev_schema_version ext =? 1)%Z eqn:Hv; cbn [negb]; [|done].
  destruct (each_result _ (btree_keys _)) as [[]|] eqn:Hk; [|done]. intros _.
  bool_hyps. split; [done|]. split; [done|]. intros k [v Hkv].
  rewrite each_result_Ok, Forall_forall in Hk. specialize (Hk k).
  destruct (k ==? "commitment") eqn:Hc; bool_hyps; [by left|]. right.
  intros Hcore%mem_elem. rewrite Hcore in Hk. cbn [negb andb] in Hk.
  assert (k ∈ btree_keys (ev_value ext)) as Hin; [|by specialize (Hk Hin)].
  apply list_elem_of_fmap. exists (k, v). split; [done|]. by apply btree_items_elem.
Qed.

(** Everything a record accepted by the v1 registry satisfies. *)
Definition canonical_v1 (d : SchemaDescriptor) (r : CanonicalRecord) : Prop :=
  d ∈ SCHEMA_V1 ∧ schema_id r = sd_schema_id d ∧ schema_version r = 1%Z
  ∧ (record_id r ≠ "" ∧ issuer r ≠ "" ∧ signatures r ≠ [])
  ∧ Forall (λ k, is_present (payload r !! k) = true) (sd_required d)
  ∧ (∀ k, is_Some (payload r !! k) → k ∈ sd_required d ++ sd_optional d)
  ∧ match sd_status_values d with
    | Some vs => get_str (payload r) "status" ∈ vs
    | None => True
    end
  ∧ commitment r = (if sd_anchored d then Some (record_commitment r) else None)
  ∧ ∀ ns ext, extensions r !! ns = Some ext →
      ns = "anvisa" ∧ ev_schema_version ext = 1%Z ∧
      ∀ k, is_Some (ev_value ext !! k) → k = "commitment" ∨ k ∉ CORE_FIELD_NAMES.

Lemma validate_record_inv r :
  validate_record r = Ok tt →
  ∃ d, canonical_v1 d r ∧ check_family d r = Ok tt ∧ looks_like_legacy_asset (payload r) = false.
Proof.
  unfold validate_record, validate_record_with, find_family, lookup_schema.
  destruct (check_envelope r) as [[]|] eqn:Henv; [|done].
  destruct (schemas v1 !! _) as [e|] eqn:Hs; [|by destruct (existsb _ _)].
  destruct (looks_like_legacy_asset _) eqn:Hl; [done|].
  destruct (check_required _ _) as [[]|] eqn:Hreq; [|done].
  destruct (check_whitelist _ _) as [[]|] eqn:Hwl; [|done].
  destruct (check_family _ _) as [[]|] eqn:Hfam; [|done].
  destruct (check_status _ _) as [[]|] eqn:Hst; [|done].
  destruct (check_anchor _ _) as [[]|] eqn:Ha; [|done].
  intros Hext. exists (descriptor e).
  apply schemas_v1 in Hs as (Hin & Hid & Hver).
  split; [|done]. unfold canonical_v1. split; [done|]. split; [done|].
  split; [rewrite <- Hver; by apply schema_v1_version|].
  split; [apply check_envelope_Ok in Henv; tauto|].
  split; [by apply check_required_Ok|]. split; [by apply check_whitelist_Ok|].
  split; [|split; [by apply check_anchor_Ok|]].
  - unfold check_status in Hst. destruct (sd_status_values _); [|done].
    destruct (mem _ _) eqn:Hm; [by apply mem_elem | done].
  - intros ns ext Hne. apply check_extension_Ok with (r := r).
    rewrite each_result_Ok, Forall_forall in Hext. by apply Hext, btree_items_elem.
Qed.

(** A record the validator accepts belongs to one of the thirteen v1
    families at version 1, names a record id, an issuer and a signature, carries
    every required payload field and no field outside the family's catalog, uses
    a status of the closed vocabulary, carries a commitment exactly when the
    family is anchored and then the hash of its own canonical form, and extends
    it only through the registered namespace without shadowing a core field. *)
Theorem validate_record_sound r :
  validate_record r = Ok tt → ∃ d, canonical_v1 d r.
Proof. intros (d & H & _)%validate_record_inv. eauto. Qed.

Definition with_signatures (r : CanonicalRecord) (sigs : list RecordSignature) : CanonicalRecord :=
  mkCanonicalRecord (record_id r) (schema_id r) (schema_version r) (commitment r)
    (occurred_at r) (issuer r) sigs (pdc_ref r) (extensions r) (payload r).

(** C40: anchored records are tamper-evident.  The commitment of an accepted record that
    carries one is the SHA-256 of that record's own canonical form.  If two accepted records
    carry the same commitment, SHA-256 does not collide on their two canonical forms, and
    JSON renders their two tuples of fields differently when they differ, then the records
    agree in id, family, version, commitment, time, issuer, PDC reference, payload and
    extensions: at most their signatures differ. *)
Theorem anchored_tamper_evident r1 r2 c :
  validate_record r1 = Ok tt → validate_record r2 = Ok tt →
  commitment r1 = Some c → commitment r2 = Some c →
  c = sha256 (canonical_form r1) ∧ c = sha256 (canonical_form r2)
  ∧ ((sha256 (canonical_form r1) = sha256 (canonical_form r2) → canonical_form r1 = canonical_form r2) →
     (canonical_form r1 = canonical_form r2 → canonical_fields r1 = canonical_fields r2) →
     r2 = with_signatures r1 (signatures r2)).
Proof.
  intros (d1 & (_&_&_&_&_&_&_& H1 &_) & _)%validate_record_inv
         (d2 & (_&_&_&_&_&_&_& H2 &_) & _)%validate_record_inv Hc1 Hc2.
  destruct (sd_anchored d1); [|congruence]. destruct (sd_anchored d2); [|congruence].
  rewrite Hc1 in H1. rewrite Hc2 in H2. injection H1 as H1. injection H2 as H2. unfold record_commitment in *.
  split; [done|]. split; [done|]. intros Hsha Hjson.
  assert (canonical_fields r1 = canonical_fields r2) as Hf by (apply Hjson, Hsha; congruence).
  unfold canonical_fields in Hf. destruct r1, r2. unfold with_signatures. simpl in *. congruence.
Qed.

(** ** The legacy migration path *)

(** A GTIN the [product] family accepts. *)
Definition gtin_ok (g : string) : Prop :=
  (slen g = 13 ∨ slen g = 14) ∧ forallb is_digit (bytes g) = true.

Lemma gtin_ok_nonempty g : gtin_ok g → is_empty g = false.
Proof. intros [[|] _]; destruct g; done. Qed.

Lemma check_product_Ok p : check_product p = Ok tt ↔ gtin_ok (get_str p "gtin").
Proof.
  unfold check_product, gtin_ok. set (g := get_str p "gtin").
  destruct (slen g =? 13)%nat eqn:H1, (slen g =? 14)%nat eqn:H2, (forallb is_digit _) eqn:H3;
    simpl; unfold err; bool_hyps; naive_solver lia.
Qed.

Section migration.
Context (u1 u2 iss : string) (a : TraceableAsset) (t : Z) (sigs : list RecordSignature).
Context (Hu1 : u1 ≠ "") (Hu2 : u2 ≠ "") (Hiss : iss ≠ "") (Hsigs : sigs ≠ []).

Lemma envelope_ok id p c u :
  u ≠ "" →
  check_envelope (mkCanonicalRecord u id 1 c t iss sigs None ∅ p) = Ok tt.
Proof.
  intros Hu. unfold check_envelope. simpl.
  apply is_empty_false in Hu as ->. apply is_empty_false in Hiss as ->.
  by rewrite bool_decide_eq_false_2 by done.
Qed.

Let product_schema :=
  mkSchema "product" 1 ["product_id"; "gtin"; "product_name"] [] false None.
Let lot_schema :=
  mkSchema "lot" 1 ["lot_id"; "product_id"; "batch_number"] ["expiry_date"] true None.

Lemma migrated_product_valid :
  validate_record (with_signatures (migrate_legacy_asset u1 u2 a iss t).1 sigs) = Ok tt ↔
  gtin_ok (default "" (gtin a)) ∧ product_name a ≠ "".
Proof.
  set (g := default "" (gtin a)). set (p := product_payload g (product_name a)).
  change (with_signatures _ sigs) with
    (mkCanonicalRecord u1 "product" 1 None t iss sigs None ∅ p).
  unfold validate_record, validate_record_with. rewrite envelope_ok by done.
  replace (find_family _ _) with (@Ok CoreError _ product_schema) by (by vm_compute).
  replace (looks_like_legacy_asset _) with false by (by vm_compute).
  replace (check_whitelist _ _) with (@Ok CoreError unit tt) by (by vm_compute).
  change (check_family _ _) with (check_product p).
  replace (check_status _ _) with (@Ok CoreError _ tt) by (by vm_compute).
  change (check_anchor _ _) with (@Ok CoreError _ tt).
  replace (each_result (check_extension v1 _) _) with (@Ok CoreError _ tt) by (by vm_compute).
  pose proof (check_product_Ok p) as Hg. change (get_str p "gtin") with g in Hg.
  unfold check_required. cbn [each_result sd_required product_schema payload].
  assert (p !! "product_id" = Some (VString g)) as -> by (by vm_compute).
  assert (p !! "gtin" = Some (VString g)) as -> by (by vm_compute).
  assert (p !! "product_name" = Some (VString (product_name a))) as -> by (by vm_compute).
  cbn [is_present].
  rewrite <- (is_empty_false (product_name a)).
  destruct (is_empty g) eqn:Heg; simpl.
  - split; [done|]. intros [Hok%gtin_ok_nonempty _]. congruence.
  - destruct (is_empty (product_name a)); simpl; [naive_solver|].
    destruct (check_product p) as [[]|]; naive_solver.
Qed.

Lemma migrated_lot_valid :
  validate_record (with_signatures (migrate_legacy_asset u1 u2 a iss t).2 sigs) = Ok tt ↔
  default "" (gtin a) ≠ "" ∧ default "" (batch_number a) ≠ "".
Proof.
  set (g := default "" (gtin a)). set (b := default "" (batch_number a)).
  set (p := lot_payload g b (expiry_date a)).
  change (with_signatures _ sigs) with
    (mkCanonicalRecord u2 "lot" 1
      (Some (sha256 (json_canonical (u2, "lot", 1%Z, t, iss, None, p, ∅)))) t iss sigs None ∅ p).
  unfold validate_record, validate_record_with. rewrite envelope_ok by done.
  replace (find_family _ _) with (@Ok CoreError _ lot_schema) by (by vm_compute). cbv iota beta.
  cbn [payload extensions].
  assert (looks_like_legacy_asset p = false) as -> by (unfold p; by destruct (expiry_date a); vm_compute).
  assert (check_whitelist lot_schema p = Ok tt) as -> by (unfold p; by destruct (expiry_date a); vm_compute).
  change (check_family _ _) with (@Ok CoreError _ tt).
  replace (check_status _ _) with (@Ok CoreError _ tt) by (by vm_compute).
  assert (check_anchor lot_schema (mkCanonicalRecord u2 "lot" 1
      (Some (sha256 (json_canonical (u2, "lot", 1%Z, t, iss, None, p, ∅)))) t iss sigs None ∅ p)
    = Ok tt) as ->.
  { unfold check_anchor. cbn [sd_anchored lot_schema commitment].
    unfold record_commitment, canonical_form, canonical_fields. by rewrite str_eqb_refl. }
  replace (each_result (check_extension v1 _) _) with (@Ok CoreError _ tt) by (by vm_compute).
  unfold check_required. cbn [each_result sd_required lot_schema].
  assert (p !! "lot_id" = Some (VString (g +:+ "-" +:+ b))) as ->
    by (unfold p; by destruct (expiry_date a); vm_compute).
  assert (p !! "product_id" = Some (VString g)) as -> by (unfold p; by destruct (expiry_date a); vm_compute).
  assert (p !! "batch_number" = Some (VString b)) as ->
    by (unfold p; by destruct (expiry_date a); vm_compute).
  cbn [is_present]. rewrite <- (is_empty_false g), <- (is_empty_false b).
  assert (is_empty (g +:+ "-" +:+ b) = false) as -> by (by destruct g).
  destruct (is_empty g), (is_empty b); cbn; naive_solver.
Qed.
End migration.

(** The legacy migration path produces records the v1 validator accepts,
    exactly when the asset has the data: with signatures attached by the caller,
    the product record is valid iff the GTIN has 13 or 14 digits and the product
    is named, and the lot record (its anchor commitment computed before the
    signatures were attached) is valid iff the GTIN and the batch are present. *)
Theorem migrate_legacy_asset_valid u1 u2 a iss t sigs :
  u1 ≠ "" → u2 ≠ "" → iss ≠ "" → sigs ≠ [] →
  let '(p, l) := migrate_legacy_asset u1 u2 a iss t in
  (validate_record (with_signatures p sigs) = Ok tt ↔
     gtin_ok (default "" (gtin a)) ∧ product_name a ≠ "")
  ∧ (validate_record (with_signatures l sigs) = Ok tt ↔
     default "" (gtin a) ≠ "" ∧ default "" (batch_number a) ≠ "").
Proof.
  intros Hu1 Hu2 Hiss Hsigs.
  pose proof (migrated_product_valid u1 u2 iss a t sigs Hu1 Hiss Hsigs) as Hp.
  pose proof (migrated_lot_valid u1 u2 iss a t sigs Hu2 Hiss Hsigs) as Hl.
  destruct (migrate_legacy_asset u1 u2 a iss t) as [p l]. done.
Qed.

(** ** Validity windows *)

(** Calendar order on (year, month, day). *)
Definition date_ltb (a b : Z * Z * Z) : bool :=
  let '(y1, m1, d1) := a in let '(y2, m2, d2) := b in
  ((y1 <? y2) || ((y1 =? y2) && ((m1 <? m2) || ((m1 =? m2) && (d1 <? d2)))))%Z.

Definition certification_example : CanonicalRecord :=
  let r := CanonicalRecord_new "rec-1" 0 "quality_certification"
    (list_to_map [ ("lot_ref", VString "lot"); ("issuer", VString "lab"); ("scope", VString "s");
      ("valid_from", VString "2024-+9-01"); ("valid_to", VString "2024-01-01");
      ("status", VString "valid");
      ("evidence_manifest", VObject {[ "manifest_commitment" := VString
        "0123456789abcdef0123456789abcdef0123456789abcdef0123456789abcdef" ]}) ]) "lab" in
  with_signatures (set_commitment r (Some (record_commitment r)))
    [mkRecordSignature "lab" "sig" Ed25519].

(** The certification window check does not implement the calendar order it
    states: the date parser accepts a plus sign in the month and day fields, the
    window is then compared as text, and a certification whose [valid_to]
    (January) precedes its [valid_from] (September) is accepted. *)
Theorem certification_window_misordered :
  ∃ r f t fd td,
    validate_record r = Ok tt
    ∧ schema_id r = "quality_certification"
    ∧ payload r !! "valid_from" = Some (VString f) ∧ payload r !! "valid_to" = Some (VString t)
    ∧ date_parts f = Some fd ∧ date_parts t = Some td ∧ date_ltb td fd = true.
Proof.
  exists certification_example. do 4 eexists.
  split; [|by vm_compute]. unfold validate_record, validate_record_with.
  replace (check_envelope _) with (@Ok CoreError unit tt) by (by vm_compute).
  set (d := mkSchema "quality_certification" 1
      ["lot_ref"; "issuer"; "scope"; "valid_from"; "valid_to"; "status"; "evidence_manifest"]
      [] true (Some ["valid"; "suspended"; "revoked"])).
  replace (find_family _ _) with (@Ok CoreError _ d) by (by vm_compute). cbv iota beta.
  replace (looks_like_legacy_asset _) with false by (by vm_compute).
  replace (check_required _ _) with (@Ok CoreError unit tt) by (by vm_compute).
  replace (check_whitelist _ _) with (@Ok CoreError unit tt) by (by vm_compute).
  replace (check_family _ _) with (@Ok CoreError unit tt) by (by vm_compute).
  replace (check_status _ _) with (@Ok CoreError unit tt) by (by vm_compute).
  unfold check_anchor. cbn [sd_anchored d commitment certification_example with_signatures
    set_commitment]. rewrite str_eqb_refl. by vm_compute.
Qed.

End canonical.
