(* ===== verification/Chain.v ===== *)
(** Blocks, proof of work and quorum-certificate shape (glasschain-core:
    block.rs, consensus.rs, and the Proof-of-Work provider and tip check of
    providers.rs).

    The clock is an argument: [now] is the second [SystemTime::now] returns.
    Mining is a loop bounded by fuel; the theorems show that fuel covering the
    first satisfying nonce is enough and that the loop then stops exactly
    there. *)

From S2P Require Import Prelude Types.

Section chain.
Context `{E : Env}.

(** ** Blocks (block.rs) *)

(** The six fields the block hash covers. *)
Definition header (b : Block) :=
  (index b, timestamp b, transactions b, write_set b, previous_hash b, nonce b).

Definition calculate_hash (b : Block) : string := sha256 (json_header (header b)).

Definition zero : Ascii.ascii := Ascii.ascii_of_nat 48.

Definition has_leading_zeros (hash : string) (difficulty : nat) : bool :=
  (difficulty <=? slen hash)%nat
  && forallb (λ byte, Ascii.eqb byte zero) (take difficulty (bytes hash)).

Definition has_valid_pow (b : Block) (difficulty : nat) : bool :=
  has_leading_zeros (hash b) difficulty.

Definition with_write_set (now idx : Z) (txs : list Transaction) (prev : string)
    (ws : list PersistentWrite) : Block :=
  let b := mkBlock idx now txs ws prev 0 "" None in
  set_hash b (calculate_hash b).

(** [Block::new] *)
Definition Block_new (now idx : Z) (txs : list Transaction) (prev : string) : Block :=
  with_write_set now idx txs prev [].

(** ["0".repeat(difficulty)] *)
Fixpoint zeros (n : nat) : string :=
  match n with 0 => "" | S n => String zero (zeros n) end.

(** One iteration of the mining loop. *)
Definition mine_step (now : Z) (b : Block) : Block :=
  let b := if (nonce b =? U64_MAX)%Z then set_timestamp b now else b in
  let b := set_nonce b (add64 (nonce b) 1) in
  set_hash b (calculate_hash b).

(** The [while] loop; [clock n] is the time read with [n] iterations of fuel left. *)
Fixpoint mine_loop (fuel : nat) (clock : nat → Z) (difficulty : nat) (b : Block)
  : option Block :=
  if starts_with (zeros difficulty) (hash b) then Some b else
  match fuel with
  | 0 => None
  | S fuel => mine_loop fuel clock difficulty (mine_step (clock fuel) b)
  end.

Definition mine (fuel : nat) (clock : nat → Z) (difficulty : nat) (b : Block) : option Block :=
  mine_loop fuel clock difficulty (set_hash b (calculate_hash b)).

Definition is_valid (b : Block) : bool := hash b ==? calculate_hash b.

Definition chains_to (b previous : Block) : result CoreError unit :=
  guard? previous_hash b ==? hash previous else
    InvalidBlock ("block " +:+ pretty (index b) +:+ " previous_hash mismatch: expected "
      +:+ hash previous +:+ ", got " +:+ previous_hash b) in
  guard? (index b =? add64 (index previous) 1)%Z else
    InvalidBlock ("block index gap: expected " +:+ pretty (add64 (index previous) 1)
      +:+ ", got " +:+ pretty (index b)) in
  guard? is_valid b else
    InvalidBlock ("block " +:+ pretty (index b) +:+ " hash is invalid") in
  Ok tt.

(** ** Quorum certificates (consensus.rs) *)

Inductive CertDecision :=
| Accepted | IndexMismatch | HashMismatch | MissingAggregate | WrongAlgorithm.

Definition decide_cert (block_index : Z) (block_hash : string) (cert_index : Z)
    (cert_hash : string) (degenerate has_aggregate bls_algorithm : bool) : CertDecision :=
  if negb (cert_index =? block_index)%Z then IndexMismatch else
  if negb (cert_hash ==? block_hash) then HashMismatch else
  if degenerate then Accepted else
  if negb has_aggregate then MissingAggregate else
  if negb bls_algorithm then WrongAlgorithm else Accepted.

(** [QuorumCertificate::pow] *)
Definition cert_pow (b : Block) : QuorumCertificate :=
  mkQuorumCertificate (index b) (hash b) [] "" Ed25519.

Definition is_degenerate (c : QuorumCertificate) : bool :=
  match signers_bitmap c with [] => true | _ => false end.

(** [QuorumCertificate::validate] *)
Definition cert_validate (c : QuorumCertificate) (b : Block) : result CoreError unit :=
  match decide_cert (index b) (hash b) (qc_block_index c) (qc_block_hash c) (is_degenerate c)
          (negb (is_empty (aggregate_signature c))) (bool_decide (qc_algorithm c = Bls12381)) with
  | Accepted => Ok tt
  | IndexMismatch =>
      Err (InvalidBlock ("quorum certificate: block index " +:+ pretty (qc_block_index c)
        +:+ " does not match " +:+ pretty (index b)))
  | HashMismatch =>
      Err (InvalidBlock ("quorum certificate: block hash mismatch for block " +:+ pretty (index b)))
  | MissingAggregate =>
      Err (InvalidBlock "quorum certificate: non-degenerate certificate carries no aggregate signature")
  | WrongAlgorithm =>
      Err (InvalidBlock ("quorum certificate: aggregate signature algorithm must be Bls12381, got "
        +:+ match qc_algorithm c with Ed25519 => "Ed25519" | Bls12381 => "Bls12381" end))
  end.

Record CommitNotification := mkCommitNotification {
  cn_block : Block; cn_certificate : QuorumCertificate }.

Definition for_pow_block (b : Block) : CommitNotification := mkCommitNotification b (cert_pow b).

Definition notification_validate (n : CommitNotification) : result CoreError unit :=
  cert_validate (cn_certificate n) (cn_block n).

(** ** Providers (providers.rs) *)

Definition validate_tip_chain (b : Block) (tip : option Block) : result CoreError unit :=
  match tip with
  | None =>
      guard? (index b =? 0)%Z else
        InvalidBlock ("block " +:+ pretty (index b) +:+ " does not chain to the empty store") in
      Ok tt
  | Some tip =>
      guard? negb (negb (index b =? add64 (index tip) 1)%Z || negb (previous_hash b ==? hash tip))
      else InvalidBlock ("stale tip: block " +:+ pretty (index b)
             +:+ " does not chain to stored tip " +:+ pretty (index tip)) in
      Ok tt
  end.

(** [PowConsensusProvider::propose_block] *)
Definition pow_propose_block (fuel : nat) (clock : nat → Z) (now : Z) (difficulty : nat)
    (idx : Z) (txs : list Transaction) (previous : Block) : option CommitNotification :=
  for_pow_block <$> mine fuel clock difficulty (Block_new now idx txs (hash previous)).

(** [PowConsensusProvider::validate_block] *)
Definition pow_validate_block (difficulty : nat) (b previous : Block) : result CoreError unit :=
  let? _ := chains_to b previous in
  guard? has_valid_pow b difficulty else
    InvalidBlock ("block " +:+ pretty (index b) +:+ " does not satisfy PoW difficulty "
      +:+ pretty (N.of_nat difficulty)) in
  Ok tt.

(** ** Lemmas *)

Lemma chains_to_Ok b p :
  chains_to b p = Ok tt ↔
  previous_hash b = hash p ∧ index b = add64 (index p) 1 ∧ hash b = calculate_hash b.
Proof.
  unfold chains_to, is_valid.
  destruct (previous_hash b ==? hash p) eqn:E1, (index b =? add64 (index p) 1)%Z eqn:E2,
    (hash b ==? calculate_hash b) eqn:E3; bool_hyps; naive_solver.
Qed.

Lemma starts_with_cons a p b s :
  starts_with (String a p) (String b s) = Ascii.eqb a b && starts_with p s.
Proof.
  unfold starts_with. simpl. destruct (Ascii.ascii_dec a b) as [->|Hne].
  - by rewrite Ascii.eqb_refl.
  - by destruct (Ascii.eqb_spec a b).
Qed.

(** The allocation-free predicate decides the prefix the miner tests for. *)
Lemma has_leading_zeros_prefix h d : has_leading_zeros h d = starts_with (zeros d) h.
Proof.
  unfold has_leading_zeros. revert h. induction d as [|d IH]; intros h.
  - by destruct h.
  - destruct h as [|c h]; [done|]. cbn [zeros]. rewrite starts_with_cons, <- IH. simpl.
    rewrite (Ascii.eqb_sym c zero). unfold slen. simpl.
    change (S d <=? S (String.length h))%nat with (d <=? String.length h)%nat.
    destruct (d <=? String.length h)%nat, (Ascii.eqb zero c); simpl; auto using andb_comm.
Qed.

Lemma has_leading_zeros_mono h d d' :
  d' ≤ d → has_leading_zeros h d = true → has_leading_zeros h d' = true.
Proof.
  unfold has_leading_zeros. rewrite !andb_true_iff, !forallb_elem_of, !Nat.leb_le.
  intros Hle [Hl Hz]. split; [lia|]. intros x Hx. apply Hz.
  apply elem_of_take in Hx as (i & Hi & Hlt). apply elem_of_take. exists i. split; [done | lia].
Qed.

(** Mining keeps everything the block commits to but the nonce and the clock. *)
Definition same_content (b b' : Block) : Prop :=
  index b' = index b ∧ transactions b' = transactions b ∧ write_set b' = write_set b
  ∧ previous_hash b' = previous_hash b ∧ certificate b' = certificate b.

Lemma mine_step_content now b : same_content b (mine_step now b).
Proof. unfold mine_step. by destruct (nonce b =? U64_MAX)%Z. Qed.

Lemma calculate_hash_set_hash b h : calculate_hash (set_hash b h) = calculate_hash b.
Proof. done. Qed.

Lemma mine_step_valid now b : is_valid (mine_step now b) = true.
Proof. unfold mine_step, is_valid. rewrite calculate_hash_set_hash. apply str_eqb_refl. Qed.

Lemma mine_loop_sound fuel clock d b b' :
  is_valid b = true → mine_loop fuel clock d b = Some b' →
  is_valid b' = true ∧ has_valid_pow b' d = true ∧ same_content b b'.
Proof.
  revert b. induction fuel as [|fuel IH]; intros b Hv; simpl;
    destruct (starts_with _ (hash b)) eqn:Hs; try done.
  - intros [= <-]. unfold has_valid_pow. by rewrite has_leading_zeros_prefix.
  - intros [= <-]. unfold has_valid_pow. by rewrite has_leading_zeros_prefix.
  - intros Hm. apply IH in Hm as (H1 & H2 & H3); [|apply mine_step_valid].
    split; [done|]. split; [done|]. destruct (mine_step_content (clock fuel) b) as (?&?&?&?&?).
    destruct H3 as (?&?&?&?&?). repeat split; congruence.
Qed.

(** The hash of [b] at nonce [n]. *)
Definition hash_at (b : Block) (n : Z) : string := calculate_hash (set_nonce b n).

Lemma mine_loop_complete k fuel clock d b :
  is_valid b = true → (0 ≤ nonce b)%Z → (nonce b + Z.of_nat k ≤ U64_MAX)%Z →
  (∀ j, j < k → has_leading_zeros (hash_at b (nonce b + Z.of_nat j)) d = false) →
  has_leading_zeros (hash_at b (nonce b + Z.of_nat k)) d = true →
  k ≤ fuel →
  ∃ b', mine_loop fuel clock d b = Some b' ∧ nonce b' = (nonce b + Z.of_nat k)%Z
    ∧ timestamp b' = timestamp b.
Proof.
  revert fuel b. induction k as [|k IH]; intros fuel b Hv H0 Hmax Hbad Hgood Hfuel.
  - exists b. unfold is_valid in Hv. bool_hyps.
    assert (hash_at b (nonce b + Z.of_nat 0) = hash b) as Hh.
    { rewrite Z.add_0_r. unfold hash_at. rewrite Hv. by destruct b. }
    rewrite Hh, has_leading_zeros_prefix in Hgood.
    split; [|split; [lia | done]]. destruct fuel; simpl; by rewrite Hgood.
  - destruct fuel as [|fuel]; [lia|]. simpl.
    assert (starts_with (zeros d) (hash b) = false) as ->.
    { specialize (Hbad 0 ltac:(lia)). rewrite has_leading_zeros_prefix, Z.add_0_r in Hbad.
      unfold is_valid in Hv. bool_hyps. rewrite Hv. unfold hash_at in Hbad.
      by destruct b. }
    set (b1 := mine_step (clock fuel) b).
    assert (b1 = set_hash (set_nonce b (nonce b + 1)) (hash_at b (nonce b + 1))) as Hb1.
    { unfold b1, mine_step. destruct (Z.eqb_spec (nonce b) U64_MAX); [lia|].
      by rewrite add64_small by lia. }
    assert (∀ n, hash_at b1 n = hash_at b n) as Hh by (intros n; by rewrite Hb1).
    assert (nonce b1 = (nonce b + 1)%Z) as Hn by (by rewrite Hb1).
    assert (timestamp b1 = timestamp b) as Ht by (by rewrite Hb1).
    destruct (IH fuel b1) as (b' & H1 & H2 & H3).
    + apply mine_step_valid.
    + lia.
    + lia.
    + intros j Hj. rewrite Hh, Hn. specialize (Hbad (S j) ltac:(lia)).
      by replace (nonce b + 1 + Z.of_nat j)%Z with (nonce b + Z.of_nat (S j))%Z by lia.
    + rewrite Hh, Hn.
      by replace (nonce b + 1 + Z.of_nat k)%Z with (nonce b + Z.of_nat (S k))%Z by lia.
    + lia.
    + exists b'. split; [done|]. split; [lia | congruence].
Qed.

Lemma rehash_valid b : is_valid (set_hash b (calculate_hash b)) = true.
Proof. unfold is_valid. rewrite calculate_hash_set_hash. apply str_eqb_refl. Qed.

Lemma mine_sound fuel clock d b b' :
  mine fuel clock d b = Some b' →
  is_valid b' = true ∧ has_valid_pow b' d = true ∧ same_content b b'.
Proof. intros Hm. by apply mine_loop_sound in Hm; [|apply rehash_valid]. Qed.

(** C39: mining is correct and terminates at the first satisfying nonce: whatever
    it returns has a hash that is the digest of its own header, satisfies the
    difficulty, and commits the same index, transactions, write set and previous
    hash; and if the hash meets the target first at nonce [k] (before the [u64]
    nonce wraps), then [k] iterations of fuel suffice and the mined block has
    exactly that nonce and an unchanged timestamp. *)
Theorem mine_correct d b :
  (∀ fuel clock b', mine fuel clock d b = Some b' →
     is_valid b' = true ∧ has_valid_pow b' d = true ∧ same_content b b')
  ∧ ∀ k fuel clock,
      (0 ≤ nonce b)%Z → (nonce b + Z.of_nat k ≤ U64_MAX)%Z →
      (∀ j, j < k → has_leading_zeros (hash_at b (nonce b + Z.of_nat j)) d = false) →
      has_leading_zeros (hash_at b (nonce b + Z.of_nat k)) d = true → k ≤ fuel →
      ∃ b', mine fuel clock d b = Some b' ∧ nonce b' = (nonce b + Z.of_nat k)%Z
        ∧ timestamp b' = timestamp b.
Proof.
  split; [intros fuel clock b'; apply mine_sound|].
  intros k fuel clock H0 Hmax Hbad Hgood Hf.
  apply (mine_loop_complete k fuel clock d (set_hash b (calculate_hash b))); try done.
  apply rehash_valid.
Qed.

(** The shipped Proof-of-Work predicate is the prefix test the miner loops on,
    and a hash that meets a difficulty meets every lower one. *)
Theorem leading_zeros_spec h d :
  has_leading_zeros h d = starts_with (zeros d) h
  ∧ (has_leading_zeros h d = true → ∀ d', d' ≤ d → has_leading_zeros h d' = true).
Proof.
  split; [apply has_leading_zeros_prefix|]. intros H d' Hd. by eapply has_leading_zeros_mono.
Qed.

(** The block a Proof-of-Work proposer builds passes the provider's own check. *)
Lemma pow_propose_validate fuel clock now d txs p n :
  pow_propose_block fuel clock now d (add64 (index p) 1) txs p = Some n →
  pow_validate_block d (cn_block n) p = Ok tt ∧ notification_validate n = Ok tt.
Proof.
  unfold pow_propose_block. intros H. apply fmap_Some in H as (b & Hm & ->).
  apply mine_sound in Hm as (Hv & Hp & Hi & _ & _ & Hprev & _). simpl in *.
  split.
  - unfold pow_validate_block.
    assert (chains_to b p = Ok tt) as ->; [|by rewrite Hp].
    apply chains_to_Ok. unfold is_valid in Hv. bool_hyps. done.
  - unfold notification_validate, cert_validate, decide_cert. simpl.
    by rewrite Z.eqb_refl, str_eqb_refl.
Qed.

(** A certificate passes structural validation exactly when it names the
    block's index and hash and is either the degenerate Proof-of-Work form or
    carries a non-empty BLS12-381 aggregate. *)
Theorem cert_validate_spec c b :
  cert_validate c b = Ok tt ↔
  qc_block_index c = index b ∧ qc_block_hash c = hash b
  ∧ (signers_bitmap c = [] ∨
     (aggregate_signature c ≠ "" ∧ qc_algorithm c = Bls12381)).
Proof.
  unfold cert_validate, decide_cert, is_degenerate.
  destruct (qc_block_index c =? index b)%Z eqn:E1; [|simpl; bool_hyps; naive_solver].
  destruct (qc_block_hash c ==? hash b) eqn:E2; [|simpl; bool_hyps; naive_solver].
  destruct (signers_bitmap c); [simpl; bool_hyps; naive_solver|].
  destruct (aggregate_signature c), (qc_algorithm c); simpl; bool_hyps; naive_solver.
Qed.

(** ** Linked chains *)

(** [for i in 1..chain.len() { f(&chain[i], &chain[i - 1])? }] *)
Fixpoint each_link {Er} (f : Block → Block → result Er unit) (chain : list Block)
  : result Er unit :=
  match chain with
  | p :: ((b :: _) as rest) => let? _ := f b p in each_link f rest
  | _ => Ok tt
  end.

(** Every block but the first chains to its predecessor; the first hashes to
    its own header. *)
Fixpoint linked (chain : list Block) : Prop :=
  match chain with
  | p :: ((b :: _) as rest) => chains_to b p = Ok tt ∧ linked rest
  | _ => True
  end.

Lemma each_link_linked {Er} (f : Block → Block → result Er unit) chain :
  (∀ b p, f b p = Ok tt → chains_to b p = Ok tt) → each_link f chain = Ok tt → linked chain.
Proof.
  intros Hf. induction chain as [|p [|b rest] IH]; [done | done |].
  cbn [each_link linked]. destruct (f b p) as [[]|] eqn:Hb; [|done]. intros H.
  split; [by apply Hf | by apply IH].
Qed.

Lemma each_link_snoc {Er} (f : Block → Block → result Er unit) chain p b :
  each_link f (chain ++ [p; b]) =
  match each_link f (chain ++ [p]) with Ok _ => f b p | Err e => Err e end.
Proof.
  induction chain as [|x [|y chain] IH].
  - simpl. by destruct (f b p) as [[]|].
  - simpl. destruct (f p x) as [[]|]; [|done]. by destruct (f b p) as [[]|].
  - simpl app in *. cbn [each_link] in *. destruct (f y x) as [[]|]; [|done]. apply IH.
Qed.

Lemma linked_snoc chain p b :
  linked (chain ++ [p; b]) ↔ linked (chain ++ [p]) ∧ chains_to b p = Ok tt.
Proof.
  induction chain as [|x [|y chain] IH].
  - simpl. naive_solver.
  - simpl. naive_solver.
  - simpl app in *. cbn [linked] in *. rewrite IH. tauto.
Qed.

(** Along a linked chain from index 0 the index is the position. *)
Lemma linked_index chain g i b :
  linked (g :: chain) → index g = 0%Z → (Z.of_nat (length chain) ≤ U64_MAX)%Z →
  (g :: chain) !! i = Some b → index b = Z.of_nat i.
Proof.
  intros Hl Hg Hlen. revert b. induction i as [|i IH]; intros b Hb.
  - simpl in Hb. by injection Hb as <-.
  - assert (S i < length (g :: chain)) as Hlt by (by eapply lookup_lt_Some).
    destruct (lookup_lt_is_Some_2 (g :: chain) i) as [p Hp]; [lia|].
    specialize (IH p Hp).
    assert (chains_to b p = Ok tt) as (_ & Hi & _)%chains_to_Ok.
    { clear -Hl Hp Hb. revert g chain Hl Hp Hb.
      induction i as [|i IH]; intros g [|c chain] Hl Hp Hb; try done.
      - simpl in Hp, Hb. injection Hp as <-. injection Hb as <-. by destruct Hl.
      - destruct Hl as [_ Hl]. by apply (IH c chain). }
    rewrite Hi, IH, add64_small; simpl in Hlt; lia.
Qed.

(** No block of one list shares its hash with a block of the other while
    committing a different header. *)
Definition no_collision (c1 c2 : list Block) : Prop :=
  ∀ b1 b2, b1 ∈ c1 → b2 ∈ c2 → calculate_hash b1 = calculate_hash b2 → header b1 = header b2.

Lemma linked_last_valid g chain b :
  is_valid g = true → linked (g :: chain) → last (g :: chain) = Some b →
  hash b = calculate_hash b.
Proof.
  intros Hg Hl Hb. revert b Hb. destruct chain as [|p chain _] using rev_ind; intros b Hb.
  - injection Hb as <-. unfold is_valid in Hg. by bool_hyps.
  - rewrite app_comm_cons, last_snoc in Hb. injection Hb as ->.
    destruct (exists_last (l := g :: chain)) as (pre & q & Heq); [done|].
    rewrite app_comm_cons, Heq in Hl. rewrite <- app_assoc in Hl.
    apply linked_snoc in Hl as [_ Hc]. apply chains_to_Ok in Hc as (_ & _ & ?). done.
Qed.

Lemma linked_same_length_inj n c1 c2 g1 g2 b1 b2 :
  length c1 = n → length c2 = n →
  linked (g1 :: c1) → linked (g2 :: c2) → is_valid g1 = true → is_valid g2 = true →
  no_collision (g1 :: c1) (g2 :: c2) →
  last (g1 :: c1) = Some b1 → last (g2 :: c2) = Some b2 → hash b1 = hash b2 →
  header <$> (g1 :: c1) = header <$> (g2 :: c2).
Proof.
  revert c1 c2 b1 b2. induction n as [|n IH]; intros c1 c2 b1 b2 Hn1 Hn2 Hl1 Hl2 Hg1 Hg2 Hnc Hb1 Hb2 Hh.
  - destruct c1, c2; try done. injection Hb1 as ->. injection Hb2 as ->. simpl. f_equal.
    apply Hnc; [left | left |]. unfold is_valid in *. bool_hyps. congruence.
  - destruct c1 as [|x1 c1 _] using rev_ind; [done|].
    destruct c2 as [|x2 c2 _] using rev_ind; [done|].
    rewrite length_app in Hn1, Hn2. simpl in Hn1, Hn2.
    pose proof (linked_last_valid _ _ _ Hg1 Hl1 Hb1) as Hv1.
    pose proof (linked_last_valid _ _ _ Hg2 Hl2 Hb2) as Hv2.
    rewrite app_comm_cons, last_snoc in Hb1, Hb2. injection Hb1 as ->. injection Hb2 as ->.
    assert (header b1 = header b2) as Hhd.
    { apply Hnc; [| |congruence]; rewrite app_comm_cons; apply elem_of_app; right; by left. }
    destruct (exists_last (l := g1 :: c1)) as (p1 & q1 & Hq1); [done|].
    destruct (exists_last (l := g2 :: c2)) as (p2 & q2 & Hq2); [done|].
    rewrite app_comm_cons, Hq1, <- app_assoc in Hl1. rewrite app_comm_cons, Hq2, <- app_assoc in Hl2.
    apply linked_snoc in Hl1 as [Hl1 (Hp1 & _)%chains_to_Ok].
    apply linked_snoc in Hl2 as [Hl2 (Hp2 & _)%chains_to_Ok].
    rewrite !app_comm_cons, !fmap_app. cbn [fmap list_fmap]. rewrite Hhd. f_equal.
    apply (IH c1 c2 q1 q2).
    + lia.
    + lia.
    + by rewrite Hq1.
    + by rewrite Hq2.
    + done.
    + done.
    + intros x y Hx Hy. apply Hnc; rewrite app_comm_cons; apply elem_of_app; by left.
    + rewrite Hq1. apply last_snoc.
    + rewrite Hq2. apply last_snoc.
    + rewrite <- Hp1, <- Hp2. unfold header in Hhd. by injection Hhd.
Qed.

(** C8: the ledger is tamper-evident: two linked chains from a valid genesis block at
    index 0, of at most 2^64 blocks (heights are 64-bit), whose tips carry the same hash have the same length and commit the
    same header (index, timestamp, transactions, write set, previous hash and
    nonce) at every height, unless SHA-256 over the header serialisation collides
    on two of their blocks. *)
Theorem chain_tamper_evident g1 c1 g2 c2 b1 b2 :
  linked (g1 :: c1) → linked (g2 :: c2) → is_valid g1 = true → is_valid g2 = true →
  index g1 = 0%Z → index g2 = 0%Z →
  (Z.of_nat (length c1) ≤ U64_MAX)%Z → (Z.of_nat (length c2) ≤ U64_MAX)%Z →
  no_collision (g1 :: c1) (g2 :: c2) →
  last (g1 :: c1) = Some b1 → last (g2 :: c2) = Some b2 → hash b1 = hash b2 →
  header <$> (g1 :: c1) = header <$> (g2 :: c2).
Proof.
  intros Hl1 Hl2 Hg1 Hg2 Hi1 Hi2 Hs1 Hs2 Hnc Hb1 Hb2 Hh.
  assert (length c1 = length c2) as Hlen.
  { assert (header b1 = header b2) as Hhd.
    { apply Hnc; [by apply last_Some_elem_of | by apply last_Some_elem_of |].
      rewrite <- (linked_last_valid _ _ _ Hg1 Hl1 Hb1), <- (linked_last_valid _ _ _ Hg2 Hl2 Hb2).
      done. }
    rewrite last_lookup in Hb1, Hb2. simpl pred in Hb1, Hb2.
    apply (linked_index _ _ _ _ Hl1 Hi1 Hs1) in Hb1.
    apply (linked_index _ _ _ _ Hl2 Hi2 Hs2) in Hb2.
    unfold header in Hhd. injection Hhd. intros. lia. }
  by apply (linked_same_length_inj (length c1) c1 c2 g1 g2 b1 b2).
Qed.

End chain.
