(* ===== verification/Capability.v ===== *)
(** The capability registry and height-based activation (glasschain-core:
    capability.rs).

    [CapabilityHistory] is the fold of committed blocks; [effective_set] selects
    the set at a height.  The theorems: an activation never changes the rules at
    or below the height of the block that carries it, each capability is
    activated at most once, every entry of every effective set is a registered
    (version, hash) identity, and replaying a chain block by block equals
    rebuilding it. *)

From S2P Require Import Prelude Types Canonical.

(** [CapabilitySet]: capability id → active (version, hash). *)
Notation CapabilitySet := (gmap string (Z * string)).

Section capability.
Context `{E : Env}.

Record CapabilityDescriptor := mkCapability { cap_id : string; cap_version : Z }.

Definition STATE_COMMITMENT_CAPABILITY_ID : string := "state_commitment".
Definition ENDORSEMENT_CAPABILITY_ID : string := "endorsement".
Definition PDC_CAPABILITY_ID : string := "pdc".
Definition BFT_CONSENSUS_CAPABILITY_ID : string := "bft_consensus".

Definition CAPABILITY_V1 : list CapabilityDescriptor :=
  [ mkCapability "canonical_schema_v1" 1; mkCapability STATE_COMMITMENT_CAPABILITY_ID 1;
    mkCapability PDC_CAPABILITY_ID 1; mkCapability "endorsement" 1;
    mkCapability BFT_CONSENSUS_CAPABILITY_ID 1 ].

Definition GENESIS_CAPABILITIES : list string :=
  ["canonical_schema_v1"; STATE_COMMITMENT_CAPABILITY_ID].

Definition capability_hash (id : string) (version : Z) : string :=
  sha256 (id +:+ "|v" +:+ pretty version).

Definition lookup_capability (id : string) : option CapabilityDescriptor :=
  List.find (λ c, cap_id c ==? id) CAPABILITY_V1.

(** [CapabilitySet::genesis] *)
Definition genesis_set : CapabilitySet :=
  foldl (λ active id,
    match lookup_capability id with
    | Some d => <[id := (cap_version d, capability_hash id (cap_version d))]> active
    | None => active
    end) ∅ GENESIS_CAPABILITIES.

Definition is_active (set : CapabilitySet) (id : string) : bool := is_some (set !! id).
Definition active_version (set : CapabilitySet) (id : string) : option (Z * string) := set !! id.

Definition insert_activation (set : CapabilitySet) (a : CapabilityActivation) : CapabilitySet :=
  <[ca_capability_id a := (ca_version a, ca_hash a)]> set.

(** [CapabilityHistory]: the activations in application order. *)
Definition CapabilityHistory := list CapabilityActivation.

Definition effective_set (h : CapabilityHistory) (height : Z) : CapabilitySet :=
  foldl (λ set a, if (ca_activation_height a <=? height)%Z then insert_activation set a else set)
    genesis_set h.

(** [CapabilityHistory::apply] *)
Definition apply_activation (h : CapabilityHistory) (a : CapabilityActivation) (containing : Z)
  : result CoreError CapabilityHistory :=
  let id := ca_capability_id a in
  let fail m := @Err CoreError CapabilityHistory
                  (InvalidTransaction ("capability activation: " +:+ m)) in
  match lookup_capability id with
  | None => fail ("unknown capability '" +:+ id +:+ "'")
  | Some d =>
      if negb (ca_version a =? cap_version d)%Z
      then fail ("'" +:+ id +:+ "' version " +:+ pretty (ca_version a) +:+ " is not registered")
      else
      if negb (ca_hash a ==? capability_hash id (ca_version a))
      then fail ("hash mismatch for '" +:+ id +:+ "/v" +:+ pretty (ca_version a) +:+ "'") else
      if (ca_activation_height a <=? containing)%Z
      then fail ("height " +:+ pretty (ca_activation_height a)
             +:+ " must be strictly future of its block " +:+ pretty containing) else
      if existsb (λ e, ca_capability_id e ==? id) h
      then fail ("'" +:+ id +:+ "' is already activated (append-only)") else
      if match ca_signatures a with [] => true | _ => false end
      then fail "at least one governance signature is required" else
      Ok (h ++ [a])
  end.

Definition validate_record_under (set : CapabilitySet) (r : CanonicalRecord)
  : result CoreError unit :=
  let? _ := validate_record r in
  if (schema_id r ==? STATE_COMMITMENT_CAPABILITY_ID)
     && negb (is_active set STATE_COMMITMENT_CAPABILITY_ID)
  then Err (InvalidTransaction "canonical record state_commitment: capability 'state_commitment' is not active at this height")
  else Ok tt.

(** The loop body of [CapabilityHistory::validate_block]; [set] is the set
    effective at the block's height when the loop starts.  The history is
    mutated in place, so on an error the caller is left with the history of the
    transactions before the failing one: the result carries it. *)
Fixpoint capability_txs (set : CapabilitySet) (idx : Z) (h : CapabilityHistory)
    (txs : list Transaction) : CapabilityHistory * result CoreError unit :=
  match txs with
  | [] => (h, Ok tt)
  | tx :: txs =>
      match tx_kind tx with
      | KCanonicalRecord r =>
          match validate_record_under set r with
          | Ok _ => capability_txs set idx h txs
          | Err e => (h, Err e)
          end
      | KCapabilityActivation a =>
          match apply_activation h a idx with
          | Ok h' => capability_txs set idx h' txs
          | Err e => (h, Err e)
          end
      | _ => capability_txs set idx h txs
      end
  end.

(** [CapabilityHistory::validate_block(&mut self, block)] *)
Definition capability_validate_block (h : CapabilityHistory) (b : Block)
  : CapabilityHistory * result CoreError unit :=
  capability_txs (effective_set h (index b)) (index b) h (transactions b).

(** The same step for callers that drop the history on an error. *)
Definition capability_fold_block (h : CapabilityHistory) (b : Block)
  : result CoreError CapabilityHistory :=
  match capability_validate_block h b with
  | (h', Ok _) => Ok h'
  | (_, Err e) => Err e
  end.

(** [CapabilityHistory::build_from_blocks] *)
Definition capability_build_from_blocks (blocks : list Block)
  : result CoreError CapabilityHistory := fold_result capability_fold_block blocks [].

(** ** The history invariant *)

(** Every activation is a registered identity, ids are pairwise distinct. *)
Definition history_wf (h : CapabilityHistory) : Prop :=
  NoDup (ca_capability_id <$> h)
  ∧ Forall (λ a, ∃ d, lookup_capability (ca_capability_id a) = Some d
      ∧ ca_version a = cap_version d
      ∧ ca_hash a = capability_hash (ca_capability_id a) (ca_version a)
      ∧ ca_signatures a ≠ []) h.

Lemma apply_activation_Ok h a c h' :
  apply_activation h a c = Ok h' →
  h' = h ++ [a] ∧ (c < ca_activation_height a)%Z ∧ (history_wf h → history_wf h').
Proof.
  unfold apply_activation. destruct (lookup_capability _) as [d|] eqn:Hl; [|done].
  destruct (ca_version a =? cap_version d)%Z eqn:Hv; [|done]. simpl.
  destruct (ca_hash a ==? _) eqn:Hh; [|done]. simpl.
  destruct (ca_activation_height a <=? c)%Z eqn:Hc; [done|].
  destruct (existsb _ h) eqn:He; [done|].
  destruct (ca_signatures a) eqn:Hs; [done|]. intros [= <-]. bool_hyps.
  split; [done|]. split; [lia|]. intros [Hnd Hall]. split.
  - rewrite fmap_app. apply NoDup_app. split; [done|]. split; [|apply NoDup_singleton].
    intros x (a' & -> & Ha')%list_elem_of_fmap Hx%list_elem_of_singleton.
    pose proof (proj1 (existsb_not_elem_of _ _) He a' Ha') as Hne. simpl in Hne.
    bool_hyps. congruence.
  - apply Forall_app. split; [done|]. apply Forall_singleton. exists d.
    rewrite Hs. done.
Qed.

Lemma capability_txs_invariant set idx h txs :
  let h' := (capability_txs set idx h txs).1 in
  (history_wf h → history_wf h')
  ∧ ∃ new, h' = h ++ new ∧ Forall (λ a, (idx < ca_activation_height a)%Z) new.
Proof.
  revert h. induction txs as [|tx txs IH]; intros h; simpl.
  - split; [done|]. exists []. by rewrite app_nil_r.
  - assert (∀ h1, (history_wf h → history_wf h1) →
      (∃ new, h1 = h ++ new ∧ Forall (λ a, (idx < ca_activation_height a)%Z) new) →
      let h' := (capability_txs set idx h1 txs).1 in
      (history_wf h → history_wf h')
      ∧ ∃ new, h' = h ++ new ∧ Forall (λ a, (idx < ca_activation_height a)%Z) new) as Hgo.
    { intros h1 Hwf (n1 & -> & Hn1). destruct (IH (h ++ n1)) as [H1 (n2 & H2 & Hn2)].
      split; [tauto|]. exists (n1 ++ n2). rewrite app_assoc. split; [done|].
      by apply Forall_app. }
    assert (∃ new, h = h ++ new ∧ Forall (λ a, (idx < ca_activation_height a)%Z) new) as H0
      by (exists []; by rewrite app_nil_r).
    destruct (tx_kind tx); try (by apply Hgo).
    + destruct (validate_record_under set r); [by apply Hgo | done].
    + destruct (apply_activation h a idx) as [h1|] eqn:Ha; [|done].
      apply apply_activation_Ok in Ha as (-> & Hlt & Hwf). apply Hgo; [done|].
      exists [a]. split; [done|]. by apply Forall_singleton.
Qed.

Lemma capability_fold_block_Ok h b h' :
  capability_fold_block h b = Ok h' → capability_validate_block h b = (h', Ok tt).
Proof.
  unfold capability_fold_block. destruct (capability_validate_block h b) as [h1 [[]|]]; [|done].
  by intros [= <-].
Qed.

Lemma capability_fold_block_invariant h b h' :
  capability_fold_block h b = Ok h' →
  (history_wf h → history_wf h')
  ∧ ∃ new, h' = h ++ new ∧ Forall (λ a, (index b < ca_activation_height a)%Z) new.
Proof.
  intros H%capability_fold_block_Ok.
  pose proof (capability_txs_invariant (effective_set h (index b)) (index b) h (transactions b)) as Hi.
  unfold capability_validate_block in H. by rewrite H in Hi.
Qed.

(** Activations above a height are invisible at it. *)
Lemma effective_set_future h new height :
  Forall (λ a, (height < ca_activation_height a)%Z) new →
  effective_set (h ++ new) height = effective_set h height.
Proof.
  intros Hnew. unfold effective_set. rewrite foldl_app.
  generalize (foldl (λ set a, if (ca_activation_height a <=? height)%Z
    then insert_activation set a else set) genesis_set h) as s.
  induction Hnew as [|a new Ha Hnew IH]; intros s; simpl; [done|].
  destruct (Z.leb_spec (ca_activation_height a) height); [lia|]. apply IH.
Qed.

(** A block never changes the rules it or any earlier block is judged under:
    folding block [b] into the history leaves the capability set effective at
    every height up to and including [b]'s index unchanged, so old blocks keep
    their meaning on replay. *)
Theorem activation_is_future h b h' height :
  capability_fold_block h b = Ok h' → (height ≤ index b)%Z →
  effective_set h' height = effective_set h height.
Proof.
  intros H Hle. apply capability_fold_block_invariant in H as (_ & new & -> & Hnew).
  apply effective_set_future. eapply Forall_impl; [exact Hnew|]. simpl. lia.
Qed.

(** The entry [insert_activation] leaves is the last one with that id. *)
Lemma effective_set_lookup h height id :
  history_wf h →
  effective_set h height !! id =
  match List.find (λ a, (ca_capability_id a ==? id) && (ca_activation_height a <=? height)%Z) h with
  | Some a => Some (ca_version a, ca_hash a)
  | None => genesis_set !! id
  end.
Proof.
  intros [Hnd _]. unfold effective_set. generalize genesis_set as s.
  induction h as [|a h IH]; intros s; simpl; [done|].
  rewrite fmap_cons, NoDup_cons in Hnd. destruct Hnd as [Hn Hnd].
  rewrite (IH Hnd). clear IH.
  destruct (ca_capability_id a ==? id) eqn:Hid; bool_hyps.
  - assert (List.find (λ a, (ca_capability_id a ==? id)
      && (ca_activation_height a <=? height)%Z) h = None) as Hnone.
    { destruct (List.find _ h) as [a'|] eqn:Hf; [|done].
      apply find_elem_of in Hf as [Ha' Heq]. bool_hyps. destruct Heq as [Heq _].
      exfalso. apply Hn. apply list_elem_of_fmap. exists a'. split; [congruence | done]. }
    rewrite Hnone. destruct (ca_activation_height a <=? height)%Z; simpl; [|done].
    unfold insert_activation. rewrite Hid. by rewrite lookup_insert_eq.
  - simpl. destruct (ca_activation_height a <=? height)%Z; [|done].
    unfold insert_activation. by rewrite lookup_insert_ne.
Qed.

Lemma genesis_set_registered id v hs :
  genesis_set !! id = Some (v, hs) →
  ∃ d, lookup_capability id = Some d ∧ v = cap_version d ∧ hs = capability_hash id v.
Proof.
  assert (genesis_set = <["state_commitment" := (1%Z, capability_hash "state_commitment" 1)]>
    (<["canonical_schema_v1" := (1%Z, capability_hash "canonical_schema_v1" 1)]> ∅)) as -> by done.
  destruct (decide (id = "state_commitment")) as [->|H1].
  - rewrite lookup_insert_eq. intros [= <- <-]. by eexists.
  - rewrite lookup_insert_ne by done.
    destruct (decide (id = "canonical_schema_v1")) as [->|H2].
    + rewrite lookup_insert_eq. intros [= <- <-]. by eexists.
    + rewrite lookup_insert_ne by done. by rewrite lookup_empty.
Qed.

Lemma build_wf blocks h : capability_build_from_blocks blocks = Ok h → history_wf h.
Proof.
  apply fold_result_invariant.
  - intros s b s' Hs _ H. apply capability_fold_block_invariant in H as [H _]. by apply H.
  - split; constructor.
Qed.

(** In the history derived from any chain of blocks, each capability is
    activated at most once and every entry of the set effective at any height is
    a registered capability at its registered version with the hash of that
    (id, version); a capability outside genesis is active at a height exactly
    when a committed activation names it at or below that height. *)
Theorem effective_set_registered blocks h height :
  capability_build_from_blocks blocks = Ok h →
  NoDup (ca_capability_id <$> h)
  ∧ (∀ id v hs, effective_set h height !! id = Some (v, hs) →
       ∃ d, lookup_capability id = Some d ∧ v = cap_version d ∧ hs = capability_hash id v)
  ∧ (∀ id, genesis_set !! id = None →
       (is_active (effective_set h height) id = true ↔
        ∃ a, a ∈ h ∧ ca_capability_id a = id ∧ (ca_activation_height a ≤ height)%Z)).
Proof.
  intros Hwf%build_wf. split; [apply Hwf|]. split.
  - intros id v hs. rewrite effective_set_lookup by done.
    destruct (List.find _ h) as [a|] eqn:Hf; [|apply genesis_set_registered].
    intros [= <- <-]. apply find_elem_of in Hf as [Ha Hb]. bool_hyps. destruct Hb as [<- _].
    destruct Hwf as [_ Hall]. eapply Forall_forall in Hall as (d & H1 & H2 & H3 & _); [|exact Ha].
    by exists d.
  - intros id Hg. unfold is_active. rewrite effective_set_lookup by done.
    destruct (List.find _ h) as [a|] eqn:Hf; simpl.
    + apply find_elem_of in Hf as [Ha Hb]. bool_hyps. destruct Hb as [<- Hb]. naive_solver lia.
    + rewrite Hg. simpl. split; [done|]. intros (a & Ha & <- & Hle).
      apply list_elem_of_In in Ha. apply (find_none _ _ Hf) in Ha as Hb.
      rewrite str_eqb_refl in Hb. simpl in Hb. bool_hyps. lia.
Qed.

(** Replay: folding one more block is rebuilding the longer chain. *)
Lemma capability_build_snoc blocks b :
  capability_build_from_blocks (blocks ++ [b]) =
  match capability_build_from_blocks blocks with
  | Ok h => capability_fold_block h b
  | Err e => Err e
  end.
Proof. apply fold_result_snoc. Qed.

End capability.
