(* ===== verification/Policy.v ===== *)
(** The endorsement-policy language, its committed history, and the evaluation
    of a transaction's endorsements (glasschain-core: endorsement.rs).

    [EndorsementProvider] is the seam to the identity layer: the operation and
    the laws core relies on.  Transaction-level theorems are proved against that
    interface; [Msp] discharges it for the registry-backed provider. *)

From S2P Require Import Prelude Types WriteSet.

(** A set of distinct principals: [HashSet<Principal>]. *)
Notation principals := (gset string).

(** ** Policy expressions *)

Section PolicyExpression_ind'.
Context (P : PolicyExpression → Prop)
  (Hleaf : ∀ p, P (SignedBy p))
  (Hnode : ∀ n rules, Forall P rules → P (NOutOf n rules)).
Fixpoint PolicyExpression_ind' (e : PolicyExpression) : P e :=
  match e with
  | SignedBy p => Hleaf p
  | NOutOf n rules =>
      Hnode n rules ((fix go (l : list PolicyExpression) : Forall P l :=
        match l with
        | [] => Forall_nil_2 _
        | x :: l => Forall_cons_2 _ x l (PolicyExpression_ind' x) (go l)
        end) rules)
  end.
End PolicyExpression_ind'.

Definition policy_and (rules : list PolicyExpression) : PolicyExpression :=
  NOutOf (length rules) rules.
Definition policy_or (rules : list PolicyExpression) : PolicyExpression := NOutOf 1 rules.

(** [PolicyExpression::validate] *)
Fixpoint validate_policy (e : PolicyExpression) : result CoreError unit :=
  match e with
  | SignedBy p =>
      guard? negb (is_empty p) else
        InvalidTransaction "endorsement policy: principal must not be empty" in Ok tt
  | NOutOf required rules =>
      guard? match rules with [] => false | _ => true end else
        InvalidTransaction "endorsement policy: NOutOf needs at least one rule" in
      guard? negb ((required =? 0)%nat || (length rules <? required)%nat) else
        InvalidTransaction ("endorsement policy: required " +:+ pretty (N.of_nat required)
          +:+ " must be in 1..=" +:+ pretty (N.of_nat (length rules))) in
      each_result validate_policy rules
  end.

Definition required_count (e : PolicyExpression) : nat :=
  match e with SignedBy _ => 1 | NOutOf n _ => n end.

(** [PolicyExpression::evaluate] *)
Fixpoint evaluate (ps : principals) (e : PolicyExpression) : bool :=
  match e with
  | SignedBy p => bool_decide (p ∈ ps)
  | NOutOf required rules =>
      if match rules with [] => true | _ => false end || (required =? 0)%nat then false else
      (required <=? length (List.filter (evaluate ps) rules))%nat
  end.

(** ** Scoped policies *)

Definition opt_list {A} (o : option A) : list A :=
  match o with Some a => [a] | None => [] end.

(** [key_policies.iter().find(|(k, _)| k == key)] *)
Definition find_key_policy (kps : list (string * PolicyExpression)) (key : string)
  : option PolicyExpression := snd <$> List.find (λ kp, kp.1 ==? key) kps.

Definition applicable (ps : ScopedPolicies) (target : ScopedTarget) : list PolicyExpression :=
  [channel_default ps] ++ opt_list (contract_default ps)
  ++ (if is_some (st_collection target) then opt_list (collection_policy ps) else [])
  ++ (st_keys target ≫= λ key, opt_list (find_key_policy (key_policies ps) key)).

(** [ScopedPolicies::validate] *)
Definition validate_scoped (ps : ScopedPolicies) : result CoreError unit :=
  let? _ := validate_policy (channel_default ps) in
  let? _ := match contract_default ps with Some p => validate_policy p | None => Ok tt end in
  let? _ := match collection_policy ps with Some p => validate_policy p | None => Ok tt end in
  each_result (λ kp,
    guard? negb (is_empty kp.1) else
      InvalidTransaction "endorsement policy: key-level policy names an empty key" in
    validate_policy kp.2) (key_policies ps).

(** ** Carriers *)

Definition covers (te : TransactionEndorsement) (w : PersistentWrite) : bool :=
  (pw_channel w ==? st_channel (te_target te))
  && (pw_contract w ==? st_contract (te_target te))
  && existsb (λ key, key ==? pw_key w) (st_keys (te_target te))
  && match pw_visibility w, st_collection (te_target te) with
     | Public, None => true
     | Pdc name, Some collection => name ==? collection
     | _, _ => false
     end.

Definition clear_endorsements (tx : Transaction) : Transaction :=
  mkTransaction (tx_id tx) (tx_timestamp tx) (tx_kind tx) [].

(** [TransactionEndorsement::payload] *)
Definition endorsement_payload `{E : Env} (tx : Transaction) : string :=
  json_tx (clear_endorsements tx).

(** ** Policy history *)

Definition NETWORK_GOVERNANCE_PRINCIPAL : string := "network-governance".

(** [PolicyHistory]: the updates in application order. *)
Definition PolicyHistory := list PolicyUpdate.

Definition default_policies : ScopedPolicies :=
  mkScopedPolicies (SignedBy NETWORK_GOVERNANCE_PRINCIPAL) None None [].

Definition policies_for (h : PolicyHistory) (channel contract : string) : ScopedPolicies :=
  let exact := List.find (λ u, (pu_channel u ==? channel) && (pu_contract u ==? contract))
                 (reverse h) in
  let channel_wide := List.find (λ u, (pu_channel u ==? channel) && is_empty (pu_contract u))
                 (reverse h) in
  match exact with
  | Some u => pu_policies u
  | None => match channel_wide with Some u => pu_policies u | None => default_policies end
  end.

(** [PolicyHistory::apply] *)
Definition apply_update (h : PolicyHistory) (u : PolicyUpdate) : result CoreError PolicyHistory :=
  guard? negb (is_empty (pu_channel u)) else
    InvalidTransaction "endorsement policy update: channel must not be empty" in
  let? _ := validate_scoped (pu_policies u) in
  Ok (h ++ [u]).

Definition policy_update_of (tx : Transaction) : option PolicyUpdate :=
  match tx_kind tx with KPolicyUpdate u => Some u | _ => None end.

(** The updates of a block ([pending]) and the keys whose policy they change. *)
Definition pending_updates (b : Block) : list PolicyUpdate :=
  omap policy_update_of (transactions b).
Definition changed_keys (b : Block) : list (string * string * string) :=
  pending_updates b ≫= λ u,
    (λ kp, (pu_channel u, pu_contract u, kp.1)) <$> key_policies (pu_policies u).

(** The committed writes plus every declared target key of non-policy
    transactions, in the iteration order of the source. *)
Definition written_keys (b : Block) : list (string * string * string) :=
  (scope <$> write_set b)
  ++ (List.filter (λ tx, negb (is_some (policy_update_of tx))) (transactions b) ≫= λ tx,
       tx_endorsements tx ≫= λ te,
         (λ key, (st_channel (te_target te), st_contract (te_target te), key))
           <$> st_keys (te_target te)).

(** [PolicyHistory::validate_block] *)
Definition policy_validate_block (h : PolicyHistory) (b : Block) : result CoreError PolicyHistory :=
  let? _ := each_result (λ w : string * string * string,
    guard? negb (bool_decide (w ∈ changed_keys b)) else
      InvalidTransaction ("endorsement policy: key '" +:+ w.2 +:+ "' on (" +:+ w.1.1 +:+ ", "
        +:+ w.1.2 +:+ ") is both policy-updated and written in the same block") in
    Ok tt) (written_keys b) in
  fold_result apply_update (pending_updates b) h.

(** [PolicyHistory::build_from_blocks] *)
Definition policy_build_from_blocks (blocks : list Block) : result CoreError PolicyHistory :=
  fold_result policy_validate_block blocks [].

(** ** Operation defaults *)

(** [record.payload.get(key).and_then(Value::as_str).filter(non-empty)] *)
Definition payload_str (r : CanonicalRecord) (key : string) : option string :=
  match payload r !! key ≫= as_str with
  | Some s => if is_empty s then None else Some s
  | None => None
  end.

Definition counterparty_rule (c : Value) : result CoreError PolicyExpression :=
  match as_str c with
  | Some name =>
      guard? negb (is_empty name) else
        InvalidTransaction "endorsement: state commitment counterparty must be a non-empty organization name" in
      Ok (SignedBy name)
  | None =>
      Err (InvalidTransaction "endorsement: state commitment counterparty must be a non-empty organization name")
  end.

Definition operation_default (tx : Transaction) : result CoreError (option PolicyExpression) :=
  match tx_kind tx with
  | KCapabilityActivation _ => Ok (Some (SignedBy "network-governance"))
  | KCanonicalRecord r =>
      if schema_id r ==? "delivery_receipt" then
        match payload_str r "receiver_id" with
        | None => Err (InvalidTransaction "endorsement: custody handoff record is missing 'receiver_id'")
        | Some receiver => Ok (Some (policy_and [SignedBy (issuer r); SignedBy receiver]))
        end
      else if schema_id r ==? "recall" then
        match payload_str r "issued_by" with
        | None => Err (InvalidTransaction "endorsement: recall record is missing 'issued_by'")
        | Some _ => Ok (Some (SignedBy (issuer r)))
        end
      else if (schema_id r ==? "quality_certification") || (schema_id r ==? "audit_attestation") then
        match payload_str r "issuer" with
        | None => Err (InvalidTransaction "endorsement: certification/audit record is missing 'issuer'")
        | Some iss => Ok (Some (SignedBy iss))
        end
      else if schema_id r ==? "state_commitment" then
        match payload r !! "counterparties" ≫= as_array with
        | None => Err (InvalidTransaction "endorsement: state commitment record is missing 'counterparties'")
        | Some cs =>
            let? rules := fold_result (λ rules c,
              let? rule := counterparty_rule c in Ok (rules ++ [rule])) cs [SignedBy (issuer r)] in
            Ok (Some (NOutOf (length rules) rules))
        end
      else Ok None
  | _ => Ok None
  end.

(** ** The provider seam (providers.rs) *)

(** [trait EndorsementProvider]: the evaluation of one expression at a height. *)
Class EndorsementProvider := provider_evaluate :
  PolicyExpression → EndorsementRequest → Z → result CoreError EndorsementEvaluation.

(** What core relies on an implementation for (the trait's documentation): the
    verdict is the expression's value on the counted principals, a principal is
    counted once, and only when a signer of the request claims it. *)
Class EndorsementLaws (P : EndorsementProvider) : Prop := {
  provider_verdict e req height ev :
    P e req height = Ok ev →
    satisfied ev = evaluate (list_to_set (distinct_principals ev)) e;
  provider_distinct e req height ev :
    P e req height = Ok ev → NoDup (distinct_principals ev);
  provider_claimed e req height ev p :
    P e req height = Ok ev → p ∈ distinct_principals ev →
    ∃ s, s ∈ er_signers req ∧ claimed_principal s = p }.

Section evaluation.
Context `{E : Env} {P : EndorsementProvider}.

Definition is_policy_update (tx : Transaction) : bool := is_some (policy_update_of tx).
Definition is_record (tx : Transaction) : bool :=
  match tx_kind tx with KCanonicalRecord _ => true | _ => false end.

Definition check_carrier (h : PolicyHistory) (tx : Transaction) (height : Z)
    (te : TransactionEndorsement) : result CoreError unit :=
  let req := mkEndorsementRequest (te_target te) (endorsement_payload tx) (te_signers te) in
  each_result (λ policy,
    let? ev := provider_evaluate policy req height in
    guard? satisfied ev else
      InvalidTransaction ("endorsement: transaction '" +:+ tx_id tx
        +:+ "' failed policy evaluation (required " +:+ pretty (N.of_nat (required_count policy))
        +:+ ")") in
    Ok tt)
    (applicable (policies_for h (st_channel (te_target te)) (st_contract (te_target te)))
       (te_target te)).

Definition default_request (tx : Transaction) : EndorsementRequest :=
  mkEndorsementRequest (mkScopedTarget "" "" [] None) (endorsement_payload tx)
    (tx_endorsements tx ≫= te_signers).

Definition evaluate_transaction_endorsements (h : PolicyHistory) (tx : Transaction)
    (partial_writes : list PersistentWrite) (height : Z) : result CoreError unit :=
  let? _ := each_result (λ w,
    guard? existsb (λ te, covers te w) (tx_endorsements tx) else
      InvalidTransaction ("endorsement: transaction '" +:+ tx_id tx +:+ "' writes key '"
        +:+ pw_key w +:+ "' outside every declared endorsement scope") in
    Ok tt) partial_writes in
  guard? negb (is_policy_update tx && match tx_endorsements tx with [] => true | _ => false end)
  else InvalidTransaction "endorsement: policy update carries no endorsement" in
  let? _ :=
    if is_record tx then Ok tt
    else each_result (check_carrier h tx height) (tx_endorsements tx) in
  let? default := operation_default tx in
  match default with
  | None => Ok tt
  | Some e =>
      let? ev := provider_evaluate e (default_request tx) height in
      guard? satisfied ev else
        InvalidTransaction ("endorsement: transaction '" +:+ tx_id tx
          +:+ "' failed its operation default (required " +:+ pretty (N.of_nat (required_count e))
          +:+ ")") in
      Ok tt
  end.
End evaluation.

(** ** The expression language *)

(** The principals an expression names. *)
Fixpoint leaves (e : PolicyExpression) : principals :=
  match e with
  | SignedBy p => {[p]}
  | NOutOf _ rules => ⋃ (leaves <$> rules)
  end.

Lemma filter_ext_elem {A} (f g : A → bool) l :
  (∀ x, x ∈ l → f x = g x) → List.filter f l = List.filter g l.
Proof.
  induction l as [|x l IH]; intros Hfg; simpl; [done|].
  rewrite (Hfg x) by left. rewrite IH; [done|]. intros y Hy. apply Hfg. by right.
Qed.

Lemma filter_all {A} (f : A → bool) l : (∀ x, x ∈ l → f x = true) → List.filter f l = l.
Proof.
  induction l as [|x l IH]; intros Hf; simpl; [done|].
  rewrite (Hf x) by left. rewrite IH; [done|]. intros y Hy. apply Hf. by right.
Qed.

Lemma evaluate_mono ps qs e : ps ⊆ qs → evaluate ps e = true → evaluate qs e = true.
Proof.
  intros Hsub. induction e as [p|n rules IH] using PolicyExpression_ind'; simpl.
  - rewrite !bool_decide_eq_true. set_solver.
  - destruct (_ || _); [done|]. rewrite !Nat.leb_le. intros Hle.
    etransitivity; [exact Hle|]. apply filter_length_le. intros x Hx.
    by eapply Forall_forall in IH.
Qed.

Lemma leaves_rule n rules r : r ∈ rules → leaves r ⊆ leaves (NOutOf n rules).
Proof.
  intros Hr p Hp. simpl. apply elem_of_union_list. exists (leaves r).
  split; [by apply list_elem_of_fmap_2 | done].
Qed.

(** Only the principals an expression names matter to it. *)
Lemma evaluate_local ps qs e :
  (∀ p, p ∈ leaves e → (p ∈ ps ↔ p ∈ qs)) → evaluate ps e = evaluate qs e.
Proof.
  induction e as [p|n rules IH] using PolicyExpression_ind'; intros Hpq.
  - simpl. apply bool_decide_ext, Hpq. simpl. set_solver.
  - simpl. destruct (_ || _); [done|]. do 2 f_equal. apply filter_ext_elem. intros r Hr.
    eapply Forall_forall in IH; [|exact Hr]. apply IH. intros p Hp.
    apply Hpq. by eapply leaves_rule.
Qed.

Lemma evaluate_empty e : evaluate ∅ e = false.
Proof.
  induction e as [p|n rules IH] using PolicyExpression_ind'; simpl; [done|].
  destruct (_ || _) eqn:Hg; [done|]. bool_hyps. destruct Hg as [_ Hn].
  apply Nat.leb_gt. assert (length (List.filter (evaluate ∅) rules) = 0) as ->; [|lia].
  assert (List.filter (evaluate ∅) rules = []) as ->; [|done].
  induction IH as [|r rules Hr _ IHr]; simpl; [done|]. by rewrite Hr.
Qed.

Lemma validate_policy_rules n rules :
  validate_policy (NOutOf n rules) = Ok tt →
  1 ≤ n ≤ length rules ∧ Forall (λ r, validate_policy r = Ok tt) rules.
Proof.
  simpl. destruct rules as [|r rules]; [done|].
  destruct (_ || _) eqn:Hg; [done|]. rewrite <- each_result_Ok. bool_hyps.
  destruct Hg as [H1 H2]. simpl in *. intros ?. split; [lia | done].
Qed.

Lemma validated_achievable e : validate_policy e = Ok tt → evaluate (leaves e) e = true.
Proof.
  induction e as [p|n rules IH] using PolicyExpression_ind'; intros Hv.
  - simpl. apply bool_decide_eq_true. set_solver.
  - apply validate_policy_rules in Hv as [Hn Hrules]. simpl.
    destruct rules as [|r0 rules]; [simpl in Hn; lia|].
    destruct (Nat.eqb_spec n 0); [lia|]. cbn [orb]. apply Nat.leb_le.
    rewrite filter_all; [lia|]. intros r Hr. eapply Forall_forall in Hrules; [|exact Hr].
    eapply Forall_forall in IH; [|exact Hr].
    eapply evaluate_mono; [|by apply IH]. by apply (leaves_rule n (r0 :: rules)).
Qed.

(** The policy language is fail-closed and monotone: no expression, validated
    or not, is satisfied by the empty set of principals; more signers never break
    a satisfied policy; only principals the expression names count; and every
    expression [validate] accepts can be met by its own principals. *)
Theorem policy_language_sound e :
  evaluate ∅ e = false
  ∧ (∀ ps qs, ps ⊆ qs → evaluate ps e = true → evaluate qs e = true)
  ∧ (∀ ps, evaluate ps e = evaluate (ps ∩ leaves e) e)
  ∧ (validate_policy e = Ok tt → evaluate (leaves e) e = true).
Proof.
  split; [apply evaluate_empty|]. split; [intros ps qs; apply evaluate_mono|].
  split; [|apply validated_achievable].
  intros ps. apply evaluate_local. set_solver.
Qed.

Lemma evaluate_and ps rules :
  rules ≠ [] → evaluate ps (policy_and rules) = forallb (evaluate ps) rules.
Proof.
  intros Hne. unfold policy_and. simpl. destruct rules as [|r rules]; [done|].
  cbn [length Nat.eqb orb]. clear Hne.
  assert (∀ l : list PolicyExpression,
    (length l <=? length (List.filter (evaluate ps) l))%nat = forallb (evaluate ps) l) as H.
  { clear. induction l as [|x l IH]; [done|]. cbn [length List.filter forallb].
    destruct (evaluate ps x); cbn [length andb]; [apply IH|].
    apply Nat.leb_gt. pose proof (List.filter_length_le (evaluate ps) l). lia. }
  apply (H (r :: rules)).
Qed.

Lemma evaluate_or ps rules : evaluate ps (policy_or rules) = existsb (evaluate ps) rules.
Proof.
  unfold policy_or. simpl. destruct rules as [|r rules]; [done|]. cbn [Nat.eqb orb].
  generalize (r :: rules) as l. intros l.
  induction l as [|x l IH]; simpl; [done|]. by destruct (evaluate ps x).
Qed.

(** ** Policy history *)

Lemma apply_update_Ok h u h' :
  apply_update h u = Ok h' →
  h' = h ++ [u] ∧ pu_channel u ≠ "" ∧ validate_scoped (pu_policies u) = Ok tt.
Proof.
  unfold apply_update. destruct (is_empty (pu_channel u)) eqn:Hc; [done|]. simpl.
  destruct (validate_scoped _) as [[]|] eqn:Hv; [|done]. intros [= <-]. bool_hyps. done.
Qed.

Lemma find_reverse_snoc {A} (f : A → bool) l x :
  List.find f (reverse (l ++ [x])) = if f x then Some x else List.find f (reverse l).
Proof. by rewrite reverse_snoc. Qed.

(** A committed policy update takes effect for exactly its scope: for the
    scope it names it is the policy set in force; a channel-wide update applies
    to every contract of the channel without an update of its own; and no other
    channel's policies change. *)
Theorem policy_update_effect h u h' :
  apply_update h u = Ok h' →
  policies_for h' (pu_channel u) (pu_contract u) = pu_policies u
  ∧ (∀ contract, pu_contract u = "" →
       (∀ v, v ∈ h → pu_channel v = pu_channel u → pu_contract v ≠ contract) →
       policies_for h' (pu_channel u) contract = pu_policies u)
  ∧ (∀ channel contract, channel ≠ pu_channel u →
       policies_for h' channel contract = policies_for h channel contract)
  ∧ (∀ contract, pu_contract u ≠ "" → contract ≠ pu_contract u →
       policies_for h' (pu_channel u) contract = policies_for h (pu_channel u) contract).
Proof.
  intros (-> & _ & _)%apply_update_Ok. unfold policies_for.
  split; [|split; [|split]].
  - by rewrite find_reverse_snoc, !str_eqb_refl.
  - intros contract Hc Hfree. rewrite !find_reverse_snoc, !str_eqb_refl, Hc. simpl.
    destruct ("" ==? contract); [done|].
    destruct (List.find _ (reverse h)) as [v|] eqn:Hf; [|done].
    apply find_elem_of in Hf as [Hv Hb]. rewrite elem_of_reverse in Hv. bool_hyps.
    destruct Hb as [Hb1 Hb2]. by apply Hfree in Hb2.
  - intros channel contract Hne. rewrite !find_reverse_snoc.
    assert ((pu_channel u ==? channel) = false) as -> by (apply str_eqb_neq; congruence). done.
  - intros contract Hne Hc. rewrite !find_reverse_snoc, str_eqb_refl.
    assert ((pu_contract u ==? contract) = false) as -> by (apply str_eqb_neq; congruence).
    apply is_empty_false in Hne as ->. done.
Qed.

Definition policies_wf (h : PolicyHistory) : Prop :=
  Forall (λ u, pu_channel u ≠ "" ∧ validate_scoped (pu_policies u) = Ok tt) h.

Lemma apply_update_wf h u h' : policies_wf h → apply_update h u = Ok h' → policies_wf h'.
Proof.
  intros Hh (-> & H1 & H2)%apply_update_Ok. apply Forall_app. split; [done|].
  by apply Forall_singleton.
Qed.

Lemma policy_validate_block_Ok h b h' :
  policy_validate_block h b = Ok h' →
  h' = h ++ pending_updates b
  ∧ (∀ w, w ∈ written_keys b → w ∉ changed_keys b)
  ∧ (policies_wf h → policies_wf h').
Proof.
  unfold policy_validate_block. destruct (each_result _ _) as [[]|] eqn:Hw; [|done].
  intros Hf. split; [|split].
  - clear Hw. revert h Hf. induction (pending_updates b) as [|u us IH]; intros h; simpl.
    + intros [= <-]. by rewrite app_nil_r.
    + destruct (apply_update h u) as [h1|] eqn:Hu; [|done]. intros Hf.
      apply apply_update_Ok in Hu as (-> & _). apply IH in Hf. by rewrite <- app_assoc in Hf.
  - intros w Hin. rewrite each_result_Ok, Forall_forall in Hw. specialize (Hw w Hin).
    simpl in Hw. destruct (bool_decide _) eqn:Hb; [done|]. by bool_hyps.
  - intros Hwf. eapply fold_result_invariant; [|exact Hwf|exact Hf].
    intros s u s' Hs _. by apply apply_update_wf.
Qed.

Lemma validate_scoped_nonempty h channel contract :
  policies_wf h → evaluate ∅ (channel_default (policies_for h channel contract)) = false.
Proof. intros _. apply evaluate_empty. Qed.

Lemma applicable_default ps t : channel_default ps ∈ applicable ps t.
Proof. left. Qed.

(** The policy in force is always the default or a committed, validated set. *)
Lemma policies_for_wf h channel contract :
  policies_wf h → validate_scoped (policies_for h channel contract) = Ok tt.
Proof.
  intros Hh. unfold policies_for.
  assert (∀ f u, List.find f (reverse h) = Some u → validate_scoped (pu_policies u) = Ok tt) as Hf.
  { intros f u Hu%find_elem_of. destruct Hu as [Hu _]. rewrite elem_of_reverse in Hu.
    by eapply Forall_forall in Hh as [_ ?]. }
  destruct (List.find _ _) as [u|] eqn:Hu; [by eapply Hf|].
  clear Hu. destruct (List.find _ _) as [u|] eqn:Hu; [by eapply Hf | done].
Qed.

Lemma policy_build_wf blocks h : policy_build_from_blocks blocks = Ok h → policies_wf h.
Proof.
  apply fold_result_invariant; [|constructor].
  intros s b s' Hs _ H. by apply policy_validate_block_Ok in H as (_ & _ & H); apply H.
Qed.

(** Every layer that applies to a target comes from the validated set. *)
Lemma applicable_validated ps target e :
  validate_scoped ps = Ok tt → e ∈ applicable ps target → validate_policy e = Ok tt.
Proof.
  intros Hv He. unfold validate_scoped in Hv.
  destruct (validate_policy (channel_default ps)) as [[]|] eqn:H1; [|done].
  destruct (match contract_default ps with Some p => _ | None => _ end) as [[]|] eqn:H2; [|done].
  destruct (match collection_policy ps with Some p => _ | None => _ end) as [[]|] eqn:H3; [|done].
  rewrite each_result_Ok, Forall_forall in Hv.
  unfold applicable in He. rewrite !elem_of_app, list_elem_of_singleton in He.
  destruct He as [-> | [He | [He | He]]]; [done | | |].
  - destruct (contract_default ps); [|by apply elem_of_nil in He].
    apply list_elem_of_singleton in He as ->. done.
  - destruct (is_some _); [|by apply elem_of_nil in He].
    destruct (collection_policy ps); [|by apply elem_of_nil in He].
    apply list_elem_of_singleton in He as ->. done.
  - apply list_elem_of_bind in He as (k & He & _). unfold find_key_policy in He.
    destruct (List.find _ _) as [[k' p]|] eqn:Hf; [|by apply elem_of_nil in He].
    apply list_elem_of_singleton in He as ->. apply find_elem_of in Hf as [Hin _].
    specialize (Hv _ Hin). simpl in *. by destruct (is_empty k').
Qed.

(** The update [u] names a policy for [key] in exactly this channel and contract. *)
Definition names_key (u : PolicyUpdate) (channel contract key : string) : Prop :=
  pu_channel u = channel ∧ pu_contract u = contract ∧ key ∈ (key_policies (pu_policies u)).*1.

(** What replay asks of a block: its updates are valid, and none names a key that the
    block writes, or that a transaction other than an update declares as a target, in
    the same channel and contract. *)
Record block_policies_ok (b : Block) : Prop := {
  bp_valid : ∀ u, u ∈ pending_updates b → pu_channel u ≠ "" ∧ validate_scoped (pu_policies u) = Ok tt;
  bp_written : ∀ u w, u ∈ pending_updates b → w ∈ write_set b →
    ~ names_key u (pw_channel w) (pw_contract w) (pw_key w);
  bp_declared : ∀ u tx te key, u ∈ pending_updates b → tx ∈ transactions b → policy_update_of tx = None →
    te ∈ tx_endorsements tx → key ∈ st_keys (te_target te) →
    ~ names_key u (st_channel (te_target te)) (st_contract (te_target te)) key }.

Lemma changed_keys_spec b c k key :
  (c, k, key) ∈ changed_keys b ↔ ∃ u, u ∈ pending_updates b ∧ names_key u c k key.
Proof.
  unfold changed_keys, names_key. rewrite list_elem_of_bind. split.
  - intros (u & (kp & [= -> -> ->] & Hkp)%list_elem_of_fmap & Hu). exists u. split; [done|].
    split; [done|]. split; [done|]. by apply list_elem_of_fmap_2.
  - intros (u & Hu & <- & <- & (kp & -> & Hkp)%list_elem_of_fmap). exists u. split; [|done].
    by apply (list_elem_of_fmap_2 (λ kp : string * PolicyExpression, (pu_channel u, pu_contract u, kp.1))).
Qed.

Lemma written_keys_spec b c k key :
  (c, k, key) ∈ written_keys b ↔
  (∃ w, w ∈ write_set b ∧ pw_channel w = c ∧ pw_contract w = k ∧ pw_key w = key)
  ∨ ∃ tx te, tx ∈ transactions b ∧ policy_update_of tx = None ∧ te ∈ tx_endorsements tx
      ∧ st_channel (te_target te) = c ∧ st_contract (te_target te) = k ∧ key ∈ st_keys (te_target te).
Proof.
  unfold written_keys. rewrite elem_of_app, list_elem_of_fmap, list_elem_of_bind. split.
  - intros [(w & [= -> -> ->] & Hw)|(tx & (te & (key' & [= -> -> ->] & Hk)%list_elem_of_fmap & Hte)%list_elem_of_bind
      & Htx)]; [left; eauto 10|right].
    apply list_elem_of_In, filter_In in Htx as [Htx%list_elem_of_In Hn]. exists tx, te.
    by destruct (policy_update_of tx).
  - intros [(w & Hw & <- & <- & <-)|(tx & te & Htx & Hn & Hte & <- & <- & Hk)]; [left; by exists w|right].
    exists tx. split; [|apply list_elem_of_In, filter_In; rewrite Hn; split; [by apply list_elem_of_In|done]].
    apply list_elem_of_bind. exists te. split; [|done]. apply list_elem_of_fmap. eauto.
Qed.

(** A loop whose steps append and check each element does so for the whole list. *)
Lemma fold_result_append {E A X} (f : list X → A → result E (list X)) (g : A → list X) (Q : A → Prop) :
  (∀ s x s', f s x = Ok s' ↔ s' = s ++ g x ∧ Q x) →
  ∀ l s s', fold_result f l s = Ok s' ↔ s' = s ++ (l ≫= g) ∧ Forall Q l.
Proof.
  intros Hf. induction l as [|x l IH]; intros s s'; simpl.
  { rewrite app_nil_r. split; [intros [= <-]; split; [done|constructor]|by intros [-> _]]. }
  rewrite Forall_cons. destruct (f s x) as [s1|e] eqn:Hx.
  - apply Hf in Hx as [-> Hq]. rewrite IH, <- app_assoc. tauto.
  - split; [done|]. intros (_ & Hq & _). assert (f s x = Ok (s ++ g x)) by (by apply Hf). congruence.
Qed.

Lemma apply_updates_iff us h h' :
  fold_result apply_update us h = Ok h' ↔
  h' = h ++ us ∧ Forall (λ u, pu_channel u ≠ "" ∧ validate_scoped (pu_policies u) = Ok tt) us.
Proof.
  rewrite (fold_result_append apply_update (λ u, [u])
    (λ u, pu_channel u ≠ "" ∧ validate_scoped (pu_policies u) = Ok tt)).
  { assert ((us ≫= λ u, [u]) = us) as ->; [|done]. induction us as [|u us IH]; [done|]. cbn in *. by rewrite IH. }
  intros s u s'. split; [apply apply_update_Ok|]. intros (-> & Hc & Hv). unfold apply_update.
  apply is_empty_false in Hc as ->. cbn. by rewrite Hv.
Qed.

Lemma policy_validate_block_iff h b h' :
  policy_validate_block h b = Ok h' ↔ h' = h ++ pending_updates b ∧ block_policies_ok b.
Proof.
  assert (each_result (λ w : string * string * string,
    guard? negb (bool_decide (w ∈ changed_keys b)) else
      InvalidTransaction ("endorsement policy: key '" +:+ w.2 +:+ "' on (" +:+ w.1.1 +:+ ", "
        +:+ w.1.2 +:+ ") is both policy-updated and written in the same block") in
    Ok tt) (written_keys b) = Ok tt ↔ ∀ c k key, (c, k, key) ∈ written_keys b → (c, k, key) ∉ changed_keys b) as Hw.
  { rewrite each_result_Ok, Forall_forall. split.
    - intros H c k key Hin. specialize (H _ Hin). by case_bool_decide.
    - intros H [[c k] key] Hin. by rewrite bool_decide_eq_false_2 by (by apply H). }
  assert (policy_validate_block h b = Ok h' ↔
    (∀ c k key, (c, k, key) ∈ written_keys b → (c, k, key) ∉ changed_keys b)
    ∧ h' = h ++ pending_updates b
    ∧ Forall (λ u, pu_channel u ≠ "" ∧ validate_scoped (pu_policies u) = Ok tt) (pending_updates b)) as ->.
  { rewrite <- Hw, <- apply_updates_iff. unfold policy_validate_block. destruct (each_result _ _) as [[]|]; naive_solver. }
  setoid_rewrite written_keys_spec. setoid_rewrite changed_keys_spec. rewrite Forall_forall. split.
  - intros (Hk & -> & Hv). split; [done|]. split; [done| |]; naive_solver.
  - intros (-> & [Hv H1 H2]). split; [|done]. naive_solver.
Qed.

(** C27: what policy replay accepts and derives.  Replaying a chain gives a history exactly
    when every block passes its check, and that history is then the updates of the blocks
    in order.  A block passes exactly when each of its updates names a channel and
    carries valid metadata, and none names a key that the block writes, or that one of its
    other transactions declares as a target, in the very channel and contract of the
    update.  In a replayed history the policy set in force for any scope is valid, so no
    layer of it is satisfied without a signature and each can be satisfied by the
    principals it names.  (The key rule compares exact scopes only: a channel-wide update
    passes beside a write in one of the channel's contracts, as
    [same_block_rule_misses_channel_wide] shows.) *)
Theorem policy_replay_sound blocks h :
  (policy_build_from_blocks blocks = Ok h ↔
   h = (blocks ≫= pending_updates) ∧ Forall block_policies_ok blocks)
  ∧ (policy_build_from_blocks blocks = Ok h → ∀ channel contract,
       let ps := policies_for h channel contract in
       validate_scoped ps = Ok tt
       ∧ ∀ target e, e ∈ applicable ps target →
           evaluate ∅ e = false ∧ evaluate (leaves e) e = true).
Proof.
  split.
  - unfold policy_build_from_blocks.
    by rewrite (fold_result_append _ _ _ policy_validate_block_iff).
  - intros Hb channel contract. pose proof (policies_for_wf h channel contract (policy_build_wf _ _ Hb)) as Hv.
    split; [done|]. intros target e He. split; [apply evaluate_empty|].
    by eapply validated_achievable, applicable_validated.
Qed.

(** ** Evaluation of a transaction's endorsements *)

(** The principals a list of signers claims. *)
Definition claimed (signers : list EndorserIdentity) : principals :=
  list_to_set (claimed_principal <$> signers).

Section evaluation_sound.
Context `{E : Env} {P : EndorsementProvider} {L : EndorsementLaws P}.

(** A satisfied verdict means the claimed principals satisfy the expression. *)
Lemma provider_satisfied e req height ev :
  provider_evaluate e req height = Ok ev → satisfied ev = true →
  evaluate (claimed (er_signers req)) e = true.
Proof.
  intros Hev Hs. rewrite (provider_verdict _ _ _ _ Hev) in Hs.
  eapply evaluate_mono; [|exact Hs]. intros p Hp. apply elem_of_list_to_set in Hp.
  destruct (provider_claimed _ _ _ _ _ Hev Hp) as (s & Hin & <-).
  unfold claimed. apply elem_of_list_to_set. by apply list_elem_of_fmap_2.
Qed.

Lemma evaluate_transaction_inv h tx ws height :
  evaluate_transaction_endorsements h tx ws height = Ok tt →
  (∀ w, w ∈ ws → ∃ te, te ∈ tx_endorsements tx ∧ covers te w = true)
  ∧ (is_policy_update tx = true → tx_endorsements tx ≠ [])
  ∧ (is_record tx = false → ∀ te, te ∈ tx_endorsements tx → check_carrier h tx height te = Ok tt)
  ∧ ∃ d, operation_default tx = Ok d
    ∧ ∀ e, d = Some e →
        ∃ ev, provider_evaluate e (default_request tx) height = Ok ev ∧ satisfied ev = true.
Proof.
  unfold evaluate_transaction_endorsements.
  destruct (each_result _ ws) as [[]|] eqn:Hw; [|done].
  destruct (is_policy_update tx && _) eqn:Hp; [done|]. simpl.
  destruct (if is_record tx then _ else _) as [[]|] eqn:Hc; [|done].
  destruct (operation_default tx) as [d|] eqn:Hd; [|done]. intros Hrest.
  split; [|split; [|split]].
  - intros w Hin. rewrite each_result_Ok, Forall_forall in Hw. specialize (Hw w Hin).
    simpl in Hw. destruct (existsb _ _) eqn:Hex; [|done]. by apply existsb_elem_of in Hex.
  - intros Hu. rewrite Hu in Hp. simpl in Hp. by destruct (tx_endorsements tx).
  - intros Hr. rewrite Hr, each_result_Ok, Forall_forall in Hc. done.
  - exists d. split; [done|]. intros e ->.
    destruct (provider_evaluate e _ height) as [ev|] eqn:Hev; [|done].
    destruct (satisfied ev) eqn:Hs; [|done]. eauto.
Qed.

Lemma check_carrier_verdict h tx height te :
  check_carrier h tx height te = Ok tt →
  ∀ e, e ∈ applicable (policies_for h (st_channel (te_target te)) (st_contract (te_target te)))
         (te_target te) →
  ∃ ev, provider_evaluate e (mkEndorsementRequest (te_target te) (endorsement_payload tx)
          (te_signers te)) height = Ok ev ∧ satisfied ev = true.
Proof.
  unfold check_carrier. rewrite each_result_Ok, Forall_forall. intros H e He.
  specialize (H e He). simpl in H.
  destruct (provider_evaluate e _ height) as [ev|] eqn:Hev; [|done].
  destruct (satisfied ev) eqn:Hs; [|done]. eauto.
Qed.

(** A transaction that passes endorsement evaluation writes only inside
    scopes its carriers declare; for every carrier of a non-record transaction
    the carrier's signers satisfy every policy layer (channel, contract,
    collection, key) in force for the carrier's scope; and all its signers
    together satisfy the operation default of its record family. *)
Theorem endorsed_transaction_sound h tx ws height :
  evaluate_transaction_endorsements h tx ws height = Ok tt →
  (∀ w, w ∈ ws → ∃ te, te ∈ tx_endorsements tx ∧ covers te w = true)
  ∧ (is_record tx = false → ∀ te e, te ∈ tx_endorsements tx →
       e ∈ applicable (policies_for h (st_channel (te_target te)) (st_contract (te_target te)))
             (te_target te) →
       evaluate (claimed (te_signers te)) e = true)
  ∧ (∀ e, operation_default tx = Ok (Some e) →
       evaluate (claimed (tx_endorsements tx ≫= te_signers)) e = true).
Proof.
  intros (H1 & _ & H3 & d & Hd & He)%evaluate_transaction_inv.
  split; [done|]. split.
  - intros Hr te e Hte Ha. destruct (check_carrier_verdict _ _ _ _ (H3 Hr te Hte) e Ha)
      as (ev & Hev & Hs). by apply (provider_satisfied _ _ _ _ Hev).
  - intros e Hde. destruct (He e) as (ev & Hev & Hs); [congruence|].
    by apply (provider_satisfied _ _ _ _ Hev).
Qed.

(** A custody handoff needs both parties: an accepted [delivery_receipt]
    record carries a signature claiming its issuer and one claiming the named
    receiver; a capability activation carries one of network governance. *)
Theorem custody_handoff_two_party h tx ws height :
  evaluate_transaction_endorsements h tx ws height = Ok tt →
  (∀ r, tx_kind tx = KCanonicalRecord r → schema_id r = "delivery_receipt" →
     ∃ receiver, payload_str r "receiver_id" = Some receiver
       ∧ {[issuer r; receiver]} ⊆ claimed (tx_endorsements tx ≫= te_signers))
  ∧ (∀ a, tx_kind tx = KCapabilityActivation a →
     NETWORK_GOVERNANCE_PRINCIPAL ∈ claimed (tx_endorsements tx ≫= te_signers)).
Proof.
  intros (_ & _ & _ & d & Hd & He)%evaluate_transaction_inv. split.
  - intros r Hk Hs. unfold operation_default in Hd. rewrite Hk, Hs in Hd. simpl in Hd.
    destruct (payload_str r "receiver_id") as [receiver|]; [|done]. injection Hd as <-.
    exists receiver. split; [done|]. destruct (He _ eq_refl) as (ev & Hev & Hs').
    apply (provider_satisfied _ _ _ _ Hev) in Hs'. clear He. rename Hs' into He.
    rewrite evaluate_and in He by done. simpl in He. bool_hyps. set_solver.
  - intros a Hk. unfold operation_default in Hd. rewrite Hk in Hd. injection Hd as <-.
    destruct (He _ eq_refl) as (ev & Hev & Hs). apply (provider_satisfied _ _ _ _ Hev) in Hs.
    simpl in Hs. by bool_hyps.
Qed.

End evaluation_sound.

(** A provider that takes every claim at face value (distinct claims, in order
    of first occurrence): the least an authenticated registry can do. *)
Definition claim_provider : EndorsementProvider := λ e req _,
  let ps := remove_dups (claimed_principal <$> er_signers req) in
  Ok (mkEndorsementEvaluation (evaluate (list_to_set ps) e) ps (required_count e)).

#[export] Instance claim_provider_laws : EndorsementLaws claim_provider.
Proof.
  split.
  - intros e req height ev [= <-]. done.
  - intros e req height ev [= <-]. apply NoDup_remove_dups.
  - intros e req height ev p [= <-] Hp. simpl in Hp. rewrite elem_of_remove_dups in Hp.
    apply list_elem_of_fmap in Hp as (s & -> & Hs). eauto.
Qed.

(** A policy update's authorization is not tied to the scope it changes: with
    channel [victim] governed by [owner], a transaction that replaces [victim]'s
    policy is accepted on the strength of one carrier scoped to the unrelated
    channel [mine], signed by [attacker] alone, although [attacker] does not
    satisfy the policy in force for [victim]; once committed, [attacker] alone
    satisfies it. *)
Theorem policy_update_scope_unbound `{E : Env} :
  ∃ h u tx h',
    tx_kind tx = KPolicyUpdate u
    ∧ evaluate_transaction_endorsements (P := claim_provider) h tx [] 1 = Ok tt
    ∧ evaluate (claimed (tx_endorsements tx ≫= te_signers))
        (channel_default (policies_for h (pu_channel u) (pu_contract u))) = false
    ∧ apply_update h u = Ok h'
    ∧ evaluate {["attacker"]} (channel_default (policies_for h' (pu_channel u) (pu_contract u)))
      = true.
Proof.
  set (pol p := mkScopedPolicies (SignedBy p) None None []).
  exists [mkPolicyUpdate "victim" "" (pol "owner"); mkPolicyUpdate "mine" "" (pol "attacker")].
  exists (mkPolicyUpdate "victim" "" (pol "attacker")).
  exists (mkTransaction "t" 0 (KPolicyUpdate (mkPolicyUpdate "victim" "" (pol "attacker")))
    [mkTransactionEndorsement (mkScopedTarget "mine" "" [] None)
       [mkEndorserIdentity "attacker" "pk" "sig" Ed25519]]).
  eexists. split; [done|]. by vm_compute.
Qed.

(** The same-block rule only compares exact scopes: a block that installs a
    channel-wide policy for key [k] and writes [k] in a contract of that channel
    passes replay, and the new policy is the one in force for that contract's
    key, so the write commits under the old policy in the block that replaces
    it. *)
Theorem same_block_rule_misses_channel_wide :
  ∃ b h', policy_validate_block [] b = Ok h'
    ∧ ∃ w e, w ∈ write_set b
      ∧ find_key_policy (key_policies (policies_for h' (pw_channel w) (pw_contract w)))
          (pw_key w) = Some e
      ∧ find_key_policy (key_policies (policies_for [] (pw_channel w) (pw_contract w)))
          (pw_key w) = None.
Proof.
  exists (mkBlock 1 0
    [mkTransaction "t" 0 (KPolicyUpdate (mkPolicyUpdate "ch" ""
       (mkScopedPolicies (SignedBy "a") None None [("k", SignedBy "b")]))) []]
    [mkPersistentWrite "ch" "ct" "k" (WSet "v") Public] "p" 0 "h" None).
  eexists. split; [by vm_compute|].
  exists (mkPersistentWrite "ch" "ct" "k" (WSet "v") Public), (SignedBy "b").
  split; [left|]. by vm_compute.
Qed.
