(* ===== verification/Msp.v ===== *)
(** Identities and the MSP endorsement provider (glasschain-identity:
    possession.rs, identity.rs, msp_policy.rs, endorsement.rs).

    The key directory with its height windows, the provider that core's policy
    evaluation runs against, the domain-separated messages that possession proofs
    sign, and the older signature-counting endorsement engine.  Ed25519 and the
    X.509 parser are parameters. *)

From S2P Require Import Prelude Types Policy.

(** Code outside the repository: the ed25519-dalek crate (which byte strings are
    keys, and when a signature verifies) and the x509-cert parser. *)
Record Certificate := mkCertificate {
  subject_organization : option string;
  subject_public_key : option string }.

Class Ed25519Crate := {
  ed_key_ok : string → bool;
  ed_verify : string → list Z → string → bool }.

Class X509 := parse_certificate : string → option Certificate.

(** ** Possession proofs (possession.rs) *)

Definition org_possession_message (org node_id binding : string) : list Z :=
  byte_list "glasschain-org-possession:" ++ len_prefixed org ++ len_prefixed node_id
  ++ len_prefixed binding.

Definition tofu_pin_message (node_id fingerprint : string) : list Z :=
  byte_list "glasschain-tofu-pin:" ++ len_prefixed node_id ++ len_prefixed fingerprint.

Definition msp_registration_message (org public_key : string) : list Z :=
  byte_list "glasschain-msp-registration:" ++ len_prefixed org ++ len_prefixed public_key.

Section identity.
Context `{E : Env} `{D : Ed25519Crate} `{X : X509}.

Definition verify_ed25519 (public_key : string) (message : list Z) (proof : string) : bool :=
  (slen public_key =? 32)%nat && ed_key_ok public_key && (slen proof =? 64)%nat
  && ed_verify public_key message proof.

Definition certificate_organization (cert_pem : string) : option string :=
  parse_certificate cert_pem ≫= subject_organization.

Definition certificate_ed25519_public_key (cert_pem : string) : option string :=
  match parse_certificate cert_pem ≫= subject_public_key with
  | Some raw => if (slen raw =? 32)%nat then Some raw else None
  | None => None
  end.

Definition verify_org_possession (cert_pem org node_id binding proof : string) : bool :=
  match certificate_ed25519_public_key cert_pem with
  | None => false
  | Some key => verify_ed25519 key (org_possession_message org node_id binding) proof
  end.

(** ** Signed transactions (identity.rs) *)

Inductive IdentityError :=
| CertGen (e : string)
| VerificationFailed
| InvalidPublicKey
| IdSerialization (e : string)
| IdNotFound (id : string)
| IdChannel (e : string).

Record SignedTransaction := mkSigned {
  signed_tx : Transaction;
  signature_bytes : string;
  signer_public_key : string;
  signer_node_id : string }.

(** [SignedTransaction::verify] *)
Definition signed_verify (s : SignedTransaction) : result IdentityError unit :=
  guard? (slen (signer_public_key s) =? 32)%nat else InvalidPublicKey in
  guard? ed_key_ok (signer_public_key s) else InvalidPublicKey in
  guard? (slen (signature_bytes s) =? 64)%nat else VerificationFailed in
  guard? ed_verify (signer_public_key s) (byte_list (json_tx (signed_tx s))) (signature_bytes s)
  else VerificationFailed in
  Ok tt.

(** ** The key directory (msp_policy.rs) *)

Inductive HeightOutcome := Authorized | NotYetValid | Revoked (at_height : Z).

Definition height_outcome (valid_from : Z) (revoked_at : option Z) (height : Z) : HeightOutcome :=
  if (height <? valid_from)%Z then NotYetValid else
  match revoked_at with
  | Some revoked => if (revoked <=? height)%Z then Revoked revoked else Authorized
  | None => Authorized
  end.

Record RegisteredPrincipal := mkRegistered {
  reg_principal : Principal;
  valid_from : Z;
  revoked_at : option Z }.

(** [MspEndorsementProvider]: public-key bytes to authorization record. *)
Notation Directory := (gmap string RegisteredPrincipal).

Definition register (d : Directory) (public_key : string) (p : Principal) : Directory :=
  <[public_key := mkRegistered p 0 None]> d.

Inductive MspRegistrationError :=
| MissingCertificate (node : string)
| CertificateError (e : string)
| OrgMismatch (org subject : string)
| NoPublicKey
| ProofInvalid.

(** [verify_cert_pem] is the configured [CertChainVerifier]. *)
Definition register_certificate (verify_cert_pem : string → result string unit) (d : Directory)
    (cert_pem proof org : string) (valid_from_height : Z)
  : result MspRegistrationError Directory :=
  let? _ := map_err CertificateError (verify_cert_pem cert_pem) in
  let subject := default "(absent)" (certificate_organization cert_pem) in
  guard? subject ==? org else OrgMismatch org subject in
  match certificate_ed25519_public_key cert_pem with
  | None => Err NoPublicKey
  | Some public_key =>
      guard? verify_ed25519 public_key (msp_registration_message org public_key) proof
      else ProofInvalid in
      Ok (<[public_key := mkRegistered org valid_from_height None]> d)
  end.

(** The parts of an [Identity] that registration uses. *)
Record Identity := mkIdentity {
  node_id : string;
  public_key_bytes : string;
  sign_bytes : list Z → string;
  certificate_pem : option string }.

Definition register_own_identity (verify_cert_pem : string → result string unit) (d : Directory)
    (i : Identity) (org : string) (valid_from_height : Z)
  : result MspRegistrationError Directory :=
  let? cert_pem := ok_or (certificate_pem i) (MissingCertificate (node_id i)) in
  let proof := sign_bytes i (msp_registration_message org (public_key_bytes i)) in
  register_certificate verify_cert_pem d cert_pem proof org valid_from_height.

Definition revoke (d : Directory) (public_key : string) (at_height : Z) : Directory * bool :=
  match d !! public_key with
  | Some r => (<[public_key := mkRegistered (reg_principal r) (valid_from r) (Some at_height)]> d, true)
  | None => (d, false)
  end.

(** ** [impl EndorsementProvider for MspEndorsementProvider] *)

(** One turn of the signer loop: the principal counted, if any. *)
Definition check_signer (d : Directory) (payload : string) (height : Z) (s : EndorserIdentity)
  : result CoreError (option Principal) :=
  let key := ei_public_key s in
  match d !! key with
  | None => Err (InvalidTransaction ("endorsement: unknown signing key (hex "
      +:+ hex_encode (String.substring 0 4 key) +:+ "...)"))
  | Some entry =>
      let p := reg_principal entry in
      guard? p ==? claimed_principal s else
        InvalidTransaction ("endorsement: claimed principal '" +:+ claimed_principal s
          +:+ "' conflicts with verified principal '" +:+ p +:+ "'") in
      match height_outcome (valid_from entry) (revoked_at entry) height with
      | NotYetValid => Err (InvalidTransaction ("endorsement: principal '" +:+ p
          +:+ "' is not authorized at height " +:+ pretty height +:+ " (valid from "
          +:+ pretty (valid_from entry) +:+ ")"))
      | Revoked revoked => Err (InvalidTransaction ("endorsement: principal '" +:+ p
          +:+ "' was revoked at height " +:+ pretty revoked))
      | Authorized =>
          guard? (slen key =? 32)%nat else
            InvalidTransaction "endorsement: public key is not 32 bytes" in
          guard? ed_key_ok key else
            InvalidTransaction "endorsement: public key is not a valid ed25519 key" in
          Ok (if (slen (ei_signature s) =? 64)%nat
                 && ed_verify key (byte_list payload) (ei_signature s)
              then Some p else None)
      end
  end.

Definition count_signer (d : Directory) (payload : string) (height : Z) (distinct : principals)
    (s : EndorserIdentity) : result CoreError principals :=
  let? o := check_signer d payload height s in
  Ok (match o with Some p => {[p]} ∪ distinct | None => distinct end).

Definition msp_evaluate (d : Directory) : EndorsementProvider := λ e req height,
  let? _ := validate_policy e in
  let? distinct := fold_result (count_signer d (er_payload req) height) (er_signers req) ∅ in
  Ok (mkEndorsementEvaluation (evaluate distinct e)
        (sort_by String.leb (elements distinct)) (required_count e)).

(** ** The signature-counting engine (endorsement.rs) *)

Record EndorsementPolicy := mkEndorsementPolicy {
  ep_name : string;
  endorser_org_names : list string;
  ep_required_count : nat }.

Record EndorsementSignature := mkEndorsementSignature {
  signed_transaction : SignedTransaction;
  org_name : string }.

Record EndorsementProposal := mkProposal {
  prop_transaction : Transaction;
  proposal_id : string;
  signatures_of : list EndorsementSignature;
  created_at : Z }.

Definition proposal_new (now : Z) (tx : Transaction) : EndorsementProposal :=
  mkProposal tx ("endorsement-" +:+ tx_id tx) [] now.

Definition add_signature (p : EndorsementProposal) (s : EndorsementSignature)
  : EndorsementProposal :=
  mkProposal (prop_transaction p) (proposal_id p) (signatures_of p ++ [s]) (created_at p).

Definition org_listed (p : EndorsementPolicy) (org : string) : bool :=
  existsb (str_eqb org) (endorser_org_names p).

Definition is_satisfied_by (p : EndorsementPolicy) (sigs : list EndorsementSignature) : bool :=
  (ep_required_count p <=? length (List.filter (λ s,
    org_listed p (org_name s) && is_ok (signed_verify (signed_transaction s))) sigs))%nat.

Inductive EndorsementResult :=
| Approved (proposal_id : string) (endorser_count : nat)
| Rejected (proposal_id : string) (collected required : nat).

(** The counting loop of [EndorsementEngine::evaluate]. *)
Fixpoint count_valid (p : EndorsementPolicy) (sigs : list EndorsementSignature) (n : nat) : nat :=
  match sigs with
  | [] => n
  | s :: sigs =>
      match signed_verify (signed_transaction s) with
      | Ok _ => count_valid p sigs (if org_listed p (org_name s) then S n else n)
      | Err _ => count_valid p sigs n
      end
  end.

Definition engine_evaluate (p : EndorsementPolicy) (prop : EndorsementProposal)
  : EndorsementResult :=
  let valid_count := count_valid p (signatures_of prop) 0 in
  if (ep_required_count p <=? valid_count)%nat then Approved (proposal_id prop) valid_count
  else Rejected (proposal_id prop) valid_count (ep_required_count p).

Definition is_approved (p : EndorsementPolicy) (prop : EndorsementProposal) : bool :=
  match engine_evaluate p prop with Approved _ _ => true | Rejected _ _ _ => false end.

(** ** Height windows *)

Lemma height_outcome_Authorized vf r h :
  height_outcome vf r h = Authorized ↔ (vf ≤ h)%Z ∧ ∀ k, r = Some k → (h < k)%Z.
Proof.
  unfold height_outcome. destruct (Z.ltb_spec h vf); [split; [done | intros [? _]; lia]|].
  destruct r as [k|]; [|naive_solver]. destruct (Z.leb_spec k h); split; try done.
  - intros [_ Hk]. specialize (Hk k eq_refl). lia.
  - intros _. split; [done|]. by intros ? [= <-].
Qed.

(** A key is in force for a principal at a height. *)
Definition authorized (d : Directory) (key : string) (p : Principal) (height : Z) : Prop :=
  ∃ r, d !! key = Some r ∧ reg_principal r = p
    ∧ (valid_from r ≤ height)%Z ∧ ∀ k, revoked_at r = Some k → (height < k)%Z.

(** The principals with an authorized, verifying signature on the payload. *)
Definition verified (d : Directory) (payload : string) (height : Z)
    (signers : list EndorserIdentity) (p : Principal) : Prop :=
  ∃ s, s ∈ signers ∧ claimed_principal s = p ∧ authorized d (ei_public_key s) p height
    ∧ verify_ed25519 (ei_public_key s) (byte_list payload) (ei_signature s) = true.

Lemma check_signer_inv d payload height s o :
  check_signer d payload height s = Ok o →
  ∃ p, authorized d (ei_public_key s) p height ∧ claimed_principal s = p
    ∧ o = if verify_ed25519 (ei_public_key s) (byte_list payload) (ei_signature s)
          then Some p else None.
Proof.
  unfold check_signer, authorized, verify_ed25519.
  destruct (d !! ei_public_key s) as [r|] eqn:Hr; [|done].
  destruct (reg_principal r ==? claimed_principal s) eqn:Hp; [|done]. bool_hyps.
  destruct (height_outcome _ _ height) eqn:Ho; [|done|done].
  apply height_outcome_Authorized in Ho as [Hf Hk].
  destruct (slen (ei_public_key s) =? 32)%nat eqn:Hlen; [|done].
  destruct (ed_key_ok (ei_public_key s)) eqn:Hok; [|done]. intros [= <-].
  exists (reg_principal r). split; [eauto|]. done.
Qed.

Lemma count_signers_spec d payload height signers distinct distinct' :
  fold_result (count_signer d payload height) signers distinct = Ok distinct' →
  ∀ p, p ∈ distinct' ↔ p ∈ distinct ∨ verified d payload height signers p.
Proof.
  revert distinct. induction signers as [|s signers IH]; intros distinct; simpl.
  - intros [= <-] p. split; [by left|]. intros [?|(s & Hs%elem_of_nil & _)]; done.
  - unfold count_signer at 1. destruct (check_signer d payload height s) as [o|] eqn:Hc; [|done].
    apply check_signer_inv in Hc as (q & Hauth & Hcl & ->). intros Hf p.
    rewrite (IH _ Hf). unfold verified. setoid_rewrite elem_of_cons.
    destruct (verify_ed25519 _ _ _) eqn:Hv; [rewrite elem_of_union, elem_of_singleton|];
      naive_solver congruence.
Qed.

Lemma msp_evaluate_inv d e req height ev :
  msp_evaluate d e req height = Ok ev →
  ∃ ps : principals, (∀ p, p ∈ ps ↔ verified d (er_payload req) height (er_signers req) p)
    ∧ satisfied ev = evaluate ps e ∧ distinct_principals ev ≡ₚ elements ps.
Proof.
  unfold msp_evaluate. destruct (validate_policy e) as [[]|]; [|done].
  destruct (fold_result _ _ _) as [ps|] eqn:Hf; [|done]. intros [= <-]. exists ps.
  split; [|split; [done|apply sort_by_perm]]. intros p.
  rewrite (count_signers_spec _ _ _ _ _ _ Hf). set_solver.
Qed.

#[export] Instance msp_laws d : EndorsementLaws (msp_evaluate d).
Proof.
  split.
  - intros e req height ev (ps & _ & -> & Hd)%msp_evaluate_inv. f_equal.
    by rewrite Hd, list_to_set_elements_L.
  - intros e req height ev (ps & _ & _ & ->)%msp_evaluate_inv. apply NoDup_elements.
  - intros e req height ev p (ps & Hps & _ & ->)%msp_evaluate_inv Hp%elem_of_elements.
    apply Hps in Hp as (s & ? & ? & _). eauto.
Qed.

(** The transaction with other endorsement carriers. *)
Definition set_endorsements (tx : Transaction) (tes : list TransactionEndorsement) : Transaction :=
  mkTransaction (tx_id tx) (tx_timestamp tx) (tx_kind tx) tes.

(** C5: with the MSP provider, endorsement is authenticated.  When a transaction
    passes evaluation at a height: each of its writes is covered by a carrier; a
    policy update has a carrier; unless it is a canonical record, every policy layer
    of every carrier is satisfied by principals each of which has a signature on this
    very transaction that verifies under a key the directory authorizes for that
    principal at that height; and the operation default, which canonical records
    have instead, is satisfied in the same way by the signers of all carriers.  The
    carriers of a canonical record are not evaluated: in a family without a default
    any carriers pass, signed or not. *)
Theorem msp_authorization_sound d h tx ws height :
  evaluate_transaction_endorsements (P := msp_evaluate d) h tx ws height = Ok tt →
  (∀ w, w ∈ ws → ∃ te, te ∈ tx_endorsements tx ∧ covers te w = true)
  ∧ (is_policy_update tx = true → tx_endorsements tx ≠ [])
  ∧ (is_record tx = false → ∀ te e, te ∈ tx_endorsements tx →
     e ∈ applicable (policies_for h (st_channel (te_target te)) (st_contract (te_target te)))
           (te_target te) →
     ∃ ps : principals, evaluate ps e = true
       ∧ ∀ p, p ∈ ps → verified d (endorsement_payload tx) height (te_signers te) p)
  ∧ (∀ e, operation_default tx = Ok (Some e) →
     ∃ ps : principals, evaluate ps e = true
       ∧ ∀ p, p ∈ ps →
           verified d (endorsement_payload tx) height (tx_endorsements tx ≫= te_signers) p)
  ∧ (is_record tx = true → operation_default tx = Ok None → ∀ tes,
     evaluate_transaction_endorsements (P := msp_evaluate d) h (set_endorsements tx tes) [] height = Ok tt).
Proof.
  intros (Hw & Hu & Hc & o & Ho & He)%evaluate_transaction_inv.
  split; [done|]. split; [done|]. split; [|split].
  - intros Hr te e Hte Ha. destruct (check_carrier_verdict _ _ _ _ (Hc Hr te Hte) e Ha)
      as (ev & (ps & Hps & Hs & _)%msp_evaluate_inv & Hsat).
    exists ps. rewrite <- Hs. split; [done|]. intros p. apply Hps.
  - intros e Hd. destruct (He e) as (ev & (ps & Hps & Hs & _)%msp_evaluate_inv & Hsat); [congruence|].
    exists ps. rewrite <- Hs. split; [done|]. intros p. apply Hps.
  - unfold is_record, operation_default, evaluate_transaction_endorsements, is_policy_update,
      policy_update_of, is_record, operation_default.
    cbn [tx_kind set_endorsements]. destruct (tx_kind tx); try done. intros _ Hd tes. by rewrite Hd.
Qed.

(** ** Revocation *)

Lemma msp_evaluate_ext d d' e req height :
  (∀ s, s ∈ er_signers req →
     check_signer d' (er_payload req) height s = check_signer d (er_payload req) height s) →
  msp_evaluate d' e req height = msp_evaluate d e req height.
Proof.
  unfold msp_evaluate. generalize (er_payload req), (er_signers req). intros payload l Hl.
  assert (∀ acc, fold_result (count_signer d' payload height) l acc
    = fold_result (count_signer d payload height) l acc) as Hfold; [|by rewrite Hfold].
  induction l as [|s l IH]; intros acc; simpl; [done|].
  unfold count_signer at 1 3. rewrite Hl by left.
  destruct (check_signer d payload height s); [|done]. apply IH. intros w Hw. apply Hl. by right.
Qed.

(** A request with a signer that the directory rejects is rejected. *)
Lemma msp_evaluate_reject d e req height s :
  s ∈ er_signers req → (∀ p, ~ authorized d (ei_public_key s) p height) →
  is_ok (msp_evaluate d e req height) = false.
Proof.
  intros (l1 & l2 & Heq)%list_elem_of_split Hno.
  destruct (msp_evaluate d e req height) as [ev|] eqn:Hev; [|done]. exfalso.
  unfold msp_evaluate in Hev. destruct (validate_policy e); [|done].
  destruct (fold_result _ _ _) as [ps|] eqn:Hf; [|done]. clear Hev.
  rewrite Heq, fold_result_app in Hf.
  destruct (fold_result _ l1 _) as [acc|]; [|done]. simpl in Hf. unfold count_signer at 1 in Hf.
  destruct (check_signer _ _ _ s) as [o|] eqn:Hc; [|done].
  apply check_signer_inv in Hc as (p & Hp & _). by eapply Hno.
Qed.

Lemma check_signer_ext d d' payload height s :
  (∀ r, d !! ei_public_key s = Some r →
     ∃ r', d' !! ei_public_key s = Some r' ∧ reg_principal r' = reg_principal r
       ∧ height_outcome (valid_from r') (revoked_at r') height = Authorized
       ∧ height_outcome (valid_from r) (revoked_at r) height = Authorized) →
  (d !! ei_public_key s = None → d' !! ei_public_key s = None) →
  check_signer d' payload height s = check_signer d payload height s.
Proof.
  intros Hs Hn. unfold check_signer. destruct (d !! ei_public_key s) as [r|]; [|by rewrite Hn].
  destruct (Hs r eq_refl) as (r' & -> & -> & -> & ->). done.
Qed.

(** Revocation is go-forward and takes effect: revoking a key at a height
    leaves the evaluation of every request below that height unchanged (so
    committed endorsements verify identically on replay) provided the key was not
    already revoked there; from that height on, a request with a signer using the
    key is rejected. *)
Theorem revocation_go_forward d key at_height d' r :
  d !! key = Some r → revoke d key at_height = (d', true) →
  (∀ e req height, (height < at_height)%Z →
     (valid_from r ≤ height)%Z → (∀ k, revoked_at r = Some k → (height < k)%Z) →
     msp_evaluate d' e req height = msp_evaluate d e req height)
  ∧ (∀ e req height s, (at_height ≤ height)%Z → s ∈ er_signers req → ei_public_key s = key →
     is_ok (msp_evaluate d' e req height) = false).
Proof.
  intros Hr. unfold revoke. rewrite Hr. intros [= <-]. split.
  - intros e req height Hlt Hvf Hk. apply msp_evaluate_ext. intros s _.
    destruct (decide (ei_public_key s = key)) as [Heq|Hne].
    + apply check_signer_ext; rewrite Heq, Hr; [|done]. intros ? [= <-].
      eexists. split; [apply lookup_insert_eq|]. split; [done|].
      rewrite !height_outcome_Authorized. naive_solver.
    + unfold check_signer. by rewrite lookup_insert_ne by done.
  - intros e req height s Hge Hin <-. apply msp_evaluate_reject with s; [done|].
    intros p (r' & Hr' & _ & _ & Hk). rewrite lookup_insert_eq in Hr'. injection Hr' as <-.
    specialize (Hk _ eq_refl). lia.
Qed.

(** Re-registering a key rewrites history: once a certificate for an already
    registered key is accepted with a later start height, every request signed
    with that key at an earlier height is rejected, including those it satisfied
    when their block was committed. *)
Theorem reregistration_rewrites_history vcp d pem proof org vf d' key :
  register_certificate vcp d pem proof org vf = Ok d' →
  certificate_ed25519_public_key pem = Some key →
  ∀ e req height s, (height < vf)%Z → s ∈ er_signers req → ei_public_key s = key →
    is_ok (msp_evaluate d' e req height) = false.
Proof.
  unfold register_certificate. intros Hreg Hkey e req height s Hlt Hin Hs.
  destruct (vcp pem) as [[]|]; [|done]. cbn [map_err] in Hreg.
  destruct (_ ==? org); [|done]. rewrite Hkey in Hreg.
  destruct (verify_ed25519 _ _ _); [|done]. injection Hreg as <-.
  apply msp_evaluate_reject with s; [done|]. intros p (r & Hr & _ & Hvf & _).
  rewrite Hs, lookup_insert_eq in Hr. injection Hr as <-. simpl in Hvf. lia.
Qed.

(** ** The signature-counting engine *)

Lemma count_valid_filter p sigs n :
  count_valid p sigs n = n + length (List.filter (λ s,
    org_listed p (org_name s) && is_ok (signed_verify (signed_transaction s))) sigs).
Proof.
  revert n. induction sigs as [|s sigs IH]; intros n; simpl; [lia|].
  destruct (signed_verify (signed_transaction s)) as [[]|]; simpl; rewrite IH.
  - rewrite andb_true_r. destruct (org_listed p (org_name s)); simpl; lia.
  - by rewrite andb_false_r.
Qed.

(** The engine and the policy agree, and both count signatures rather than
    organizations: a proposal is approved exactly when the policy is satisfied by
    its signatures, and one verifying signature of one listed organization, over
    any transaction, approves any proposal when it is added as many times as
    the policy requires. *)
Theorem engine_counts_signatures p prop :
  is_approved p prop = is_satisfied_by p (signatures_of prop)
  ∧ ∀ s, signed_verify (signed_transaction s) = Ok tt → org_listed p (org_name s) = true →
      signatures_of prop = replicate (ep_required_count p) s → is_approved p prop = true.
Proof.
  assert (is_approved p prop = is_satisfied_by p (signatures_of prop)) as Heq.
  { unfold is_approved, engine_evaluate, is_satisfied_by. rewrite count_valid_filter. simpl.
    by destruct (ep_required_count p <=? _)%nat. }
  split; [done|]. intros s Hv Ho Hs. rewrite Heq, Hs. unfold is_satisfied_by.
  apply Nat.leb_le. clear Heq Hs.
  induction (ep_required_count p) as [|n IH]; simpl; [lia|]. rewrite Ho, Hv. simpl. lia.
Qed.
End identity.

(** ** Possession messages *)

Lemma len_prefixed_end s t : fits_u32 s → fits_u32 t → len_prefixed s = len_prefixed t → s = t.
Proof.
  intros Hs Ht H. rewrite <- (app_nil_r (len_prefixed s)), <- (app_nil_r (len_prefixed t)) in H.
  by apply len_prefixed_inj in H as [-> _].
Qed.

Lemma domains_differ (d1 d2 : string) i l1 l2 :
  i < slen d1 → i < slen d2 → byte_list d1 !! i ≠ byte_list d2 !! i →
  byte_list d1 ++ l1 ≠ byte_list d2 ++ l2.
Proof.
  intros H1 H2 Hne H. apply (f_equal (lookup i)) in H.
  rewrite !lookup_app_l in H by (by rewrite length_byte_list). done.
Qed.

Lemma org_possession_inj a b c a' b' c' :
  fits_u32 a → fits_u32 b → fits_u32 c → fits_u32 a' → fits_u32 b' → fits_u32 c' →
  org_possession_message a b c = org_possession_message a' b' c' → a = a' ∧ b = b' ∧ c = c'.
Proof.
  intros ?????? H%app_inv_head. apply len_prefixed_inj in H as [-> H]; [|done|done].
  apply len_prefixed_inj in H as [-> H]; [|done|done]. by apply len_prefixed_end in H as ->.
Qed.

(** A possession proof binds what it names: registration, pin-rotation and
    session messages determine every field, and a message of one domain is never
    one of another, so a signature made for one purpose cannot serve another. *)
Theorem possession_messages_bind a b c a' b' c' :
  fits_u32 a → fits_u32 b → fits_u32 c → fits_u32 a' → fits_u32 b' → fits_u32 c' →
  (org_possession_message a b c = org_possession_message a' b' c' → a = a' ∧ b = b' ∧ c = c')
  ∧ (tofu_pin_message a b = tofu_pin_message a' b' → a = a' ∧ b = b')
  ∧ (msp_registration_message a b = msp_registration_message a' b' → a = a' ∧ b = b')
  ∧ org_possession_message a b c ≠ tofu_pin_message a' b'
  ∧ org_possession_message a b c ≠ msp_registration_message a' b'
  ∧ tofu_pin_message a b ≠ msp_registration_message a' b'.
Proof.
  intros Ha Hb Hc Ha' Hb' Hc'. split; [|split; [|split; [|split; [|split]]]].
  - by apply org_possession_inj.
  - intros H%app_inv_head. apply len_prefixed_inj in H as [-> H]; [|done|done].
    by apply len_prefixed_end in H as ->.
  - intros H%app_inv_head. apply len_prefixed_inj in H as [-> H]; [|done|done].
    by apply len_prefixed_end in H as ->.
  - apply (domains_differ _ _ 11); [by apply Nat.ltb_lt.. | done].
  - apply (domains_differ _ _ 11); [by apply Nat.ltb_lt.. | done].
  - apply (domains_differ _ _ 11); [by apply Nat.ltb_lt.. | done].
Qed.
