(* ===== verification/Ledger.v ===== *)
(** The ledger: chain, pending pool and incremental admission indexes
    (glasschain-core: ledger.rs).

    Methods take the ledger by mutable reference, so each is a function to the
    new ledger and its result; on an [Err] the ledger is the state the source
    leaves behind.  The theorems relate the incremental indexes to a rebuild
    from the chain, show that a mining round and a chain replacement preserve a
    valid chain, and that admission is bounded and idempotent. *)

From S2P Require Import Prelude Types Canonical Chain Capability Policy.

Definition DEFAULT_DIFFICULTY : nat := 2.
Definition MAX_PENDING_TRANSACTIONS : nat := 8000.
Definition MAX_BLOCK_TRANSACTIONS : nat := 4000.

Record Ledger := mkLedger {
  chain : list Block;
  pending_transactions : list Transaction;
  difficulty : nat;
  history_len : nat;
  capability_history : option CapabilityHistory;
  ids_len : nat;
  committed_ids : option (gset string) }.

Definition set_pending (l : Ledger) (p : list Transaction) : Ledger :=
  mkLedger (chain l) p (difficulty l) (history_len l) (capability_history l)
    (ids_len l) (committed_ids l).
Definition set_history (l : Ledger) (n : nat) (h : option CapabilityHistory) : Ledger :=
  mkLedger (chain l) (pending_transactions l) (difficulty l) n h (ids_len l) (committed_ids l).
Definition set_ids (l : Ledger) (n : nat) (ids : option (gset string)) : Ledger :=
  mkLedger (chain l) (pending_transactions l) (difficulty l) (history_len l)
    (capability_history l) n ids.
Definition push_block (l : Ledger) (b : Block) : Ledger :=
  mkLedger (chain l ++ [b]) (pending_transactions l) (difficulty l) (history_len l)
    (capability_history l) (ids_len l) (committed_ids l).

Section ledger.
Context `{E : Env}.

(** The genesis block before mining. *)
Definition genesis_template : Block :=
  let g := mkBlock 0 0 [] [] "0" 0 "" None in set_hash g (calculate_hash g).

(** [Ledger::new]; mining is bounded by [fuel]. *)
Definition Ledger_new (fuel : nat) (clock : nat → Z) (difficulty : nat) : option Ledger :=
  genesis ← mine fuel clock difficulty genesis_template;
  Some (mkLedger [genesis] [] difficulty 0 None 0 None).

(** The [while] loop of [fold_capability]: the history and the counter advance
    block by block and keep what a failing block left. *)
Fixpoint fold_capability_loop (h : CapabilityHistory) (n : nat) (blocks : list Block)
  : CapabilityHistory * nat * result CoreError unit :=
  match blocks with
  | [] => (h, n, Ok tt)
  | b :: blocks =>
      match capability_validate_block h b with
      | (h', Ok _) => fold_capability_loop h' (S n) blocks
      | (h', Err e) => (h', n, Err e)
      end
  end.

Definition fold_capability (l : Ledger) : Ledger * result CoreError unit :=
  if (history_len l =? length (chain l))%nat then (l, Ok tt) else
  let '(h, n, r) := fold_capability_loop (default [] (capability_history l)) (history_len l)
                      (drop (history_len l) (chain l)) in
  (set_history l n (Some h), r).

Definition block_ids (b : Block) : gset string := list_to_set (tx_id <$> transactions b).
Definition chain_ids (c : list Block) : gset string := ⋃ (block_ids <$> c).

Definition fold_committed_ids (l : Ledger) : Ledger :=
  match committed_ids l with
  | None => set_ids l (length (chain l)) (Some (chain_ids (chain l)))
  | Some ids =>
      set_ids l (Nat.max (ids_len l) (length (chain l)))
        (Some (ids ∪ chain_ids (drop (ids_len l) (chain l))))
  end.

Definition reset_indexes (l : Ledger) : Ledger :=
  mkLedger (chain l) (pending_transactions l) (difficulty l) 0 None 0 None.

(** The kind-specific admission check at [next_height]. *)
Definition check_admission (h : option CapabilityHistory) (next_height : Z)
    (kind : TransactionKind) : result CoreError unit :=
  match kind with
  | KCanonicalRecord r =>
      match h with
      | None => Err EmptyLedger
      | Some h => validate_record_under (effective_set h next_height) r
      end
  | KCapabilityActivation a =>
      match h with
      | None => Err EmptyLedger
      | Some h => let? _ := apply_activation h a next_height in Ok tt
      end
  | KPolicyUpdate u =>
      guard? negb (is_empty (pu_channel u)) else
        InvalidTransaction "endorsement policy update: channel must not be empty" in
      validate_scoped (pu_policies u)
  | _ => Ok tt
  end.

Definition next_height (l : Ledger) : Z :=
  match last (chain l) with Some b => add64 (index b) 1 | None => 1%Z end.

Definition is_committed (l : Ledger) (id : string) : bool :=
  match committed_ids l with Some ids => bool_decide (id ∈ ids) | None => false end.
Definition is_pending (l : Ledger) (id : string) : bool :=
  existsb (λ t, tx_id t ==? id) (pending_transactions l).

Definition add_transaction (l : Ledger) (tx : Transaction) : Ledger * result CoreError unit :=
  if is_empty (tx_id tx)
  then (l, Err (InvalidTransaction "transaction id must not be empty")) else
  let height := next_height l in
  match fold_capability l with
  | (l, Err e) => (l, Err e)
  | (l, Ok _) =>
    match check_admission (capability_history l) height (tx_kind tx) with
    | Err e => (l, Err e)
    | Ok _ =>
      let l := fold_committed_ids l in
      if negb (is_committed l (tx_id tx)) && negb (is_pending l (tx_id tx)) then
        if (MAX_PENDING_TRANSACTIONS <=? length (pending_transactions l))%nat
        then (l, Err (InvalidTransaction ("pending pool is full ("
               +:+ pretty (N.of_nat MAX_PENDING_TRANSACTIONS)
               +:+ " transactions); wait for the next block before resubmitting")))
        else (set_pending l (pending_transactions l ++ [tx]), Ok tt)
      else (l, Ok tt)
    end
  end.

(** [mine_pending_transactions] at second [now]; [None] when the fuel ran out
    before a nonce was found. *)
Definition mine_pending_transactions (fuel : nat) (clock : nat → Z) (now : Z) (l : Ledger)
  : option (Ledger * result CoreError Block) :=
  match last (chain l) with
  | None => Some (l, Err EmptyLedger)
  | Some previous =>
      let idx := add64 (index previous) 1 in
      let n := Nat.min (length (pending_transactions l)) MAX_BLOCK_TRANSACTIONS in
      block ← mine fuel clock (difficulty l)
                (Block_new now idx (take n (pending_transactions l)) (hash previous));
      let l := set_pending l (drop n (pending_transactions l)) in
      Some (fold_committed_ids (push_block l block), Ok block)
  end.

Definition prepare_mining (l : Ledger)
  : Ledger * result CoreError (Z * string * list Transaction * nat) :=
  match last (chain l) with
  | None => (l, Err EmptyLedger)
  | Some prev =>
      let n := Nat.min (length (pending_transactions l)) MAX_BLOCK_TRANSACTIONS in
      (set_pending l (drop n (pending_transactions l)),
       Ok (add64 (index prev) 1, hash prev, take n (pending_transactions l), difficulty l))
  end.

Definition restore_transaction (l : Ledger) (tx : Transaction) : Ledger :=
  if is_committed l (tx_id tx) then l else
  if is_pending l (tx_id tx) then l else
  set_pending l (pending_transactions l ++ [tx]).

Definition commit_mined_block (l : Ledger) (b : Block) (expected_prev_hash : string)
  : Ledger * result CoreError bool :=
  match last (chain l) with
  | None => (l, Err EmptyLedger)
  | Some tip =>
      if negb (hash tip ==? expected_prev_hash)
      then (foldl restore_transaction l (transactions b), Ok false) else
      match fold_capability l with
      | (l, Err e) => (l, Err e)
      | (l, Ok _) =>
        match capability_history l with
        | None => (l, Err EmptyLedger)
        | Some h =>
          match capability_validate_block h b with
          | (h', Err e) => (set_history l (history_len l) (Some h'), Err e)
          | (h', Ok _) =>
            let l := set_history l (history_len l) (Some h') in
            match policy_build_from_blocks (chain l) with
            | Err e => (l, Err e)
            | Ok policies =>
              match policy_validate_block policies b with
              | Err e => (l, Err e)
              | Ok _ =>
                let l := push_block l b in
                let l := set_history l (length (chain l)) (capability_history l) in
                match committed_ids l with
                | Some ids =>
                    (set_ids l (length (chain l)) (Some (ids ∪ block_ids b)), Ok true)
                | None => (l, Ok true)
                end
              end
            end
          end
        end
      end
  end.

Definition latest_block (l : Ledger) : option Block := last (chain l).

Definition block_consensus_admissible (b : Block) (difficulty : nat) : bool :=
  has_valid_pow b difficulty
  || match certificate b with
     | Some c => negb (is_degenerate c) && is_ok (cert_validate c b)
     | None => false
     end.

(** One iteration of the loop of [validate_chain]. *)
Definition check_link (difficulty : nat) (current previous : Block) : result CoreError unit :=
  let? _ := chains_to current previous in
  guard? block_consensus_admissible current difficulty else
    InvalidBlock ("block " +:+ pretty (index current) +:+ " does not satisfy PoW difficulty "
      +:+ pretty (N.of_nat difficulty) +:+ " and carries no valid certificate") in
  Ok tt.

Definition check_genesis (c : list Block) (difficulty : nat) : result CoreError unit :=
  match c with
  | [] => Ok tt
  | g :: _ =>
      guard? is_valid g else InvalidBlock "genesis block hash is invalid" in
      guard? has_valid_pow g difficulty else
        InvalidBlock "genesis block does not satisfy PoW difficulty" in
      Ok tt
  end.

Definition validate_chain (l : Ledger) : result CoreError unit :=
  let? _ := each_link (check_link (difficulty l)) (chain l) in
  let? _ := map_err (λ e, InvalidBlock ("capability history is invalid: " +:+ display_error e))
              (capability_build_from_blocks (chain l)) in
  check_genesis (chain l) (difficulty l).

(** The loop of [try_replace_chain] over the candidate's blocks after [prev]. *)
Fixpoint check_candidate (difficulty : nat) (h : CapabilityHistory) (prev : Block)
    (rest : list Block) : bool :=
  match rest with
  | [] => true
  | b :: rest =>
      is_ok (chains_to b prev) && block_consensus_admissible b difficulty
      && match capability_validate_block h b with
         | (h', Ok _) => check_candidate difficulty h' b rest
         | (_, Err _) => false
         end
  end.

Definition try_replace_chain (l : Ledger) (candidate : list Block) : Ledger * bool :=
  if (length candidate <=? length (chain l))%nat then (l, false) else
  if match chain l, candidate with
     | lg :: _, cg :: _ => negb (hash lg ==? hash cg)
     | _, _ => false
     end then (l, false) else
  if match candidate with
     | [] => false
     | g :: rest => negb (check_candidate (difficulty l) [] g rest)
     end then (l, false) else
  if negb (is_ok (check_genesis candidate (difficulty l))) then (l, false) else
  (reset_indexes (mkLedger candidate (pending_transactions l) (difficulty l) (history_len l)
     (capability_history l) (ids_len l) (committed_ids l)), true).

Definition offer_of (tx : Transaction) : option SupplyOffer :=
  match tx_kind tx with KSupplyOffer o => Some o | _ => None end.

Definition committed_supply_offers (l : Ledger) : list SupplyOffer :=
  omap offer_of (chain l ≫= transactions).

(** ** The incremental indexes *)

(** The indexes describe a prefix of the chain. *)
Definition history_ok (l : Ledger) : Prop :=
  history_len l ≤ length (chain l)
  ∧ match capability_history l with
    | Some h => capability_build_from_blocks (take (history_len l) (chain l)) = Ok h
    | None => history_len l = 0
    end.

Definition ids_ok (l : Ledger) : Prop :=
  match committed_ids l with
  | Some ids => ids_len l ≤ length (chain l) ∧ ids = chain_ids (take (ids_len l) (chain l))
  | None => True
  end.

Definition indexes_ok (l : Ledger) : Prop := history_ok l ∧ ids_ok l.

(** The parts of the ledger an index update leaves alone. *)
Definition same_core (l l' : Ledger) : Prop :=
  chain l' = chain l ∧ pending_transactions l' = pending_transactions l
  ∧ difficulty l' = difficulty l.

Lemma fold_capability_loop_spec h n bs :
  match fold_result capability_fold_block bs h with
  | Ok h' => fold_capability_loop h n bs = (h', n + length bs, Ok tt)
  | Err e => (fold_capability_loop h n bs).2 = Err e
  end.
Proof.
  revert h n. induction bs as [|b bs IH]; intros h n; simpl.
  - by rewrite Nat.add_0_r.
  - unfold capability_fold_block at 1. destruct (capability_validate_block h b) as [h' [[]|e]];
      [|done]. specialize (IH h' (S n)).
    destruct (fold_result _ bs h'); [|done]. rewrite IH. do 2 f_equal. lia.
Qed.

Lemma history_default l :
  history_ok l →
  capability_build_from_blocks (take (history_len l) (chain l)) =
  Ok (default [] (capability_history l)).
Proof.
  intros [_ H]. destruct (capability_history l); [done|]. by rewrite H.
Qed.

Lemma build_drop l :
  history_ok l →
  capability_build_from_blocks (chain l) =
  fold_result capability_fold_block (drop (history_len l) (chain l))
    (default [] (capability_history l)).
Proof.
  intros Hl. rewrite <- (take_drop (history_len l) (chain l)) at 1.
  unfold capability_build_from_blocks. rewrite fold_result_app.
  pose proof (history_default l Hl) as Hd. unfold capability_build_from_blocks in Hd.
  by rewrite Hd.
Qed.

Lemma fold_capability_spec l :
  history_ok l →
  match fold_capability l with
  | (l', Ok _) =>
      capability_build_from_blocks (chain l) = Ok (default [] (capability_history l'))
      ∧ (chain l ≠ [] → is_Some (capability_history l'))
      ∧ history_len l' = length (chain l) ∧ history_ok l'
      ∧ same_core l l' ∧ ids_len l' = ids_len l ∧ committed_ids l' = committed_ids l
  | (l', Err e) =>
      capability_build_from_blocks (chain l) = Err e
      ∧ same_core l l' ∧ ids_len l' = ids_len l ∧ committed_ids l' = committed_ids l
  end.
Proof.
  intros Hl. unfold fold_capability. destruct (Nat.eqb_spec (history_len l) (length (chain l))) as [Heq|Hne].
  - pose proof (history_default l Hl) as Hd. rewrite Heq, firstn_all in Hd.
    split; [done|]. split; [|done]. intros Hc. destruct Hl as [_ Hl].
    destruct (capability_history l); [eauto|]. destruct (chain l); [done|]. simpl in *. lia.
  - pose proof (build_drop l Hl) as Hb.
    pose proof (fold_capability_loop_spec (default [] (capability_history l)) (history_len l)
      (drop (history_len l) (chain l))) as Hs.
    rewrite <- Hb in Hs.
    destruct (capability_build_from_blocks (chain l)) as [h|e] eqn:Hbuild.
    + rewrite Hs. simpl. rewrite length_drop.
      destruct Hl as [Hle _].
      replace (history_len l + (length (chain l) - history_len l)) with (length (chain l)) by lia.
      split; [done|]. split; [eauto|]. split; [done|]. split; [|done].
      split; simpl; [lia|]. by rewrite firstn_all.
    + destruct (fold_capability_loop _ _ _) as [[h' n'] r]. simpl in Hs. by rewrite Hs.
Qed.

(** The incremental capability index is equivalent to a rebuild: whenever the
    cached history describes a prefix of the chain, [fold_capability] succeeds
    exactly when [build_from_blocks] succeeds on the whole chain, reports the same
    error otherwise, and leaves precisely the rebuilt history in the cache. *)
Theorem fold_capability_is_rebuild l :
  history_ok l → chain l ≠ [] →
  let '(l', r) := fold_capability l in
  (∀ h, capability_build_from_blocks (chain l) = Ok h →
     r = Ok tt ∧ capability_history l' = Some h ∧ history_len l' = length (chain l))
  ∧ (∀ e, capability_build_from_blocks (chain l) = Err e → r = Err e)
  ∧ same_core l l'.
Proof.
  intros Hl Hc. pose proof (fold_capability_spec l Hl) as Hs.
  destruct (fold_capability l) as [l' [[]|e]].
  - destruct Hs as (Hb & Hsome & Hlen & _ & Hcore & _). rewrite Hb.
    destruct (Hsome Hc) as [h Hh]. rewrite Hh in *. simpl. naive_solver.
  - destruct Hs as (-> & Hcore & _). naive_solver.
Qed.

Lemma chain_ids_app c1 c2 : chain_ids (c1 ++ c2) = chain_ids c1 ∪ chain_ids c2.
Proof.
  unfold chain_ids. rewrite fmap_app. induction (block_ids <$> c1) as [|x l IH]; simpl.
  - by rewrite (left_id_L ∅ (∪)).
  - by rewrite IH, (assoc_L (∪)).
Qed.

Lemma fold_committed_ids_spec l :
  ids_ok l →
  committed_ids (fold_committed_ids l) = Some (chain_ids (chain l))
  ∧ ids_len (fold_committed_ids l) = length (chain l)
  ∧ ids_ok (fold_committed_ids l)
  ∧ same_core l (fold_committed_ids l)
  ∧ history_len (fold_committed_ids l) = history_len l
  ∧ capability_history (fold_committed_ids l) = capability_history l.
Proof.
  unfold fold_committed_ids, ids_ok. destruct (committed_ids l) as [ids|]; simpl.
  - intros [Hle ->]. rewrite <- chain_ids_app, take_drop.
    rewrite Nat.max_r by done. rewrite firstn_all. done.
  - intros _. by rewrite firstn_all.
Qed.

(** ** Admission *)

Definition pending_ids (l : Ledger) : list string := tx_id <$> pending_transactions l.

Lemma is_pending_spec l id : is_pending l id = true ↔ id ∈ pending_ids l.
Proof.
  unfold is_pending, pending_ids. rewrite existsb_elem_of, list_elem_of_fmap. split.
  - intros (t & Ht & Heq). bool_hyps. eauto.
  - intros (t & -> & Ht). exists t. split; [done | apply str_eqb_refl].
Qed.

Lemma is_committed_spec l id :
  committed_ids l = Some (chain_ids (chain l)) →
  is_committed l id = bool_decide (id ∈ chain_ids (chain l)).
Proof. unfold is_committed. by intros ->. Qed.

(** Every outcome of [add_transaction]. *)
Lemma add_transaction_cases l tx :
  indexes_ok l →
  let '(l', r) := add_transaction l tx in
  chain l' = chain l ∧ difficulty l' = difficulty l
  ∧ match r with
    | Err _ => pending_transactions l' = pending_transactions l
    | Ok _ =>
        indexes_ok l' ∧ tx_id tx ≠ ""
        ∧ ((pending_transactions l' = pending_transactions l
            ∧ (tx_id tx ∈ chain_ids (chain l) ∨ tx_id tx ∈ pending_ids l))
           ∨ (pending_transactions l' = pending_transactions l ++ [tx]
              ∧ tx_id tx ∉ chain_ids (chain l) ∧ tx_id tx ∉ pending_ids l
              ∧ length (pending_transactions l) < MAX_PENDING_TRANSACTIONS))
    end.
Proof.
  intros [Hh Hi]. unfold add_transaction. destruct (is_empty (tx_id tx)) eqn:Hid; [done|].
  pose proof (fold_capability_spec l Hh) as Hs.
  destruct (fold_capability l) as [l1 [[]|e]].
  2:{ destruct Hs as (_ & (H1 & H2 & H3) & _). done. }
  destruct Hs as (_ & _ & _ & Hh1 & (Hc1 & Hp1 & Hd1) & Hil1 & Hci1).
  destruct (check_admission _ _ _) as [[]|e]; [|done].
  assert (ids_ok l1) as Hi1 by (unfold ids_ok; by rewrite Hci1, Hil1, Hc1).
  destruct (fold_committed_ids_spec l1 Hi1) as (Hci & Hil & Hio & (Hc2 & Hp2 & Hd2) & Hhl & Hch).
  set (l2 := fold_committed_ids l1) in *.
  rewrite Hc1 in Hci, Hc2. rewrite Hp1 in Hp2. rewrite Hd1 in Hd2.
  assert (history_ok l2) as Hh2 by (unfold history_ok in *; by rewrite Hhl, Hch, Hc2, <- Hc1).
  assert (is_pending l2 (tx_id tx) = true ↔ tx_id tx ∈ pending_ids l) as Hpend.
  { rewrite is_pending_spec. unfold pending_ids. by rewrite Hp2. }
  assert (is_committed l2 (tx_id tx) = bool_decide (tx_id tx ∈ chain_ids (chain l))) as ->.
  { rewrite <- Hc2. apply is_committed_spec. by rewrite Hc2. }
  bool_hyps.
  destruct (bool_decide (tx_id tx ∈ chain_ids (chain l))) eqn:Hcom; cbn [negb andb].
  { bool_hyps. do 2 (split; [done|]). split; [done|]. split; [done|]. left. auto. }
  destruct (is_pending l2 (tx_id tx)) eqn:Hpd; cbn [negb].
  { do 2 (split; [done|]). split; [done|]. split; [done|]. left. split; [done|].
    right. by apply Hpend. }
  rewrite Hp2. destruct (MAX_PENDING_TRANSACTIONS <=? length (pending_transactions l)) eqn:Hmax; [done|].
  apply Nat.leb_gt in Hmax. bool_hyps.
  split; [done|]. split; [done|]. split; [done|]. split; [done|]. right.
  split; [done|]. split; [done|]. split; [|done]. rewrite <- Hpend. done.
Qed.

(** The ids the committed-id index answers for once it is folded over the blocks
    it has not counted yet. *)
Definition indexed_ids (l : Ledger) : gset string :=
  match committed_ids l with
  | None => chain_ids (chain l)
  | Some ids => ids ∪ chain_ids (drop (ids_len l) (chain l))
  end.

Lemma fold_capability_frame l :
  same_core l (fold_capability l).1 ∧ ids_len (fold_capability l).1 = ids_len l
  ∧ committed_ids (fold_capability l).1 = committed_ids l.
Proof.
  unfold fold_capability. destruct (_ =? _); [done|]. by destruct (fold_capability_loop _ _ _) as [[? ?] ?].
Qed.

Lemma fold_committed_ids_frame l :
  same_core l (fold_committed_ids l) ∧ committed_ids (fold_committed_ids l) = Some (indexed_ids l).
Proof. unfold fold_committed_ids, indexed_ids. by destruct (committed_ids l). Qed.

Lemma indexed_ids_ok l : ids_ok l → indexed_ids l = chain_ids (chain l).
Proof.
  intros Hi. destruct (fold_committed_ids_spec l Hi) as [Hs _].
  destruct (fold_committed_ids_frame l) as [_ Hf]. congruence.
Qed.

(** Every outcome of [add_transaction], relative to what the index answers for. *)
Lemma add_transaction_indexed l tx :
  let '(l', r) := add_transaction l tx in
  chain l' = chain l
  ∧ match r with
    | Err _ => pending_transactions l' = pending_transactions l
    | Ok _ =>
        (pending_transactions l' = pending_transactions l
         ∧ (tx_id tx ∈ indexed_ids l ∨ tx_id tx ∈ pending_ids l))
        ∨ (pending_transactions l' = pending_transactions l ++ [tx]
           ∧ tx_id tx ∉ indexed_ids l ∧ tx_id tx ∉ pending_ids l
           ∧ length (pending_transactions l) < MAX_PENDING_TRANSACTIONS)
    end.
Proof.
  unfold add_transaction. destruct (is_empty (tx_id tx)); [done|].
  destruct (fold_capability_frame l) as ((Hc1 & Hp1 & _) & Hil & Hci).
  destruct (fold_capability l) as [l1 [[]|e]]; [|done]. cbn [fst] in *.
  destruct (check_admission _ _ _) as [[]|e]; [|done].
  destruct (fold_committed_ids_frame l1) as ((Hc2 & Hp2 & _) & Hid).
  assert (indexed_ids l1 = indexed_ids l) as Heq by (unfold indexed_ids; by rewrite Hci, Hil, Hc1).
  set (l2 := fold_committed_ids l1) in *. rewrite Hp1 in Hp2.
  unfold is_committed. rewrite Hid, Heq.
  assert (is_pending l2 (tx_id tx) = true ↔ tx_id tx ∈ pending_ids l) as Hpend.
  { rewrite is_pending_spec. unfold pending_ids. by rewrite Hp2. }
  destruct (bool_decide_reflect (tx_id tx ∈ indexed_ids l)); cbn [negb andb].
  { rewrite Hc2, Hc1, Hp2. auto. }
  destruct (is_pending l2 (tx_id tx)); cbn [negb].
  { rewrite Hc2, Hc1, Hp2. split; [done|]. left. split; [done|]. right. by apply Hpend. }
  rewrite Hp2. destruct (Nat.leb_spec MAX_PENDING_TRANSACTIONS (length (pending_transactions l)));
    [by rewrite Hc2, Hc1|].
  split; [by rewrite <- Hc1, <- Hc2|]. right. do 2 (split; [done|]). split; [|done].
  by rewrite <- Hpend.
Qed.

(** C3: what admission does to the pool, for every ledger: the chain never changes;
    a refused submission leaves the pool as it was; an accepted one is ignored when
    its id is pending or in the committed-id index, and is otherwise appended once,
    to a pool below the bound; so ids in the pool stay distinct and the pool stays
    within the bound.  Where the index answers for every id of the chain (as it does
    whenever the indexes describe a prefix of the chain, which an accepted submission
    preserves) a pool free of committed ids stays free of them.  That condition is
    needed: a block mined after an unindexed peer block breaks it
    ([commit_skips_peer_ids]), and then a committed id is pooled again. *)
Theorem admission_invariant l tx :
  let '(l', r) := add_transaction l tx in
  chain l' = chain l
  ∧ match r with
    | Err _ => pending_transactions l' = pending_transactions l
    | Ok _ =>
        (pending_transactions l' = pending_transactions l
         ∧ (tx_id tx ∈ indexed_ids l ∨ tx_id tx ∈ pending_ids l))
        ∨ (pending_transactions l' = pending_transactions l ++ [tx]
           ∧ tx_id tx ∉ indexed_ids l ∧ tx_id tx ∉ pending_ids l
           ∧ length (pending_transactions l) < MAX_PENDING_TRANSACTIONS)
    end
  ∧ (NoDup (pending_ids l) → NoDup (pending_ids l'))
  ∧ (length (pending_transactions l) ≤ MAX_PENDING_TRANSACTIONS →
     length (pending_transactions l') ≤ MAX_PENDING_TRANSACTIONS)
  ∧ (chain_ids (chain l) ⊆ indexed_ids l →
     (∀ id, id ∈ pending_ids l → id ∉ chain_ids (chain l)) →
     ∀ id, id ∈ pending_ids l' → id ∉ chain_ids (chain l'))
  ∧ (indexes_ok l → indexed_ids l = chain_ids (chain l) ∧ (is_ok r = true → indexes_ok l')).
Proof.
  pose proof (add_transaction_indexed l tx) as H.
  pose proof (λ Hidx, add_transaction_cases l tx Hidx) as Hi.
  destruct (add_transaction l tx) as [l' r]. destruct H as (Hc & H).
  split; [done|]. split; [done|].
  assert ((indexes_ok l → indexed_ids l = chain_ids (chain l) ∧ (is_ok r = true → indexes_ok l'))) as Hidx.
  { intros Hok. split; [apply indexed_ids_ok, Hok|]. specialize (Hi Hok) as (_ & _ & Hi).
    destruct r as [[]|]; [by destruct Hi | done]. }
  unfold pending_ids in *. rewrite Hc.
  assert (pending_transactions l' = pending_transactions l
    ∨ (pending_transactions l' = pending_transactions l ++ [tx] ∧ tx_id tx ∉ indexed_ids l
       ∧ tx_id tx ∉ pending_ids l ∧ length (pending_transactions l) < MAX_PENDING_TRANSACTIONS))
    as [->|(-> & H1 & H2 & H3)] by (destruct r as [[]|]; naive_solver); [done|].
  rewrite fmap_app, length_app. cbn [fmap list_fmap length]. split; [|split; [lia | split; [|done]]].
  - intros Hnd. apply NoDup_app. split; [done|]. split; [|apply NoDup_singleton].
    intros x Hx ->%list_elem_of_singleton. done.
  - intros Hsub Hdis id [Hid|Hid]%elem_of_app; [by apply Hdis|].
    apply list_elem_of_singleton in Hid as ->. set_solver.
Qed.

(** ** Mining rounds *)

(** The committed-id set covers the whole chain. *)
Definition ids_current (l : Ledger) : Prop :=
  match committed_ids l with
  | Some ids => ids_len l = length (chain l) ∧ ids = chain_ids (chain l)
  | None => True
  end.

Lemma ids_current_ok l : ids_current l → ids_ok l.
Proof.
  unfold ids_current, ids_ok. destruct (committed_ids l); [|done]. intros [-> ->].
  by rewrite firstn_all.
Qed.

(** What a successful commit has checked and left behind. *)
Record committed (l : Ledger) (b : Block) (prev : string) (l' : Ledger) : Prop := {
  com_tip : ∃ tip, last (chain l) = Some tip ∧ hash tip = prev;
  com_chain : chain l' = chain l ++ [b];
  com_pending : pending_transactions l' = pending_transactions l;
  com_difficulty : difficulty l' = difficulty l;
  com_capabilities : ∃ h, capability_build_from_blocks (chain l') = Ok h;
  com_policies : ∃ p, policy_build_from_blocks (chain l') = Ok p;
  com_history : history_ok l';
  com_ids : ids_current l → ids_current l' }.

Lemma commit_true_inv l b prev l' :
  history_ok l → commit_mined_block l b prev = (l', Ok true) → committed l b prev l'.
Proof.
  intros Hh. unfold commit_mined_block.
  destruct (last (chain l)) as [tip|] eqn:Htip; [|done].
  destruct (hash tip ==? prev) eqn:Hprev; cbn [negb]; [|done]. bool_hyps.
  pose proof (fold_capability_spec l Hh) as Hs.
  destruct (fold_capability l) as [l1 [[]|e]]; [|done].
  destruct Hs as (Hb & _ & Hlen & _ & (Hc1 & Hp1 & Hd1) & Hil & Hci).
  destruct (capability_history l1) as [h|]; [|done]. simpl in Hb.
  destruct (capability_validate_block h b) as [h' [[]|e]] eqn:Hv; [|done].
  cbn [set_history chain]. rewrite Hc1.
  destruct (policy_build_from_blocks (chain l)) as [ps|] eqn:Hpb; [|done].
  destruct (policy_validate_block ps b) as [ps'|] eqn:Hpv; [|done].
  cbn [push_block set_history committed_ids chain capability_history].
  assert (capability_build_from_blocks (chain l ++ [b]) = Ok h') as Hb'.
  { rewrite capability_build_snoc, Hb. unfold capability_fold_block. by rewrite Hv. }
  assert (policy_build_from_blocks (chain l ++ [b]) = Ok ps') as Hp'.
  { unfold policy_build_from_blocks in *. by rewrite fold_result_snoc, Hpb. }
  assert (∀ l', chain l' = chain l ++ [b] → history_len l' = length (chain l ++ [b]) →
    capability_history l' = Some h' → history_ok l') as Hho.
  { intros x Hx1 Hx2 Hx3. unfold history_ok. rewrite Hx1, Hx2, Hx3, firstn_all. done. }
  rewrite Hci.
  destruct (committed_ids l) as [ids|] eqn:Hids; intros [= <-];
    (split; simpl; rewrite ?Hc1; [by eauto| done | done | done | by eauto | by eauto | |]).
  - apply Hho; simpl; by rewrite ?Hc1.
  - unfold ids_current. rewrite Hids. simpl. rewrite Hc1. intros [_ ->]. split; [done|].
    rewrite chain_ids_app. f_equal. unfold chain_ids. simpl. by rewrite (right_id_L ∅ (∪)).
  - apply Hho; simpl; by rewrite ?Hc1.
  - unfold ids_current. simpl. by rewrite Hci, Hids.
Qed.

Lemma check_link_Ok d b p :
  check_link d b p = Ok tt ↔ chains_to b p = Ok tt ∧ block_consensus_admissible b d = true.
Proof.
  unfold check_link. destruct (chains_to b p) as [[]|]; [|naive_solver].
  destruct (block_consensus_admissible b d); naive_solver.
Qed.

Lemma last_Some_snoc {A} (l : list A) x : last l = Some x → ∃ l', l = l' ++ [x].
Proof. intros H. apply last_Some in H as [l' ->]. eauto. Qed.

Lemma validate_chain_Ok l :
  validate_chain l = Ok tt ↔
  each_link (check_link (difficulty l)) (chain l) = Ok tt
  ∧ (∃ h, capability_build_from_blocks (chain l) = Ok h)
  ∧ check_genesis (chain l) (difficulty l) = Ok tt.
Proof.
  unfold validate_chain. destruct (each_link _ _) as [[]|]; [|naive_solver].
  destruct (capability_build_from_blocks _); simpl; [|naive_solver].
  destruct (check_genesis _ _) as [[]|]; naive_solver.
Qed.

(** C2: a mining round keeps the chain valid and loses nothing: if the ledger's
    chain validates, the block mined from the drained slice and committed on the
    unchanged tip extends it by exactly that block, the new chain validates
    (links, hashes, consensus, capability rules, genesis), the policy history
    replays, the indexes stay in step, and the old pool is the block's
    transactions followed by the new pool. *)
Theorem mining_round_valid l l1 idx prev txs d fuel clock now ws b l2 :
  validate_chain l = Ok tt → history_ok l →
  prepare_mining l = (l1, Ok (idx, prev, txs, d)) →
  mine fuel clock d (with_write_set now idx txs prev ws) = Some b →
  commit_mined_block l1 b prev = (l2, Ok true) →
  validate_chain l2 = Ok tt
  ∧ chain l2 = chain l ++ [b]
  ∧ (∃ p, policy_build_from_blocks (chain l2) = Ok p)
  ∧ pending_transactions l = transactions b ++ pending_transactions l2
  ∧ history_ok l2 ∧ (ids_current l → ids_current l2).
Proof.
  intros Hval Hh Hprep Hmine Hcom. unfold prepare_mining in Hprep.
  destruct (last (chain l)) as [tip|] eqn:Htip; [|done].
  injection Hprep as <- <- <- <- <-.
  apply mine_sound in Hmine as (Hv & Hpow & Hi & Ht & _ & Hp & _). simpl in *.
  apply commit_true_inv in Hcom; [|done]. destruct Hcom as [_ Hc Hpd Hd Hcap Hpol Hho Hids].
  simpl in *. apply validate_chain_Ok in Hval as (Hl & _ & Hg).
  split; [|split; [done|split; [done|split; [|by split]]]].
  - apply validate_chain_Ok. rewrite Hd, Hc in *. split; [|split; [done|]].
    + apply last_Some_snoc in Htip as [pre Hpre]. rewrite Hpre in *.
      rewrite <- app_assoc. simpl. rewrite each_link_snoc, Hl. apply check_link_Ok. split.
      * apply chains_to_Ok. unfold is_valid in Hv. by bool_hyps.
      * unfold block_consensus_admissible. by rewrite Hpow.
    + destruct (chain l); [done|]. done.
  - by rewrite Ht, Hpd, take_drop.
Qed.

(** Restoring keeps what is pending and re-queues what is neither pending nor
    known to be committed. *)
Lemma restore_transaction_spec l tx :
  chain (restore_transaction l tx) = chain l
  ∧ committed_ids (restore_transaction l tx) = committed_ids l
  ∧ pending_ids l `prefix_of` pending_ids (restore_transaction l tx)
  ∧ (is_committed l (tx_id tx) = true ∨ tx_id tx ∈ pending_ids (restore_transaction l tx)).
Proof.
  unfold restore_transaction. destruct (is_committed l (tx_id tx)) eqn:Hc; [auto|].
  destruct (is_pending l (tx_id tx)) eqn:Hp.
  - apply is_pending_spec in Hp. auto.
  - unfold pending_ids. simpl. rewrite fmap_app. do 2 (split; [done|]).
    split; [by eexists|]. right. apply elem_of_app. right. by left.
Qed.

Lemma restore_all_spec l txs :
  let l' := foldl restore_transaction l txs in
  chain l' = chain l ∧ committed_ids l' = committed_ids l
  ∧ pending_ids l `prefix_of` pending_ids l'
  ∧ ∀ tx, tx ∈ txs → is_committed l (tx_id tx) = true ∨ tx_id tx ∈ pending_ids l'.
Proof.
  revert l. induction txs as [|t txs IH]; intros l; simpl.
  - do 2 (split; [done|]). split; [done|]. by intros ? ?%elem_of_nil.
  - destruct (restore_transaction_spec l t) as (H1 & H2 & H3 & H4).
    destruct (IH (restore_transaction l t)) as (I1 & I2 & I3 & I4).
    split; [congruence|]. split; [congruence|]. split; [by etransitivity|].
    intros tx [->|Htx]%elem_of_cons.
    + destruct H4 as [?|H4]; [by left|]. right. by eapply elem_of_prefix.
    + destruct (I4 tx Htx) as [Hc|?]; [|by right]. left.
      unfold is_committed in *. by rewrite <- H2.
Qed.

(** A stale commit loses no transaction: when the tip moved while a drained
    slice was being mined, the commit reports [false], leaves the chain alone,
    keeps every pending transaction in place, and every transaction of the stale
    block is pending again unless its id is already recorded as committed. *)
Theorem stale_commit_conserves l b prev tip :
  last (chain l) = Some tip → hash tip ≠ prev →
  let '(l', r) := commit_mined_block l b prev in
  r = Ok false ∧ chain l' = chain l
  ∧ pending_ids l `prefix_of` pending_ids l'
  ∧ ∀ tx, tx ∈ transactions b → is_committed l (tx_id tx) = true ∨ tx_id tx ∈ pending_ids l'.
Proof.
  intros Htip Hne. unfold commit_mined_block. rewrite Htip.
  apply str_eqb_neq in Hne as ->. cbn [negb].
  destruct (restore_all_spec l (transactions b)) as (H1 & _ & H3 & H4). done.
Qed.

(** ** Chain replacement *)

Lemma check_candidate_Ok d h g rest :
  check_candidate d h g rest = true →
  each_link (check_link d) (g :: rest) = Ok tt
  ∧ ∃ h', fold_result capability_fold_block rest h = Ok h'.
Proof.
  revert h g. induction rest as [|b rest IH]; intros h g; simpl; [eauto|].
  destruct (chains_to b g) as [[]|] eqn:Hc; [|done]. simpl.
  destruct (block_consensus_admissible b d) eqn:Ha; [|done]. simpl.
  unfold capability_fold_block at 1.
  destruct (capability_validate_block h b) as [h' [[]|]]; [|done].
  intros [Hl Hf]%IH. split; [|done].
  assert (check_link d b g = Ok tt) as -> by (by apply check_link_Ok). done.
Qed.

Lemma each_link_lookup d c i p b :
  each_link (check_link d) c = Ok tt → c !! i = Some p → c !! S i = Some b →
  chains_to b p = Ok tt ∧ block_consensus_admissible b d = true.
Proof.
  revert i. induction c as [|x [|y c] IH]; intros i Hl Hp Hb; [done|by destruct i|].
  cbn [each_link] in Hl. destruct (check_link d y x) as [[]|] eqn:Hc; [|done].
  destruct i as [|i]; [|by apply (IH i)]. cbn in Hp, Hb. simplify_eq. by apply check_link_Ok.
Qed.

Lemma try_replace_true l cand l' :
  try_replace_chain l cand = (l', true) →
  length (chain l) < length cand
  ∧ (∀ lg cg, head (chain l) = Some lg → head cand = Some cg → hash lg = hash cg)
  ∧ (∀ g rest, cand = g :: rest → check_candidate (difficulty l) [] g rest = true)
  ∧ check_genesis cand (difficulty l) = Ok tt
  ∧ l' = mkLedger cand (pending_transactions l) (difficulty l) 0 None 0 None.
Proof.
  unfold try_replace_chain. destruct (Nat.leb_spec (length cand) (length (chain l))); [done|].
  destruct cand as [|cg rest]; [simpl in *; lia|].
  destruct (chain l) as [|lg c]; simpl head.
  - destruct (check_candidate _ _ _ _) eqn:Hc; [|done]. cbn [negb].
    destruct (check_genesis _ _) as [[]|] eqn:Hg; [|done]. cbn. intros [= <-].
    split; [done|]. split; [done|]. naive_solver.
  - destruct (hash lg ==? hash cg) eqn:Hh; [|done]. cbn [negb]. bool_hyps.
    destruct (check_candidate _ _ _ _) eqn:Hc; [|done]. cbn [negb].
    destruct (check_genesis _ _) as [[]|] eqn:Hg; [|done]. cbn. intros [= <-].
    split; [done|]. split; [naive_solver|]. naive_solver.
Qed.

(** C26: fork choice is safe: [try_replace_chain] either changes nothing, or installs a
    strictly longer candidate whose genesis has the local genesis hash, is valid and meets
    the difficulty, and whose later blocks each chain to the one before and are
    admissible; the pool and the difficulty stay, and both indexes are empty again, so they
    describe the new chain.  When moreover the local genesis is valid and carries no
    transactions (as in every ledger created by [new]) and its hash does not collide with
    the candidate's, the installed chain validates from genesis to tip, capability history
    included. *)
Theorem chain_replacement_safe l cand l' r :
  try_replace_chain l cand = (l', r) →
  (r = false → l' = l)
  ∧ (r = true →
       l' = mkLedger cand (pending_transactions l) (difficulty l) 0 None 0 None
       ∧ length (chain l) < length cand
       ∧ (∀ lg cg, head (chain l) = Some lg → head cand = Some cg → hash lg = hash cg)
       ∧ check_genesis cand (difficulty l) = Ok tt
       ∧ (∀ i p b, cand !! i = Some p → cand !! S i = Some b →
            chains_to b p = Ok tt ∧ block_consensus_admissible b (difficulty l) = true)
       ∧ indexes_ok l'
       ∧ ∀ g, head (chain l) = Some g → is_valid g = true → transactions g = [] →
           no_collision [g] (opt_list (head cand)) → validate_chain l' = Ok tt).
Proof.
  intros Hr. split.
  - intros ->. revert Hr. unfold try_replace_chain. repeat case_match; by intros [= <-].
  - intros ->. apply try_replace_true in Hr as (Hlen & Hgen & Hcand & Hcg & ->).
    destruct cand as [|cg rest]; [simpl in *; lia|].
    specialize (Hcand cg rest eq_refl). apply check_candidate_Ok in Hcand as (Hl & h & Hf).
    do 4 (split; [done|]). split; [by intros i p b; apply each_link_lookup|].
    split. { split; [|done]. split; [simpl; lia | done]. }
    intros g Hg Hgv Hgt Hnc.
    apply validate_chain_Ok. simpl. split; [done|]. split; [|done]. exists h.
    unfold capability_build_from_blocks. simpl.
    assert (header g = header cg) as Hhd.
    { apply Hnc; [by left | by left |]. unfold check_genesis in Hcg.
      destruct (is_valid cg) eqn:Hcv; [|done]. unfold is_valid in *. bool_hyps.
      rewrite <- Hgv, <- Hcv. by apply Hgen. }
    assert (transactions cg = []) as Htx by (unfold header in Hhd; congruence).
    unfold capability_fold_block, capability_validate_block at 1. rewrite Htx. simpl. done.
Qed.

(** ** Where the ledger departs from its documentation *)

Definition note_tx (id : string) : Transaction :=
  mkTransaction id 0 (KInventoryUpdate (mkInventoryUpdate "sku" "org" 1 "note")) [].

Definition plain_block (idx : Z) (txs : list Transaction) (prev h : string) : Block :=
  mkBlock idx 0 txs [] prev 0 h None.

(** Idempotency breaks after a peer block: [commit_mined_block] marks the
    committed-id index current for the whole chain while inserting only the new
    block's ids.  If a peer block was appended since the index was last folded,
    its transactions stay unindexed, and a resubmission of one of them is
    admitted to the pool although its id is already committed. *)
Theorem commit_skips_peer_ids :
  ∃ l b l' tx l'',
    indexes_ok l
    ∧ commit_mined_block l b (previous_hash b) = (l', Ok true)
    ∧ tx_id tx ∈ chain_ids (chain l')
    ∧ add_transaction l' tx = (l'', Ok tt)
    ∧ tx ∈ pending_transactions l''.
Proof.
  set (g := plain_block 0 [] "0" "g").
  set (p := plain_block 1 [note_tx "x"] "g" "p").
  exists (mkLedger [g; p] [] 0 2 (Some []) 1 (Some ∅)).
  exists (plain_block 2 [] "p" "b"). eexists. exists (note_tx "x"). eexists.
  split. { split; [by split; [simpl; lia|]|]. split; [simpl; lia|]. by vm_compute. }
  split; [by vm_compute|]. split; [|split; [by vm_compute|]].
  - unfold chain_ids. simpl. set_solver.
  - left.
Qed.

Definition pdc_activation (height : Z) : CapabilityActivation :=
  mkCapabilityActivation "pdc" 1 (capability_hash "pdc" 1) height
    [mkRecordSignature "gov" "sig" Ed25519].

Lemma apply_pdc_activation containing height :
  (containing < height)%Z →
  apply_activation [] (pdc_activation height) containing = Ok [pdc_activation height].
Proof.
  intros Hlt. unfold apply_activation.
  change (lookup_capability _) with (Some (mkCapability "pdc" 1)). cbv iota beta.
  cbn [pdc_activation ca_capability_id ca_version ca_hash ca_activation_height ca_signatures
    cap_version existsb app]. rewrite str_eqb_refl. cbn [Z.eqb Pos.eqb negb].
  destruct (Z.leb_spec height containing); [lia | done].
Qed.

Definition activation_tx (id : string) (height : Z) : Transaction :=
  mkTransaction id 0 (KCapabilityActivation (pdc_activation height)) [].

(** A rejected block leaks into the capability index: [commit_mined_block]
    folds the candidate's activations into the cached history before the policy
    check can still reject the block.  After such a rejection the chain is
    unchanged but the cache no longer describes it, and a governance activation
    that was admissible before is refused as already activated. *)
Theorem rejected_commit_leaks_activation :
  ∃ l b l' e,
    indexes_ok l
    ∧ commit_mined_block l b (previous_hash b) = (l', Err e)
    ∧ chain l' = chain l ∧ ~ history_ok l'
    ∧ is_ok (add_transaction l (activation_tx "retry" 5)).2 = true
    ∧ is_ok (add_transaction l' (activation_tx "retry" 5)).2 = false.
Proof.
  set (g := plain_block 0 [] "0" "g").
  set (bad := mkTransaction "bad" 0 (KPolicyUpdate (mkPolicyUpdate ""
    "" (mkScopedPolicies (SignedBy "a") None None []))) []).
  exists (mkLedger [g] [] 0 1 (Some []) 1 (Some ∅)).
  exists (plain_block 1 [activation_tx "a" 5; bad] "g" "b"). do 2 eexists.
  split. { split; [by split; [simpl; lia|]|]. split; [simpl; lia|]. by vm_compute. }
  split.
  { unfold commit_mined_block. cbn [chain last hash g plain_block previous_hash].
    rewrite str_eqb_refl. cbn [negb]. unfold fold_capability.
    cbn [history_len chain length Nat.eqb capability_history].
    unfold capability_validate_block. cbn [capability_txs transactions plain_block activation_tx
      tx_kind index]. rewrite apply_pdc_activation by lia. by vm_compute. }
  split; [done|]. split; [|split].
  - intros [_ H]. by vm_compute in H.
  - unfold add_transaction, fold_capability.
    cbn [tx_id activation_tx is_empty history_len chain length Nat.eqb capability_history tx_kind
      check_admission].
    change (next_height _) with 1%Z. rewrite apply_pdc_activation by lia. by vm_compute.
  - unfold add_transaction, fold_capability.
    cbn [tx_id activation_tx is_empty history_len chain length Nat.eqb capability_history tx_kind
      check_admission set_history].
    change (next_height _) with 1%Z. unfold apply_activation.
    change (lookup_capability _) with (Some (mkCapability "pdc" 1)). cbv iota beta.
    cbn [pdc_activation ca_capability_id ca_version ca_hash ca_activation_height
      cap_version]. rewrite str_eqb_refl. by vm_compute.
Qed.

(** Adopting a longer chain does not prune the pool: a pending transaction
    that the adopted chain already commits stays pending, and the next mining
    slice drains it to be committed a second time. *)
Theorem replacement_keeps_committed_pending :
  ∃ l cand l' tx,
    try_replace_chain l cand = (l', true)
    ∧ tx_id tx ∈ chain_ids (chain l')
    ∧ ∃ l'' idx prev txs d, prepare_mining l' = (l'', Ok (idx, prev, txs, d)) ∧ tx ∈ txs.
Proof.
  set (g := let g := plain_block 0 [] "0" "" in set_hash g (calculate_hash g)).
  set (b := let b := plain_block 1 [note_tx "x"] (hash g) "" in set_hash b (calculate_hash b)).
  exists (mkLedger [g] [note_tx "x"] 0 0 None 0 None), [g; b]. eexists. exists (note_tx "x").
  split; [|split].
  - unfold try_replace_chain. cbn [length chain Nat.leb difficulty]. rewrite str_eqb_refl.
    cbn [negb check_candidate].
    assert (chains_to b g = Ok tt) as -> by (by apply chains_to_Ok).
    assert (is_valid g = true) as Hg by apply rehash_valid.
    unfold check_genesis. rewrite Hg. by vm_compute.
  - unfold chain_ids. simpl. set_solver.
  - do 5 eexists. split; [done|]. left.
Qed.

End ledger.
