(* ===== verification/Storage.v ===== *)
(** World state and block storage (glasschain-core: the [StorageProvider] trait
    and its in-memory implementation in providers.rs; glasschain-storage:
    redb_backend.rs).

    [StorageProvider] is the trait as a class of operations, [StorageLaws] what
    its clients rely on; [InMemory] and [Redb] are the two backends.  redb itself is outside the
    repository: its tables are ordered maps, and a fault oracle [io] decides
    which database call fails, so that atomicity is a theorem about every
    failure point. *)

From S2P Require Import Prelude Types WriteSet Chain.

(** [trait StorageProvider]: mutators return the store they leave behind. *)
Class StorageProvider (S : Type) := {
  put_block : S → Block → S * result CoreError unit;
  get_block : S → Z → result CoreError (option Block);
  latest_block_index : S → result CoreError (option Z);
  put_state : S → string → string → S * result CoreError unit;
  get_state : S → string → result CoreError (option string);
  delete_state : S → string → S * result CoreError unit;
  list_state_keys : S → string → result CoreError (list string) }.

(** The keys of a map that start with [prefix], ascending. *)
Definition sorted_keys_with {A} (prefix : string) (m : gmap string A) : list string :=
  List.filter (starts_with prefix) (btree_keys m).

Lemma sorted_keys_with_elem {A} p (m : gmap string A) k :
  k ∈ sorted_keys_with p m ↔ starts_with p k = true ∧ is_Some (m !! k).
Proof.
  unfold sorted_keys_with. rewrite list_elem_of_In, filter_In, <- list_elem_of_In.
  unfold btree_keys. rewrite list_elem_of_fmap. split.
  - intros [([k' v] & -> & Hv) Hp]. apply btree_items_elem in Hv. eauto.
  - intros [Hp [v Hv]]. split; [|done]. exists (k, v). split; [done|]. by apply btree_items_elem.
Qed.

(** A backend that does not fail behaves as a map of keys to values. *)
Class StorageLaws (S : Type) `{StorageProvider S} := {
  world : S → gmap string string;
  put_state_law s k v : ∃ s', put_state s k v = (s', Ok tt) ∧ world s' = <[k := v]> (world s);
  get_state_law s k : get_state s k = Ok (world s !! k);
  delete_state_law s k : ∃ s', delete_state s k = (s', Ok tt) ∧ world s' = delete k (world s);
  list_state_keys_law s p : list_state_keys s p = Ok (sorted_keys_with p (world s)) }.

(** The trait's default [apply_block]: block first, then one write at a time. *)
Section default_apply.
Context {S : Type} `{StorageProvider S}.

Fixpoint default_apply_writes (s : S) (ws : list PersistentWrite) : S * result CoreError unit :=
  match ws with
  | [] => (s, Ok tt)
  | w :: ws =>
      match (match pw_op w with
             | WSet v => put_state s (state_key w) v
             | WDelete => delete_state s (state_key w)
             end) with
      | (s, Ok _) => default_apply_writes s ws
      | (s, Err e) => (s, Err e)
      end
  end.

Definition default_tip (s : S) : result CoreError (option Block) :=
  let? i := latest_block_index s in
  match i with
  | None => Ok None
  | Some i =>
      let? b := get_block s i in
      match b with
      | None => Err (Storage ("block " +:+ pretty i +:+ " missing from store"))
      | Some tip => Ok (Some tip)
      end
  end.

Definition default_apply_block (s : S) (b : Block) : S * result CoreError unit :=
  match default_tip s with
  | Err e => (s, Err e)
  | Ok tip =>
      match validate_tip_chain b tip with
      | Err e => (s, Err e)
      | Ok _ =>
          match put_block s b with
          | (s, Err e) => (s, Err e)
          | (s, Ok _) => default_apply_writes s (write_set b)
          end
      end
  end.
End default_apply.

(** The greatest key of a map keyed by [u64]. *)
Definition max_key {A} (m : gmap Z A) : option Z :=
  match (map_to_list m).*1 with
  | [] => None
  | k :: ks => Some (foldr Z.max k ks)
  end.

Module InMemory.

Record Store := mkStore { blocks : gmap Z Block; state : gmap string string }.

#[global] Instance provider : StorageProvider Store := {|
  put_block s b := (mkStore (<[index b := b]> (blocks s)) (state s), Ok tt);
  get_block s i := Ok (blocks s !! i);
  latest_block_index s := Ok (max_key (blocks s));
  put_state s k v := (mkStore (blocks s) (<[k := v]> (state s)), Ok tt);
  get_state s k := Ok (state s !! k);
  delete_state s k := (mkStore (blocks s) (delete k (state s)), Ok tt);
  list_state_keys s p :=
    Ok (sort_by String.leb (List.filter (starts_with p) (map_to_list (state s)).*1)) |}.

Definition tip (s : Store) : result CoreError (option Block) :=
  match max_key (blocks s) with
  | None => Ok None
  | Some i =>
      match blocks s !! i with
      | Some b => Ok (Some b)
      | None => Err (Storage ("block " +:+ pretty i +:+ " missing from store"))
      end
  end.

Definition apply_block (s : Store) (b : Block) : Store * result CoreError unit :=
  match tip s with
  | Err e => (s, Err e)
  | Ok t =>
      match validate_tip_chain b t with
      | Err e => (s, Err e)
      | Ok _ => (mkStore (<[index b := b]> (blocks s)) (apply_writes (write_set b) (state s)), Ok tt)
      end
  end.

End InMemory.

Module Redb.
Section redb.
(** serde_json on blocks, and which database calls fail. *)
Context (json_block : Block → string) (parse_block : string → result CoreError Block).
Context (io : string → option string).

Record Tables := mkTables { blocks : gmap Z string; state : gmap string string }.

(** A database call: the error redb reports, mapped by [storage_err], or success. *)
Definition call {A} (label : string) (a : A) : result CoreError A :=
  match io label with Some m => Err (Storage m) | None => Ok a end.

Definition tip_in_txn (t : Tables) : result CoreError (option Block) :=
  let? last := call "last" (max_key (blocks t)) in
  match last ≫= λ k, blocks t !! k with
  | Some v => let? b := parse_block v in Ok (Some b)
  | None => Ok None
  end.

(** One write applied to the transaction's view of the state table. *)
Definition write_in_txn (t : Tables) (w : PersistentWrite) : result CoreError Tables :=
  match pw_op w with
  | WSet v =>
      call ("insert " +:+ state_key w) (mkTables (blocks t) (<[state_key w := v]> (state t)))
  | WDelete => call ("remove " +:+ state_key w) (mkTables (blocks t) (delete (state_key w) (state t)))
  end.

(** The body of the write transaction of [apply_block]; its tables become the
    database only when [commit] succeeds. *)
Definition apply_txn (t : Tables) (b : Block) : result CoreError Tables :=
  let? _ := call "open blocks" tt in
  let? tip := tip_in_txn t in
  let? _ := map_err (λ e, InvalidBlock (display_error e)) (validate_tip_chain b tip) in
  let? _ := call "open state" tt in
  let? t := fold_result write_in_txn (write_set b) t in
  call "insert block" (mkTables (<[index b := json_block b]> (blocks t)) (state t)).

Definition apply_block (t : Tables) (b : Block) : Tables * result CoreError unit :=
  match (let? _ := call "begin_write" tt in
         let? t' := apply_txn t b in
         let? _ := call "commit" tt in
         Ok t') with
  | Ok t' => (t', Ok tt)
  | Err e => (t, Err e)
  end.

Definition put_block (t : Tables) (b : Block) : Tables * result CoreError unit :=
  match (let? _ := call "begin_write" tt in
         let? _ := call "open blocks" tt in
         let? _ := call "insert block" tt in
         call "commit" (mkTables (<[index b := json_block b]> (blocks t)) (state t))) with
  | Ok t' => (t', Ok tt)
  | Err e => (t, Err e)
  end.

Definition get_block (t : Tables) (i : Z) : result CoreError (option Block) :=
  let? _ := call "begin_read" tt in
  let? _ := call "open blocks" tt in
  let? v := call "get" (blocks t !! i) in
  match v with
  | Some v => let? b := parse_block v in Ok (Some b)
  | None => Ok None
  end.

Definition latest_block_index (t : Tables) : result CoreError (option Z) :=
  let? _ := call "begin_read" tt in
  let? _ := call "open blocks" tt in
  call "last" (max_key (blocks t)).

Definition put_state (t : Tables) (k v : string) : Tables * result CoreError unit :=
  match (let? _ := call "begin_write" tt in
         let? _ := call "open state" tt in
         let? _ := call ("insert " +:+ k) tt in
         call "commit" (mkTables (blocks t) (<[k := v]> (state t)))) with
  | Ok t' => (t', Ok tt)
  | Err e => (t, Err e)
  end.

Definition get_state (t : Tables) (k : string) : result CoreError (option string) :=
  let? _ := call "begin_read" tt in
  let? _ := call "open state" tt in
  call "get" (state t !! k).

Definition delete_state (t : Tables) (k : string) : Tables * result CoreError unit :=
  match (let? _ := call "begin_write" tt in
         let? _ := call "open state" tt in
         let? _ := call ("remove " +:+ k) tt in
         call "commit" (mkTables (blocks t) (delete k (state t)))) with
  | Ok t' => (t', Ok tt)
  | Err e => (t, Err e)
  end.

(** The scan from [prefix..]: stop at the first key without the prefix. *)
Fixpoint take_prefix (p : string) (keys : list string) : list string :=
  match keys with
  | [] => []
  | k :: keys => if starts_with p k then k :: take_prefix p keys else []
  end.

(** [table.range(prefix..)]: the keys at or above [prefix], ascending. *)
Definition range_from (p : string) (m : gmap string string) : list string :=
  List.filter (String.leb p) (btree_keys m).

Definition list_state_keys (t : Tables) (p : string) : result CoreError (list string) :=
  let? _ := call "begin_read" tt in
  let? _ := call "open state" tt in
  let? keys := call "range" (range_from p (state t)) in
  Ok (take_prefix p keys).

Definition provider : StorageProvider Tables := {|
  Storage.put_block := put_block;
  Storage.get_block := get_block;
  Storage.latest_block_index := latest_block_index;
  Storage.put_state := put_state;
  Storage.get_state := get_state;
  Storage.delete_state := delete_state;
  Storage.list_state_keys := list_state_keys |}.

End redb.
End Redb.

(** ** Ordered keys *)

Lemma str_leb_prefix p k : starts_with p k = true → String.leb p k = true.
Proof.
  unfold String.leb. revert k. induction p as [|a p IH]; intros [|b k]; try done.
  rewrite starts_with_cons. intros [Ha Hp]%andb_true_iff. apply Ascii.eqb_eq in Ha as ->.
  simpl. unfold Ascii.compare. rewrite N.compare_refl. by apply IH.
Qed.

Lemma ascii_compare_eq a b : Ascii.compare a b = Eq → a = b.
Proof. apply Ascii.compare_eq_iff. Qed.

(** A key between the prefix and a key that has it has it too. *)
Lemma prefix_convex p k k' :
  String.leb p k = true → String.leb k k' = true → starts_with p k' = true →
  starts_with p k = true.
Proof.
  unfold String.leb. revert k k'. induction p as [|a p IH]; intros [|b k] [|c k']; try done.
  rewrite !starts_with_cons. simpl. intros H1 H2 [Hac Hp]%andb_true_iff.
  apply Ascii.eqb_eq in Hac as <-.
  destruct (Ascii.compare a b) eqn:Eab; [| |done].
  - apply ascii_compare_eq in Eab as <-. rewrite Ascii.eqb_refl. simpl.
    unfold Ascii.compare in H2. rewrite N.compare_refl in H2. by eapply IH.
  - exfalso. destruct (Ascii.compare b a) eqn:Eba; [| |done].
    + apply ascii_compare_eq in Eba as ->. unfold Ascii.compare in Eab.
      by rewrite N.compare_refl in Eab.
    + pose proof (ascii_compare_trans _ _ _ Eab Eba) as Haa. unfold Ascii.compare in Haa.
      by rewrite N.compare_refl in Haa.
Qed.

Lemma take_prefix_filter p keys :
  StronglySorted (λ a b, String.leb a b = true) keys →
  Redb.take_prefix p (List.filter (String.leb p) keys) = List.filter (starts_with p) keys.
Proof.
  induction 1 as [|k keys Hs IH Hk]; simpl; [done|].
  destruct (starts_with p k) eqn:Hp.
  - rewrite (str_leb_prefix _ _ Hp). simpl. rewrite Hp. by f_equal.
  - destruct (String.leb p k) eqn:Hle; simpl; [|done]. rewrite Hp. symmetry.
    assert (∀ x, x ∈ keys → starts_with p x = false) as Hno.
    { intros x Hx. eapply Forall_forall in Hk; [|exact Hx].
      destruct (starts_with p x) eqn:Hpx; [|done].
      by rewrite (prefix_convex p k x Hle Hk Hpx) in Hp. }
    clear -Hno. induction keys as [|x keys IH]; simpl; [done|].
    rewrite (Hno x) by left. apply IH. intros y Hy. apply Hno. by right.
Qed.

Lemma btree_keys_sorted {A} (m : gmap string A) :
  StronglySorted (λ a b, String.leb a b = true) (btree_keys m).
Proof.
  unfold btree_keys. induction (btree_items_sorted m) as [|x l Hs IH Hx]; simpl; constructor; [done|].
  apply Forall_fmap. exact Hx.
Qed.

Lemma filter_sorted {A} (R : A → A → Prop) (f : A → bool) l :
  StronglySorted R l → StronglySorted R (List.filter f l).
Proof.
  induction 1 as [|x l Hs IH Hx]; simpl; [constructor|]. destruct (f x); [|done].
  constructor; [done|]. rewrite Forall_forall in *. intros y Hy. apply Hx.
  apply list_elem_of_In, filter_In in Hy as [Hy _]. by apply list_elem_of_In.
Qed.

Lemma str_leb_antisym a b : String.leb a b = true → String.leb b a = true → a = b.
Proof.
  unfold String.leb. rewrite (String.compare_antisym b a).
  destruct (String.compare a b) eqn:Hc; simpl; try done. intros _ _.
  by apply String.compare_eq_iff.
Qed.

Lemma filter_perm {A} (f : A → bool) l1 l2 :
  l1 ≡ₚ l2 → List.filter f l1 ≡ₚ List.filter f l2.
Proof.
  induction 1 as [|x l1 l2 Hp IH|x y l|l1 l2 l3 H1 IH1 H2 IH2]; simpl.
  - done.
  - destruct (f x); by rewrite IH.
  - destruct (f x), (f y); try done. apply Permutation_swap.
  - by rewrite IH1.
Qed.

Lemma in_memory_list_law (s : InMemory.Store) p :
  list_state_keys s p = Ok (sorted_keys_with p (InMemory.state s)).
Proof.
  simpl. f_equal. unfold sorted_keys_with. apply (strongly_sorted_unique String.leb).
  - intros x y _ _. apply str_leb_antisym.
  - rewrite sort_by_perm. apply filter_perm. unfold btree_keys, btree_items.
    by rewrite sort_by_perm.
  - apply sort_by_sorted; [apply String.leb_total | apply str_leb_trans].
  - apply filter_sorted, btree_keys_sorted.
Qed.

(** The two backends enumerate keys identically: the range scan of the redb
    table that stops at the first key without the prefix, and the filter-and-sort
    of the in-memory map, both return exactly the stored keys with the prefix in
    ascending order. *)
Theorem list_keys_backends_agree (s : InMemory.Store) p :
  list_state_keys s p = Ok (sorted_keys_with p (InMemory.state s))
  ∧ Redb.list_state_keys (λ _, None) (Redb.mkTables ∅ (InMemory.state s)) p
    = list_state_keys s p.
Proof.
  pose proof (in_memory_list_law s p) as Hm.
  split; [done|]. rewrite Hm. unfold Redb.list_state_keys, Redb.call, Redb.range_from. simpl.
  f_equal. apply take_prefix_filter, btree_keys_sorted.
Qed.

(** ** The backends are lawful *)

#[global] Instance in_memory_laws : StorageLaws InMemory.Store.
Proof.
  refine {| world := InMemory.state |}.
  - intros. by eexists.
  - done.
  - intros. by eexists.
  - apply in_memory_list_law.
Defined.

Section redb_laws.
Context (json_block : Block → string) (parse_block : string → result CoreError Block).

(** A redb database whose calls all succeed. *)
Definition redb_ok : StorageProvider Redb.Tables :=
  Redb.provider json_block parse_block (λ _, None).

Lemma redb_laws : StorageLaws Redb.Tables (H := redb_ok).
Proof.
  refine {| world := Redb.state |}.
  - intros. by eexists.
  - done.
  - intros. by eexists.
  - intros s p. simpl. unfold Redb.list_state_keys, Redb.call, Redb.range_from. simpl.
    f_equal. apply take_prefix_filter, btree_keys_sorted.
Qed.
End redb_laws.

(** ** Blocks by index *)

Lemma max_key_Some {A} (m : gmap Z A) k :
  max_key m = Some k → is_Some (m !! k) ∧ ∀ j, is_Some (m !! j) → (j ≤ k)%Z.
Proof.
  unfold max_key.
  assert (∀ j, j ∈ (map_to_list m).*1 ↔ is_Some (m !! j)) as Hin.
  { intros j. rewrite list_elem_of_fmap. split.
    - intros ([j' a] & -> & Ha). apply elem_of_map_to_list in Ha. eauto.
    - intros [a Ha]. exists (j, a). split; [done|]. by apply elem_of_map_to_list. }
  destruct (map_to_list m).*1 as [|k0 ks]; [done|]. intros [= <-].
  setoid_rewrite <- Hin. clear Hin. split.
  - induction ks as [|k1 ks IH]; simpl; [left|].
    destruct (Z.max_spec k1 (foldr Z.max k0 ks)) as [[_ ->]|[_ ->]].
    + apply elem_of_cons in IH as [->|IH]; [left|]. right. by right.
    + right. left.
  - intros j Hj. induction ks as [|k1 ks IH]; simpl.
    + apply elem_of_cons in Hj as [->|Hj]; [lia | by apply elem_of_nil in Hj].
    + rewrite !elem_of_cons in *. destruct Hj as [->|[->|Hj]]; [|lia|].
      * specialize (IH (or_introl eq_refl)). lia.
      * specialize (IH (or_intror Hj)). lia.
Qed.

Lemma max_key_None {A} (m : gmap Z A) : max_key m = None → m = ∅.
Proof.
  unfold max_key. destruct (map_to_list m) as [|[k a] l] eqn:Hm; [|done].
  intros _. by apply map_to_list_empty_iff.
Qed.

Lemma max_key_intro {A} (m : gmap Z A) k :
  is_Some (m !! k) → (∀ j, is_Some (m !! j) → (j ≤ k)%Z) → max_key m = Some k.
Proof.
  intros Hk Hle. destruct (max_key m) as [k'|] eqn:Hm.
  - apply max_key_Some in Hm as [H1 H2]. f_equal. apply Z.le_antisymm; auto.
  - apply max_key_None in Hm as ->. rewrite lookup_empty in Hk. by destruct Hk.
Qed.

(** ** The abstract store: a chain, and the state its write sets produce *)

Definition world_of (c : list Block) : gmap string string :=
  foldl (λ st b, apply_writes (write_set b) st) ∅ c.

(** The promise of [apply_block]: append to the chain or reject whole. *)
Definition spec_apply (c : list Block) (b : Block) : list Block * result CoreError unit :=
  match validate_tip_chain b (last c) with
  | Ok _ => (c ++ [b], Ok tt)
  | Err e => (c, Err e)
  end.

(** The blocks a store holds are those of [c], by position. *)
Definition holds_blocks (m : gmap Z Block) (c : list Block) : Prop :=
  (∀ i, m !! i = if (0 <=? i)%Z then c !! Z.to_nat i else None)
  ∧ (∀ n b, c !! n = Some b → index b = Z.of_nat n).

Lemma holds_blocks_max m c :
  holds_blocks m c → max_key m = match c with [] => None | _ => Some (Z.of_nat (length c) - 1)%Z end.
Proof.
  intros [Hb Hi]. destruct c as [|b0 c0 _] using rev_ind.
  - assert (m = ∅) as ->; [|done]. apply map_eq. intros i. rewrite Hb, lookup_empty.
    by destruct (0 <=? i)%Z.
  - assert (max_key m = Some (Z.of_nat (length c0))) as ->.
    { apply max_key_intro.
      - rewrite Hb. destruct (Z.leb_spec 0 (Z.of_nat (length c0))); [|lia].
        rewrite Nat2Z.id, lookup_app_r, Nat.sub_diag by lia. eauto.
      - intros j Hj. rewrite Hb in Hj. destruct (Z.leb_spec 0 j); [|by destruct Hj].
        apply lookup_lt_is_Some in Hj. rewrite length_app in Hj. simpl in Hj. lia. }
    destruct (c0 ++ [b0]) as [|x l] eqn:Hc; [by destruct c0|]. rewrite <- Hc, length_app. simpl.
    f_equal. lia.
Qed.

Lemma holds_blocks_push m c b :
  holds_blocks m c → index b = Z.of_nat (length c) → holds_blocks (<[index b := b]> m) (c ++ [b]).
Proof.
  intros [Hb Hi] Hidx. split.
  - intros i. rewrite Hidx. destruct (decide (i = Z.of_nat (length c))) as [->|Hne].
    + rewrite lookup_insert_eq. destruct (Z.leb_spec 0 (Z.of_nat (length c))); [|lia].
      by rewrite Nat2Z.id, lookup_app_r, Nat.sub_diag by lia.
    + rewrite lookup_insert_ne, Hb by done. destruct (Z.leb_spec 0 i); [|done].
      destruct (decide (Z.to_nat i < length c)) as [Hlt|Hge].
      * by rewrite lookup_app_l.
      * rewrite lookup_ge_None_2 by lia. symmetry. apply lookup_ge_None_2.
        rewrite length_app. simpl. lia.
  - intros n b' Hn. destruct (decide (n < length c)) as [Hlt|Hge].
    + rewrite lookup_app_l in Hn by done. by apply Hi.
    + rewrite lookup_app_r in Hn by lia. apply list_lookup_singleton_Some in Hn as [Hz <-].
      rewrite Hidx. lia.
Qed.

(** The store holds exactly the blocks of [c], by position, and their state. *)
Definition represents (s : InMemory.Store) (c : list Block) : Prop :=
  (∀ i, InMemory.blocks s !! i = if (0 <=? i)%Z then c !! Z.to_nat i else None)
  ∧ (∀ n b, c !! n = Some b → index b = Z.of_nat n)
  ∧ InMemory.state s = world_of c.

Lemma represents_holds s c :
  represents s c ↔ holds_blocks (InMemory.blocks s) c ∧ InMemory.state s = world_of c.
Proof. unfold represents, holds_blocks. tauto. Qed.

(** The greatest key is the tip's. *)
Lemma holds_blocks_last m c :
  holds_blocks m c → match max_key m with Some i => m !! i | None => None end = last c.
Proof.
  intros Hh. rewrite (holds_blocks_max _ _ Hh). destruct Hh as [Hb _].
  destruct c as [|b0 c0 _] using rev_ind; [done|].
  destruct (c0 ++ [b0]) as [|x l] eqn:Hc; [by destruct c0|]. rewrite <- Hc in *. rewrite Hb, last_snoc, length_app.
  cbn [length]. destruct (Z.leb_spec 0 (Z.of_nat (length c0 + 1) - 1)); [|lia].
  replace (Z.to_nat (Z.of_nat (length c0 + 1) - 1)) with (length c0) by lia.
  by rewrite lookup_app_r, Nat.sub_diag by lia.
Qed.

Lemma holds_blocks_tip s c : holds_blocks (InMemory.blocks s) c → InMemory.tip s = Ok (last c).
Proof.
  intros Hh. pose proof (holds_blocks_last _ _ Hh) as Hl. unfold InMemory.tip.
  rewrite (holds_blocks_max _ _ Hh) in *. destruct c as [|x l]; [done|]. rewrite Hl.
  destruct (last (x :: l)) as [b|] eqn:Hlast; [done|]. by apply last_None in Hlast.
Qed.

Lemma represents_tip s c : represents s c → InMemory.tip s = Ok (last c).
Proof. intros [Hh _]%represents_holds. by apply holds_blocks_tip. Qed.

Lemma represents_push s c b :
  represents s c → index b = Z.of_nat (length c) →
  represents (InMemory.mkStore (<[index b := b]> (InMemory.blocks s))
    (apply_writes (write_set b) (InMemory.state s))) (c ++ [b]).
Proof.
  rewrite !represents_holds. intros [Hh Hs] Hidx. split; [by apply holds_blocks_push|].
  simpl. unfold world_of in *. by rewrite foldl_app, Hs.
Qed.

Lemma validate_tip_index s c b :
  represents s c → (Z.of_nat (length c) ≤ U64_MAX)%Z →
  validate_tip_chain b (last c) = Ok tt → index b = Z.of_nat (length c).
Proof.
  intros (_ & Hi & _) Hlen. destruct c as [|t c _] using rev_ind; simpl.
  - destruct (Z.eqb_spec (index b) 0); done.
  - rewrite last_snoc. simpl. rewrite length_app in *. simpl in *.
    destruct (index b =? add64 (index t) 1)%Z eqn:He; [|done]. intros _. bool_hyps.
    assert (index t = Z.of_nat (length c)) as Ht.
    { apply Hi. by rewrite lookup_app_r, Nat.sub_diag by lia. }
    rewrite He, Ht, add64_small; lia.
Qed.

(** The in-memory backend implements the abstract store: starting from a
    store that represents a chain, [apply_block] accepts exactly the blocks that
    chain to the tip, returns the abstract store's result, and the new store
    represents the extended chain, its world state being the replay of every
    committed write set in order; a rejected block changes nothing. *)
Theorem in_memory_refines s c b :
  represents s c → (Z.of_nat (length c) ≤ U64_MAX)%Z →
  let '(s', r) := InMemory.apply_block s b in
  let '(c', r') := spec_apply c b in
  r = r' ∧ represents s' c' ∧ (is_ok r = false → s' = s).
Proof.
  intros Hr Hlen. unfold InMemory.apply_block, spec_apply.
  rewrite (represents_tip s c Hr).
  destruct (validate_tip_chain b (last c)) as [[]|e] eqn:Hv; [|done].
  split; [done|]. split; [|done].
  apply represents_push; [done|]. by eapply validate_tip_index.
Qed.

Lemma default_apply_writes_in_memory s ws :
  default_apply_writes s ws =
  (InMemory.mkStore (InMemory.blocks s) (apply_writes ws (InMemory.state s)), Ok tt).
Proof.
  revert s. induction ws as [|w ws IH]; intros s; simpl; [by destruct s|].
  unfold apply_to_cache. destruct (pw_op w); by rewrite IH.
Qed.

(** The overriding atomic [apply_block] computes what the trait's default does. *)
Lemma in_memory_apply_default s b : default_apply_block s b = InMemory.apply_block s b.
Proof.
  unfold default_apply_block, InMemory.apply_block, default_tip, InMemory.tip. simpl.
  destruct (max_key (InMemory.blocks s)) as [i|].
  - destruct (InMemory.blocks s !! i) as [t|]; [|done].
    destruct (validate_tip_chain b (Some t)); [|done]. by rewrite default_apply_writes_in_memory.
  - destruct (validate_tip_chain b None); [|done]. by rewrite default_apply_writes_in_memory.
Qed.

(** ** What a running node relies on *)

(** The block side of a backend that does not fail; [apply] is its [apply_block]. *)
Class BlockLaws (S : Type) `{L : StorageLaws S} (apply : S → Block → S * result CoreError unit) := {
  stored : S → gmap Z Block;
  put_block_law s b : ∃ s', put_block s b = (s', Ok tt)
    ∧ stored s' = <[index b := b]> (stored s) ∧ world s' = world s;
  get_block_law s i : get_block s i = Ok (stored s !! i);
  latest_block_index_law s : latest_block_index s = Ok (max_key (stored s));
  put_state_stored s k v : stored (put_state s k v).1 = stored s;
  delete_state_stored s k : stored (delete_state s k).1 = stored s;
  apply_block_law s c b : holds_blocks (stored s) c → validate_tip_chain b (last c) = Ok tt →
    ∃ s', apply s b = (s', Ok tt) ∧ stored s' = <[index b := b]> (stored s)
      ∧ world s' = apply_writes (write_set b) (world s) }.

#[global] Instance in_memory_blocks : BlockLaws InMemory.Store InMemory.apply_block.
Proof.
  refine {| stored := InMemory.blocks |}; try done.
  - intros s b. by eexists.
  - intros s c b Hh Hv. unfold InMemory.apply_block. rewrite (holds_blocks_tip _ _ Hh), Hv. by eexists.
Defined.

Section redb_refinement.
Context (json_block : Block → string) (parse_block : string → result CoreError Block).
Context (io : string → option string).

(** serde_json reads back the blocks of [s] that it wrote. *)
Definition reads_back (s : InMemory.Store) : Prop :=
  ∀ i b, InMemory.blocks s !! i = Some b → parse_block (json_block b) = Ok b.

(** A database whose block table holds the serialised blocks of [s]. *)
Definition encodes (t : Redb.Tables) (s : InMemory.Store) : Prop :=
  Redb.blocks t = json_block <$> InMemory.blocks s ∧ Redb.state t = InMemory.state s.

Lemma max_key_fmap (m : gmap Z Block) : max_key (json_block <$> m) = max_key m.
Proof.
  destruct (max_key m) as [k|] eqn:Hk.
  - apply max_key_Some in Hk as [H1 H2]. apply max_key_intro.
    + rewrite lookup_fmap. by apply fmap_is_Some.
    + intros j. rewrite lookup_fmap, fmap_is_Some. apply H2.
  - apply max_key_None in Hk as ->. by rewrite fmap_empty.
Qed.

Lemma redb_tip t s :
  encodes t s → reads_back s →
  Redb.tip_in_txn parse_block io t = InMemory.tip s
  ∨ ∃ m, Redb.tip_in_txn parse_block io t = Err (Storage m).
Proof.
  intros [Hb _] parse_json. unfold Redb.tip_in_txn, Redb.call, InMemory.tip.
  destruct (io "last") as [m|]; [by eauto|]. left. rewrite Hb, max_key_fmap.
  destruct (max_key (InMemory.blocks s)) as [k|] eqn:Hk; simpl; [|done].
  apply max_key_Some in Hk as [[b Hkb] _]. rewrite lookup_fmap, Hkb. simpl.
  by rewrite (parse_json k).
Qed.

Lemma redb_writes ws t :
  fold_result (Redb.write_in_txn io) ws t
    = Ok (Redb.mkTables (Redb.blocks t) (apply_writes ws (Redb.state t)))
  ∨ ∃ m, fold_result (Redb.write_in_txn io) ws t = Err (Storage m).
Proof.
  revert t. induction ws as [|w ws IH]; intros t; simpl; [left; by destruct t|].
  unfold Redb.write_in_txn at 1 3, Redb.call, apply_writes, apply_to_cache. simpl.
  destruct (pw_op w) as [v|].
  - destruct (io ("insert " +:+ state_key w)) as [m|]; [by eauto|]. apply IH.
  - destruct (io ("remove " +:+ state_key w)) as [m|]; [by eauto|]. apply IH.
Qed.

Ltac in_memory_cases s :=
  destruct (InMemory.tip s); [destruct (validate_tip_chain _ _)|].

(** C9: the redb commit boundary is atomic: whichever database calls fail,
    [apply_block] either reports an error and leaves every table as it was, or
    succeeds and leaves exactly the tables that encode the in-memory store after
    the same block; it succeeds only when the in-memory store does.  No partial
    write set is ever visible. *)
Theorem redb_apply_atomic t s b :
  encodes t s → reads_back s →
  let '(t', r) := Redb.apply_block json_block parse_block io t b in
  let '(s', r') := InMemory.apply_block s b in
  (is_ok r = false → t' = t) ∧ (is_ok r = true → is_ok r' = true ∧ encodes t' s').
Proof.
  intros Henc Hback. unfold Redb.apply_block, InMemory.apply_block.
  unfold Redb.call at 1. destruct (io "begin_write"); [by in_memory_cases s|].
  unfold Redb.apply_txn. unfold Redb.call at 1.
  destruct (io "open blocks"); [by in_memory_cases s|].
  destruct (redb_tip t s Henc Hback) as [-> | [m ->]];
    [|by in_memory_cases s].
  destruct (InMemory.tip s) as [tip|e]; [|done].
  destruct (validate_tip_chain b tip) as [[]|e]; [|done]. cbn [map_err].
  unfold Redb.call at 1. destruct (io "open state"); [done|].
  destruct (redb_writes (write_set b) t) as [-> | [m ->]]; [|done].
  unfold Redb.call at 1. destruct (io "insert block"); [done|].
  unfold Redb.call. destruct (io "commit"); [done|].
  split; [done|]. intros _. split; [done|]. destruct Henc as [Hb Hs].
  split; simpl; [by rewrite Hb, fmap_insert | by rewrite Hs].
Qed.
End redb_refinement.
