(* ===== verification/Transient.v ===== *)
(** The member-side retention store for private payloads (glasschain-storage:
    transient.rs), over any lawful storage backend.

    The envelope codec is serde_json, a parameter with its round trip as
    hypothesis; [now] is the wall clock at the call.  The theorems: a payload is
    readable exactly until its deadline, and a purge removes every expired
    payload and nothing else, also right after a restart when the in-memory
    expiry index is empty. *)

From S2P Require Import Prelude Types WriteSet Chain Storage.

Definition TRANSIENT_PREFIX : string := "transient".

Record PayloadEnvelope := mkEnvelope { env_payload : string; env_expires_at : Z }.

Definition transient_key (collection com : string) : string :=
  TRANSIENT_PREFIX +:+ ":" +:+ collection +:+ ":" +:+ com.

Section transient.
Context {S : Type} `{SP : StorageProvider S}.
(** serde_json on envelopes. *)
Context (to_json : PayloadEnvelope → string)
        (of_json : string → result CoreError PayloadEnvelope).

Record TransientStore := mkTransient {
  storage : S;
  expiry_index : gmap string Z }.

(** [TransientStore::new]: also what a restart leaves over the same storage. *)
Definition transient_new (s : S) : TransientStore := mkTransient s ∅.

Definition record_expiry (t : TransientStore) (key : string) (e : Z) : TransientStore :=
  mkTransient (storage t) (<[key := e]> (expiry_index t)).

(** [TransientStore::put] *)
Definition transient_put (now : Z) (t : TransientStore) (collection com payload : string)
    (retention_secs : Z) : TransientStore * result CoreError unit :=
  let expires_at := add64 now retention_secs in
  let key := transient_key collection com in
  match put_state (storage t) key (to_json (mkEnvelope payload expires_at)) with
  | (s, Ok _) => (record_expiry (mkTransient s (expiry_index t)) key expires_at, Ok tt)
  | (s, Err e) => (mkTransient s (expiry_index t), Err e)
  end.

(** [TransientStore::get] *)
Definition transient_get (now : Z) (t : TransientStore) (collection com : string)
  : TransientStore * result CoreError (option string) :=
  let key := transient_key collection com in
  match get_state (storage t) key with
  | Err e => (t, Err e)
  | Ok None => (t, Ok None)
  | Ok (Some raw) =>
      match of_json raw with
      | Err e => (t, Err e)
      | Ok env =>
          if (env_expires_at env <=? now)%Z then (t, Ok None)
          else (record_expiry t key (env_expires_at env), Ok (Some (env_payload env)))
      end
  end.

(** The discovery loop over the persisted keys the index does not know. *)
Fixpoint discover (now : Z) (s : S) (known : gmap string Z) (keys : list string)
  : result CoreError (list string) :=
  match keys with
  | [] => Ok []
  | k :: keys =>
      if is_some (known !! k) then discover now s known keys else
      let? raw := get_state s k in
      match raw with
      | None => discover now s known keys
      | Some raw =>
          let? rest := discover now s known keys in
          match of_json raw with
          | Ok env => if (env_expires_at env <=? now)%Z then Ok (k :: rest) else Ok rest
          | Err _ => Ok rest
          end
      end
  end.

(** The deletion loop: a failed delete keeps the key for the next sweep. *)
Fixpoint purge_keys (t : TransientStore) (keys : list string) (purged : nat)
  : TransientStore * nat :=
  match keys with
  | [] => (t, purged)
  | k :: keys =>
      match delete_state (storage t) k with
      | (s, Ok _) => purge_keys (mkTransient s (delete k (expiry_index t))) keys (1 + purged)
      | (s, Err _) => purge_keys (mkTransient s (expiry_index t)) keys purged
      end
  end.

(** The keys the index knows to be expired (in the map's iteration order). *)
Definition known_expired (now : Z) (known : gmap string Z) : list string :=
  (List.filter (λ ke : string * Z, (ke.2 <=? now)%Z) (map_to_list known)).*1.

Definition purge_expired (now : Z) (t : TransientStore) : TransientStore * result CoreError nat :=
  let known := expiry_index t in
  match list_state_keys (storage t) (TRANSIENT_PREFIX +:+ ":") with
  | Err e => (t, Err e)
  | Ok keys =>
      match discover now (storage t) known keys with
      | Err e => (t, Err e)
      | Ok found =>
          let '(t', n) := purge_keys t (known_expired now known ++ found) 0 in (t', Ok n)
      end
  end.

(** ** Properties over a lawful backend *)

Context `{L : !StorageLaws S} (codec : ∀ e, of_json (to_json e) = Ok e).

(** The envelope stored under a key. *)
Definition stored (s : S) (k : string) : option PayloadEnvelope :=
  match world s !! k with
  | Some raw => match of_json raw with Ok e => Some e | Err _ => None end
  | None => None
  end.

(** The index records deadlines of persisted payloads. *)
Definition index_consistent (t : TransientStore) : Prop :=
  ∀ k e, expiry_index t !! k = Some e →
    starts_with (TRANSIENT_PREFIX +:+ ":") k = true
    ∧ ∃ env, stored (storage t) k = Some env ∧ env_expires_at env = e.

Lemma transient_key_prefix c m :
  starts_with (TRANSIENT_PREFIX +:+ ":") (transient_key c m) = true.
Proof.
  unfold transient_key. rewrite <- app_str_assoc. apply starts_with_app.
Qed.

Lemma transient_put_spec now t c m p r :
  let '(t', res) := transient_put now t c m p r in
  res = Ok tt
  ∧ stored (storage t') (transient_key c m) = Some (mkEnvelope p (add64 now r))
  ∧ (∀ k, k ≠ transient_key c m → world (storage t') !! k = world (storage t) !! k)
  ∧ (index_consistent t → index_consistent t').
Proof.
  unfold transient_put.
  destruct (put_state_law (storage t) (transient_key c m) (to_json (mkEnvelope p (add64 now r))))
    as (s' & -> & Hw).
  split; [done|].
  assert (stored s' (transient_key c m) = Some (mkEnvelope p (add64 now r))) as Hst.
  { unfold stored. by rewrite Hw, lookup_insert_eq, codec. }
  split; [done|]. split; [intros k Hk; simpl; by rewrite Hw, lookup_insert_ne|].
  intros Hc k e. simpl. destruct (decide (k = transient_key c m)) as [->|Hne].
  - rewrite lookup_insert_eq. intros [= <-]. split; [apply transient_key_prefix|]. eauto.
  - rewrite lookup_insert_ne by done. intros Hk. destruct (Hc k e Hk) as (Hp & env & He & Hx).
    split; [done|]. exists env. split; [|done]. unfold stored in *.
    by rewrite Hw, lookup_insert_ne.
Qed.

Lemma transient_get_spec now t c m :
  (transient_get now t c m).2 =
  match world (storage t) !! transient_key c m with
  | None => Ok None
  | Some raw =>
      match of_json raw with
      | Err e => Err e
      | Ok env => Ok (if (env_expires_at env <=? now)%Z then None else Some (env_payload env))
      end
  end.
Proof.
  unfold transient_get. rewrite get_state_law.
  destruct (world (storage t) !! _) as [raw|]; [|done].
  destruct (of_json raw) as [env|]; [|done]. by destruct (env_expires_at env <=? now)%Z.
Qed.

(** Retention is a read boundary: a payload stored at time [t0] for [r]
    seconds is returned unchanged by every read strictly before its deadline and
    by none from the deadline on (the deadline being [t0 + r] when that fits in
    64 bits). *)
Theorem transient_roundtrip t0 t1 t c m p r :
  (0 ≤ t0 + r ≤ U64_MAX)%Z →
  let '(t', res) := transient_put t0 t c m p r in
  res = Ok tt
  ∧ (transient_get t1 t' c m).2 = Ok (if (t1 <? t0 + r)%Z then Some p else None).
Proof.
  intros Hr. pose proof (transient_put_spec t0 t c m p r) as H.
  destruct (transient_put t0 t c m p r) as [t' res]. destruct H as (-> & Hst & _).
  split; [done|]. rewrite transient_get_spec. unfold stored in Hst.
  destruct (world (storage t') !! _) as [raw|]; [|done].
  destruct (of_json raw) as [env|]; [|done]. injection Hst as ->. simpl.
  rewrite add64_small by done.
  destruct (Z.leb_spec (t0 + r) t1), (Z.ltb_spec t1 (t0 + r)); try done; lia.
Qed.

(** The keys a purge at [now] must remove. *)
Definition expired_at (now : Z) (s : S) (k : string) : bool :=
  starts_with (TRANSIENT_PREFIX +:+ ":") k
  && match stored s k with Some env => (env_expires_at env <=? now)%Z | None => false end.

Lemma discover_spec now s known keys :
  ∃ found, discover now s known keys = Ok found
    ∧ ∀ k, k ∈ found ↔ k ∈ keys ∧ known !! k = None
        ∧ match stored s k with Some env => (env_expires_at env <= now)%Z | None => False end.
Proof.
  induction keys as [|k keys (found & Hf & IH)]; simpl.
  - exists []. split; [done|]. intros k. rewrite elem_of_nil. naive_solver.
  - destruct (known !! k) as [e|] eqn:Hk; simpl.
    + exists found. split; [done|]. intros k'. rewrite IH, elem_of_cons. naive_solver.
    + rewrite get_state_law, Hf.
      assert (∀ fd : list string, (∀ k', k' ∈ fd ↔ (k' = k ∧ match stored s k with
          Some env => (env_expires_at env <= now)%Z | None => False end) ∨ k' ∈ found) →
        ∀ k', k' ∈ fd ↔ k' ∈ k :: keys ∧ known !! k' = None ∧
          match stored s k' with Some env => (env_expires_at env <= now)%Z | None => False end)
        as Hgo.
      { intros fd Hfd k'. rewrite Hfd, IH, elem_of_cons. naive_solver. }
      unfold stored in Hgo at 1. destruct (world s !! k) as [raw|] eqn:Hw.
      * destruct (of_json raw) as [env|] eqn:Hj.
        -- destruct (Z.leb_spec (env_expires_at env) now).
           ++ exists (k :: found). split; [done|]. apply Hgo. intros k'.
              rewrite elem_of_cons. naive_solver.
           ++ exists found. split; [done|]. apply Hgo. intros k'. naive_solver lia.
        -- exists found. split; [done|]. apply Hgo. naive_solver.
      * exists found. split; [done|]. apply Hgo. naive_solver.
Qed.

Lemma purge_keys_spec t keys n :
  let '(t', n') := purge_keys t keys n in
  n' = n + length keys
  ∧ (∀ k, world (storage t') !! k = if bool_decide (k ∈ keys) then None
                                    else world (storage t) !! k)
  ∧ (∀ k, expiry_index t' !! k = if bool_decide (k ∈ keys) then None
                                 else expiry_index t !! k).
Proof.
  revert t n. induction keys as [|k keys IH]; intros t n; simpl.
  - split; [lia|]. by split; intros.
  - destruct (delete_state_law (storage t) k) as (s' & -> & Hw).
    specialize (IH (mkTransient s' (delete k (expiry_index t))) (1 + n)).
    destruct (purge_keys _ keys _) as [t' n']. destruct IH as (-> & H1 & H2).
    split; [lia|]. simpl in *. split; intros j.
    + rewrite H1, Hw. destruct (decide (j = k)) as [->|Hne].
      * rewrite lookup_delete_eq, (bool_decide_eq_true_2 (k ∈ k :: keys)) by left.
        by destruct (bool_decide _).
      * rewrite lookup_delete_ne by done.
        rewrite (bool_decide_ext (j ∈ k :: keys) (j ∈ keys)); [done|].
        rewrite elem_of_cons. naive_solver.
    + rewrite H2. destruct (decide (j = k)) as [->|Hne].
      * rewrite lookup_delete_eq, (bool_decide_eq_true_2 (k ∈ k :: keys)) by left.
        by destruct (bool_decide _).
      * rewrite lookup_delete_ne by done.
        rewrite (bool_decide_ext (j ∈ k :: keys) (j ∈ keys)); [done|].
        rewrite elem_of_cons. naive_solver.
Qed.

Lemma known_expired_elem now known k :
  k ∈ known_expired now known ↔ ∃ e, known !! k = Some e ∧ (e ≤ now)%Z.
Proof.
  unfold known_expired. rewrite list_elem_of_fmap. split.
  - intros ([k' e] & -> & Hin). apply list_elem_of_In, filter_In in Hin as [Hin He].
    apply list_elem_of_In, elem_of_map_to_list in Hin. simpl in *. bool_hyps. eauto.
  - intros (e & Hk & He). exists (k, e). split; [done|].
    apply list_elem_of_In, filter_In. split; [|by apply Z.leb_le].
    by apply list_elem_of_In, elem_of_map_to_list.
Qed.

(** A purge removes exactly the expired payloads: with an index that agrees
    with storage (in particular the empty index a restart leaves), after
    [purge_expired] at [now] every key of the transient space whose stored
    deadline has passed is gone, every other key of the store, transient or not,
    is untouched, and the index still agrees with storage. *)
Theorem purge_removes_exactly_expired now t :
  index_consistent t →
  let '(t', res) := purge_expired now t in
  is_ok res = true
  ∧ (∀ k, world (storage t') !! k =
       if expired_at now (storage t) k then None else world (storage t) !! k)
  ∧ index_consistent t'.
Proof.
  intros Hc. unfold purge_expired. rewrite list_state_keys_law.
  destruct (discover_spec now (storage t) (expiry_index t)
    (sorted_keys_with (TRANSIENT_PREFIX +:+ ":") (world (storage t)))) as (found & -> & Hfound).
  pose proof (purge_keys_spec t (known_expired now (expiry_index t) ++ found) 0) as Hp.
  destruct (purge_keys _ _ _) as [t' n]. destruct Hp as (_ & Hw & Hx).
  assert (∀ k, bool_decide (k ∈ known_expired now (expiry_index t) ++ found)
    = expired_at now (storage t) k) as Heq.
  { intros k. apply eq_true_iff_eq. rewrite bool_decide_eq_true, elem_of_app, known_expired_elem,
      Hfound, sorted_keys_with_elem. unfold expired_at. rewrite andb_true_iff. split.
    - intros [(e & Hk & He)|([Hpre _] & _ & Hst)].
      + destruct (Hc k e Hk) as (Hpre & env & -> & <-). split; [done|]. by apply Z.leb_le.
      + split; [done|]. destruct (stored _ k); [|done]. by apply Z.leb_le.
    - intros [Hpre Hst]. destruct (stored (storage t) k) as [env|] eqn:Hs; [|done].
      apply Z.leb_le in Hst. destruct (expiry_index t !! k) as [e|] eqn:Hk.
      + left. destruct (Hc k e Hk) as (_ & env' & He' & <-). exists (env_expires_at env').
        split; [done|]. congruence.
      + right. split; [split; [done|]|]; [|done]. unfold stored in Hs.
        destruct (world (storage t) !! k); [eauto | done]. }
  setoid_rewrite Heq in Hw. setoid_rewrite Heq in Hx.
  split; [done|]. split; [exact Hw|]. intros k e Hk. rewrite Hx in Hk.
  destruct (expired_at now (storage t) k) eqn:Hexp; [done|].
  destruct (Hc k e Hk) as (Hpre & env & Hst & He). split; [done|]. exists env.
  split; [|done]. unfold stored in *. by rewrite Hw, Hexp.
Qed.

End transient.
