(* ===== verification/Bft.v ===== *)
(** BFT votes, quorum arithmetic and certificates (glasschain-core: bft.rs).

    BLS12-381 is outside the repository: [Bls] is its interface, the group and
    pairing operations the code calls, and [BlsLaws] the correctness the code
    relies on (a signature verifies under its key; the aggregate of signatures
    on one message passes the pairing check against the sum of their keys).
    Byte strings handed to the signer are lists of byte values. *)

From S2P Require Import Prelude Types Chain.

(** ** Quorum and bitmap arithmetic (bft.rs, [proof_arith]) *)

Definition saturating_mul_usize (a b : Z) : Z := Z.min (a * b) USIZE_MAX.

Definition quorum_threshold (n : Z) : Z := saturating_mul_usize n 2 / 3 + 1.
Definition meets_quorum (signers n : Z) : bool := (quorum_threshold n <=? signers)%Z.

Definition bitmap_len (n : nat) : nat :=
  if (n mod 8 =? 0)%nat then n / 8 else n / 8 + 1.
Definition bitmap_byte (i : nat) : nat := i / 8.
Definition bitmap_mask (i : nat) : Z := Z.shiftl 1 (Z.of_nat (i mod 8)).

(** [bitmap[byte] & mask != 0]; out of range is a panic in the source and the
    callers stay in range ([bitmap_contains]'s precondition). *)
Definition bitmap_contains (bitmap : list Z) (i : nat) : bool :=
  match bitmap !! bitmap_byte i with
  | Some b => negb (Z.land b (bitmap_mask i) =? 0)%Z
  | None => false
  end.

(** [bitmap[byte] |= mask] *)
Definition bitmap_set (bitmap : list Z) (i : nat) : list Z :=
  alter (λ b, Z.lor b (bitmap_mask i)) (bitmap_byte i) bitmap.

(** The set bits of one byte, ascending, offset by [base]. *)
Definition byte_bits (base : nat) (b : Z) : list nat :=
  List.filter (λ i, negb (Z.land b (Z.shiftl 1 (Z.of_nat (i - base))) =? 0)%Z) (seq base 8).

Fixpoint expand_from (base : nat) (bitmap : list Z) : list nat :=
  match bitmap with
  | [] => []
  | b :: bitmap => byte_bits base b ++ expand_from (base + 8) bitmap
  end.

Definition expand_signers (bitmap : list Z) : list nat := expand_from 0 bitmap.

Fixpoint signers_in_range (signers : list nat) (n : nat) : bool :=
  match signers with
  | [] => true
  | i :: signers => if (n <=? i)%nat then false else signers_in_range signers n
  end.

Definition bitmap_too_large (len : nat) : bool := (USIZE_MAX / 8 <? Z.of_nat len)%Z.

Inductive VotePhase := Prevote | Precommit.

#[export] Instance VotePhase_eq_dec : EqDecision VotePhase.
Proof. solve_decision. Defined.

Definition tag (p : VotePhase) : Z := match p with Prevote => 0 | Precommit => 1 end.

Definition vote_message (block_hash : string) : list Z :=
  byte_list "glasschain-bft-vote:" ++ len_prefixed block_hash.

Definition context_message (chain_id : string) (height round : Z) (phase : VotePhase)
    (block_hash : string) : list Z :=
  byte_list "glasschain-bft-vote-ctx:" ++ len_prefixed chain_id ++ be_bytes 8 height
  ++ be_bytes 4 round ++ [tag phase] ++ len_prefixed block_hash.

(** ** BLS12-381 *)

Class Bls := {
  PrivateKey : Type;
  G1 : Type; G2 : Type;
  (** [PrivateKey::public_key().as_bytes()], [PrivateKey::sign(..).as_bytes()] *)
  bls_public_key : PrivateKey → string;
  bls_sign : PrivateKey → list Z → string;
  (** [PublicKey::from_bytes], [Signature::from_bytes]: the error text or the value *)
  pk_from_bytes : string → result string G1;
  sig_from_bytes : string → result string G2;
  (** [public.verify(signature, message)] *)
  bls_verify : G1 → G2 → list Z → bool;
  (** [bls_signatures::aggregate] and [as_bytes] of the result *)
  bls_aggregate : list G2 → result string string;
  (** [G1Affine::from_compressed] and the group the keys are summed in *)
  g1_from_compressed : string → option G1;
  g1_identity : G1;
  g1_add : G1 → G1 → G1;
  (** [e(-G1, sig) + e(sum, hash(message)) == identity] *)
  pairing_check : G2 → G1 → list Z → bool }.

Record ValidatorInfo := mkValidator { v_name : string; v_public_key : string; v_pop : string }.

Section bft.
Context `{E : Env} `{B : Bls}.

Definition pop_message (v : ValidatorInfo) : list Z :=
  byte_list ("glasschain-bls-pop:" +:+ hex_encode (v_public_key v)).

Record BftConsensusProvider := mkProvider {
  validators : list ValidatorInfo;
  signing_key : PrivateKey }.

(** The checks [BftConsensusProvider::new] makes on one validator. *)
Definition check_validator (v : ValidatorInfo) : result CoreError unit :=
  let who := "bft: validator '" +:+ v_name v +:+ "' " in
  guard? (slen (v_public_key v) =? 48)%nat else
    InvalidBlock (who +:+ "has a " +:+ pretty (N.of_nat (slen (v_public_key v)))
      +:+ "-byte BLS public key (expected 48)") in
  let? public := map_err (λ e, InvalidBlock (who +:+ "has an invalid BLS public key: " +:+ e))
                   (pk_from_bytes (v_public_key v)) in
  let? pop := map_err (λ e, InvalidBlock (who +:+ "has an invalid proof of possession: " +:+ e))
                (sig_from_bytes (v_pop v)) in
  guard? bls_verify public pop (pop_message v) else
    InvalidBlock (who +:+ "failed its proof of possession (rogue-key defense)") in
  Ok tt.

Definition provider_new (vs : list ValidatorInfo) (key : PrivateKey)
  : result CoreError BftConsensusProvider :=
  let? _ := each_result check_validator vs in
  Ok (mkProvider vs key).

Definition validator_count (p : BftConsensusProvider) : nat := length (validators p).
Definition quorum (p : BftConsensusProvider) : Z :=
  quorum_threshold (Z.of_nat (validator_count p)).

(** [validators.iter().position(|v| v.public_key == key)] *)
Fixpoint position (key : string) (vs : list ValidatorInfo) : option nat :=
  match vs with
  | [] => None
  | v :: vs => if v_public_key v ==? key then Some 0 else S <$> position key vs
  end.

Definition local_index (p : BftConsensusProvider) : option nat :=
  position (bls_public_key (signing_key p)) (validators p).

(** ** Votes *)

Record BftVote := mkVote {
  vote_height : Z;
  vote_round : Z;
  vote_phase : VotePhase;
  vote_block_hash : string;
  vote_chain_id : string;
  vote_public_key : string;
  vote_signature : string;
  vote_context_signature : string;
  vote_algorithm : SignatureAlgorithm }.

(** [BftVote::sign] *)
Definition sign_vote_with (chain_id : string) (height round : Z) (phase : VotePhase)
    (block_hash : string) (key : PrivateKey) : BftVote :=
  mkVote height round phase block_hash chain_id (bls_public_key key)
    (bls_sign key (vote_message block_hash))
    (bls_sign key (context_message chain_id height round phase block_hash)) Bls12381.

Definition sign_vote (p : BftConsensusProvider) (chain_id : string) (height round : Z)
    (phase : VotePhase) (block_hash : string) : BftVote :=
  sign_vote_with chain_id height round phase block_hash (signing_key p).

Definition phase_text (p : VotePhase) : string :=
  match p with Prevote => "Prevote" | Precommit => "Precommit" end.

(** [BftVote::verify] *)
Definition vote_verify (v : BftVote) : result CoreError unit :=
  let at_ := "height " +:+ pretty (vote_height v) +:+ ", round " +:+ pretty (vote_round v)
             +:+ ", phase " +:+ phase_text (vote_phase v) +:+ ")" in
  guard? bool_decide (vote_algorithm v = Bls12381) else
    InvalidBlock "bft: vote algorithm must be Bls12381, got Ed25519" in
  guard? negb (is_empty (vote_context_signature v)) else
    InvalidBlock "bft: vote has no context signature — the legacy hash-only vote format is no longer accepted (#99)" in
  let? public := map_err (λ e, InvalidBlock ("bft: vote has an invalid BLS public key: " +:+ e))
                   (pk_from_bytes (vote_public_key v)) in
  let? signature := map_err (λ e, InvalidBlock ("bft: vote has an invalid BLS signature: " +:+ e))
                      (sig_from_bytes (vote_signature v)) in
  guard? bls_verify public signature (vote_message (vote_block_hash v)) else
    InvalidBlock ("bft: vote signature does not verify (" +:+ at_) in
  let? ctx := map_err (λ e, InvalidBlock ("bft: vote has an invalid context signature: " +:+ e))
                (sig_from_bytes (vote_context_signature v)) in
  guard? bls_verify public ctx
    (context_message (vote_chain_id v) (vote_height v) (vote_round v) (vote_phase v)
       (vote_block_hash v)) else
    InvalidBlock ("bft: vote context signature does not verify (chain " +:+ vote_chain_id v
      +:+ ", " +:+ at_) in
  Ok tt.

Definition verify_vote (p : BftConsensusProvider) (v : BftVote) : result CoreError nat :=
  let? _ := vote_verify v in
  ok_or (position (vote_public_key v) (validators p))
    (InvalidBlock "bft: vote from a validator outside the set").

(** The loop of [aggregate_votes]: the bitmap and the signatures so far. *)
Definition aggregate_step (p : BftConsensusProvider) (st : list Z * list G2) (v : BftVote)
  : result CoreError (list Z * list G2) :=
  let '(bitmap, sigs) := st in
  let? i := verify_vote p v in
  if bitmap_contains bitmap i then Ok st else
  let? s := map_err (λ e, InvalidBlock ("bft: invalid vote signature: " +:+ e))
              (sig_from_bytes (vote_signature v)) in
  Ok (bitmap_set bitmap i, sigs ++ [s]).

Definition aggregate_votes (p : BftConsensusProvider) (votes : list BftVote)
  : result CoreError (list Z * string) :=
  let? st := fold_result (aggregate_step p) votes
               (replicate (bitmap_len (validator_count p)) 0%Z, []) in
  let? agg := map_err (λ e, InvalidBlock ("bft: vote aggregation failed: " +:+ e))
                (bls_aggregate st.2) in
  Ok (st.1, agg).

(** [verify_same_message_multisig]: sum the signers' keys, one pairing check. *)
Fixpoint sum_keys (keys : list string) (acc : G1) : option G1 :=
  match keys with
  | [] => Some acc
  | k :: keys =>
      match g1_from_compressed k with
      | Some pk => sum_keys keys (g1_add acc pk)
      | None => None
      end
  end.

Definition verify_same_message_multisig (aggregate : G2) (keys : list string) (msg : list Z)
  : bool :=
  match sum_keys keys g1_identity with
  | Some sum => pairing_check aggregate sum msg
  | None => false
  end.

(** [signer_bits.iter().filter_map(|i| validators.get(i))], as keys. *)
Definition signer_keys (p : BftConsensusProvider) (bits : list nat) : list string :=
  v_public_key <$> omap (λ i, validators p !! i) bits.

Definition verify_certificate (p : BftConsensusProvider) (c : QuorumCertificate) (b : Block)
  : result CoreError unit :=
  let? _ := cert_validate c b in
  guard? negb (is_degenerate c) else
    InvalidBlock "bft: degenerate (empty) quorum certificate is not final" in
  guard? negb (bitmap_too_large (length (signers_bitmap c))) else
    InvalidBlock "bft: signer bitmap is too large to expand" in
  let bits := expand_signers (signers_bitmap c) in
  guard? meets_quorum (Z.of_nat (length bits)) (Z.of_nat (validator_count p)) else
    InvalidBlock ("bft: quorum " +:+ pretty (quorum p) +:+ " not reached ("
      +:+ pretty (N.of_nat (length bits)) +:+ " validators in bitmap)") in
  guard? signers_in_range bits (validator_count p) else
    InvalidBlock "bft: certificate bitmap names validators outside the set" in
  let? aggregate := map_err (λ e, InvalidBlock ("bft: invalid BLS aggregate signature: " +:+ e))
                      (sig_from_bytes (aggregate_signature c)) in
  guard? verify_same_message_multisig aggregate (signer_keys p bits) (vote_message (hash b)) else
    InvalidBlock ("bft: aggregate signature does not verify over block " +:+ pretty (index b)
      +:+ " (" +:+ pretty (N.of_nat (length bits)) +:+ " signers)") in
  Ok tt.

(** [BftConsensusProvider::attest] *)
Definition attest (p : BftConsensusProvider) (b : Block) : CommitNotification :=
  let b := set_hash b (calculate_hash b) in
  let bitmap := replicate (bitmap_len (validator_count p)) 0%Z in
  let bitmap := match local_index p with Some i => bitmap_set bitmap i | None => bitmap end in
  mkCommitNotification b
    (mkQuorumCertificate (index b) (hash b) bitmap
       (bls_sign (signing_key p) (vote_message (hash b))) Bls12381).

(** [impl ConsensusProvider for BftConsensusProvider] *)
Definition bft_propose_block (p : BftConsensusProvider) (now idx : Z) (txs : list Transaction)
    (previous : Block) : result CoreError CommitNotification :=
  let n := attest p (with_write_set now idx txs (hash previous) []) in
  let? _ := notification_validate n in
  Ok n.

Definition bft_validate_block (b previous : Block) : result CoreError unit :=
  map_err (λ e, InvalidBlock ("bft: candidate block " +:+ pretty (index b)
    +:+ " does not chain to " +:+ pretty (index previous) +:+ ": " +:+ display_error e))
    (chains_to b previous).

(** ** Equivocation evidence *)

Record EquivocationProof := mkEquivocation {
  eq_height : Z;
  eq_round : Z;
  eq_phase : VotePhase;
  eq_public_key : string;
  first_vote : BftVote;
  second_vote : BftVote }.

Definition agrees_with (e : EquivocationProof) (v : BftVote) : bool :=
  (vote_height v =? eq_height e)%Z && (vote_round v =? eq_round e)%Z
  && bool_decide (vote_phase v = eq_phase e) && (vote_public_key v ==? eq_public_key e).

(** [EquivocationProof::verify] *)
Definition equivocation_verify (e : EquivocationProof) : result CoreError unit :=
  let? _ := vote_verify (first_vote e) in
  let? _ := vote_verify (second_vote e) in
  guard? negb (vote_block_hash (first_vote e) ==? vote_block_hash (second_vote e)) else
    InvalidBlock "equivocation proof: both votes name the same hash — not equivocation" in
  guard? agrees_with e (first_vote e) else
    InvalidBlock "equivocation proof: first vote disagrees with the proof context" in
  guard? agrees_with e (second_vote e) else
    InvalidBlock "equivocation proof: second vote disagrees with the proof context" in
  guard? vote_chain_id (first_vote e) ==? vote_chain_id (second_vote e) else
    InvalidBlock "equivocation proof: the votes are bound to different chains" in
  Ok tt.

End bft.

(** ** Bits *)

Lemma land_mask_testbit b k :
  (0 ≤ k)%Z → negb (Z.land b (Z.shiftl 1 k) =? 0)%Z = Z.testbit b k.
Proof.
  intros Hk. rewrite Z.shiftl_1_l. destruct (Z.testbit b k) eqn:Hb.
  - apply negb_true_iff, Z.eqb_neq. intros H0.
    assert (Z.testbit (Z.land b (2 ^ k)) k = true) as Ht.
    { rewrite Z.land_spec, Hb, Z.pow2_bits_true by done. done. }
    rewrite H0, Z.bits_0 in Ht. done.
  - apply negb_false_iff, Z.eqb_eq. apply Z.bits_inj'. intros m Hm.
    rewrite Z.land_spec, Z.bits_0, Z.pow2_bits_eqb by done.
    destruct (Z.eqb_spec k m) as [<-|]; [by rewrite Hb | by rewrite andb_false_r].
Qed.

Lemma bitmap_contains_testbit bm i :
  bitmap_contains bm i =
  match bm !! (i / 8) with Some b => Z.testbit b (Z.of_nat (i mod 8)) | None => false end.
Proof.
  unfold bitmap_contains, bitmap_byte, bitmap_mask. destruct (bm !! (i / 8)); [|done].
  apply land_mask_testbit. lia.
Qed.

Lemma byte_bits_elem base b i :
  i ∈ byte_bits base b ↔ base ≤ i < base + 8 ∧ Z.testbit b (Z.of_nat (i - base)) = true.
Proof.
  unfold byte_bits. rewrite list_elem_of_In, filter_In, in_seq.
  rewrite land_mask_testbit by lia. tauto.
Qed.

Lemma div_mod_8 i : 8 ≤ i → i / 8 = S ((i - 8) / 8) ∧ i mod 8 = (i - 8) mod 8.
Proof.
  intros Hi. replace i with (1 * 8 + (i - 8)) at 1 3 by lia.
  rewrite Nat.div_add_l by lia. split; [lia|].
  rewrite Nat.add_comm, Nat.Div0.mod_add. done.
Qed.

Lemma bitmap_contains_cons b bm i :
  bitmap_contains (b :: bm) i =
  if (i <? 8)%nat then Z.testbit b (Z.of_nat i) else bitmap_contains bm (i - 8).
Proof.
  rewrite !bitmap_contains_testbit. destruct (Nat.ltb_spec i 8) as [Hlt|Hge].
  - rewrite Nat.div_small, Nat.mod_small by lia. done.
  - destruct (div_mod_8 i Hge) as [-> ->]. done.
Qed.

Lemma expand_from_elem base bm i :
  i ∈ expand_from base bm ↔ base ≤ i ∧ bitmap_contains bm (i - base) = true.
Proof.
  revert base. induction bm as [|b bm IH]; intros base; simpl.
  - rewrite elem_of_nil, bitmap_contains_testbit, lookup_nil. naive_solver.
  - rewrite elem_of_app, byte_bits_elem, IH, bitmap_contains_cons.
    destruct (Nat.ltb_spec (i - base) 8) as [Hlt|Hge].
    + split; [|intros [? ?]; left; split; [lia | done]].
      intros [[? ?]|[? ?]]; [split; [lia | done] | lia].
    + replace (i - base - 8) with (i - (base + 8)) by lia.
      split; [intros [[? _]|[? ?]]; [lia | split; [lia | done]]|].
      intros [? ?]. right. split; [lia | done].
Qed.

Lemma filter_seq_sorted f base n : StronglySorted lt (List.filter f (seq base n)).
Proof.
  revert base. induction n as [|n IH]; intros base; simpl; [constructor|].
  destruct (f base); [|apply IH]. constructor; [apply IH|].
  rewrite Forall_forall. intros x Hx. apply list_elem_of_In, filter_In in Hx as [Hx _].
  apply in_seq in Hx. lia.
Qed.

Lemma strongly_sorted_app (l1 l2 : list nat) :
  StronglySorted lt l1 → StronglySorted lt l2 → (∀ x y, x ∈ l1 → y ∈ l2 → x < y) →
  StronglySorted lt (l1 ++ l2).
Proof.
  induction 1 as [|x l1 Hl1 IH Hx]; intros H2 Hlt; simpl; [done|].
  constructor.
  - apply IH; [done|]. intros a b Ha Hb. apply Hlt; [by right | done].
  - apply Forall_app. split; [done|]. rewrite Forall_forall. intros y Hy.
    apply Hlt; [left | done].
Qed.

Lemma expand_from_sorted base bm : StronglySorted lt (expand_from base bm).
Proof.
  revert base. induction bm as [|b bm IH]; intros base; simpl; [constructor|].
  apply strongly_sorted_app; [apply filter_seq_sorted | apply IH|].
  intros x y Hx%byte_bits_elem Hy%expand_from_elem. lia.
Qed.

Lemma sorted_lt_NoDup (l : list nat) : StronglySorted lt l → NoDup l.
Proof.
  induction 1 as [|x l Hl IH Hx]; constructor; [|done].
  intros Hin. eapply Forall_forall in Hx; [|exact Hin]. lia.
Qed.

(** Bitmap expansion yields exactly the set bits, each once and in ascending
    order, so a certificate's signer count can neither be inflated by a repeated
    or phantom index nor lose a signer. *)
Theorem expand_signers_exact bm :
  (∀ i, i ∈ expand_signers bm ↔ bitmap_contains bm i = true)
  ∧ StronglySorted lt (expand_signers bm) ∧ NoDup (expand_signers bm).
Proof.
  split; [|split; [apply expand_from_sorted | apply sorted_lt_NoDup, expand_from_sorted]].
  intros i. unfold expand_signers. rewrite expand_from_elem, Nat.sub_0_r.
  split; [tauto | split; [lia | done]].
Qed.

Lemma bitmap_len_spec n : 8 * bitmap_len n < n + 8 ∧ n ≤ 8 * bitmap_len n.
Proof.
  unfold bitmap_len. pose proof (Nat.div_mod_eq n 8). pose proof (Nat.mod_upper_bound n 8).
  destruct (Nat.eqb_spec (n mod 8) 0); lia.
Qed.

Lemma bitmap_set_contains bm i j :
  i < 8 * length bm →
  bitmap_contains (bitmap_set bm i) j = (i =? j)%nat || bitmap_contains bm j.
Proof.
  intros Hi. rewrite !bitmap_contains_testbit. unfold bitmap_set, bitmap_byte, bitmap_mask.
  assert (i / 8 < length bm) as Hlt by (apply Nat.Div0.div_lt_upper_bound; lia).
  destruct (lookup_lt_is_Some_2 bm (i / 8) Hlt) as [b Hb].
  destruct (decide (j / 8 = i / 8)) as [Heq|Hne].
  - rewrite Heq, list_lookup_alter_eq, Hb. cbn [fmap option_fmap option_map]. rewrite Z.lor_spec, Z.shiftl_1_l.
    rewrite Z.pow2_bits_eqb by lia. rewrite orb_comm. f_equal.
    pose proof (Nat.div_mod_eq i 8). pose proof (Nat.div_mod_eq j 8).
    destruct (Nat.eqb_spec i j) as [->|Hij]; [apply Z.eqb_refl|]. apply Z.eqb_neq. lia.
  - rewrite list_lookup_alter_ne by done.
    destruct (Nat.eqb_spec i j) as [->|]; [done | done].
Qed.

Lemma bitmap_set_length bm i : length (bitmap_set bm i) = length bm.
Proof. apply length_alter. Qed.

Lemma bitmap_zero_contains n i : bitmap_contains (replicate n 0%Z) i = false.
Proof.
  rewrite bitmap_contains_testbit. destruct (replicate n 0%Z !! (i / 8)) as [b|] eqn:Hb; [|done].
  apply lookup_replicate in Hb as [-> _]. apply Z.bits_0.
Qed.

(** ** Quorums *)

Lemma quorum_threshold_exact n :
  (0 ≤ n ≤ USIZE_MAX / 2)%Z → quorum_threshold n = (2 * n / 3 + 1)%Z.
Proof.
  intros Hn. unfold quorum_threshold, saturating_mul_usize.
  change (USIZE_MAX / 2)%Z with 9223372036854775807%Z in Hn.
  rewrite Z.min_l; [f_equal; f_equal; lia|]. unfold USIZE_MAX, U64_MAX. lia.
Qed.

Lemma quorum_overlap (n : nat) (A B : gset nat) :
  0 < n → (Z.of_nat n ≤ USIZE_MAX / 2)%Z → A ⊆ set_seq 0 n → B ⊆ set_seq 0 n →
  meets_quorum (Z.of_nat (size A)) (Z.of_nat n) = true →
  meets_quorum (Z.of_nat (size B)) (Z.of_nat n) = true →
  n < 3 * size (A ∩ B) ∧ 2 * n < 3 * size A ∧ (quorum_threshold (Z.of_nat n) ≤ Z.of_nat n)%Z.
Proof.
  intros Hn Hmax HA HB. unfold meets_quorum. rewrite quorum_threshold_exact by lia.
  rewrite !Z.leb_le. intros H1 H2.
  assert (size (A ∪ B) ≤ n) as Hu.
  { rewrite <- (size_set_seq (C := gset nat) 0 n). apply subseteq_size. set_solver. }
  rewrite size_union_alt in Hu.
  assert (B ∖ A = B ∖ (A ∩ B)) as Hd by set_solver.
  rewrite Hd, size_difference in Hu by set_solver.
  assert (size (A ∩ B) ≤ size B) by (apply subseteq_size; set_solver).
  pose proof (Z.div_mod (2 * Z.of_nat n) 3). pose proof (Z.mod_pos_bound (2 * Z.of_nat n) 3).
  lia.
Qed.

(** Any two quorums of the same validator set share more than a third of the
    validators, so two conflicting quorums need more than a third of the set to
    have signed both; and a quorum is a strict two-thirds majority that never
    exceeds the set. *)
Theorem quorum_intersection (n : nat) (A B : gset nat) :
  0 < n → (Z.of_nat n ≤ USIZE_MAX / 2)%Z →
  A ⊆ set_seq 0 n → B ⊆ set_seq 0 n →
  meets_quorum (Z.of_nat (size A)) (Z.of_nat n) = true →
  meets_quorum (Z.of_nat (size B)) (Z.of_nat n) = true →
  n < 3 * size (A ∩ B) ∧ 2 * n < 3 * size A
  ∧ (quorum_threshold (Z.of_nat n) ≤ Z.of_nat n)%Z.
Proof. apply quorum_overlap. Qed.

(** The quorum is not two thirds rounded up, as [quorum]'s documentation has
    it: for a set size divisible by three it is one more than that. *)
Theorem quorum_exceeds_ceiling (k : Z) :
  (0 < k)%Z → (3 * k ≤ USIZE_MAX / 2)%Z →
  quorum_threshold (3 * k) = (2 * k + 1)%Z ∧ ((2 * (3 * k) + 2) / 3 = 2 * k)%Z.
Proof.
  intros Hk Hmax. rewrite quorum_threshold_exact by lia. split.
  - replace (2 * (3 * k))%Z with (2 * k * 3)%Z by lia. rewrite Z.div_mul by lia. done.
  - replace (2 * (3 * k) + 2)%Z with (2 + 2 * k * 3)%Z by lia.
    rewrite Z.div_add by lia. change (2 / 3)%Z with 0%Z. lia.
Qed.

(** ** Encodings *)

(** The signed envelope of a vote determines its context: two votes with the
    same context message agree on chain, height, round, phase and block hash, two
    with the same vote message on the hash, and no vote message is a context
    message.  A signature therefore cannot be replayed in another context. *)
Theorem vote_messages_injective c h r p b c' h' r' p' b' :
  fits_u32 c → fits_u32 b → fits_u32 c' → fits_u32 b' →
  in_u64 h → in_u64 h' → in_u32 r → in_u32 r' →
  (context_message c h r p b = context_message c' h' r' p' b' →
     c = c' ∧ h = h' ∧ r = r' ∧ p = p' ∧ b = b')
  ∧ (vote_message b = vote_message b' → b = b')
  ∧ vote_message b ≠ context_message c h r p b'.
Proof.
  intros Hc Hb Hc' Hb' Hh Hh' Hr Hr'. split; [|split].
  - unfold context_message. intros H. apply app_inv_head in H.
    apply len_prefixed_inj in H as [-> H]; [|done|done].
    apply app_inj_1 in H as [Hh1 H]; [|by rewrite !length_be_bytes].
    apply be_bytes_inj in Hh1; [|unfold in_u64, U64_MAX in *; lia..].
    apply app_inj_1 in H as [Hr1 H]; [|by rewrite !length_be_bytes].
    apply be_bytes_inj in Hr1; [|unfold in_u32, U32_MAX in *; lia..].
    apply app_inj_1 in H as [Hp H]; [|done]. injection Hp as Hp. rewrite <- (app_nil_r (len_prefixed b)), <- (app_nil_r (len_prefixed b')) in H.
    apply len_prefixed_inj in H as [-> _]; [|done|done].
    split; [done|]. split; [done|]. split; [done|]. split; [|done]. by destruct p, p'.
  - unfold vote_message. intros H%app_inv_head.
    rewrite <- (app_nil_r (len_prefixed b)), <- (app_nil_r (len_prefixed b')) in H.
    by apply len_prefixed_inj in H as [-> _].
  - unfold vote_message, context_message. intros H. apply (f_equal (lookup 19)) in H.
    rewrite !lookup_app_l in H by (rewrite length_byte_list; cbn; lia). done.
Qed.

(** ** Certificates *)

Section certificates.
Context `{E : Env} `{B : Bls}.

(** The validators a certificate's bitmap names. *)
Definition signers (c : QuorumCertificate) : gset nat :=
  list_to_set (expand_signers (signers_bitmap c)).

Lemma signers_in_range_spec l n : signers_in_range l n = true ↔ ∀ i, i ∈ l → i < n.
Proof.
  induction l as [|x l IH]; simpl.
  - split; [by intros _ i ?%elem_of_nil | done].
  - destruct (Nat.leb_spec n x).
    + split; [done|]. intros H1. specialize (H1 x ltac:(left)). lia.
    + rewrite IH. split.
      * intros H1 i [->|Hi]%elem_of_cons; [done | by apply H1].
      * intros H1 i Hi. apply H1. by right.
Qed.

Lemma expand_NoDup bm : NoDup (expand_signers bm).
Proof. apply sorted_lt_NoDup, expand_from_sorted. Qed.

Lemma verify_certificate_inv p c b :
  verify_certificate p c b = Ok tt →
  cert_validate c b = Ok tt ∧ signers_bitmap c ≠ []
  ∧ signers c ⊆ set_seq 0 (validator_count p)
  ∧ meets_quorum (Z.of_nat (size (signers c))) (Z.of_nat (validator_count p)) = true
  ∧ ∃ g, sig_from_bytes (aggregate_signature c) = Ok g
    ∧ verify_same_message_multisig g (signer_keys p (expand_signers (signers_bitmap c)))
        (vote_message (hash b)) = true.
Proof.
  unfold verify_certificate. destruct (cert_validate c b) as [[]|]; [|done].
  destruct (is_degenerate c) eqn:Hd; [done|]. cbn [negb].
  destruct (bitmap_too_large _); [done|]. cbn [negb].
  destruct (meets_quorum _ _) eqn:Hq; [|done].
  destruct (signers_in_range _ _) eqn:Hr; [|done].
  destruct (sig_from_bytes _) as [g|] eqn:Hg; [|done]. cbn [map_err].
  destruct (verify_same_message_multisig _ _ _) eqn:Hm; [|done]. intros _.
  assert (size (signers c) = length (expand_signers (signers_bitmap c))) as Hsz.
  { unfold signers. apply size_list_to_set, expand_NoDup. }
  split; [done|]. split; [unfold is_degenerate in Hd; by destruct (signers_bitmap c)|].
  split. { intros i Hi. apply elem_of_list_to_set in Hi.
           apply elem_of_set_seq. pose proof (proj1 (signers_in_range_spec _ _) Hr i Hi). lia. }
  split; [by rewrite Hsz|]. eauto.
Qed.

(** C11: an accepted quorum certificate is sound: it names the block's index and
    hash, its bitmap names only validators of the set, at least a quorum of them
    and each once, and the one pairing check over exactly those validators' keys
    holds for the vote message of that block's hash. *)
Theorem certificate_sound p c b :
  verify_certificate p c b = Ok tt →
  qc_block_index c = index b ∧ qc_block_hash c = hash b
  ∧ signers c ⊆ set_seq 0 (validator_count p)
  ∧ (quorum p ≤ Z.of_nat (size (signers c)))%Z
  ∧ ∃ g, sig_from_bytes (aggregate_signature c) = Ok g
    ∧ verify_same_message_multisig g (signer_keys p (expand_signers (signers_bitmap c)))
        (vote_message (qc_block_hash c)) = true.
Proof.
  intros (Hc & _ & Hs & Hq & g & Hg & Hm)%verify_certificate_inv.
  assert (qc_block_index c = index b ∧ qc_block_hash c = hash b) as [H1 H2].
  { unfold cert_validate, decide_cert in Hc.
    destruct (qc_block_index c =? index b)%Z eqn:E1; [|done].
    destruct (qc_block_hash c ==? hash b) eqn:E2; [|done]. by bool_hyps. }
  unfold meets_quorum in Hq. apply Z.leb_le in Hq.
  split; [done|]. split; [done|]. split; [done|]. split; [done|].
  exists g. by rewrite H2.
Qed.

(** C1: conflicting finality is accountable: if two certificates verify against
    the same validator set for blocks with different hashes, then more than a
    third of the validators are named as signers by both. *)
Theorem conflicting_certificates_accountable p c1 b1 c2 b2 :
  (0 < validator_count p) → (Z.of_nat (validator_count p) ≤ USIZE_MAX / 2)%Z →
  verify_certificate p c1 b1 = Ok tt → verify_certificate p c2 b2 = Ok tt →
  hash b1 ≠ hash b2 →
  validator_count p < 3 * size (signers c1 ∩ signers c2) ∧ qc_block_hash c1 ≠ qc_block_hash c2.
Proof.
  intros Hn Hmax H1 H2 Hne.
  apply verify_certificate_inv in H1 as (Hc1 & _ & HA & HqA & _).
  apply verify_certificate_inv in H2 as (Hc2 & _ & HB & HqB & _).
  split; [by apply (quorum_overlap (validator_count p))|].
  assert (∀ c b, cert_validate c b = Ok tt → qc_block_hash c = hash b) as Hh.
  { intros c b. unfold cert_validate, decide_cert.
    destruct (qc_block_index c =? index b)%Z; [|done].
    destruct (qc_block_hash c ==? hash b) eqn:E2; [|done]. by bool_hyps. }
  by rewrite (Hh _ _ Hc1), (Hh _ _ Hc2).
Qed.

(** Equivocation evidence is sound: an accepted proof carries two votes that
    verify under the same key, in the same chain, height, round and phase, for
    different block hashes; so it can only be built against a validator that
    signed both. *)
Theorem equivocation_sound e :
  equivocation_verify e = Ok tt →
  let v1 := first_vote e in let v2 := second_vote e in
  vote_verify v1 = Ok tt ∧ vote_verify v2 = Ok tt
  ∧ vote_public_key v1 = vote_public_key v2 ∧ vote_public_key v1 = eq_public_key e
  ∧ vote_chain_id v1 = vote_chain_id v2 ∧ vote_height v1 = vote_height v2
  ∧ vote_round v1 = vote_round v2 ∧ vote_phase v1 = vote_phase v2
  ∧ vote_block_hash v1 ≠ vote_block_hash v2.
Proof.
  unfold equivocation_verify, agrees_with. intros H. step_result. bool_hyps.
  repeat match goal with u : unit |- _ => destruct u end.
  destruct_and!. split; [done|]. split; [done|]. repeat split; congruence.
Qed.

End certificates.

(** ** Aggregation *)

(** Correctness of BLS aggregation on one message: the aggregate of signatures
    that verify individually passes the pairing check against the sum of their
    keys, in any order. *)
Class BlsLaws (B : Bls) : Prop := {
  aggregate_correct (votes : list (string * G2)) (keys : list string) (msg : list Z) :
    votes ≠ [] →
    Forall (λ ks, ∃ pk, pk_from_bytes ks.1 = Ok pk ∧ bls_verify pk ks.2 msg = true) votes →
    keys ≡ₚ votes.*1 →
    ∃ a g, bls_aggregate votes.*2 = Ok a ∧ a ≠ "" ∧ sig_from_bytes a = Ok g
      ∧ verify_same_message_multisig g keys msg = true }.

Section aggregation.
Context `{E : Env} `{B : Bls}.

Lemma position_Some key vs i :
  position key vs = Some i → i < length vs ∧ v_public_key <$> vs !! i = Some key.
Proof.
  revert i. induction vs as [|v vs IH]; intros i; simpl; [done|].
  destruct (v_public_key v ==? key) eqn:Hk.
  - intros [= <-]. bool_hyps. simpl. split; [lia | by rewrite Hk].
  - intros (j & Hj & ->)%fmap_Some. destruct (IH j Hj). simpl. split; [lia | done].
Qed.

(** What the aggregation loop has accumulated: the counted votes, each with its
    validator index and parsed signature. *)
Definition counted (p : BftConsensusProvider) (st : list Z * list G2)
    (cs : list (nat * BftVote * G2)) : Prop :=
  length st.1 = bitmap_len (validator_count p)
  ∧ (∀ i, bitmap_contains st.1 i = true ↔ i ∈ (λ c, c.1.1) <$> cs)
  ∧ NoDup ((λ c : nat * BftVote * G2, c.1.1) <$> cs)
  ∧ st.2 = (λ c : nat * BftVote * G2, c.2) <$> cs
  ∧ Forall (λ c : nat * BftVote * G2,
      verify_vote p c.1.2 = Ok c.1.1 ∧ sig_from_bytes (vote_signature c.1.2) = Ok c.2) cs.

Lemma verify_vote_index p v i :
  verify_vote p v = Ok i →
  vote_verify v = Ok tt ∧ i < validator_count p
  ∧ v_public_key <$> validators p !! i = Some (vote_public_key v).
Proof.
  unfold verify_vote. destruct (vote_verify v) as [[]|]; [|done].
  destruct (position _ _) as [j|] eqn:Hp; [|done]. intros [= <-].
  apply position_Some in Hp. done.
Qed.

Lemma aggregate_step_counted p st v st' cs :
  counted p st cs → aggregate_step p st v = Ok st' →
  ∃ cs', counted p st' cs' ∧ (∀ c, c ∈ cs' → c ∈ cs ∨ c.1.2 = v)
    ∧ (∀ i, verify_vote p v = Ok i → i ∈ (λ c : nat * BftVote * G2, c.1.1) <$> cs')
    ∧ (∀ i, i ∈ (λ c : nat * BftVote * G2, c.1.1) <$> cs →
            i ∈ (λ c : nat * BftVote * G2, c.1.1) <$> cs').
Proof.
  destruct st as [bm sigs]. intros (Hl & Hb & Hn & Hs & Hf). unfold aggregate_step.
  destruct (verify_vote p v) as [i|] eqn:Hv; [|done].
  destruct (bitmap_contains bm i) eqn:Hc.
  - intros [= <-]. exists cs. split; [done|]. split; [auto|]. split; [|done].
    intros j [= <-]. by apply Hb.
  - destruct (sig_from_bytes (vote_signature v)) as [g|] eqn:Hg; [|done]. cbn [map_err].
    intros [= <-]. exists (cs ++ [(i, v, g)]).
    pose proof (verify_vote_index _ _ _ Hv) as (_ & Hi & _).
    pose proof (bitmap_len_spec (validator_count p)) as [_ Hbl]. simpl in *.
    rewrite !fmap_app. split; [|split; [|split]].
    + split; [simpl; by rewrite bitmap_set_length|]. split; [|split; [|split]]; simpl.
      * intros j. rewrite bitmap_set_contains by lia. rewrite fmap_app, elem_of_app, orb_true_iff, Hb.
        simpl. rewrite list_elem_of_singleton, Nat.eqb_eq. naive_solver.
      * rewrite fmap_app. apply NoDup_app. split; [done|]. split; [|apply NoDup_singleton].
        intros x Hx ->%list_elem_of_singleton. apply Hb in Hx. simpl in Hx. congruence.
      * rewrite fmap_app, Hs. done.
      * apply Forall_app. split; [done|]. by apply Forall_singleton.
    + intros c [?|Hc']%elem_of_app; [by left|]. apply list_elem_of_singleton in Hc' as ->. by right.
    + intros j [= <-]. apply elem_of_app. right. by left.
    + intros j Hj. apply elem_of_app. by left.
Qed.

Lemma aggregate_fold_counted p votes st st' cs :
  counted p st cs → fold_result (aggregate_step p) votes st = Ok st' →
  ∃ cs', counted p st' cs' ∧ (∀ c, c ∈ cs' → c ∈ cs ∨ c.1.2 ∈ votes)
    ∧ (∀ i, i ∈ (λ c : nat * BftVote * G2, c.1.1) <$> cs →
            i ∈ (λ c : nat * BftVote * G2, c.1.1) <$> cs')
    ∧ (∀ v i, v ∈ votes → verify_vote p v = Ok i →
         i ∈ (λ c : nat * BftVote * G2, c.1.1) <$> cs').
Proof.
  revert st cs. induction votes as [|v votes IH]; intros st cs Hc; simpl.
  - intros [= <-]. exists cs. split; [done|]. split; [auto|]. split; [done|].
    by intros ? ? ?%elem_of_nil.
  - destruct (aggregate_step p st v) as [st1|] eqn:Hs; [|done].
    destruct (aggregate_step_counted _ _ _ _ _ Hc Hs) as (cs1 & Hc1 & Hfrom & Hin & Hkeep).
    intros Hf. destruct (IH _ _ Hc1 Hf) as (cs2 & Hc2 & Hfrom2 & Hkeep2 & Hin2).
    exists cs2. split; [done|]. split; [|split].
    + intros c Hcc. destruct (Hfrom2 c Hcc) as [H1|H1]; [|right; by right].
      destruct (Hfrom c H1) as [?| ->]; [by left|]. right. left.
    + auto.
    + intros w i [->|Hw]%elem_of_cons Hvi; [by apply Hkeep2, Hin | by eapply Hin2].
Qed.

Lemma counted_start p :
  counted p (replicate (bitmap_len (validator_count p)) 0%Z, []) [].
Proof.
  split; [apply length_replicate|]. split; [|split; [constructor | split; [done | constructor]]].
  intros i. simpl. rewrite bitmap_zero_contains, elem_of_nil. done.
Qed.

Lemma aggregate_step_ok p st v :
  is_ok (verify_vote p v) = true → is_ok (aggregate_step p st v) = true.
Proof.
  destruct st as [bm sigs]. unfold aggregate_step.
  destruct (verify_vote p v) as [i|] eqn:Hv; [|done]. intros _.
  destruct (bitmap_contains bm i); [done|].
  apply verify_vote_index in Hv as [Hv _]. unfold vote_verify in Hv.
  destruct (sig_from_bytes (vote_signature v)) as [g|] eqn:Hg; [done|].
  exfalso. cbn [map_err] in Hv. step_result.
Qed.

Lemma aggregate_fold_ok p votes st :
  Forall (λ v, is_ok (verify_vote p v) = true) votes →
  is_ok (fold_result (aggregate_step p) votes st) = true.
Proof.
  intros Hall. revert st. induction Hall as [|v votes Hv Hall IH]; intros st; simpl; [done|].
  pose proof (aggregate_step_ok p st v Hv) as Hs.
  destruct (aggregate_step p st v); [apply IH | done].
Qed.

Lemma vote_verify_signature v g :
  vote_verify v = Ok tt → sig_from_bytes (vote_signature v) = Ok g →
  ∃ pk, pk_from_bytes (vote_public_key v) = Ok pk
    ∧ bls_verify pk g (vote_message (vote_block_hash v)) = true.
Proof.
  unfold vote_verify. intros Hv Hg. rewrite Hg in Hv. cbn [map_err] in Hv.
  destruct (bool_decide _); [|done]. destruct (negb _); [|done].
  destruct (pk_from_bytes _) as [pk|]; [|done]. cbn [map_err] in Hv.
  destruct (bls_verify pk g _) eqn:Hb; [|done]. eauto.
Qed.

(** The keys the verifier reads off the bitmap are those of the counted votes. *)
Lemma signer_keys_perm p bm bits (cs : list (nat * BftVote * G2)) :
  (∀ i, i ∈ bits ↔ i ∈ (λ c : nat * BftVote * G2, c.1.1) <$> cs) →
  NoDup bits → NoDup ((λ c : nat * BftVote * G2, c.1.1) <$> cs) →
  Forall (λ c : nat * BftVote * G2, verify_vote p c.1.2 = Ok c.1.1) cs →
  expand_signers bm = bits →
  signer_keys p bits ≡ₚ (λ c : nat * BftVote * G2, vote_public_key c.1.2) <$> cs.
Proof.
  intros Hin Hnd Hnd' Hall _.
  assert (bits ≡ₚ (λ c : nat * BftVote * G2, c.1.1) <$> cs) as Hp by (by apply NoDup_Permutation).
  unfold signer_keys. rewrite Hp. clear -Hall.
  induction Hall as [|c cs Hc Hall IH]; simpl; [done|].
  apply verify_vote_index in Hc as (_ & _ & Hk).
  destruct (validators p !! c.1.1) as [v|] eqn:Hv; [|done]. simpl in Hk. injection Hk as Hk.
  simpl. rewrite Hk. by rewrite IH.
Qed.

Context {L : BlsLaws B}.

Lemma quorum_votes_certificate p votes b :
  Forall (λ v, is_ok (verify_vote p v) = true ∧ vote_block_hash v = hash b) votes →
  (quorum p ≤ Z.of_nat (size (list_to_set (omap (λ v,
     match verify_vote p v with Ok i => Some i | Err _ => None end) votes) : gset nat)))%Z →
  bitmap_too_large (bitmap_len (validator_count p)) = false →
  0 < validator_count p →
  ∃ bm agg, aggregate_votes p votes = Ok (bm, agg)
    ∧ verify_certificate p (mkQuorumCertificate (index b) (hash b) bm agg Bls12381) b = Ok tt.
Proof.
  intros Hvotes Hq Hlarge Hpos. unfold aggregate_votes.
  pose proof (aggregate_fold_ok p votes (replicate (bitmap_len (validator_count p)) 0%Z, [])) as Hok.
  destruct (fold_result _ _ _) as [st|] eqn:Hf.
  2:{ exfalso. discriminate Hok. eapply Forall_impl; [exact Hvotes|]. naive_solver. }
  clear Hok. destruct (aggregate_fold_counted _ _ _ _ _ (counted_start p) Hf)
    as (cs & (Hl & Hb & Hn & Hs & Hall) & Hfrom & _ & Hin).
  set (bits := expand_signers st.1).
  assert (∀ i, i ∈ bits ↔ i ∈ (λ c : nat * BftVote * G2, c.1.1) <$> cs) as Hbits.
  { intros i. rewrite <- Hb. unfold bits, expand_signers.
    rewrite expand_from_elem, Nat.sub_0_r. split; [tauto | split; [lia | done]]. }
  assert (length bits = length cs) as Hlen.
  { rewrite <- (length_fmap (λ c : nat * BftVote * G2, c.1.1) cs).
    apply Permutation_length, NoDup_Permutation; [apply expand_NoDup | done | done]. }
  assert ((quorum p ≤ Z.of_nat (length bits))%Z) as Hqb.
  { etransitivity; [exact Hq|]. apply inj_le. unfold bits. rewrite <- (size_list_to_set (C := gset nat)) by apply expand_NoDup.
    apply subseteq_size. intros i Hi. apply elem_of_list_to_set in Hi. apply elem_of_list_to_set.
    apply list_elem_of_omap in Hi as (v & Hv & Hvi). apply Hbits.
    destruct (verify_vote p v) as [j|] eqn:Hvv; [|done]. injection Hvi as <-. by eapply Hin. }
  assert (1 ≤ quorum p)%Z as Hq1.
  { unfold quorum, quorum_threshold, saturating_mul_usize.
    pose proof (Z.div_pos (Z.min (Z.of_nat (validator_count p) * 2) USIZE_MAX) 3).
    unfold USIZE_MAX, U64_MAX in *. lia. }
  destruct (aggregate_correct ((λ c : nat * BftVote * G2, (vote_public_key c.1.2, c.2)) <$> cs)
    (signer_keys p bits) (vote_message (hash b))) as (a & g & Hagg & Hane & Hg & Hm).
  - destruct cs; [simpl in Hlen; lia | done].
  - apply Forall_fmap, Forall_forall. intros c Hc. simpl.
    rewrite Forall_forall in Hall. rewrite Forall_forall in Hvotes.
    destruct (Hall c Hc) as [Hv Hsig]. apply verify_vote_index in Hv as [Hv _].
    destruct (Hfrom c Hc) as [Hnil|Hcv]; [by apply elem_of_nil in Hnil|].
    destruct (Hvotes _ Hcv) as [_ <-]. by eapply vote_verify_signature.
  - rewrite <- list_fmap_compose. simpl.
    eapply (signer_keys_perm p st.1); [exact Hbits | apply expand_NoDup | exact Hn | | done].
    eapply Forall_impl; [exact Hall|]. naive_solver.
  - rewrite <- list_fmap_compose in Hagg. rewrite Hs.
    assert (((λ c : nat * BftVote * G2, c.2) <$> cs) =
      (snd ∘ (λ c : nat * BftVote * G2, (vote_public_key c.1.2, c.2))) <$> cs) as -> by done.
    rewrite Hagg. cbn [map_err]. exists st.1, a. split; [done|].
    unfold verify_certificate, cert_validate, decide_cert. cbn [qc_block_index qc_block_hash
      signers_bitmap aggregate_signature qc_algorithm].
    rewrite Z.eqb_refl, str_eqb_refl. cbn [negb].
    assert (∀ i h a al, is_degenerate (mkQuorumCertificate i h st.1 a al) = false) as Hdeg.
    { intros. unfold is_degenerate. simpl.
      pose proof (bitmap_len_spec (validator_count p)) as [_ Hbl].
      destruct st.1; [simpl in Hl; lia | done]. }
    rewrite !Hdeg. apply is_empty_false in Hane. rewrite Hane. cbn [negb].
    rewrite bool_decide_eq_true_2 by done. cbn [negb]. rewrite Hl, Hlarge. cbn [negb].
    change (expand_signers _) with bits. unfold meets_quorum.
    change (quorum_threshold _) with (quorum p). apply Z.leb_le in Hqb. rewrite Hqb.
    assert (signers_in_range bits (validator_count p) = true) as ->.
    { apply signers_in_range_spec. intros i Hi%Hbits. apply list_elem_of_fmap in Hi as (c & -> & Hc).
      rewrite Forall_forall in Hall. destruct (Hall c Hc) as [Hv _].
      by apply verify_vote_index in Hv as (_ & ? & _). }
    rewrite Hg. cbn [map_err]. by rewrite Hm.
Qed.

(** Quorums make certificates: if votes of at least a quorum of distinct
    validators verify and all name the block's hash, then [aggregate_votes]
    succeeds whatever the order and repetition of the votes, and the certificate
    assembled from its bitmap and aggregate passes [verify_certificate]. *)
Theorem votes_make_certificate p votes b :
  Forall (λ v, is_ok (verify_vote p v) = true ∧ vote_block_hash v = hash b) votes →
  (quorum p ≤ Z.of_nat (size (list_to_set (omap (λ v,
     match verify_vote p v with Ok i => Some i | Err _ => None end) votes) : gset nat)))%Z →
  bitmap_too_large (bitmap_len (validator_count p)) = false →
  0 < validator_count p →
  ∃ bm agg, aggregate_votes p votes = Ok (bm, agg)
    ∧ verify_certificate p (mkQuorumCertificate (index b) (hash b) bm agg Bls12381) b = Ok tt.
Proof. apply quorum_votes_certificate. Qed.

End aggregation.
