(* ===== verification/Rounds.v ===== *)
(** Vote rounds (glasschain-core: rounds.rs; glasschain-network: rounds.rs and
    the round handlers of node.rs).

    The leader's collector and driver, the validator's proposal and precommit
    handlers, and the equivocation journal.  The derived validator set is an
    argument, supplied by Validators.v.  Asynchrony is explicit: what arrived on the vote channel
    before a phase deadline is an argument, as a list of batches. *)

From S2P Require Import Prelude Types WriteSet Chain Capability Bft.

(** ** Pure kernels (core rounds.rs) *)

(** u128 arithmetic: each term is reduced first, so nothing can wrap. *)
Definition proposer_slot (height round : Z) (validator_count : nat) : Z :=
  let slots := Z.of_nat (Nat.max validator_count 1) in
  ((height mod slots) + (round mod slots)) mod slots.

Inductive ReceiptAction := Insert | Duplicate | Equivocation.

Definition receipt_action (existing same_hash : bool) : ReceiptAction :=
  if negb existing then Insert else if same_hash then Duplicate else Equivocation.

Definition should_retain (receipt_height retire_below : Z) : bool :=
  (retire_below <=? receipt_height)%Z.

(** ** The journal of verified votes (network rounds.rs) *)

Definition MAX_ROUNDS : Z := 4.
Definition VOTE_RECEIPT_CAP : nat := Z.to_nat 8192.

#[export] Instance VotePhase_countable : Countable VotePhase.
Proof.
  apply (inj_countable' (λ p, match p with Prevote => true | Precommit => false end)
    (λ b : bool, if b then Prevote else Precommit)). by intros [].
Defined.

(** [(height, round, phase, public_key)] *)
Definition ReceiptKey : Type := Z * Z * VotePhase * string.
Definition receipt_key (v : BftVote) : ReceiptKey :=
  (vote_height v, vote_round v, vote_phase v, vote_public_key v).

Notation VoteReceipts := (gmap (Z * Z * VotePhase * string) BftVote).

(** [seen.retain(|(h, ..), _| should_retain(h, height))] *)
Definition retain_from (seen : VoteReceipts) (height : Z) : VoteReceipts :=
  filter (λ kv, should_retain kv.1.1.1.1 height = true) seen.

Definition retire_below (seen : VoteReceipts) (height : Z) : VoteReceipts * nat :=
  (retain_from seen height, size seen - size (retain_from seen height)).

(** [VoteReceipts::record] *)
Definition record (seen : VoteReceipts) (v : BftVote) : VoteReceipts * option EquivocationProof :=
  let first := seen !! receipt_key v in
  let same := match first with Some f => vote_block_hash f ==? vote_block_hash v | None => false end in
  match receipt_action (is_some first) same with
  | Equivocation =>
      (seen, (λ f, mkEquivocation (vote_height v) (vote_round v) (vote_phase v)
                     (vote_public_key v) f v) <$> first)
  | Duplicate => (seen, None)
  | Insert =>
      if (VOTE_RECEIPT_CAP <=? size seen)%nat then
        let freed := retain_from seen (vote_height v) in
        if (size freed <? size seen)%nat then (<[receipt_key v := v]> freed, None)
        else (freed, None)
      else (<[receipt_key v := v]> seen, None)
  end.

Section rounds.
Context `{E : Env} `{B : Bls}.

Definition proposer_index (p : BftConsensusProvider) (height round : Z) : Z :=
  proposer_slot height round (validator_count p).

(** ** Vote collection (node.rs [collect_phase_votes]) *)

(** The cheap filters on one drained batch. *)
Fixpoint filter_batch (seed : BftVote) (seen batch_voters : gset string) (batch : list BftVote)
  : list BftVote :=
  match batch with
  | [] => []
  | v :: batch =>
      if (vote_height v =? vote_height seed)%Z && (vote_round v =? vote_round seed)%Z
         && bool_decide (vote_phase v = vote_phase seed)
         && negb (bool_decide (vote_public_key v ∈ seen))
         && negb (bool_decide (vote_public_key v ∈ batch_voters))
      then v :: filter_batch seed seen ({[vote_public_key v]} ∪ batch_voters) batch
      else filter_batch seed seen batch_voters batch
  end.

(** Count the verified votes of a filtered batch; [inl] is the early return. *)
Fixpoint count_batch (p : BftConsensusProvider) (quorum : Z) (seen : gset string)
    (collected : list BftVote) (batch : list BftVote)
  : list BftVote + (gset string * list BftVote) :=
  match batch with
  | [] => inr (seen, collected)
  | v :: batch =>
      match verify_vote p v with
      | Err _ => count_batch p quorum seen collected batch
      | Ok _ =>
          let collected := collected ++ [v] in
          if (Z.of_nat (length collected) =? quorum)%Z then inl collected
          else count_batch p quorum ({[vote_public_key v]} ∪ seen) collected batch
      end
  end.

(** The loop over the batches that arrive before the deadline. *)
Fixpoint collect_loop (p : BftConsensusProvider) (quorum : Z) (seed : BftVote)
    (seen : gset string) (collected : list BftVote) (batches : list (list BftVote))
  : list BftVote :=
  match batches with
  | [] => collected
  | batch :: batches =>
      match count_batch p quorum seen collected (filter_batch seed seen ∅ batch) with
      | inl done => done
      | inr (seen, collected) => collect_loop p quorum seed seen collected batches
      end
  end.

Definition collect_phase_votes (p : BftConsensusProvider) (quorum : Z) (seed : BftVote)
    (batches : list (list BftVote)) : list BftVote :=
  if is_ok (verify_vote p seed)
  then collect_loop p quorum seed {[vote_public_key seed]} [seed] batches
  else collect_loop p quorum seed ∅ [] batches.

(** ** Round state (network rounds.rs) *)

Record BftRound := mkRound {
  br_height : Z;
  br_round : Z;
  locked : option string;
  proposal : option Block }.

Definition BftRound_new (height : Z) : BftRound := mkRound height 0 None None.

(** ** The leader's driver (node.rs [run_vote_round]) *)

(** What arrives in one round: the prevote and the precommit batches. *)
Record RoundArrivals := mkArrivals {
  prevote_batches : list (list BftVote);
  precommit_batches : list (list BftVote) }.

Definition round_certificate (b : Block) (bm : list Z) (agg : string) : QuorumCertificate :=
  mkQuorumCertificate (index b) (hash b) bm agg Bls12381.

(** The round state an attempt registers: the lock survives at the same height. *)
Definition register_round (old : option BftRound) (b : Block) (round : Z) (is_leader : bool)
  : BftRound :=
  mkRound (index b) round
    (match old with
     | Some r => if (br_height r =? index b)%Z then locked r else None
     | None => None
     end)
    (if is_leader then Some b else None).

(** [derived r] is what [derive_validator_provider] returns in round [r],
    [chain_id] the genesis hash.  The loop runs while the round stays below
    [MAX_ROUNDS]; [fuel] bounds it.  The first component is the round state left
    in the node. *)
Fixpoint vote_rounds (fuel : nat) (st : option BftRound)
    (derived : Z → option BftConsensusProvider)
    (chain_id : string) (arrivals : Z → RoundArrivals) (b : Block) (round : Z)
  : option (option BftRound * result CoreError CommitNotification) :=
  match fuel with
  | 0 => None
  | S fuel =>
      match derived round with
      | None => Some (st, Err (InvalidTransaction "bft: no validator set available"))
      | Some p =>
          match local_index p with
          | None => Some (st, Err (InvalidTransaction
              "bft: this node's key is not in the derived validator set"))
          | Some i =>
              let is_leader := (proposer_index p (index b) round =? Z.of_nat i)%Z in
              let st := Some (register_round st b round is_leader) in
              if negb is_leader
              then Some (st, Err (InvalidTransaction
                "bft: not the round leader — waiting for the committed block")) else
              let seed ph := sign_vote p chain_id (index b) round ph (hash b) in
              let prevotes := collect_phase_votes p (quorum p) (seed Prevote)
                                (prevote_batches (arrivals round)) in
              if (Z.of_nat (length prevotes) <? quorum p)%Z then
                if (MAX_ROUNDS <=? round + 1)%Z
                then Some (st, Err (InvalidTransaction
                  "bft: quorum not reached within the round budget"))
                else vote_rounds fuel st derived chain_id arrivals b (round + 1)
              else
              match aggregate_votes p prevotes with
              | Err e => Some (st, Err e)
              | Ok _ =>
                  let precommits := collect_phase_votes p (quorum p) (seed Precommit)
                                      (precommit_batches (arrivals round)) in
                  if (Z.of_nat (length precommits) <? quorum p)%Z then
                    if (MAX_ROUNDS <=? round + 1)%Z
                    then Some (st, Err (InvalidTransaction
                      "bft: precommit quorum not reached within the round budget"))
                    else vote_rounds fuel st derived chain_id arrivals b (round + 1)
                  else
                  match aggregate_votes p precommits with
                  | Err e => Some (st, Err e)
                  | Ok (bm, agg) =>
                      let c := round_certificate b bm agg in
                      Some (st, Ok (mkCommitNotification (set_certificate b (Some c)) c))
                  end
              end
          end
      end
  end.

Definition run_vote_round (st : option BftRound) (derived : Z → option BftConsensusProvider)
    (chain_id : string) (arrivals : Z → RoundArrivals) (b : Block)
  : option (option BftRound * result CoreError CommitNotification) :=
  vote_rounds (Z.to_nat MAX_ROUNDS) st derived chain_id arrivals (set_hash b (calculate_hash b)) 0.

(** ** The validator's handlers (node.rs) *)

(** The part of the node a validator's round handlers read and write: the round,
    the cached capability history, the local chain, and the derived set. *)
Record Validator := mkValidatorState {
  bft_round : option BftRound;
  v_history : option CapabilityHistory;
  v_chain : list Block;
  v_provider : option BftConsensusProvider }.

Definition set_round (s : Validator) (r : option BftRound) : Validator :=
  mkValidatorState r (v_history s) (v_chain s) (v_provider s).

(** [ledger.chain[0].hash]; an empty chain would panic, and a node's never is. *)
Definition genesis_hash (s : Validator) : string :=
  match v_chain s with g :: _ => hash g | [] => "" end.

(** The round a proposal continues: a state of another height is dropped with its lock. *)
Definition proposal_round (s : Validator) (b : Block) (round : Z) : BftRound :=
  let r := match bft_round s with
           | Some r => if (br_height r =? index b)%Z then r else BftRound_new (index b)
           | None => BftRound_new (index b)
           end in
  mkRound (br_height r) round (locked r) (proposal r).

(** [valid_candidate]: not locked elsewhere, linked to the tip, and within the capability
    rules on a scratch history. *)
Definition candidate_valid (s : Validator) (r : BftRound) (b : Block) : bool :=
  negb (match locked r with Some h => negb (h ==? hash b) | None => false end)
  && match last (v_chain s) with Some p => is_ok (chains_to b p) | None => false end
  && is_ok (capability_validate_block (default [] (v_history s)) b).2.

(** [handle_proposal]: the new state and the prevote sent to the leader, if any. *)
Definition handle_proposal (s : Validator) (b : Block) (round : Z) : Validator * option BftVote :=
  let r := proposal_round s b round in
  match (if candidate_valid s r b then v_provider s else None) with
  | Some p =>
      (set_round s (Some (mkRound (br_height r) (br_round r) (locked r) (Some b))),
       Some (sign_vote p (genesis_hash s) (index b) round Prevote (hash b)))
  | None => (set_round s (Some r), None)
  end.

(** [handle_precommit]: lock on the prevote quorum and precommit. *)
Definition handle_precommit (s : Validator) (b : Block) (round : Z) (c : QuorumCertificate)
  : Validator * option BftVote :=
  match bft_round s with
  | None => (s, None)
  | Some r =>
      if negb (br_height r =? index b)%Z || negb (br_round r =? round)%Z then (s, None) else
      match v_provider s with
      | None => (s, None)
      | Some p =>
          if negb (is_ok (verify_certificate p c b)) then (s, None) else
          (set_round s (Some (mkRound (br_height r) (br_round r) (Some (hash b)) (proposal r))),
           Some (sign_vote p (genesis_hash s) (index b) round Precommit (hash b)))
      end
  end.

(** The round messages a leader sends, and a validator's run over them. *)
Inductive RoundMessage :=
| MProposal (b : Block) (round : Z)
| MPrecommit (b : Block) (round : Z) (c : QuorumCertificate).

Definition handle_round (s : Validator) (m : RoundMessage) : Validator * option BftVote :=
  match m with
  | MProposal b round => handle_proposal s b round
  | MPrecommit b round c => handle_precommit s b round c
  end.

Fixpoint run_validator (s : Validator) (ms : list RoundMessage) : Validator * list BftVote :=
  match ms with
  | [] => (s, [])
  | m :: ms =>
      let '(s, v) := handle_round s m in
      let '(s, vs) := run_validator s ms in
      (s, match v with Some v => v :: vs | None => vs end)
  end.

(** ** Proposer rotation *)

Lemma proposer_slot_rotation h r n :
  0 < n → (0 ≤ h)%Z → (0 ≤ r)%Z → proposer_slot h r n = ((h + r) mod Z.of_nat n)%Z.
Proof.
  intros Hn Hh Hr. unfold proposer_slot. rewrite Nat.max_l by lia.
  by rewrite <- Z.add_mod by lia.
Qed.

(** Proposer rotation is fair: over any [n] consecutive rounds of a height,
    each of the [n] validators is the proposer exactly once, so a crashed leader
    delays a height by at most one round per failure. *)
Theorem proposer_rotation_fair h r n i :
  (0 ≤ h)%Z → (0 ≤ r)%Z → i < n →
  exists! k, (0 ≤ k < Z.of_nat n)%Z ∧ proposer_slot h (r + k) n = Z.of_nat i.
Proof.
  intros Hh Hr Hi. exists ((Z.of_nat i - (h + r)) mod Z.of_nat n)%Z. split.
  - split; [apply Z.mod_pos_bound; lia|]. pose proof (Z.mod_pos_bound (Z.of_nat i - (h + r)) (Z.of_nat n)).
    rewrite proposer_slot_rotation by lia. rewrite Z.add_assoc.
    rewrite Z.add_mod_idemp_r by lia. replace (h + r + (Z.of_nat i - (h + r)))%Z with (Z.of_nat i) by lia.
    apply Z.mod_small. lia.
  - intros k [Hk Hs]. rewrite proposer_slot_rotation in Hs by lia. rewrite <- Hs.
    rewrite Zminus_mod_idemp_l. replace (h + (r + k) - (h + r))%Z with k by lia.
    by apply Z.mod_small.
Qed.

(** ** The journal *)

(** Every receipt is filed under its own vote's context. *)
Definition receipts_wf (seen : VoteReceipts) : Prop :=
  size seen ≤ VOTE_RECEIPT_CAP
  ∧ ∀ k v, seen !! k = Some v → receipt_key v = k ∧ vote_verify v = Ok tt.

Lemma retain_from_size seen h : size (retain_from seen h) ≤ size seen.
Proof.
  unfold retain_from. rewrite <- !size_dom. apply subseteq_size, dom_filter_subseteq.
Qed.

Lemma retain_from_lookup seen h k v :
  retain_from seen h !! k = Some v → seen !! k = Some v.
Proof. unfold retain_from. intros H%map_lookup_filter_Some. tauto. Qed.

Lemma retain_from_wf seen h : receipts_wf seen → receipts_wf (retain_from seen h).
Proof.
  intros [Hs Hw]. split; [by etransitivity; [apply retain_from_size|]|].
  intros k v Hk%retain_from_lookup. by apply Hw.
Qed.

Lemma insert_size_le (seen : VoteReceipts) k v : size (<[k := v]> seen) ≤ S (size seen).
Proof. rewrite map_size_insert. destruct (seen !! k); simpl; lia. Qed.

(** Recording a verified vote keeps at most [VOTE_RECEIPT_CAP] receipts, each
    filed under its own context; a proof is produced exactly when the same key
    already voted for a different hash in the same height, round and phase; and
    that proof verifies when the two votes name the same chain. *)
Lemma record_spec seen v :
  receipts_wf seen → vote_verify v = Ok tt →
  let '(seen', o) := record seen v in
  receipts_wf seen'
  ∧ (is_Some o ↔ ∃ f, seen !! receipt_key v = Some f ∧ vote_block_hash f ≠ vote_block_hash v)
  ∧ (∀ pf, o = Some pf → seen !! receipt_key v = Some (first_vote pf) ∧ second_vote pf = v
       ∧ (vote_chain_id (first_vote pf) = vote_chain_id v → equivocation_verify pf = Ok tt)).
Proof.
  intros [Hsz Hwf] Hv. unfold record.
  destruct (seen !! receipt_key v) as [f|] eqn:Hf; cbn [is_some receipt_action negb].
  - destruct (vote_block_hash f ==? vote_block_hash v) eqn:Hh; cbn [receipt_action].
    + bool_hyps. split; [done|]. split; [|done].
      split; [by intros [? ?] | intros (? & [= <-] & ?); done].
    + bool_hyps. split; [done|]. split; [split; [eauto | by eexists]|].
      intros pf [= <-]. simpl in *. split; [done|]. split; [done|]. intros Hc.
      destruct (Hwf _ _ Hf) as [Hk Hfv]. unfold receipt_key in Hk. injection Hk as K1 K2 K3 K4.
      unfold equivocation_verify, agrees_with. simpl. rewrite Hfv, Hv.
      apply str_eqb_neq in Hh. rewrite Hh. cbn [negb].
      rewrite K1, K2, K3, K4, Hc, !Z.eqb_refl, !str_eqb_refl, !bool_decide_eq_true_2 by done. done.
  - assert (is_Some (@None EquivocationProof) ↔
      ∃ f, @None BftVote = Some f ∧ vote_block_hash f ≠ vote_block_hash v) as Hno.
    { split; [by intros [? ?] | by intros (? & ? & ?)]. }
    assert (∀ (seen0 : VoteReceipts) k v0, (∀ k v, seen0 !! k = Some v → seen !! k = Some v) →
      <[receipt_key v := v]> seen0 !! k = Some v0 →
      receipt_key v0 = k ∧ vote_verify v0 = Ok tt) as Hins.
    { intros seen0 k v0 Hsub. destruct (decide (k = receipt_key v)) as [->|Hne].
      - rewrite lookup_insert_eq. by intros [= <-].
      - rewrite lookup_insert_ne by done. intros Hk. by apply Hwf, Hsub. }
    destruct (VOTE_RECEIPT_CAP <=? size seen)%nat eqn:Hcap.
    + destruct (size (retain_from seen (vote_height v)) <? size seen)%nat eqn:Hfree.
      * apply Nat.ltb_lt in Hfree. split; [|done]. split.
        -- etransitivity; [apply insert_size_le|]. by etransitivity; [apply Hfree|].
        -- intros k v0. apply Hins. apply retain_from_lookup.
      * split; [|done]. split; [by etransitivity; [apply retain_from_size|]|].
        intros k v0 Hk%retain_from_lookup. by apply Hwf.
    + apply Nat.leb_gt in Hcap. split; [|done]. split.
      * etransitivity; [apply insert_size_le|]. exact Hcap.
      * intros k v0. by apply Hins.
Qed.

(** ** The collector *)

(** What the collector maintains: verified votes in the seed's context from
    distinct keys, all recorded as seen. *)
Definition collected_ok (p : BftConsensusProvider) (seed : BftVote) (seen : gset string)
    (l : list BftVote) : Prop :=
  Forall (λ v, is_ok (verify_vote p v) = true ∧ vote_height v = vote_height seed
    ∧ vote_round v = vote_round seed ∧ vote_phase v = vote_phase seed) l
  ∧ NoDup (vote_public_key <$> l)
  ∧ ∀ v, v ∈ l → vote_public_key v ∈ seen.

Lemma filter_batch_spec seed seen bv batch :
  Forall (λ v, vote_height v = vote_height seed ∧ vote_round v = vote_round seed
    ∧ vote_phase v = vote_phase seed ∧ vote_public_key v ∉ seen ∧ vote_public_key v ∉ bv)
    (filter_batch seed seen bv batch)
  ∧ NoDup (vote_public_key <$> filter_batch seed seen bv batch).
Proof.
  revert bv. induction batch as [|v batch IH]; intros bv; simpl; [split; constructor|].
  destruct (_ && _) eqn:Hc; [|apply IH]. bool_hyps. destruct_and!.
  destruct (IH ({[vote_public_key v]} ∪ bv)) as [Hall Hnd]. split.
  - constructor; [done|]. eapply Forall_impl; [exact Hall|]. simpl.
    intros w (? & ? & ? & ? & Hw). repeat split; try done. by intros ?; apply Hw, elem_of_union_r.
  - simpl. constructor; [|done]. intros (w & Hw & Hin)%list_elem_of_fmap.
    rewrite Forall_forall in Hall. destruct (Hall w Hin) as (_ & _ & _ & _ & Hnw).
    apply Hnw, elem_of_union_l, elem_of_singleton. done.
Qed.

Lemma count_batch_ok p q seed seen l batch :
  collected_ok p seed seen l →
  Forall (λ v, vote_height v = vote_height seed ∧ vote_round v = vote_round seed
    ∧ vote_phase v = vote_phase seed ∧ vote_public_key v ∉ seen) batch →
  NoDup (vote_public_key <$> batch) →
  match count_batch p q seen l batch with
  | inl l' => ∃ seen', collected_ok p seed seen' l'
  | inr (seen', l') => collected_ok p seed seen' l'
  end.
Proof.
  revert seen l. induction batch as [|v batch IH]; intros seen l Hok Hb Hnd; simpl; [done|].
  apply Forall_cons in Hb as [(Hh & Hr & Hp & Hs) Hb].
  simpl in Hnd. apply NoDup_cons in Hnd as [Hnv Hnd].
  destruct (verify_vote p v) as [i|] eqn:Hv; [|by apply IH].
  assert (collected_ok p seed ({[vote_public_key v]} ∪ seen) (l ++ [v])) as Hok'.
  { destruct Hok as (H1 & H2 & H3). split; [|split].
    - apply Forall_app. split; [done|]. apply Forall_singleton. by rewrite Hv.
    - rewrite fmap_app. apply NoDup_app. split; [done|]. split; [|apply NoDup_singleton].
      intros k (w & -> & Hw)%list_elem_of_fmap Hk%list_elem_of_singleton.
      apply Hs. rewrite <- Hk. by apply H3.
    - intros w [Hw|Hw]%elem_of_app; [set_solver|]. apply list_elem_of_singleton in Hw as ->. set_solver. }
  destruct (Z.of_nat (length (l ++ [v])) =? q)%Z; [eauto|].
  apply IH; [done| |done]. rewrite Forall_forall in Hb |- *. intros w Hw.
  destruct (Hb w Hw) as (? & ? & ? & ?). repeat split; try done.
  apply not_elem_of_union. split; [|done]. intros Heq%elem_of_singleton.
  apply Hnv. rewrite <- Heq. by apply list_elem_of_fmap_2.
Qed.

Lemma collect_loop_ok p q seed seen l batches :
  collected_ok p seed seen l →
  ∃ seen', collected_ok p seed seen' (collect_loop p q seed seen l batches).
Proof.
  revert seen l. induction batches as [|batch batches IH]; intros seen l Hok; simpl; [eauto|].
  destruct (filter_batch_spec seed seen ∅ batch) as [H1 H2].
  pose proof (count_batch_ok p q seed seen l (filter_batch seed seen ∅ batch) Hok) as Hc.
  destruct (count_batch _ _ _ _ _) as [l'|[seen' l']].
  - apply Hc; [|done]. eapply Forall_impl; [exact H1|]. simpl. tauto.
  - apply IH, Hc; [|done]. eapply Forall_impl; [exact H1|]. simpl. tauto.
Qed.

Lemma collect_phase_votes_ok p q seed batches :
  ∃ seen, collected_ok p seed seen (collect_phase_votes p q seed batches).
Proof.
  unfold collect_phase_votes. destruct (is_ok (verify_vote p seed)) eqn:Hs; apply collect_loop_ok.
  - split; [|split]; simpl.
    + by apply Forall_singleton.
    + apply NoDup_singleton.
    + intros v ->%list_elem_of_singleton. set_solver.
  - split; [constructor|]. split; [constructor|]. by intros v Hv%elem_of_nil.
Qed.

(** Message volume cannot make a quorum: whatever arrives, the votes the
    leader counts verify against the validator set, belong to the phase being
    collected, and come from pairwise distinct keys. *)
Theorem collector_counts_distinct_voters p q seed batches :
  let l := collect_phase_votes p q seed batches in
  Forall (λ v, is_ok (verify_vote p v) = true ∧ vote_height v = vote_height seed
    ∧ vote_round v = vote_round seed ∧ vote_phase v = vote_phase seed) l
  ∧ NoDup (vote_public_key <$> l).
Proof. destruct (collect_phase_votes_ok p q seed batches) as (seen & H1 & H2 & _). done. Qed.

(** The collector does not compare the hash voted for: a verified vote of the
    phase from another key is counted towards the leader's quorum although it
    names a different block than the one being certified. *)
Theorem collector_counts_foreign_hash p seed v i j :
  verify_vote p seed = Ok i → verify_vote p v = Ok j →
  vote_height v = vote_height seed → vote_round v = vote_round seed →
  vote_phase v = vote_phase seed → vote_public_key v ≠ vote_public_key seed →
  vote_block_hash v ≠ vote_block_hash seed →
  collect_phase_votes p 2 seed [[v]] = [seed; v].
Proof.
  intros Hs Hv Hh Hr Hp Hk _. unfold collect_phase_votes. rewrite Hs. cbn [is_ok collect_loop].
  assert (filter_batch seed {[vote_public_key seed]} ∅ [v] = [v]) as ->.
  { simpl. rewrite Hh, Hr, Hp, !Z.eqb_refl, !bool_decide_eq_true_2 by done.
    rewrite !bool_decide_eq_false_2 by set_solver. done. }
  simpl. by rewrite Hv.
Qed.

(** The batched collector is not the serial one: an unverifiable copy that
    precedes a validator's vote in one burst makes the burst drop the vote, which
    the same two messages in two bursts do not. *)
Theorem batch_shadows_vote p seed bad v i j e :
  verify_vote p seed = Ok i → verify_vote p v = Ok j → verify_vote p bad = Err e →
  vote_height v = vote_height seed → vote_round v = vote_round seed →
  vote_phase v = vote_phase seed → vote_height bad = vote_height v →
  vote_round bad = vote_round v → vote_phase bad = vote_phase v →
  vote_public_key bad = vote_public_key v → vote_public_key v ≠ vote_public_key seed →
  collect_phase_votes p 2 seed [[bad]; [v]] = [seed; v]
  ∧ collect_phase_votes p 2 seed [[bad; v]] = [seed].
Proof.
  intros Hs Hv Hb Hh Hr Hp Bh Br Bp Bk Hk. unfold collect_phase_votes. rewrite Hs. cbn [is_ok].
  assert (∀ bv, vote_public_key v ∉ bv →
    filter_batch seed {[vote_public_key seed]} bv [v] = [v]
    ∧ filter_batch seed {[vote_public_key seed]} bv [bad] = [bad]
    ∧ filter_batch seed {[vote_public_key seed]} bv [bad; v] = [bad]) as Hf.
  { intros bv Hbv. simpl. rewrite Bh, Br, Bp, Bk, Hh, Hr, Hp, !Z.eqb_refl, !(bool_decide_eq_true_2 (_ = _)) by done.
    rewrite !(bool_decide_eq_false_2 (_ ∈ _)) by set_solver.
    rewrite bool_decide_eq_true_2 by set_solver. done. }
  destruct (Hf ∅) as (H1 & H2 & H3); [set_solver|].
  cbn [collect_loop]. rewrite H2, H3. cbn [count_batch]. rewrite Hb. cbn [collect_loop].
  rewrite H1. cbn [count_batch]. by rewrite Hv.
Qed.

(** ** Locking *)

(** The lock holds against later proposals: a validator locked on a hash at a
    height never prevotes a different block of that height, whatever the round,
    and no proposal for that height removes or moves the lock. *)
Theorem lock_blocks_other_proposals s r h b round :
  bft_round s = Some r → br_height r = index b → locked r = Some h →
  let '(s', v) := handle_proposal s b round in
  (hash b ≠ h → v = None)
  ∧ ∃ r', bft_round s' = Some r' ∧ br_height r' = index b ∧ locked r' = Some h.
Proof.
  intros Hr Hh Hl. unfold handle_proposal, candidate_valid, proposal_round. rewrite Hr.
  destruct (Z.eqb_spec (br_height r) (index b)); [|done]. cbn [locked br_height br_round]. rewrite Hl.
  destruct (negb (h ==? hash b)) eqn:Hne; cbn [negb andb].
  - split; [done|]. eexists. split; [done|]. simpl. done.
  - assert (h = hash b) as -> by (bool_hyps; done).
    match goal with |- context [match ?c with Some _ => _ | None => _ end] => destruct c end;
      (split; [done|]); eexists; done.
Qed.

(** The handlers do not remember that they voted in a round: when a leader
    sends two different valid candidates for the same height and round before the
    precommit phase, an unlocked validator prevotes both; and given a prevote
    certificate for each (which those prevotes make), it precommits both, moving
    its lock.  A single equivocating leader therefore gathers two conflicting
    precommit quorums from validators that follow the code. *)
Theorem equivocating_leader_gets_both_precommits s p tip b1 b2 round c1 c2 :
  v_provider s = Some p → bft_round s = None → last (v_chain s) = Some tip →
  chains_to b1 tip = Ok tt → chains_to b2 tip = Ok tt →
  is_ok (capability_validate_block (default [] (v_history s)) b1).2 = true →
  is_ok (capability_validate_block (default [] (v_history s)) b2).2 = true →
  hash b1 ≠ hash b2 →
  verify_certificate p c1 b1 = Ok tt → verify_certificate p c2 b2 = Ok tt →
  (run_validator s [MProposal b1 round; MProposal b2 round;
                    MPrecommit b1 round c1; MPrecommit b2 round c2]).2 =
    [sign_vote p (genesis_hash s) (index b1) round Prevote (hash b1);
     sign_vote p (genesis_hash s) (index b1) round Prevote (hash b2);
     sign_vote p (genesis_hash s) (index b1) round Precommit (hash b1);
     sign_vote p (genesis_hash s) (index b1) round Precommit (hash b2)].
Proof.
  intros Hp Hr Ht Hb1 Hb2 Hc1 Hc2 Hne Hv1 Hv2.
  assert (index b2 = index b1) as Hi.
  { apply chains_to_Ok in Hb1 as (_ & H1 & _). apply chains_to_Ok in Hb2 as (_ & H2 & _).
    congruence. }
  simpl. unfold handle_proposal, candidate_valid, proposal_round. rewrite Hr. cbn [locked]. rewrite Ht, Hb1, Hc1, Hp. simpl.
  rewrite Ht, Hi, Z.eqb_refl. simpl. rewrite Hb2, Hc2, Hp. simpl.
  unfold handle_precommit. simpl. rewrite Z.eqb_refl. simpl. rewrite Z.eqb_refl. simpl.
  rewrite Hp, Hv1. simpl. rewrite Hi, !Z.eqb_refl. simpl. rewrite Hp, Hv2. done.
Qed.

(** ** The driver *)

Lemma vote_rounds_total fuel st derived cid arr b round :
  (0 ≤ round < MAX_ROUNDS)%Z → (MAX_ROUNDS - round ≤ Z.of_nat fuel)%Z →
  ∃ r, vote_rounds fuel st derived cid arr b round = Some r.
Proof.
  revert st round. induction fuel as [|fuel IH]; intros st round Hr Hf; [lia|].
  simpl. destruct (derived round) as [p|]; [|eauto]. destruct (local_index p) as [i|]; [|eauto].
  destruct (negb _); [eauto|].
  assert (∀ st', (MAX_ROUNDS <=? round + 1)%Z = false →
    ∃ r, vote_rounds fuel st' derived cid arr b (round + 1) = Some r) as Hnext.
  { intros st' Hlt. apply Z.leb_gt in Hlt. apply IH; lia. }
  destruct (_ <? quorum p)%Z.
  { destruct (MAX_ROUNDS <=? round + 1)%Z eqn:Hm; [eauto | by apply Hnext]. }
  destruct (aggregate_votes p _) as [|]; [|eauto].
  destruct (_ <? quorum p)%Z.
  { destruct (MAX_ROUNDS <=? round + 1)%Z eqn:Hm; [eauto | by apply Hnext]. }
  destruct (aggregate_votes p _) as [[bm agg]|]; eauto.
Qed.

Lemma vote_rounds_Ok fuel st derived cid arr b round st' n :
  vote_rounds fuel st derived cid arr b round = Some (st', Ok n) →
  ∃ r p votes bm agg,
    derived r = Some p
    ∧ votes = collect_phase_votes p (quorum p) (sign_vote p cid (index b) r Precommit (hash b))
              (precommit_batches (arr r))
    ∧ (quorum p ≤ Z.of_nat (length votes))%Z
    ∧ aggregate_votes p votes = Ok (bm, agg)
    ∧ n = mkCommitNotification (set_certificate b (Some (round_certificate b bm agg)))
            (round_certificate b bm agg).
Proof.
  revert st round. induction fuel as [|fuel IH]; intros st round; [done|].
  simpl. destruct (derived round) as [p|] eqn:Hd; [|done].
  destruct (local_index p) as [i|]; [|done]. destruct (negb _); [done|].
  destruct (_ <? quorum p)%Z; [destruct (MAX_ROUNDS <=? round + 1)%Z; [done | apply IH]|].
  destruct (aggregate_votes p _) as [|]; [|done].
  destruct (Z.ltb_spec (Z.of_nat (length (collect_phase_votes p (quorum p)
    (sign_vote p cid (index b) round Precommit (hash b)) (precommit_batches (arr round))))) (quorum p))
    as [_|Hq]; [destruct (MAX_ROUNDS <=? round + 1)%Z; [done | apply IH]|].
  destruct (aggregate_votes p (collect_phase_votes p (quorum p)
    (sign_vote p cid (index b) round Precommit (hash b)) _)) as [[bm agg]|] eqn:Ha; [|done].
  intros [= _ <-]. exists round, p. eexists. exists bm, agg. done.
Qed.

(** Votes from distinct keys occupy distinct validator indices. *)
Lemma distinct_keys_indices p votes :
  Forall (λ v, is_ok (verify_vote p v) = true) votes → NoDup (vote_public_key <$> votes) →
  size (list_to_set (omap (λ v, match verify_vote p v with Ok i => Some i | Err _ => None end)
    votes) : gset nat) = length votes.
Proof.
  intros Hall Hnd. set (f := λ v, match verify_vote p v with Ok i => Some i | Err _ => None end).
  assert (NoDup (omap f votes) ∧ length (omap f votes) = length votes) as [H1 H2].
  { induction Hall as [|v votes Hv Hall IH]; simpl; [split; [constructor | done]|].
    simpl in Hnd. apply NoDup_cons in Hnd as [Hn Hnd]. destruct (IH Hnd) as [I1 I2].
    assert (∃ i, verify_vote p v = Ok i) as [i Hvi] by (destruct (verify_vote p v); [eauto | done]).
    assert (f v = Some i) as Hfv by (unfold f; by rewrite Hvi). rewrite Hfv. simpl.
    split; [|exact (f_equal S I2)]. constructor; [|done]. intros (w & Hw & Hwi)%list_elem_of_omap.
    unfold f in Hwi. destruct (verify_vote p w) as [j|] eqn:Hvj; [|done]. injection Hwi as ->.
    apply verify_vote_index in Hvi as (_ & _ & K1). apply verify_vote_index in Hvj as (_ & _ & K2).
    apply Hn. rewrite K1 in K2. injection K2 as ->. by apply list_elem_of_fmap_2. }
  rewrite size_list_to_set by done. exact H2.
Qed.

(** The collector only returns votes it was given. *)
Lemma filter_batch_incl seed seen bv batch v :
  v ∈ filter_batch seed seen bv batch → v ∈ batch.
Proof.
  revert bv. induction batch as [|w batch IH]; intros bv; simpl; [done|].
  destruct (_ && _); [intros [->|Hv]%elem_of_cons; [left|]|intros Hv]; right; eauto.
Qed.

Lemma count_batch_incl p q seen l batch v :
  v ∈ match count_batch p q seen l batch with inl l' => l' | inr (_, l') => l' end →
  v ∈ l ∨ v ∈ batch.
Proof.
  revert seen l. induction batch as [|w batch IH]; intros seen l; simpl; [by left|].
  destruct (verify_vote p w); [|intros [?|?]%IH; [by left | by right; right]].
  assert (v ∈ l ++ [w] → v ∈ l ∨ v ∈ w :: batch) as Happ.
  { intros [?|Hw%list_elem_of_singleton]%elem_of_app; [by left | subst; right; left]. }
  destruct (_ =? q)%Z; [exact Happ|]. intros [?|?]%IH; [by apply Happ | by right; right].
Qed.

Lemma collect_loop_incl p q seed seen l batches v :
  v ∈ collect_loop p q seed seen l batches → v ∈ l ∨ ∃ batch, batch ∈ batches ∧ v ∈ batch.
Proof.
  revert seen l. induction batches as [|batch batches IH]; intros seen l; simpl; [by left|].
  pose proof (count_batch_incl p q seen l (filter_batch seed seen ∅ batch) v) as Hc.
  assert (v ∈ l ∨ v ∈ filter_batch seed seen ∅ batch →
    v ∈ l ∨ ∃ b, b ∈ batch :: batches ∧ v ∈ b) as Hd.
  { intros [?|?%filter_batch_incl]; [by left | right; exists batch; split; [left | done]]. }
  destruct (count_batch _ _ _ _ _) as [l'|[seen' l']]; [by intros ?; apply Hd, Hc|].
  intros [?|(b & ? & ?)]%IH; [by apply Hd, Hc|]. right. exists b. split; [by right | done].
Qed.

Lemma collect_phase_votes_incl p q seed batches v :
  v ∈ collect_phase_votes p q seed batches → v = seed ∨ ∃ batch, batch ∈ batches ∧ v ∈ batch.
Proof.
  unfold collect_phase_votes. destruct (is_ok _); intros [Hv|?]%collect_loop_incl; try by right.
  - left. by apply list_elem_of_singleton.
  - by apply elem_of_nil in Hv.
Qed.

(** Completeness of the collector: when every arrived vote of the phase verifies,
    no distinct voter is lost. *)
Definition in_context (seed v : BftVote) : bool :=
  (vote_height v =? vote_height seed)%Z && (vote_round v =? vote_round seed)%Z
  && bool_decide (vote_phase v = vote_phase seed).

Definition voter_keys (seed : BftVote) (votes : list BftVote) : gset string :=
  list_to_set (vote_public_key <$> List.filter (in_context seed) votes).

Lemma voter_keys_cons seed v votes :
  voter_keys seed (v :: votes) =
  if in_context seed v then {[vote_public_key v]} ∪ voter_keys seed votes
  else voter_keys seed votes.
Proof. unfold voter_keys. simpl. by destruct (in_context seed v). Qed.

Lemma voter_keys_app seed l k : voter_keys seed (l ++ k) = voter_keys seed l ∪ voter_keys seed k.
Proof. unfold voter_keys. by rewrite List.filter_app, fmap_app, list_to_set_app_L. Qed.

Lemma filter_batch_keys seed seen bv batch :
  list_to_set (vote_public_key <$> filter_batch seed seen bv batch)
    = voter_keys seed batch ∖ (seen ∪ bv).
Proof.
  revert bv. induction batch as [|v batch IH]; intros bv; cbn [filter_batch]; [set_solver|].
  rewrite voter_keys_cons. fold (in_context seed v).
  destruct (in_context seed v); cbn [andb]; [|apply IH].
  destruct (bool_decide_reflect (vote_public_key v ∈ seen)); cbn [negb andb].
  { rewrite IH. set_solver. }
  destruct (bool_decide_reflect (vote_public_key v ∈ bv)); cbn [negb andb].
  { rewrite IH. set_solver. }
  rewrite fmap_cons, list_to_set_cons, IH. apply set_eq. intros k.
  destruct (decide (k = vote_public_key v)); set_solver.
Qed.

Lemma count_batch_all p q seen l batch :
  Forall (λ v, is_ok (verify_vote p v) = true) batch →
  match count_batch p q seen l batch with
  | inl l' => Z.of_nat (length l') = q
  | inr (seen', l') => seen' = list_to_set (vote_public_key <$> batch) ∪ seen ∧ l' = l ++ batch
  end.
Proof.
  revert seen l. induction batch as [|v batch IH]; intros seen l Hall; simpl.
  { split; [set_solver | by rewrite app_nil_r]. }
  apply Forall_cons in Hall as [Hv Hall]. destruct (verify_vote p v); [|done].
  destruct (Z.eqb_spec (Z.of_nat (length (l ++ [v]))) q) as [?|_]; [done|].
  specialize (IH ({[vote_public_key v]} ∪ seen) (l ++ [v]) Hall).
  destruct (count_batch _ _ _ _ _) as [|[s l']]; [done|]. destruct IH as [-> ->].
  split; [set_solver | by rewrite <- app_assoc].
Qed.

Lemma collect_loop_complete p q seed seen l batches :
  seen = list_to_set (vote_public_key <$> l) → NoDup (vote_public_key <$> l) →
  (∀ v, v ∈ mjoin batches → in_context seed v = true → is_ok (verify_vote p v) = true) →
  (q ≤ Z.of_nat (size (seen ∪ voter_keys seed (mjoin batches))))%Z →
  (q ≤ Z.of_nat (length (collect_loop p q seed seen l batches)))%Z.
Proof.
  revert seen l. induction batches as [|batch batches IH]; intros seen l Hseen Hnd Hall Hq; simpl.
  { unfold voter_keys in Hq. simpl in Hq. rewrite union_empty_r_L, Hseen, size_list_to_set, length_fmap in Hq by done.
    done. }
  destruct (filter_batch_spec seed seen ∅ batch) as [Hspec Hbnd].
  pose proof (filter_batch_keys seed seen ∅ batch) as Hkeys.
  assert (Forall (λ v, is_ok (verify_vote p v) = true) (filter_batch seed seen ∅ batch)) as Hok.
  { rewrite Forall_forall in Hspec |- *. intros v Hv. destruct (Hspec v Hv) as (Hh & Hr & Hp & _).
    apply Hall; [|unfold in_context; by rewrite Hh, Hr, Hp, !Z.eqb_refl, bool_decide_eq_true_2].
    simpl. apply elem_of_app. left. by eapply filter_batch_incl. }
  pose proof (count_batch_all p q seen l _ Hok) as Hc.
  destruct (count_batch _ _ _ _ _) as [l'|[seen' l']]; [by rewrite Hc|].
  destruct Hc as [-> ->]. apply IH.
  - rewrite Hseen, fmap_app, list_to_set_app_L. set_solver.
  - rewrite fmap_app. apply NoDup_app. split; [done|]. split; [|done].
    intros k Hk (v & -> & Hv)%list_elem_of_fmap. rewrite Forall_forall in Hspec.
    destruct (Hspec v Hv) as (_ & _ & _ & Hn & _). apply Hn. rewrite Hseen. by apply elem_of_list_to_set.
  - intros v Hv. apply Hall. simpl. apply elem_of_app. by right.
  - etransitivity; [exact Hq|]. apply inj_le, subseteq_size. simpl. rewrite voter_keys_app, Hkeys.
    intros k. destruct (decide (k ∈ seen)); set_solver.
Qed.

(** A quorum arrives for the seed's phase: every arrived vote of the phase
    verifies and names the seed's block, and with the leader's own vote they come
    from at least a quorum of distinct keys. *)
Definition quorum_arrives (p : BftConsensusProvider) (seed : BftVote)
    (batches : list (list BftVote)) : Prop :=
  (∀ v, v ∈ seed :: mjoin batches → in_context seed v = true →
     is_ok (verify_vote p v) = true ∧ vote_block_hash v = vote_block_hash seed)
  ∧ (quorum p ≤ Z.of_nat (size (voter_keys seed (seed :: mjoin batches))))%Z.

Lemma in_context_refl seed : in_context seed seed = true.
Proof. unfold in_context. by rewrite !Z.eqb_refl, bool_decide_eq_true_2. Qed.

Lemma collect_complete p seed batches :
  quorum_arrives p seed batches →
  (quorum p ≤ Z.of_nat (length (collect_phase_votes p (quorum p) seed batches)))%Z.
Proof.
  intros [Hall Hq]. unfold collect_phase_votes.
  destruct (Hall seed) as [-> _]; [left | apply in_context_refl |].
  apply collect_loop_complete.
  - set_solver.
  - apply NoDup_singleton.
  - intros v Hv. apply Hall. by right.
  - by rewrite voter_keys_cons, in_context_refl in Hq.
Qed.

(** A round whose two phases both reach a quorum commits. *)
Lemma vote_rounds_commit fuel st derived cid arr b r p i pre com :
  derived r = Some p → local_index p = Some i → proposer_index p (index b) r = Z.of_nat i →
  let votes ph batches :=
    collect_phase_votes p (quorum p) (sign_vote p cid (index b) r ph (hash b)) batches in
  (quorum p ≤ Z.of_nat (length (votes Prevote (prevote_batches (arr r)))))%Z →
  (quorum p ≤ Z.of_nat (length (votes Precommit (precommit_batches (arr r)))))%Z →
  aggregate_votes p (votes Prevote (prevote_batches (arr r))) = Ok pre →
  aggregate_votes p (votes Precommit (precommit_batches (arr r))) = Ok com →
  ∃ st' n, vote_rounds (S fuel) st derived cid arr b r = Some (st', Ok n).
Proof.
  intros Hd Hi Hl votes Hq1 Hq2 Ha1 Ha2. cbn [vote_rounds]. rewrite Hd, Hi, Hl, Z.eqb_refl. cbn [negb].
  subst votes. cbv beta in *. rewrite (proj2 (Z.ltb_ge _ _) Hq1), Ha1.
  rewrite (proj2 (Z.ltb_ge _ _) Hq2), Ha2. destruct com. eauto.
Qed.

Context {L : BlsLaws B}.

(** The votes a phase collected make a certificate when they name one block. *)
Lemma collected_certificate p seed batches b :
  bitmap_too_large (bitmap_len (validator_count p)) = false → 0 < validator_count p →
  vote_block_hash seed = hash b →
  (∀ v, v ∈ mjoin batches → in_context seed v = true → vote_block_hash v = hash b) →
  (quorum p ≤ Z.of_nat (length (collect_phase_votes p (quorum p) seed batches)))%Z →
  ∃ bm agg, aggregate_votes p (collect_phase_votes p (quorum p) seed batches) = Ok (bm, agg)
    ∧ verify_certificate p (round_certificate b bm agg) b = Ok tt.
Proof.
  intros Hlarge Hpos Hseed Hhash Hq.
  destruct (collect_phase_votes_ok p (quorum p) seed batches) as (seen & Hall & Hnd & _).
  rewrite Forall_forall in Hall. apply quorum_votes_certificate; [| |done|done].
  - apply Forall_forall. intros v Hin. destruct (Hall v Hin) as (Hok & Hh & Hr & Hp).
    split; [done|]. apply collect_phase_votes_incl in Hin as [->|(batch & Hb & Hin)]; [done|].
    apply Hhash; [by apply list_elem_of_join; exists batch|].
    unfold in_context. by rewrite Hh, Hr, Hp, !Z.eqb_refl, bool_decide_eq_true_2.
  - rewrite distinct_keys_indices; [exact Hq| |done]. apply Forall_forall. intros v Hin. by apply Hall.
Qed.

(** C12: the round driver terminates within its round budget.  When the
    precommits that reach it name the candidate's hash, the block it returns
    carries a certificate that verifies, for exactly that block, against the
    validator set derived in the deciding round.  And it does commit: if the node
    leads the first round and in both phases verified votes for the candidate from
    a quorum of distinct keys arrive before the deadline, the driver returns the
    certified block. *)
Theorem vote_round_certifies st derived cid arr b :
  (∀ r p, derived r = Some p →
     bitmap_too_large (bitmap_len (validator_count p)) = false ∧ 0 < validator_count p) →
  (∀ r batch v, batch ∈ precommit_batches (arr r) → v ∈ batch →
     vote_block_hash v = calculate_hash b) →
  (∃ r, run_vote_round st derived cid arr b = Some r)
  ∧ (∀ st' n, run_vote_round st derived cid arr b = Some (st', Ok n) →
      (∃ r p, derived r = Some p ∧ verify_certificate p (cn_certificate n) (cn_block n) = Ok tt)
      ∧ certificate (cn_block n) = Some (cn_certificate n)
      ∧ hash (cn_block n) = calculate_hash b ∧ header (cn_block n) = header b)
  ∧ (∀ p i, derived 0%Z = Some p → local_index p = Some i →
      proposer_index p (index b) 0 = Z.of_nat i →
      let seed ph := sign_vote p cid (index b) 0 ph (calculate_hash b) in
      quorum_arrives p (seed Prevote) (prevote_batches (arr 0%Z)) →
      quorum_arrives p (seed Precommit) (precommit_batches (arr 0%Z)) →
      ∃ st' n, run_vote_round st derived cid arr b = Some (st', Ok n)).
Proof.
  intros Hset Hhash. split; [apply vote_rounds_total; unfold MAX_ROUNDS; lia|]. split.
  - intros st' n Hn. apply vote_rounds_Ok in Hn as (r & p & votes & bm & agg & Hd & -> & Hq & Ha & ->).
    destruct (Hset r p Hd) as [Hlarge Hpos]. split; [|done]. exists r, p. split; [done|].
    simpl in Hq, Ha |- *. set (b' := set_certificate _ _).
    destruct (collected_certificate p (sign_vote p cid (index b) r Precommit (calculate_hash b))
      (precommit_batches (arr r)) b') as (bm' & agg' & Ha' & Hv); [done|done|done| |done|].
    { intros v (batch & Hv & Hb)%list_elem_of_join _. by eapply Hhash. }
    rewrite Ha in Ha'. injection Ha' as <- <-. exact Hv.
  - intros p i Hd Hi Hlead seed Hpre Hcom. destruct (Hset 0%Z p Hd) as [Hlarge Hpos].
    pose proof (collect_complete _ _ _ Hpre) as Hq1. pose proof (collect_complete _ _ _ Hcom) as Hq2.
    assert (∀ ph batches, quorum_arrives p (seed ph) batches →
      (quorum p ≤ Z.of_nat (length (collect_phase_votes p (quorum p) (seed ph) batches)))%Z →
      ∃ bm agg, aggregate_votes p (collect_phase_votes p (quorum p) (seed ph) batches) = Ok (bm, agg)) as Hagg.
    { intros ph batches [Hall _] Hq.
      destruct (collected_certificate p (seed ph) batches (set_hash b (calculate_hash b))
        Hlarge Hpos) as (bm & agg & Ha & _); [done| |done|eauto].
      intros v Hv Hc. by apply (Hall v); [right|]. }
    destruct (Hagg _ _ Hpre Hq1) as (bm1 & agg1 & Ha1). destruct (Hagg _ _ Hcom Hq2) as (bm2 & agg2 & Ha2).
    apply (vote_rounds_commit 3 st derived cid arr (set_hash b (calculate_hash b)) 0 p i
      (bm1, agg1) (bm2, agg2)); done.
Qed.

End rounds.
