(* ===== verification/Validators.v ===== *)
(** The validator registry and restart (glasschain-network: node.rs).

    The live derivation of the validator set from world state, the verification
    of historical certificates against the sets the chain itself defines, the
    handler of incoming votes, and the restoration of a ledger from storage. *)

From S2P Require Import Prelude Types WriteSet Chain Capability Ledger Storage Bft Rounds.

Definition VALIDATOR_REGISTRY_CONTRACT : string := "validator-registry".
Definition VALIDATOR_REGISTRY_CHANNEL : string := "governance".
Definition registry_prefix : string :=
  "ws:" +:+ VALIDATOR_REGISTRY_CHANNEL +:+ ":" +:+ VALIDATOR_REGISTRY_CONTRACT +:+ ":".

Definition VOTE_CHANNEL_CAP : nat := Z.to_nat 1024.

(** The sorted tuples of [derive_validator_provider]: name, key, proof. *)
Notation entry := (string * string * string)%type.

Definition entry_info (e : entry) : ValidatorInfo := mkValidator e.1.1 e.1.2 e.2.
Definition info_entry (v : ValidatorInfo) : entry := (v_name v, v_public_key v, v_pop v).

Section validators.
Context `{E : Env} `{B : Bls}.
(** [serde_json::from_slice] into a JSON value, and the base64 decoder. *)
Context (parse_value : string → result string Value) (base64_decode : string → option string).

(** [descriptor.get(field)?.as_str().and_then(base64_decode)] *)
Definition descriptor_field (d : Value) (field : string) : option string :=
  match d with
  | VObject m => (m !! field ≫= as_str) ≫= base64_decode
  | _ => None
  end.

(** ** The live set *)

Definition live_entry (kv : string * string) : option entry :=
  match strip_prefix registry_prefix kv.1, parse_value kv.2 with
  | Some name, Ok d =>
      match descriptor_field d "public_key", descriptor_field d "pop" with
      | Some key, Some pop => Some (name, key, pop)
      | _, _ => None
      end
  | _, _ => None
  end.

Definition live_entries (world : gmap string string) : list entry :=
  sort_by triple_leb (omap live_entry (map_to_list world)).

(** [derive_validator_provider]: [cache] is [bft_validator_cache], [content_hash]
    the standard library's hash of the entries, [attached] the configured
    provider; the new cache and the derived provider. *)
Definition derive_validator_provider (content_hash : list entry → Z)
    (cache : option (Z * BftConsensusProvider)) (attached : option BftConsensusProvider)
    (world : gmap string string)
  : option (Z * BftConsensusProvider) * option BftConsensusProvider :=
  let entries := live_entries world in
  match attached with
  | None => (cache, None)
  | Some att =>
      let h := content_hash entries in
      match (match cache with
             | Some (ch, cached) => if (ch =? h)%Z then Some cached else None
             | None => None
             end) with
      | Some cached => (cache, Some cached)
      | None =>
          match entries with
          | [] => (cache, Some att)
          | _ =>
              match provider_new (entry_info <$> entries) (signing_key att) with
              | Ok p => (Some (h, p), Some p)
              | Err _ => (cache, None)
              end
          end
      end
  end.

(** ** The historical sets *)

(** One write of [verify_chain_certificates]' registry replay. *)
Definition registry_write (st : gmap string ValidatorInfo * bool) (w : PersistentWrite)
  : result CoreError (gmap string ValidatorInfo * bool) :=
  let '(registry, changed) := st in
  match strip_prefix registry_prefix (state_key w) with
  | None => Ok (registry, changed)
  | Some name =>
      match pw_op w with
      | WSet value =>
          let? d := map_err (λ e, InvalidBlock
            ("bft: corrupt validator-registry descriptor for '" +:+ name +:+ "': " +:+ e))
            (parse_value value) in
          let? key := ok_or (descriptor_field d "public_key") (InvalidBlock
            ("bft: validator-registry descriptor for '" +:+ name +:+ "' has no public key")) in
          let? pop := ok_or (descriptor_field d "pop") (InvalidBlock
            ("bft: validator-registry descriptor for '" +:+ name
             +:+ "' has no proof of possession")) in
          Ok (<[name := mkValidator name key pop]> registry, true)
      | WDelete => Ok (delete name registry, true)
      end
  end.

(** The registry so far and one provider per change, in order of effect. *)
Record Replay := mkReplay {
  registry : gmap string ValidatorInfo;
  sets : list (Z * BftConsensusProvider) }.

(** The latest set in effect at a height, else the bootstrap set. *)
Definition set_at (sets : list (Z * BftConsensusProvider))
    (bootstrap : option BftConsensusProvider) (height : Z) : option BftConsensusProvider :=
  match List.find (λ s, (s.1 <=? height)%Z) (reverse sets) with
  | Some (_, p) => Some p
  | None => bootstrap
  end.

Definition check_certificate (st : Replay) (bootstrap : option BftConsensusProvider) (b : Block)
  : result CoreError unit :=
  match certificate b with
  | Some c =>
      if is_degenerate c then Ok tt else
      match set_at (sets st) bootstrap (index b) with
      | None => Err (InvalidBlock ("bft: block " +:+ pretty (index b)
          +:+ " carries a BFT certificate but no validator set is recoverable for its height"))
      | Some p => verify_certificate p c b
      end
  | None => Ok tt
  end.

(** [registry.values().cloned().collect()] *)
Definition registry_values (r : gmap string ValidatorInfo) : list ValidatorInfo :=
  (btree_items r).*2.

(** [verifier_key] is the key of the verification-only providers. *)
Definition replay_block (verifier_key : PrivateKey) (bootstrap : option BftConsensusProvider)
    (st : Replay) (b : Block) : result CoreError Replay :=
  let? _ := check_certificate st bootstrap b in
  let? r := fold_result registry_write (write_set b) (registry st, false) in
  if negb r.2 then Ok (mkReplay r.1 (sets st)) else
  let? snapshot := map_err (λ e, InvalidBlock ("bft: historical validator set at height "
    +:+ pretty (add64 (index b) 1) +:+ " is invalid: " +:+ display_error e))
    (provider_new (registry_values r.1) verifier_key) in
  Ok (mkReplay r.1 (sets st ++ [(add64 (index b) 1, snapshot)])).

Definition verify_chain_certificates (verifier_key : PrivateKey) (chain : list Block)
    (bootstrap : option BftConsensusProvider) : result CoreError unit :=
  let? _ := fold_result (replay_block verifier_key bootstrap) chain (mkReplay ∅ []) in
  Ok tt.

(** ** Incoming votes ([handle_vote]) *)

(** The evidence key: height, round and validator key. *)
Definition equivocation_key (e : EquivocationProof) : string :=
  "equivocation:" +:+ pretty (eq_height e) +:+ ":" +:+ pretty (eq_round e) +:+ ":"
  +:+ hex_encode (eq_public_key e).

(** The journal, the evidence in memory and in storage, and the leader's vote
    channel when a phase is being collected. *)
Record VoteState := mkVoteState {
  bft_receipts : VoteReceipts;
  equivocations : list EquivocationProof;
  evidence : gmap string EquivocationProof;
  bft_vote_tx : option (list BftVote) }.

(** [storage.put_state] of the evidence; a failing write is logged and dropped. *)
Definition persist_equivocation_proof (put_ok : bool) (store : gmap string EquivocationProof)
    (e : EquivocationProof) : gmap string EquivocationProof :=
  if put_ok then <[equivocation_key e := e]> store else store.

(** [try_send] on the bounded channel: a full channel drops the arrival. *)
Definition try_send (queue : list BftVote) (v : BftVote) : list BftVote :=
  if (length queue <? VOTE_CHANNEL_CAP)%nat then queue ++ [v] else queue.

Definition handle_vote (put_ok : bool) (derived : option BftConsensusProvider) (s : VoteState)
    (v : BftVote) : VoteState :=
  match derived with
  | None => s
  | Some p =>
      if negb (is_ok (verify_vote p v)) then s else
      let seen := if (1 <? vote_height v)%Z
                  then (retire_below (bft_receipts s) (vote_height v - 1)).1
                  else bft_receipts s in
      let '(seen, proof) := record seen v in
      let detected := match proof with
                      | Some e => if is_ok (equivocation_verify e) then [e] else []
                      | None => []
                      end in
      mkVoteState seen (equivocations s ++ detected)
        (foldl (persist_equivocation_proof put_ok) (evidence s) detected)
        (flip try_send v <$> bft_vote_tx s)
  end.

(** ** Restart ([restore_ledger]) *)

Section restore.
Context {S : Type} `{SP : StorageProvider S}.

(** Blocks [i .. i + n - 1]; a missing or unreadable block stops the load. *)
Fixpoint load_blocks (s : S) (i : Z) (n : nat) : option (list Block) :=
  match n with
  | 0 => Some []
  | Datatypes.S n =>
      match get_block s i with
      | Ok (Some b) => (b ::.) <$> load_blocks s (i + 1) n
      | _ => None
      end
  end.

Definition restorable (verifier_key : PrivateKey) (difficulty : nat) (chain : list Block) : bool :=
  match chain with
  | [] => false
  | g :: _ =>
      is_valid g && (previous_hash g ==? "0")
      && is_ok (each_link (check_link difficulty) chain)
      && is_ok (verify_chain_certificates verifier_key chain None)
  end.

Definition restore_ledger (verifier_key : PrivateKey) (fuel : nat) (clock : nat → Z)
    (difficulty : nat) (s : S) : option Ledger :=
  l ← Ledger_new fuel clock difficulty;
  match latest_block_index s with
  | Ok (Some latest) =>
      match load_blocks s 0 (Z.to_nat (latest + 1)) with
      | Some chain =>
          Some (if restorable verifier_key difficulty chain
                then mkLedger chain (pending_transactions l) (Ledger.difficulty l) (history_len l)
                       (capability_history l) (ids_len l) (committed_ids l)
                else l)
      | None => Some l
      end
  | _ => Some l
  end.
End restore.

(** ** The two derivations agree *)

(** What a registry value denotes. *)
Definition decode_validator (name value : string) : option ValidatorInfo :=
  match parse_value value with
  | Ok d =>
      match descriptor_field d "public_key", descriptor_field d "pop" with
      | Some key, Some pop => Some (mkValidator name key pop)
      | _, _ => None
      end
  | Err _ => None
  end.

(** The replayed registry mirrors the registry keys of the world state. *)
Definition tracks (r : gmap string ValidatorInfo) (world : gmap string string) : Prop :=
  ∀ name, match world !! (registry_prefix +:+ name) with
          | Some value => ∃ v, decode_validator name value = Some v ∧ r !! name = Some v
          | None => r !! name = None
          end.

Lemma live_entry_decode k value :
  live_entry (k, value) =
    strip_prefix registry_prefix k ≫= λ name, info_entry <$> decode_validator name value.
Proof.
  unfold live_entry, decode_validator. cbn [fst snd].
  destruct (strip_prefix registry_prefix k); [|done]. cbn [mbind option_bind].
  destruct (parse_value value) as [d|]; [|done].
  destruct (descriptor_field d "public_key"); [|done]. by destruct (descriptor_field d "pop").
Qed.

Lemma registry_write_tracks r ch w r' ch' world :
  tracks r world → registry_write (r, ch) w = Ok (r', ch') →
  tracks r' (apply_to_cache w world) ∧ (ch' = false → ch = false ∧ r' = r).
Proof.
  intros Ht. unfold registry_write. destruct (strip_prefix _ _) as [n|] eqn:Hs.
  - apply strip_prefix_Some in Hs. unfold apply_to_cache. destruct (pw_op w) as [value|].
    + destruct (parse_value value) as [d|] eqn:Hp; [|done]. cbn [map_err].
      destruct (descriptor_field d "public_key") as [key|] eqn:Hk; [|done]. cbn [ok_or].
      destruct (descriptor_field d "pop") as [pop|] eqn:Ho; [|done]. cbn [ok_or].
      intros [= <- <-]. split; [|done]. intros name. rewrite Hs.
      destruct (decide (name = n)) as [->|Hne].
      * rewrite !lookup_insert_eq. exists (mkValidator n key pop). split; [|done].
        unfold decode_validator. by rewrite Hp, Hk, Ho.
      * rewrite !lookup_insert_ne by (try done; by intros ?%app_str_inj_l). apply Ht.
    + intros [= <- <-]. split; [|done]. intros name. rewrite Hs.
      destruct (decide (name = n)) as [->|Hne].
      * by rewrite !lookup_delete_eq.
      * rewrite !lookup_delete_ne by (try done; by intros ?%app_str_inj_l). apply Ht.
  - intros [= <- <-]. split; [|done]. intros name. specialize (Ht name).
    assert (state_key w ≠ registry_prefix +:+ name) as Hne.
    { intros Heq. by rewrite Heq, strip_prefix_app in Hs. }
    unfold apply_to_cache. destruct (pw_op w).
    + by rewrite lookup_insert_ne.
    + by rewrite lookup_delete_ne.
Qed.

Lemma registry_writes_track ws r ch r' ch' world :
  tracks r world → fold_result registry_write ws (r, ch) = Ok (r', ch') →
  tracks r' (apply_writes ws world) ∧ (ch' = false → ch = false ∧ r' = r).
Proof.
  revert r ch world. induction ws as [|w ws IH]; intros r ch world Ht; cbn [fold_result].
  - by intros [= <- <-].
  - destruct (registry_write (r, ch) w) as [[r1 ch1]|] eqn:Hw; [|done]. intros Hf.
    destruct (registry_write_tracks _ _ _ _ _ _ Ht Hw) as [Ht1 Hc1].
    destruct (IH _ _ _ Ht1 Hf) as [Ht' Hc']. split; [done|]. intros Hf'.
    destruct (Hc' Hf') as [-> ->]. by apply Hc1.
Qed.

Lemma provider_new_Ok vs key p :
  provider_new vs key = Ok p ↔ each_result check_validator vs = Ok tt ∧ p = mkProvider vs key.
Proof.
  unfold provider_new. destruct (each_result check_validator vs) as [[]|]; naive_solver.
Qed.

(** What replaying a chain prefix leaves. *)
Definition replayed (pre : list Block) (st : Replay) : Prop :=
  tracks (registry st) (world_of pre)
  ∧ match last (sets st) with
    | None => registry st = ∅
    | Some (from, p) => (from ≤ Z.of_nat (length pre))%Z
        ∧ validators p = registry_values (registry st)
        ∧ each_result check_validator (validators p) = Ok tt
    end.

Lemma replay_block_step vk bootstrap pre st b st' :
  replayed pre st → index b = Z.of_nat (length pre) → (Z.of_nat (length pre) < U64_MAX)%Z →
  replay_block vk bootstrap st b = Ok st' →
  check_certificate st bootstrap b = Ok tt ∧ replayed (pre ++ [b]) st'.
Proof.
  intros [Ht Hl] Hi Hmax. unfold replay_block.
  destruct (check_certificate st bootstrap b) as [[]|]; [|done].
  destruct (fold_result _ _ _) as [[r ch]|] eqn:Hf; [|done]. cbn [fst snd].
  destruct (registry_writes_track _ _ _ _ _ _ Ht Hf) as [Ht' Hch].
  assert (tracks r (world_of (pre ++ [b]))) as Hw.
  { unfold world_of. by rewrite foldl_app. }
  destruct ch; cbn [negb].
  - destruct (provider_new _ vk) as [p|] eqn:Hp; [|done]. intros [= <-].
    apply provider_new_Ok in Hp as [Hv ->].
    split; [done|]. split; [done|]. simpl. rewrite last_snoc, length_app, Hi. simpl.
    rewrite add64_small by lia. split; [lia | done].
  - intros [= <-]. destruct (Hch eq_refl) as [_ ->]. split; [done|]. split; [done|]. simpl.
    destruct (last (sets st)) as [[from p]|]; [|done]. rewrite length_app. simpl.
    destruct Hl as (? & ? & ?). split; [lia | done].
Qed.

(** ** The live entries of a tracked registry *)

Lemma tracks_elem r world e :
  tracks r world →
  (e ∈ omap live_entry (map_to_list world) ↔ ∃ name v, r !! name = Some v ∧ info_entry v = e).
Proof.
  intros Ht. rewrite list_elem_of_omap. split.
  - intros ([k value] & Hk%elem_of_map_to_list & He). rewrite live_entry_decode in He.
    destruct (strip_prefix registry_prefix k) as [name|] eqn:Hs; [|done].
    apply strip_prefix_Some in Hs as ->. specialize (Ht name). rewrite Hk in Ht.
    destruct Ht as (v & Hv & Hr). cbn [mbind option_bind] in He. rewrite Hv in He.
    injection He as <-. eauto.
  - intros (name & v & Hr & <-). specialize (Ht name).
    destruct (world !! _) as [value|] eqn:Hw; [|congruence].
    destruct Ht as (v' & Hv & Hr'). assert (v' = v) as -> by congruence.
    exists (registry_prefix +:+ name, value). split; [by apply elem_of_map_to_list|].
    rewrite live_entry_decode, strip_prefix_app. cbn [mbind option_bind]. by rewrite Hv.
Qed.

Lemma tracks_name r world name v : tracks r world → r !! name = Some v → v_name v = name.
Proof.
  intros Ht Hr. specialize (Ht name). destruct (world !! _) as [value|]; [|congruence].
  destruct Ht as (v' & Hv & Hr'). assert (v' = v) as -> by congruence.
  unfold decode_validator in Hv. destruct (parse_value value) as [d|]; [|done].
  destruct (descriptor_field d "public_key"); [|done].
  destruct (descriptor_field d "pop"); [|done]. by injection Hv as <-.
Qed.

Lemma live_entry_key kv e : live_entry kv = Some e → kv.1 = registry_prefix +:+ e.1.1.
Proof.
  destruct kv as [k value]. rewrite live_entry_decode.
  destruct (strip_prefix registry_prefix k) as [name|] eqn:Hs; [|done].
  apply strip_prefix_Some in Hs as ->. cbn [mbind option_bind fst].
  unfold decode_validator. destruct (parse_value value) as [d|]; [|done].
  destruct (descriptor_field d "public_key"); [|done].
  destruct (descriptor_field d "pop"); [|done]. by intros [= <-].
Qed.

Lemma live_entries_NoDup l : NoDup l.*1 → NoDup (omap live_entry l).
Proof.
  induction l as [|kv l IH]; simpl; [constructor|]. rewrite NoDup_cons. intros [Hn Hnd].
  destruct (live_entry kv) as [e|] eqn:He; [|by apply IH].
  constructor; [|by apply IH]. intros (kv' & Hin & He')%list_elem_of_omap.
  apply Hn. rewrite (live_entry_key _ _ He), <- (live_entry_key _ _ He').
  by apply list_elem_of_fmap_2.
Qed.

Lemma registry_entries_sorted r world :
  tracks r world →
  StronglySorted (λ a b, triple_leb a b = true) (info_entry <$> registry_values r)
  ∧ NoDup (info_entry <$> registry_values r).
Proof.
  intros Ht. unfold registry_values.
  assert (∀ kv, kv ∈ btree_items r → v_name kv.2 = kv.1) as Hname.
  { intros [k v] Hkv%btree_items_elem. by eapply tracks_name. }
  pose proof (btree_items_sorted r) as Hs. pose proof (btree_items_NoDup r) as Hnd.
  revert Hname Hs Hnd. generalize (btree_items r). intros l Hname Hs.
  induction Hs as [|kv l Hs IH Hall]; simpl; [by repeat constructor|].
  rewrite NoDup_cons. intros [Hn Hnd].
  destruct (IH ltac:(intros; apply Hname; by right) Hnd) as [I1 I2].
  assert (∀ e, e ∈ info_entry <$> l.*2 →
    String.leb (v_name kv.2) e.1.1 = true ∧ v_name kv.2 ≠ e.1.1) as Hle.
  { intros e (v & -> & (kv' & -> & Hin)%list_elem_of_fmap)%list_elem_of_fmap.
    rewrite Forall_forall in Hall. cbn [info_entry fst].
    rewrite (Hname kv ltac:(left)), (Hname kv' ltac:(by right)).
    split; [by apply Hall|]. intros Heq. apply Hn. rewrite Heq. by apply list_elem_of_fmap_2. }
  split; constructor; try done.
  - apply Forall_forall. intros e He. destruct (Hle e He). by apply triple_leb_fst.
  - intros He. by destruct (Hle _ He) as [_ ?].
Qed.

Lemma live_entries_tracks r world :
  tracks r world → live_entries world = info_entry <$> registry_values r.
Proof.
  intros Ht. destruct (registry_entries_sorted r world Ht) as [Hs Hnd].
  eapply (strongly_sorted_unique triple_leb).
  - intros x y _ _. apply triple_leb_antisym.
  - unfold live_entries. rewrite sort_by_perm. apply NoDup_Permutation; [|done|].
    + apply live_entries_NoDup, NoDup_fst_map_to_list.
    + intros e. rewrite (tracks_elem r world e Ht). unfold registry_values.
      rewrite list_elem_of_fmap. setoid_rewrite list_elem_of_fmap. split.
      * intros (name & v & Hr & <-). exists v. split; [done|]. exists (name, v).
        split; [done|]. by apply btree_items_elem.
      * intros (v & -> & [name v'] & -> & Hin%btree_items_elem). eauto.
  - apply sort_by_sorted; [apply triple_leb_total | apply triple_leb_trans].
  - done.
Qed.

(** ** Certificates only depend on the validators *)

Lemma verify_certificate_validators p p' c b :
  validators p = validators p' → verify_certificate p c b = verify_certificate p' c b.
Proof.
  intros Hv. unfold verify_certificate, quorum, validator_count, signer_keys. by rewrite Hv.
Qed.

(** An empty set certifies nothing. *)
Lemma verify_certificate_empty p c b :
  validators p = [] → verify_certificate p c b ≠ Ok tt.
Proof.
  intros Hv (_ & _ & Hs & Hq & _)%verify_certificate_inv.
  unfold validator_count in *. rewrite Hv in *. simpl in Hs.
  assert (signers c = ∅) as Hz by set_solver. rewrite Hz in Hq. by vm_compute in Hq.
Qed.

Lemma set_at_last sets bootstrap height :
  (∀ from p, last sets = Some (from, p) → (from ≤ height)%Z) →
  set_at sets bootstrap height = match last sets with Some (_, p) => Some p | None => bootstrap end.
Proof.
  intros Hl. unfold set_at. destruct sets as [|x l _] using rev_ind; [done|].
  rewrite last_snoc in Hl. rewrite last_snoc, reverse_snoc. destruct x as [from p]. simpl.
  specialize (Hl from p eq_refl). by destruct (Z.leb_spec from height); [|lia].
Qed.

(** The cache holds what an earlier derivation computed, and its key does not
    collide with the current entries. *)
Definition cache_coherent (content_hash : list entry → Z) (cache : option (Z * BftConsensusProvider))
    (att : BftConsensusProvider) (world : gmap string string) : Prop :=
  ∀ h p, cache = Some (h, p) →
    ∃ es, es ≠ [] ∧ h = content_hash es
      ∧ provider_new (entry_info <$> es) (signing_key att) = Ok p
      ∧ (content_hash es = content_hash (live_entries world) → es = live_entries world).

Lemma derive_coherent content_hash cache att world :
  cache_coherent content_hash cache att world →
  (derive_validator_provider content_hash cache (Some att) world).2 =
    match live_entries world with
    | [] => Some att
    | es => match provider_new (entry_info <$> es) (signing_key att) with
            | Ok p => Some p
            | Err _ => None
            end
    end.
Proof.
  intros Hc. unfold derive_validator_provider.
  destruct cache as [[h p]|]; cbn [snd].
  - destruct (Hc h p eq_refl) as (es & Hne & -> & Hp & Hinj).
    destruct (Z.eqb_spec (content_hash es) (content_hash (live_entries world))) as [Heq|_].
    + cbv iota. cbn [snd]. rewrite <- (Hinj Heq). destruct es as [|e es]; [done|].
      by rewrite Hp.
    + cbv iota. destruct (live_entries world) as [|e l]; [done|].
      by destruct (provider_new (entry_info <$> e :: l) (signing_key att)).
  - cbv iota. destruct (live_entries world) as [|e l]; [done|].
    by destruct (provider_new (entry_info <$> e :: l) (signing_key att)).
Qed.

Lemma entry_info_entry (vs : list ValidatorInfo) : entry_info <$> (info_entry <$> vs) = vs.
Proof. induction vs as [|[n k p] vs IH]; [done|]. cbn [fmap list_fmap]. by f_equal. Qed.

Lemma replayed_live pre st content_hash cache att c b :
  replayed pre st → index b = Z.of_nat (length pre) →
  cache_coherent content_hash cache att (world_of pre) →
  certificate b = Some c → is_degenerate c = false →
  check_certificate st (Some att) b = Ok tt →
  ∃ p, (derive_validator_provider content_hash cache (Some att) (world_of pre)).2 = Some p
    ∧ verify_certificate p c b = Ok tt.
Proof.
  intros [Ht Hl] Hi Hc Hcert Hdeg. unfold check_certificate. rewrite Hcert, Hdeg.
  rewrite set_at_last by (intros from p Hlast; rewrite Hlast in Hl; lia).
  rewrite (derive_coherent _ _ _ _ Hc), (live_entries_tracks _ _ Ht).
  destruct (last (sets st)) as [[from p]|].
  - destruct Hl as (_ & Hv & Hok). intros Hver.
    destruct (registry_values (registry st)) as [|v vs] eqn:Hvs.
    { by apply verify_certificate_empty in Hver. }
    exists (mkProvider (v :: vs) (signing_key att)). split.
    + cbn [fmap list_fmap]. change (entry_info (info_entry v) :: (entry_info <$> (info_entry <$> vs)))
        with (entry_info <$> (info_entry <$> (v :: vs))). rewrite entry_info_entry.
      rewrite <- Hv. destruct (provider_new _ _) as [q|] eqn:Hq.
      * apply provider_new_Ok in Hq as [_ ->]. by rewrite Hv.
      * unfold provider_new in Hq. by rewrite Hok in Hq.
    + by rewrite (verify_certificate_validators _ p) by done.
  - rewrite Hl. simpl. eauto.
Qed.

Lemma replayed_prefix vk bootstrap pre st :
  (∀ i x, pre !! i = Some x → index x = Z.of_nat i) → (Z.of_nat (length pre) ≤ U64_MAX)%Z →
  fold_result (replay_block vk bootstrap) pre (mkReplay ∅ []) = Ok st → replayed pre st.
Proof.
  revert st. induction pre as [|x pre IH] using rev_ind; intros st Hidx Hmax.
  - intros [= <-]. split; [|done]. intros name. unfold world_of. simpl. by rewrite !lookup_empty.
  - rewrite fold_result_snoc. destruct (fold_result _ pre _) as [st0|] eqn:Hf; [|done]. intros Hx.
    rewrite length_app in Hmax. simpl in Hmax.
    eapply replay_block_step; [apply IH; [|lia|done] | | lia | exact Hx].
    + intros i y Hy. apply Hidx. by apply lookup_app_l_Some.
    + apply Hidx. by apply list_lookup_middle.
Qed.

(** C4: history is verified against the sets that were live: when a chain passes
    historical certificate verification, the certificate of each of its blocks
    verifies against the set that the live derivation computes from the world
    state as of the previous block (with or without a coherent cache), under any
    local signing key. *)
Theorem historical_sets_match_live vk chain pre b post c content_hash cache att :
  verify_chain_certificates vk chain (Some att) = Ok tt →
  chain = pre ++ b :: post → (∀ i x, chain !! i = Some x → index x = Z.of_nat i) →
  (Z.of_nat (length chain) ≤ U64_MAX)%Z →
  cache_coherent content_hash cache att (world_of pre) →
  certificate b = Some c → is_degenerate c = false →
  ∃ p, (derive_validator_provider content_hash cache (Some att) (world_of pre)).2 = Some p
    ∧ verify_certificate p c b = Ok tt.
Proof.
  intros Hv -> Hidx Hmax Hc Hcert Hdeg. unfold verify_chain_certificates in Hv.
  rewrite fold_result_app in Hv.
  destruct (fold_result _ pre _) as [st|] eqn:Hpre; [|done]. cbn [fold_result] in Hv.
  destruct (replay_block vk (Some att) st b) as [st'|] eqn:Hb; [|done].
  rewrite length_app in Hmax. simpl in Hmax.
  assert (index b = Z.of_nat (length pre)) as Hi by (by apply Hidx, list_lookup_middle).
  assert (replayed pre st) as Hr.
  { eapply replayed_prefix; [|lia|exact Hpre]. intros i x Hx. apply Hidx. by apply lookup_app_l_Some. }
  eapply replayed_live; try done.
  eapply replay_block_step; try done. lia.
Qed.

(** ** Votes *)

Definition votes_ok (s : VoteState) : Prop :=
  receipts_wf (bft_receipts s)
  ∧ Forall (λ e, equivocation_verify e = Ok tt) (equivocations s)
  ∧ ∀ q, bft_vote_tx s = Some q → length q ≤ VOTE_CHANNEL_CAP.

Lemma try_send_bounded q v : length q ≤ VOTE_CHANNEL_CAP → length (try_send q v) ≤ VOTE_CHANNEL_CAP.
Proof.
  unfold try_send. destruct (Nat.ltb_spec (length q) VOTE_CHANNEL_CAP); [|done].
  rewrite length_app. simpl. lia.
Qed.

(** The receipts a vote is compared with: heights below its predecessor's are gone. *)
Definition live_receipts (s : VoteState) (v : BftVote) : VoteReceipts :=
  if (1 <? vote_height v)%Z then (retire_below (bft_receipts s) (vote_height v - 1)).1
  else bft_receipts s.

Lemma live_receipts_spec s v :
  receipts_wf (bft_receipts s) →
  receipts_wf (live_receipts s v)
  ∧ ∀ f, bft_receipts s !! receipt_key v = Some f ↔ live_receipts s v !! receipt_key v = Some f.
Proof.
  intros Hw. unfold live_receipts, retire_below. destruct (1 <? vote_height v)%Z; [|done].
  cbn [fst]. split; [by apply retain_from_wf|]. intros f. unfold retain_from.
  rewrite map_lookup_filter_Some. unfold should_retain, receipt_key. simpl. rewrite Z.leb_le.
  split; [intros ?; split; [done | lia] | by intros [? _]].
Qed.

(** The vote handler keeps its journal and channel bounded and its evidence
    real and complete: a vote that does not verify changes nothing; the receipts
    stay within their cap and every recorded equivocation verifies; no evidence is
    lost; and a verified vote that conflicts with a receipt of the same key,
    height, round, phase and chain is recorded with that receipt, even though the
    handler retires old heights first. *)
Theorem handle_vote_sound put_ok p s v :
  votes_ok s →
  let s' := handle_vote put_ok (Some p) s v in
  votes_ok s' ∧ equivocations s `prefix_of` equivocations s'
  ∧ (is_ok (verify_vote p v) = false → s' = s)
  ∧ ∀ f, is_ok (verify_vote p v) = true → bft_receipts s !! receipt_key v = Some f →
      vote_block_hash f ≠ vote_block_hash v → vote_chain_id f = vote_chain_id v →
      ∃ e, e ∈ equivocations s' ∧ first_vote e = f ∧ second_vote e = v.
Proof.
  intros Hok s'. unfold s', handle_vote. clear s'.
  destruct (verify_vote p v) as [i|] eqn:Hv; cbn [is_ok negb]; [|done].
  apply verify_vote_index in Hv as [Hv _]. destruct Hok as (Hw & He & Hq).
  fold (live_receipts s v). destruct (live_receipts_spec s v Hw) as [Hw' Hl].
  pose proof (record_spec (live_receipts s v) v Hw' Hv) as Hr.
  destruct (record (live_receipts s v) v) as [seen o]. destruct Hr as (Hws & Hsome & Hpf).
  split; [split; [done | split]|split; [|split; [done|]]]; cbn [equivocations bft_vote_tx].
  - apply Forall_app. split; [done|]. destruct o as [e|]; [|constructor].
    destruct (equivocation_verify e) as [[]|] eqn:Heq; [by repeat constructor | constructor].
  - intros q (q0 & Hq0 & ->)%fmap_Some. apply try_send_bounded. by apply Hq.
  - by apply prefix_app_r.
  - intros f _ Hf Hh Hc. apply Hl in Hf. destruct Hsome as [_ Hs].
    destruct (Hs ltac:(eauto)) as [e ->]. destruct (Hpf e eq_refl) as (Hfst & Hsnd & Hver).
    assert (first_vote e = f) as <- by congruence.
    rewrite (Hver Hc). exists e. split; [|done]. apply elem_of_app. right. left.
Qed.

(** ** Restart *)

Lemma load_blocks_represents s c i n :
  represents s c → (0 ≤ i)%Z → Z.to_nat i + n = length c →
  load_blocks (S := InMemory.Store) s i n = Some (drop (Z.to_nat i) c).
Proof.
  intros (Hb & _ & _). revert i. induction n as [|n IH]; intros i Hi Hlen; simpl.
  - by rewrite drop_ge by lia.
  - rewrite Hb. destruct (Z.leb_spec 0 i); [|lia].
    destruct (lookup_lt_is_Some_2 c (Z.to_nat i)) as [b Hbi]; [lia|]. rewrite Hbi.
    rewrite IH by lia. simpl. f_equal. rewrite (drop_S c b (Z.to_nat i) Hbi).
    replace (Z.to_nat (i + 1)) with (S (Z.to_nat i)) by lia. done.
Qed.

Lemma represents_max_key s c :
  represents s c → c ≠ [] → max_key (InMemory.blocks s) = Some (Z.of_nat (length c) - 1)%Z.
Proof.
  intros (Hb & _ & _) Hne. destruct c as [|g c]; [done|]. apply max_key_intro.
  - rewrite Hb. destruct (Z.leb_spec 0 (Z.of_nat (length (g :: c)) - 1)); [|simpl in *; lia].
    apply lookup_lt_is_Some_2. simpl. lia.
  - intros j. rewrite Hb. destruct (Z.leb_spec 0 j); [|by intros [? ?]].
    intros Hj%lookup_lt_is_Some_1. lia.
Qed.

(** A load returns what the store answers, height by height. *)
Lemma load_blocks_lookup {S : Type} {SP : StorageProvider S} (s : S) n : ∀ i c,
  load_blocks s i n = Some c →
  length c = n ∧ ∀ k b, c !! k = Some b → get_block s (i + Z.of_nat k) = Ok (Some b).
Proof.
  induction n as [|n IH]; intros i c; simpl; [by intros [= <-]|].
  destruct (get_block s i) as [[b0|]|] eqn:Hb; try done.
  destruct (load_blocks s (i + 1) n) as [c'|] eqn:Hl; [|done]. intros [= <-].
  destruct (IH _ _ Hl) as [Hlen Hget]. split; [simpl; by rewrite Hlen|].
  intros [|k] b Hk; simpl in Hk.
  - injection Hk as <-. by rewrite Z.add_0_r.
  - rewrite <- (Hget k b Hk). f_equal. lia.
Qed.

(** What a chain that restart adopts satisfies. *)
Record adopted_chain (vk : PrivateKey) (d : nat) (c : list Block) : Prop := {
  ac_genesis : ∃ g, head c = Some g ∧ is_valid g = true ∧ previous_hash g = "0";
  ac_blocks : ∀ i p b, c !! i = Some p → c !! S i = Some b →
    chains_to b p = Ok tt ∧ block_consensus_admissible b d = true;
  ac_certificates : verify_chain_certificates vk c None = Ok tt }.

Lemma restorable_spec vk d c : restorable vk d c = true ↔ adopted_chain vk d c.
Proof.
  unfold restorable. destruct c as [|g c]; [by split; [|intros [(? & ? & _) _ _]]|].
  rewrite !andb_true_iff, str_eqb_eq. split.
  - intros [[[Hg Hp] Hl] Hc]. split.
    + by exists g.
    + intros i p b. apply each_link_lookup. by destruct (each_link _ _) as [[]|].
    + by destruct (verify_chain_certificates _ _ _) as [[]|].
  - intros [(g' & [= <-] & Hg & Hp) Hl Hc]. rewrite Hc. split_and!; try done.
    assert (each_link (check_link d) (g :: c) = Ok tt) as ->; [|done]. clear Hg Hp Hc.
    revert g Hl. induction c as [|b c IH]; intros g Hl; [done|]. cbn [each_link].
    rewrite (proj2 (check_link_Ok d b g) (Hl 0 g b eq_refl eq_refl)).
    apply IH. intros i. apply (Hl (S i)).
Qed.

Lemma Ledger_new_shape fuel clock d l :
  Ledger_new fuel clock d = Some l → ∃ g, l = mkLedger [g] [] d 0 None 0 None.
Proof. unfold Ledger_new. destruct (mine _ _ _ _) as [g|]; [|done]. intros [= <-]. by exists g. Qed.

Lemma unindexed_ok c p d : indexes_ok (mkLedger c p d 0 None 0 None).
Proof. split; [|done]. split; simpl; [lia | done]. Qed.

(** C38: restart is faithful and never adopts a bad chain.  A node that restarts on a
    store that holds a chain satisfying what is listed below resumes with exactly that
    chain.  Whatever any store
    returns, restart yields a ledger with an empty pool and consistent indexes whose
    chain is the fresh genesis, or one that the store answered block for block up to its
    latest index, whose genesis hashes to itself and has no predecessor, whose every later
    block chains to the one before and is admissible (proof of work, or a certificate that
    is not degenerate and fits the block), and whose certificates verify historically. *)
Theorem restart_restores vk fuel clock d fresh :
  Ledger_new fuel clock d = Some fresh →
  (∀ s c, represents s c → adopted_chain vk d c →
     ∃ l, restore_ledger (S := InMemory.Store) vk fuel clock d s = Some l
       ∧ chain l = c ∧ pending_transactions l = [] ∧ indexes_ok l)
  ∧ (∀ (S : Type) (SP : StorageProvider S) (s : S),
     ∃ l, restore_ledger vk fuel clock d s = Some l
       ∧ pending_transactions l = [] ∧ indexes_ok l
       ∧ (l = fresh
          ∨ (∃ latest, latest_block_index s = Ok (Some latest)
               ∧ length (chain l) = Z.to_nat (latest + 1)
               ∧ ∀ i b, chain l !! i = Some b → get_block s (Z.of_nat i) = Ok (Some b))
            ∧ adopted_chain vk d (chain l))).
Proof.
  intros Hnew. destruct (Ledger_new_shape _ _ _ _ Hnew) as [g ->]. split.
  - intros s c Hrep Hok. assert (c ≠ []) as Hne by (destruct (ac_genesis _ _ _ Hok) as (? & ? & _); by destruct c).
    unfold restore_ledger. rewrite Hnew. cbn [mbind option_bind latest_block_index InMemory.provider].
    rewrite (represents_max_key s c Hrep Hne).
    rewrite (load_blocks_represents s c); [|done|lia|lia].
    change (Z.to_nat 0) with 0. rewrite drop_0. apply restorable_spec in Hok as ->.
    eexists. split; [done|]. split; [done|]. split; [done|apply unindexed_ok].
  - intros S SP s. unfold restore_ledger. rewrite Hnew. cbn [mbind option_bind].
    destruct (latest_block_index s) as [[latest|]|]; [|by eauto 10 using unindexed_ok..].
    destruct (load_blocks s 0 _) as [c|] eqn:Hl; [|by eauto 10 using unindexed_ok]. eexists. split; [done|].
    destruct (restorable vk d c) eqn:Hr; [|by eauto using unindexed_ok].
    split; [done|]. split; [apply unindexed_ok|].
    right. apply load_blocks_lookup in Hl as [Hlen Hget]. split; [eauto|by apply restorable_spec].
Qed.
End validators.
