(* ===== verification/Node.v ===== *)
(** The node's commit paths (glasschain-network: node.rs).

    Mining ([mine_async] up to the commit), peer blocks (admission, append and
    the state updates of [after_block_commit]) and chain adoption, over the
    ledger, the capability cache, the policies, the world state and the optional
    endorsement, consensus and execution providers.  Broadcasts, indexers and
    watchers, which these steps only feed, are left out. *)

From S2P Require Import Prelude Types WriteSet Chain Capability Policy Ledger Storage Bft Rounds Validators.

Definition FUTURE_TIMESTAMP_WINDOW_SECS : Z := 7200.

Definition timestamp_within_future_window (block_index block_timestamp now_secs : Z) : bool :=
  (block_index =? 0)%Z || (block_timestamp <=? add64 now_secs FUTURE_TIMESTAMP_WINDOW_SECS)%Z.

Section node.
Context `{E : Env} `{B : Bls}.
Context (parse_value : string → result string Value) (base64_decode : string → option string).
Context (content_hash : list (string * string * string) → Z).

(** [ExecutionProvider::execute_with_state] under the commit limits: execution
    id, module and state snapshot to result. *)
Notation Executor := (string → string → gmap string string → result CoreError ExecutionResult).

Record Node := mkNode {
  nd_ledger : Ledger;
  nd_history : option CapabilityHistory;
  nd_policies : PolicyHistory;
  nd_endorsement : option EndorsementProvider;
  nd_consensus : option BftConsensusProvider;
  nd_validator_cache : option (Z * BftConsensusProvider);
  nd_round : option BftRound;
  nd_world : gmap string string;
  nd_executor : option Executor;
  nd_contracts : gmap string SmartContractDef }.

Definition set_ledger (n : Node) (l : Ledger) : Node :=
  mkNode l (nd_history n) (nd_policies n) (nd_endorsement n) (nd_consensus n)
    (nd_validator_cache n) (nd_round n) (nd_world n) (nd_executor n) (nd_contracts n).
Definition set_cache (n : Node) (h : option CapabilityHistory) : Node :=
  mkNode (nd_ledger n) h (nd_policies n) (nd_endorsement n) (nd_consensus n)
    (nd_validator_cache n) (nd_round n) (nd_world n) (nd_executor n) (nd_contracts n).
Definition set_policies (n : Node) (p : PolicyHistory) : Node :=
  mkNode (nd_ledger n) (nd_history n) p (nd_endorsement n) (nd_consensus n)
    (nd_validator_cache n) (nd_round n) (nd_world n) (nd_executor n) (nd_contracts n).
Definition set_validator_cache (n : Node) (c : option (Z * BftConsensusProvider)) : Node :=
  mkNode (nd_ledger n) (nd_history n) (nd_policies n) (nd_endorsement n) (nd_consensus n)
    c (nd_round n) (nd_world n) (nd_executor n) (nd_contracts n).
Definition set_node_round (n : Node) (r : option BftRound) : Node :=
  mkNode (nd_ledger n) (nd_history n) (nd_policies n) (nd_endorsement n) (nd_consensus n)
    (nd_validator_cache n) r (nd_world n) (nd_executor n) (nd_contracts n).
Definition set_world (n : Node) (w : gmap string string) : Node :=
  mkNode (nd_ledger n) (nd_history n) (nd_policies n) (nd_endorsement n) (nd_consensus n)
    (nd_validator_cache n) (nd_round n) w (nd_executor n) (nd_contracts n).

(** [capability_effective_set]: fill the cache once, then read it. *)
Definition capability_effective_set (n : Node) (height : Z) : Node * result CoreError CapabilitySet :=
  match nd_history n with
  | Some h => (n, Ok (effective_set h height))
  | None =>
      match capability_build_from_blocks (chain (nd_ledger n)) with
      | Ok h => (set_cache n (Some h), Ok (effective_set h height))
      | Err e => (n, Err e)
      end
  end.

(** ** Mining *)

(** The canonical contribution of one transaction. *)
Definition contribution (n : Node) (execute : Executor) (tx : Transaction)
  : result CoreError (list PersistentWrite) :=
  match tx_kind tx with
  | KContractExecution x =>
      match nd_contracts n !! ce_contract_id x with
      | None => Ok []
      | Some c =>
          match wasm_code_b64 c ≫= base64_decode with
          | None => Ok []
          | Some wasm =>
              match execute ("commit:" +:+ ce_contract_id x +:+ ":" +:+ tx_id tx) wasm (nd_world n) with
              | Ok r =>
                  let? c := canonicalize (mkExecutionResult [] (writes r)) in
                  Ok (writes c)
              | Err _ => Ok []
              end
          end
      end
  | _ => Ok []
  end.

Fixpoint contributions (n : Node) (execute : Executor) (txs : list Transaction)
  : result CoreError (list (list PersistentWrite)) :=
  match txs with
  | [] => Ok []
  | tx :: txs =>
      let? c := contribution n execute tx in
      let? cs := contributions n execute txs in
      Ok (c :: cs)
  end.

(** The block-form aggregate and the per-transaction contributions. *)
Definition compute_write_set (n : Node) (txs : list Transaction)
  : result CoreError (list PersistentWrite * list (list PersistentWrite)) :=
  match nd_executor n with
  | None => Ok ([], replicate (length txs) [])
  | Some execute =>
      let? per_transaction := contributions n execute txs in
      let? canonical := canonicalize (mkExecutionResult [] (mjoin per_transaction)) in
      Ok (block_form <$> writes canonical, per_transaction)
  end.

(** Every committed write sits inside some declared carrier of the block. *)
Definition check_coverage (b : Block) : result CoreError unit :=
  each_result (λ w,
    guard? existsb (λ tx, existsb (λ te, covers te w) (tx_endorsements tx)) (transactions b) else
      InvalidTransaction ("endorsement: committed write '" +:+ pw_key w +:+ "' on ("
        +:+ pw_channel w +:+ ", " +:+ pw_contract w
        +:+ ") falls outside every declared endorsement scope") in
    Ok tt) (write_set b).

(** The evaluation of every transaction with its contribution. *)
Fixpoint evaluate_block (P : EndorsementProvider) (h : PolicyHistory) (height : Z)
    (txs : list Transaction) (per_tx : list (list PersistentWrite)) : result CoreError unit :=
  match txs with
  | [] => Ok tt
  | tx :: txs =>
      let? _ := evaluate_transaction_endorsements (P := P) h tx (default [] (head per_tx)) height in
      evaluate_block P h height txs (tail per_tx)
  end.

Definition enforce_block_endorsements (n : Node) (b : Block) (per_tx : list (list PersistentWrite))
  : Node * result CoreError unit :=
  match nd_endorsement n with
  | None => (n, Ok tt)
  | Some P =>
      match capability_effective_set n (index b) with
      | (n, Err e) => (n, Err e)
      | (n, Ok set) =>
          if negb (is_active set ENDORSEMENT_CAPABILITY_ID) then (n, Ok tt) else
          (n, let? _ := policy_validate_block (nd_policies n) b in
              let? _ := evaluate_block P (nd_policies n) (index b) (transactions b) per_tx in
              if match per_tx with [] => true | _ => false end then check_coverage b else Ok tt)
      end
  end.

Definition restore_pending (n : Node) (txs : list Transaction) : Node :=
  set_ledger n (foldl restore_transaction (nd_ledger n) txs).

Definition has_pdc (ws : list PersistentWrite) : bool :=
  existsb (λ w, match pw_visibility w with Pdc _ => true | Public => false end) ws.

(** [ledger.chain[0].hash] *)
Definition chain_id (n : Node) : string :=
  match chain (nd_ledger n) with g :: _ => hash g | [] => "" end.

(** Attestation: a vote round when BFT is active and configured, else mining. *)
Definition attest_candidate (fuel : nat) (clock : nat → Z) (derived : Z → option BftConsensusProvider)
    (arrivals : Z → RoundArrivals) (difficulty : nat) (n : Node) (b : Block)
  : option (Node * result CoreError CommitNotification) :=
  let '(n, set) := capability_effective_set n (index b) in
  let bft_active := match set with
                    | Ok s => is_active s BFT_CONSENSUS_CAPABILITY_ID
                    | Err _ => false
                    end in
  if bft_active && is_some (nd_consensus n) then
    '(st, r) ← run_vote_round (nd_round n) derived (chain_id n) arrivals b;
    Some (set_node_round n st, r)
  else
    b ← mine fuel clock difficulty b;
    Some (n, Ok (for_pow_block b)).

(** [mine_async] up to the commit; [None] when the mining fuel runs out. *)
Definition mine_async (fuel : nat) (clock : nat → Z) (now : Z)
    (derived : Z → option BftConsensusProvider) (arrivals : Z → RoundArrivals) (n : Node)
  : option (Node * result CoreError bool) :=
  match prepare_mining (nd_ledger n) with
  | (l, Err e) => Some (set_ledger n l, Err e)
  | (l, Ok (idx, prev_hash, txs, difficulty)) =>
      let n := set_ledger n l in
      match compute_write_set n txs with
      | Err e => Some (n, Err e)
      | Ok (ws, per_tx) =>
          let '(n, pdc_active) :=
            if has_pdc ws then
              let '(n, set) := capability_effective_set n idx in
              (n, match set with Ok s => is_active s PDC_CAPABILITY_ID | Err _ => false end)
            else (n, true) in
          if negb pdc_active
          then Some (restore_pending n txs, Err (InvalidTransaction
            "PDC-scoped writes require the 'pdc' capability to be active at the candidate height"))
          else
          let b := with_write_set now idx txs prev_hash ws in
          match enforce_block_endorsements n b per_tx with
          | (n, Err e) => Some (restore_pending n txs, Err e)
          | (n, Ok _) =>
              match attest_candidate fuel clock derived arrivals difficulty n b with
              | None => None
              | Some (n, Err e) => Some (n, Err e)
              | Some (n, Ok note) =>
                  let '(l, r) := commit_mined_block (nd_ledger n) (cn_block note) prev_hash in
                  Some (set_ledger n l, r)
              end
          end
      end
  end.

(** ** Peer blocks *)

Inductive PeerVerdict := Reject | CatchUp | Admit.

(** The rule for the block's attestation: a real certificate verifies against the
    derived set when BFT is active, otherwise proof of work. *)
Definition consensus_valid (bft_active : bool) (n : Node) (b : Block) : Node * bool :=
  let pow := has_valid_pow b (difficulty (nd_ledger n)) in
  match certificate b with
  | Some c =>
      if bft_active && negb (is_degenerate c) then
        let '(cache, p) := derive_validator_provider parse_value base64_decode content_hash
                             (nd_validator_cache n) (nd_consensus n) (nd_world n) in
        (set_validator_cache n cache,
         match p with Some p => is_ok (verify_certificate p c b) | None => false end)
      else (n, pow)
  | None => (n, pow)
  end.

(** [Message::Block] up to the admission decision, for a peer that may propose. *)
Definition admit_peer_block (now : Z) (n : Node) (b : Block) : Node * PeerVerdict :=
  if negb (timestamp_within_future_window (index b) (timestamp b) now) then (n, Reject) else
  let expected := Z.of_nat (length (chain (nd_ledger n))) in
  let bft_active := match nd_history n with
                    | Some h => is_active (effective_set h expected) BFT_CONSENSUS_CAPABILITY_ID
                    | None => false
                    end in
  let n := match nd_history n with
           | Some _ => n
           | None =>
               match capability_build_from_blocks (chain (nd_ledger n)) with
               | Ok h => set_cache n (Some h)
               | Err _ => n
               end
           end in
  if negb (index b =? expected)%Z
  then (n, if (expected <? index b)%Z then CatchUp else Reject) else
  match last (chain (nd_ledger n)) with
  | None => (n, Reject)
  | Some prev =>
      if negb (is_ok (chains_to b prev)) then (n, Reject) else
      let capability_valid := is_ok (capability_validate_block (default [] (nd_history n)) b).2 in
      let '(n, valid) := consensus_valid bft_active n b in
      (n, if capability_valid && valid then Admit else Reject)
  end.

Definition append_peer_block (l : Ledger) (b : Block) : Ledger * bool :=
  let still_valid := match last (chain l) with
                     | None => (index b =? 0)%Z && (previous_hash b ==? "0")
                     | Some tip => is_ok (chains_to b tip)
                     end in
  if negb still_valid then (l, false) else
  (push_block (set_pending l (List.filter (λ t, negb (bool_decide (tx_id t ∈ block_ids b)))
     (pending_transactions l))) b, true).

(** The cache, world-state and policy updates of [after_block_commit]; [applied]
    says whether the storage accepted the block. *)
Definition activations (b : Block) : list CapabilityActivation :=
  omap (λ tx, match tx_kind tx with KCapabilityActivation a => Some a | _ => None end)
    (transactions b).

Definition after_block_commit (applied : bool) (n : Node) (b : Block) : Node :=
  let cache := match nd_history n with
               | Some h => Some h
               | None => match capability_build_from_blocks (chain (nd_ledger n)) with
                         | Ok h => Some h
                         | Err _ => None
                         end
               end in
  let cache := match cache with
               | Some h =>
                   match fold_result (λ h a, apply_activation h a (index b)) (activations b) h with
                   | Ok h => Some h
                   | Err _ => None
                   end
               | None => None
               end in
  let n := set_cache n cache in
  let n := if applied then set_world n (apply_writes (write_set b) (nd_world n)) else n in
  if existsb is_policy_update (transactions b) then
    match policy_build_from_blocks (chain (nd_ledger n)) with
    | Ok p => set_policies n p
    | Err _ => n
    end
  else n.

(** The append and the updates that follow it. *)
Definition commit_peer_block (applied : bool) (n : Node) (b : Block) : Node :=
  let '(l, _) := append_peer_block (nd_ledger n) b in
  after_block_commit applied (set_ledger n l) b.

(** The whole handler, with nothing in between. *)
Definition peer_block (now : Z) (applied : bool) (n : Node) (b : Block) : Node * bool :=
  match admit_peer_block now n b with
  | (n, Admit) =>
      match enforce_block_endorsements n b [] with
      | (n, Ok _) => (commit_peer_block applied n b, true)
      | (n, Err _) => (n, false)
      end
  | (n, _) => (n, false)
  end.

(** ** Chain adoption *)

(** One block of [enforce_chain_endorsements]: the histories so far. *)
Definition enforce_chain_block (P : EndorsementProvider) (st : CapabilityHistory * PolicyHistory)
    (b : Block) : result CoreError (CapabilityHistory * PolicyHistory) :=
  let? capabilities := capability_fold_block st.1 b in
  let? _ :=
    if is_active (effective_set capabilities (index b)) ENDORSEMENT_CAPABILITY_ID then
      let? _ := each_result (λ tx,
        evaluate_transaction_endorsements (P := P) st.2 tx [] (index b)) (transactions b) in
      check_coverage b
    else Ok tt in
  let? policies := policy_validate_block st.2 b in
  Ok (capabilities, policies).

Definition enforce_chain_endorsements (n : Node) (candidate : list Block) : result CoreError unit :=
  match nd_endorsement n with
  | None => Ok tt
  | Some P => let? _ := fold_result (enforce_chain_block P) candidate ([], []) in Ok tt
  end.

(** [Message::Chain] with a full chain: the gates, then the replacement and the
    rebuild of the projections ([rebuilt_world] is what storage yields). *)
Definition adopt_chain (verifier_key : PrivateKey) (rebuilt_world : result CoreError (gmap string string))
    (n : Node) (blocks : list Block) : Node * bool :=
  if negb (is_ok (enforce_chain_endorsements n blocks)) then (n, false) else
  if negb (is_ok (verify_chain_certificates parse_value base64_decode verifier_key blocks
                    (nd_consensus n))) then (n, false) else
  match try_replace_chain (nd_ledger n) blocks with
  | (l, false) => (set_ledger n l, false)
  | (l, true) =>
      let n := set_ledger n l in
      let n := match rebuilt_world with Ok w => set_world n w | Err _ => n end in
      let n := match policy_build_from_blocks (chain l) with Ok p => set_policies n p | Err _ => n end in
      let n := match capability_build_from_blocks (chain l) with
               | Ok h => set_cache n (Some h)
               | Err _ => n
               end in
      (n, true)
  end.

(** ** The write set of a candidate *)




Lemma evaluate_block_inv P h height txs per_tx :
  evaluate_block P h height txs per_tx = Ok tt →
  ∀ i tx, txs !! i = Some tx →
    evaluate_transaction_endorsements (P := P) h tx (default [] (per_tx !! i)) height = Ok tt.
Proof.
  revert per_tx. induction txs as [|tx txs IH]; intros per_tx; simpl; [done|].
  destruct (evaluate_transaction_endorsements _ _ _ _) as [[]|] eqn:He; [|done].
  intros Hrest [|i] tx' Htx; simpl in Htx.
  - injection Htx as <-. by destruct per_tx.
  - specialize (IH _ Hrest i tx' Htx). by destruct per_tx; [destruct i|].
Qed.

(** What enforcement establishes when the capability is active. *)
Lemma enforce_block_inv n b per_tx n' P h :
  enforce_block_endorsements n b per_tx = (n', Ok tt) →
  nd_endorsement n = Some P → nd_history n = Some h →
  is_active (effective_set h (index b)) ENDORSEMENT_CAPABILITY_ID = true →
  (∃ ps, policy_validate_block (nd_policies n) b = Ok ps)
  ∧ (∀ i tx, transactions b !! i = Some tx →
      evaluate_transaction_endorsements (P := P) (nd_policies n) tx (default [] (per_tx !! i))
        (index b) = Ok tt)
  ∧ (per_tx = [] → check_coverage b = Ok tt).
Proof.
  unfold enforce_block_endorsements. intros He HP Hh Ha. rewrite HP in He.
  unfold capability_effective_set in He. rewrite Hh, Ha in He. cbn [negb] in He.
  injection He as _ He. destruct (policy_validate_block _ b) as [ps|]; [|done].
  destruct (evaluate_block P _ _ _ _) as [[]|] eqn:Hb; [|done].
  split; [eauto|]. split; [by apply evaluate_block_inv|]. intros ->. done.
Qed.

Lemma enforce_block_ledger n b per_tx n' r :
  enforce_block_endorsements n b per_tx = (n', r) →
  nd_ledger n' = nd_ledger n ∧ nd_consensus n' = nd_consensus n.
Proof.
  unfold enforce_block_endorsements, capability_effective_set.
  destruct (nd_endorsement n); [|by intros [= <- _]].
  destruct (nd_history n); [|destruct (capability_build_from_blocks _)];
    try (destruct (is_active _ _); cbn [negb]); by intros [= <- _].
Qed.


(** ** Mining *)

Lemma compute_write_set_ledger n l txs : compute_write_set (set_ledger n l) txs = compute_write_set n txs.
Proof.
  unfold compute_write_set. cbn [nd_executor set_ledger]. destruct (nd_executor n) as [execute|]; [|done].
  assert (contributions (set_ledger n l) execute txs = contributions n execute txs) as ->; [|done].
  induction txs as [|tx txs IH]; [done|]. cbn [contributions]. by rewrite IH.
Qed.

Lemma take_min {A} k (l : list A) : take (Nat.min (length l) k) l = take k l.
Proof. by rewrite Nat.min_comm, <- firstn_firstn, firstn_all. Qed.

Lemma drop_min {A} k (l : list A) : drop (Nat.min (length l) k) l = drop k l.
Proof.
  destruct (Nat.le_ge_cases (length l) k).
  - rewrite Nat.min_l by done. by rewrite !drop_ge by lia.
  - by rewrite Nat.min_r by done.
Qed.





(** A failed candidate can lose its transactions: only the PDC gate and the
    endorsement gate put the drained slice back.  When the write set cannot be
    computed (two transactions of the slice writing one key suffice) or the vote
    round fails (not being the round leader suffices), mining reports the error
    with the chain unchanged and the slice gone from the pool. *)
Theorem failed_candidate_drops_slice fuel clock now derived arrivals n prev e :
  last (chain (nd_ledger n)) = Some prev →
  let txs := take MAX_BLOCK_TRANSACTIONS (pending_transactions (nd_ledger n)) in
  let rest := drop MAX_BLOCK_TRANSACTIONS (pending_transactions (nd_ledger n)) in
  compute_write_set n txs = Err e
  ∨ (∃ ws per_tx h st, compute_write_set n txs = Ok (ws, per_tx) ∧ has_pdc ws = false
       ∧ nd_endorsement n = None ∧ is_some (nd_consensus n) = true ∧ nd_history n = Some h
       ∧ is_active (effective_set h (add64 (index prev) 1)) BFT_CONSENSUS_CAPABILITY_ID = true
       ∧ run_vote_round (nd_round n) derived (chain_id n) arrivals
           (with_write_set now (add64 (index prev) 1) txs (hash prev) ws) = Some (st, Err e)) →
  ∃ n', mine_async fuel clock now derived arrivals n = Some (n', Err e)
    ∧ chain (nd_ledger n') = chain (nd_ledger n) ∧ pending_transactions (nd_ledger n') = rest.
Proof.
  intros Hprev txs rest Hfail.
  assert (prepare_mining (nd_ledger n) = (set_pending (nd_ledger n) rest,
    Ok (add64 (index prev) 1, hash prev, txs, difficulty (nd_ledger n)))) as Hprep.
  { unfold prepare_mining. rewrite Hprev. cbv zeta. unfold rest, txs. by rewrite take_min, drop_min. }
  unfold mine_async. rewrite Hprep. cbv zeta.
  set (n0 := set_ledger n (set_pending (nd_ledger n) rest)).
  unfold n0 at 1. rewrite compute_write_set_ledger.
  destruct Hfail as [-> | (ws & per_tx & h & st & -> & -> & Hend & Hcons & Hh & Hact & Hround)].
  - eexists. split; [done|]. done.
  - cbn [negb]. unfold enforce_block_endorsements. cbn [nd_endorsement set_ledger n0]. rewrite Hend.
    unfold attest_candidate, capability_effective_set. cbn [nd_history nd_consensus nd_round set_ledger n0].
    rewrite Hh. cbn [index with_write_set set_hash]. rewrite Hact.
    change (nd_consensus n0) with (nd_consensus n). rewrite Hcons. cbn [andb].
    change (chain_id n0) with (chain_id n). change (nd_round n0) with (nd_round n). rewrite Hround. simpl. eexists. split; [done|]. done.
Qed.

(** ** Peer blocks *)

(** A peer block keeps the ledger's indexes a description of a prefix. *)
Lemma push_indexes_ok l b p : indexes_ok l → indexes_ok (push_block (set_pending l p) b).
Proof.
  intros [[Hl Hh] Hi]. unfold indexes_ok, history_ok, ids_ok, push_block, set_pending in *. simpl.
  rewrite length_app. simpl. split; [split; [lia|]|].
  - destruct (capability_history l); [|done]. by rewrite take_app_le by done.
  - destruct (committed_ids l); [|done]. destruct Hi as [Hi ->]. split; [lia|].
    by rewrite take_app_le by done.
Qed.

Lemma after_block_commit_ledger applied n b : nd_ledger (after_block_commit applied n b) = nd_ledger n.
Proof.
  unfold after_block_commit. destruct (existsb _ _); [destruct (policy_build_from_blocks _)|];
    by destruct applied.
Qed.

Lemma consensus_valid_inv active n b n' :
  consensus_valid active n b = (n', true) →
  nd_ledger n' = nd_ledger n ∧ nd_endorsement n' = nd_endorsement n
  ∧ nd_policies n' = nd_policies n ∧ nd_history n' = nd_history n
  ∧ (has_valid_pow b (difficulty (nd_ledger n)) = true
     ∨ ∃ c p, active = true ∧ certificate b = Some c
         ∧ (derive_validator_provider parse_value base64_decode content_hash (nd_validator_cache n)
              (nd_consensus n) (nd_world n)).2 = Some p ∧ verify_certificate p c b = Ok tt).
Proof.
  unfold consensus_valid. destruct (certificate b) as [c|]; [|intros [= <- Hp]; do 4 (split; [done|]); by left].
  destruct (active && negb (is_degenerate c)) eqn:Ha; [|intros [= <- Hp]; do 4 (split; [done|]); by left].
  apply andb_prop in Ha as [-> _].
  destruct (derive_validator_provider _ _ _ _ _ _) as [cache o]. intros [= <- Ho].
  do 4 (split; [done|]). right. destruct o as [p|]; [|done].
  destruct (verify_certificate p c b) as [[]|] eqn:Hv; [|done]. exists c, p. done.
Qed.

(** The capability history a handler works with: the cache, or the replay of the
    chain while the cache is cold. *)
Definition history_in_force (n : Node) : result CoreError CapabilityHistory :=
  match nd_history n with
  | Some h => Ok h
  | None => capability_build_from_blocks (chain (nd_ledger n))
  end.

Lemma admit_peer_block_inv now n b n' :
  admit_peer_block now n b = (n', Admit) →
  nd_ledger n' = nd_ledger n ∧ nd_endorsement n' = nd_endorsement n ∧ nd_policies n' = nd_policies n
  ∧ history_in_force n' = history_in_force n
  ∧ (∃ tip, last (chain (nd_ledger n)) = Some tip ∧ chains_to b tip = Ok tt)
  ∧ index b = Z.of_nat (length (chain (nd_ledger n)))
  ∧ timestamp_within_future_window (index b) (timestamp b) now = true
  ∧ (∀ h, history_in_force n = Ok h → is_ok (capability_validate_block h b).2 = true)
  ∧ (has_valid_pow b (difficulty (nd_ledger n)) = true
     ∨ ∃ c p h, certificate b = Some c ∧ nd_history n = Some h
         ∧ is_active (effective_set h (index b)) BFT_CONSENSUS_CAPABILITY_ID = true
         ∧ (derive_validator_provider parse_value base64_decode content_hash (nd_validator_cache n)
              (nd_consensus n) (nd_world n)).2 = Some p ∧ verify_certificate p c b = Ok tt).
Proof.
  unfold admit_peer_block. destruct (timestamp_within_future_window _ _ _); [|done]. cbn [negb].
  set (active := match nd_history n with Some h => _ | None => false end).
  set (n1 := match nd_history n with Some _ => n | None => _ end).
  assert (nd_ledger n1 = nd_ledger n ∧ nd_endorsement n1 = nd_endorsement n
    ∧ nd_policies n1 = nd_policies n ∧ nd_validator_cache n1 = nd_validator_cache n
    ∧ nd_consensus n1 = nd_consensus n ∧ nd_world n1 = nd_world n
    ∧ history_in_force n1 = history_in_force n
    ∧ ∀ h, history_in_force n = Ok h → nd_history n1 = Some h)
    as (H1 & H2 & H3 & H4 & H5 & H6 & H7 & H8).
  { unfold n1, history_in_force. destruct (nd_history n) as [h|] eqn:Hh; [rewrite Hh; naive_solver|].
    destruct (capability_build_from_blocks _) eqn:Hb; simpl; rewrite ?Hh, ?Hb; naive_solver. }
  destruct (Z.eqb_spec (index b) (Z.of_nat (length (chain (nd_ledger n))))) as [Hix|]; cbn [negb];
    [|by destruct (_ <? _)%Z].
  rewrite H1. destruct (last _) as [tip|]; [|done].
  destruct (chains_to b tip) as [[]|] eqn:Hct; cbn [is_ok negb]; [|done].
  destruct (consensus_valid active n1 b) as [n2 v] eqn:Hcv.
  destruct (is_ok (capability_validate_block _ b).2) eqn:Hcap; [|done]. cbn [andb].
  destruct v; [|done]. intros [= <-].
  apply consensus_valid_inv in Hcv as (C1 & C2 & C3 & C4 & C5).
  assert (history_in_force n2 = history_in_force n) as Hf
    by (rewrite <- H7; unfold history_in_force; by rewrite C4, C1).
  rewrite C1, C2, C3, H1, H2, H3. do 4 (split; [done|]). split; [eauto|]. do 2 (split; [done|]).
  split. { intros h Hh. by rewrite (H8 h Hh) in Hcap. }
  rewrite <- H4, <- H5, <- H6, <- H1. destruct C5 as [?|(c & p & Ha & ? & ? & ?)]; [by left | right].
  unfold active in Ha. destruct (nd_history n) as [h|]; [|done]. rewrite <- Hix in Ha. eauto 10.
Qed.

(** Enforcement with a provider: the history it read, and what it established. *)
Lemma enforce_block_force n b n' P :
  enforce_block_endorsements n b [] = (n', Ok tt) → nd_endorsement n = Some P →
  ∃ h, history_in_force n = Ok h
    ∧ (is_active (effective_set h (index b)) ENDORSEMENT_CAPABILITY_ID = true →
       (∃ ps, policy_validate_block (nd_policies n) b = Ok ps) ∧ check_coverage b = Ok tt
       ∧ ∀ tx, tx ∈ transactions b →
           evaluate_transaction_endorsements (P := P) (nd_policies n) tx [] (index b) = Ok tt).
Proof.
  intros He HP. assert (∃ h, history_in_force n = Ok h
    ∧ enforce_block_endorsements (set_cache n (Some h)) b [] = (n', Ok tt)) as (h & Hh & He').
  { unfold enforce_block_endorsements, capability_effective_set, history_in_force in *.
    cbn [nd_endorsement set_cache nd_history]. rewrite HP in *.
    destruct (nd_history n) as [h|] eqn:Hn; [exists h; split; [done|]; destruct n; simpl in *; by subst|].
    destruct (capability_build_from_blocks _) as [h|]; [|done]. by exists h. }
  exists h. split; [done|]. intros Ha.
  destruct (enforce_block_inv (set_cache n (Some h)) b [] n' P h) as (Hp & Hev & Hcov); try done.
  split; [done|]. split; [by apply Hcov|]. intros tx [i Hi]%list_elem_of_lookup. by apply (Hev i).
Qed.

(** C7: an accepted peer block was attested, authorized and linked.  The handler
    appends a block only at the node's height, chained to the tip, stamped at most
    the window ahead of the node's clock, with admissible activations, and with
    proof of work or, when the cached history has BFT active there, a certificate
    that verifies against the derived set.  With an endorsement provider the
    capability history in force (the cache, or the replay of the chain while the
    cache is cold) exists, and where it has endorsement active the block's policy
    updates are valid, every transaction passed evaluation and every write is covered
    by a carrier.  The block's transactions leave the pool, and the ledger's indexes,
    if they described a prefix of the chain, still do. *)
Theorem peer_block_sound now applied n b n' :
  peer_block now applied n b = (n', true) →
  chain (nd_ledger n') = chain (nd_ledger n) ++ [b]
  ∧ index b = Z.of_nat (length (chain (nd_ledger n)))
  ∧ (∃ tip, last (chain (nd_ledger n)) = Some tip ∧ chains_to b tip = Ok tt)
  ∧ (timestamp b ≤ add64 now FUTURE_TIMESTAMP_WINDOW_SECS)%Z
  ∧ (∀ h, history_in_force n = Ok h → is_ok (capability_validate_block h b).2 = true)
  ∧ (has_valid_pow b (difficulty (nd_ledger n)) = true
     ∨ ∃ c p h, certificate b = Some c ∧ nd_history n = Some h
         ∧ is_active (effective_set h (index b)) BFT_CONSENSUS_CAPABILITY_ID = true
         ∧ (derive_validator_provider parse_value base64_decode content_hash (nd_validator_cache n)
              (nd_consensus n) (nd_world n)).2 = Some p ∧ verify_certificate p c b = Ok tt)
  ∧ (∀ P, nd_endorsement n = Some P → ∃ h, history_in_force n = Ok h
      ∧ (is_active (effective_set h (index b)) ENDORSEMENT_CAPABILITY_ID = true →
         (∃ ps, policy_validate_block (nd_policies n) b = Ok ps) ∧ check_coverage b = Ok tt
         ∧ ∀ tx, tx ∈ transactions b →
             evaluate_transaction_endorsements (P := P) (nd_policies n) tx [] (index b) = Ok tt))
  ∧ (∀ id, id ∈ pending_ids (nd_ledger n') → id ∉ block_ids b)
  ∧ (indexes_ok (nd_ledger n) → indexes_ok (nd_ledger n')).
Proof.
  unfold peer_block. destruct (admit_peer_block now n b) as [n1 [| |]] eqn:Had; [done|done|].
  apply admit_peer_block_inv in Had
    as (H1 & H2 & H3 & H4 & (tip & Htip & Hct) & Hix & Hts & Hcap & Hcons).
  destruct (enforce_block_endorsements n1 b []) as [n2 [[]|]] eqn:Henf; [|done].
  pose proof (enforce_block_ledger _ _ _ _ _ Henf) as [E1 _]. intros [= <-].
  unfold commit_peer_block, append_peer_block. rewrite E1, H1, Htip, Hct. cbn [is_ok negb].
  rewrite after_block_commit_ledger. cbn [set_ledger nd_ledger].
  split; [done|]. split; [done|]. split; [eauto|]. split.
  { apply orb_prop in Hts as [Hz|Hts]; [|by apply Z.leb_le]. apply Z.eqb_eq in Hz.
    destruct (chain (nd_ledger n)); simpl in *; [done | lia]. }
  split; [done|]. split; [done|]. split; [|split].
  - intros P HP. rewrite <- H4, <- H3. apply (enforce_block_force n1 b n2); [done | by rewrite H2].
  - unfold pending_ids. simpl. intros id (t & -> & Ht)%list_elem_of_fmap.
    apply list_elem_of_In, filter_In in Ht as [_ Ht]. by bool_hyps.
  - apply push_indexes_ok.
Qed.

(** A cold capability cache refuses certified blocks: the handler decides
    whether BFT is active before it fills the cache, so the same block that is
    admitted once the cache holds the chain's own history is rejected while the
    cache is empty (after a start or an invalidation), unless it also has proof of
    work. *)
Theorem cold_cache_rejects_certified now n b c h :
  capability_build_from_blocks (chain (nd_ledger n)) = Ok h → nd_history n = None →
  certificate b = Some c → is_degenerate c = false →
  has_valid_pow b (difficulty (nd_ledger n)) = false →
  (admit_peer_block now (set_cache n (Some h)) b).2 = Admit →
  (admit_peer_block now n b).2 = Reject.
Proof.
  intros Hb Hn Hc Hd Hp. unfold admit_peer_block. rewrite Hn, Hb.
  cbn [nd_history set_cache nd_ledger].
  destruct (timestamp_within_future_window _ _ _); [|done]. cbn [negb].
  destruct (index b =? _)%Z; cbn [negb]; [|by destruct (_ <? _)%Z].
  destruct (last _) as [tip|]; [|done]. destruct (is_ok (chains_to b tip)); [|done]. cbn [negb].
  intros _. unfold consensus_valid. rewrite Hc, Hd. cbn [negb andb nd_ledger set_cache].
  rewrite Hp. by rewrite andb_false_r.
Qed.

(** A dropped peer block still takes effect: the handler ignores that the
    append was refused because the tip moved, and runs the post-commit updates.
    A capability activation in the dropped block enters the cache although no
    block of the chain contains it, and the node then treats the capability as
    active. *)
Theorem stale_block_takes_effect n tip b :
  last (chain (nd_ledger n)) = Some tip → chains_to b tip ≠ Ok tt →
  nd_history n = Some [] → transactions b = [activation_tx "a" (index b + 1)] →
  let n' := commit_peer_block false n b in
  chain (nd_ledger n') = chain (nd_ledger n)
  ∧ nd_history n' = Some [pdc_activation (index b + 1)]
  ∧ is_active (effective_set [pdc_activation (index b + 1)] (index b + 1)) PDC_CAPABILITY_ID = true.
Proof.
  intros Ht Hs Hh Htx. unfold commit_peer_block, append_peer_block. rewrite Ht.
  destruct (chains_to b tip) as [[]|]; [done|]. cbn [is_ok negb].
  unfold after_block_commit. cbn [nd_history set_ledger]. rewrite Hh. unfold activations.
  rewrite Htx. simpl. rewrite apply_pdc_activation by lia. split; [done|]. split; [done|].
  unfold effective_set, is_active, insert_activation. simpl. rewrite Z.leb_refl. by vm_compute.
Qed.

(** Coverage on replay is not authentication: whatever the endorsement
    provider and whatever the write, a peer block with endorsement active passes
    enforcement when it also carries a canonical record of a family without an
    operation default, whose carrier names the write's scope and has no signers.
    The provider is never consulted. *)
Theorem unsigned_carrier_covers P (w : PersistentWrite) n h r :
  nd_endorsement n = Some P → nd_history n = Some h → schema_id r = "product" →
  let te := mkTransactionEndorsement (mkScopedTarget (pw_channel w) (pw_contract w) [pw_key w]
      (match pw_visibility w with Pdc name => Some name | Public => None end)) [] in
  let b := mkBlock 1 0 [mkTransaction "t" 0 (KCanonicalRecord r) [te]] [w] "" 0 "" None in
  enforce_block_endorsements n b [] = (n, Ok tt).
Proof.
  intros HP Hh Hr te b. unfold enforce_block_endorsements, capability_effective_set.
  rewrite HP, Hh. destruct (is_active _ _); [|done]. cbn [negb].
  assert (covers te w = true) as Hc.
  { unfold covers, te. cbn [te_target st_channel st_contract st_keys st_collection existsb].
    rewrite !str_eqb_refl. by destruct (pw_visibility w); [|rewrite str_eqb_refl]. }
  assert (policy_validate_block (nd_policies n) b = Ok (nd_policies n)) as ->.
  { unfold policy_validate_block. simpl. done. }
  cbn [evaluate_block transactions b head tail default].
  unfold evaluate_transaction_endorsements. cbn [each_result is_policy_update policy_update_of
    tx_kind is_some andb negb is_record].
  unfold operation_default. cbn [tx_kind]. rewrite Hr. simpl.
  unfold check_coverage. cbn [write_set transactions b each_result existsb tx_endorsements].
  by rewrite Hc.
Qed.

(** ** Chain adoption *)

Lemma enforce_chain_prefix P pre b post st st' :
  fold_result (enforce_chain_block P) (pre ++ b :: post) st = Ok st' →
  ∃ caps pols, fold_result (enforce_chain_block P) pre st = Ok (caps, pols)
    ∧ is_ok (enforce_chain_block P (caps, pols) b) = true.
Proof.
  rewrite fold_result_app. destruct (fold_result _ pre st) as [[caps pols]|]; [|done].
  simpl. destruct (enforce_chain_block P (caps, pols) b) eqn:He; [|done]. intros _.
  exists caps, pols. by rewrite He.
Qed.

Lemma enforce_chain_histories P bs caps pols caps' pols' :
  fold_result (enforce_chain_block P) bs (caps, pols) = Ok (caps', pols') →
  fold_result capability_fold_block bs caps = Ok caps'
  ∧ fold_result policy_validate_block bs pols = Ok pols'.
Proof.
  revert caps pols. induction bs as [|b bs IH]; intros caps pols; simpl; [by intros [= <- <-]|].
  unfold enforce_chain_block at 1. cbn [fst snd].
  destruct (capability_fold_block caps b) as [c1|]; [|done].
  destruct (if is_active _ _ then _ else _) as [[]|]; [|done].
  destruct (policy_validate_block pols b) as [p1|]; [|done]. apply IH.
Qed.

(** C10: an adopted chain was enforced block by block: adoption replaces the chain
    by exactly the candidate, only if all its certificates verify historically;
    with a provider configured, at every height where the candidate's own history
    makes endorsement active, each transaction passed evaluation under the
    policies its earlier blocks define and each write is covered; and the caches
    are left describing the new chain. *)
Theorem adopted_chain_enforced vk world n blocks n' :
  adopt_chain vk world n blocks = (n', true) →
  chain (nd_ledger n') = blocks
  ∧ verify_chain_certificates parse_value base64_decode vk blocks (nd_consensus n) = Ok tt
  ∧ (∀ P, nd_endorsement n = Some P →
       (∃ h, nd_history n' = Some h ∧ capability_build_from_blocks blocks = Ok h)
       ∧ policy_build_from_blocks blocks = Ok (nd_policies n')
       ∧ ∀ pre b post, blocks = pre ++ b :: post →
           ∃ caps pols, capability_build_from_blocks (pre ++ [b]) = Ok caps
             ∧ policy_build_from_blocks pre = Ok pols
             ∧ (is_active (effective_set caps (index b)) ENDORSEMENT_CAPABILITY_ID = true →
                check_coverage b = Ok tt ∧ ∀ tx, tx ∈ transactions b →
                  evaluate_transaction_endorsements (P := P) pols tx [] (index b) = Ok tt)).
Proof.
  unfold adopt_chain. destruct (enforce_chain_endorsements n blocks) as [[]|] eqn:Henf; [|done].
  destruct (verify_chain_certificates _ _ _ _ _) as [[]|] eqn:Hcert; [|done]. cbn [is_ok negb].
  destruct (try_replace_chain _ _) as [l [|]] eqn:Hrep; [|done]. intros [= <-].
  apply try_replace_true in Hrep as (_ & _ & _ & _ & ->). cbn [chain].
  split; [by destruct world, (policy_build_from_blocks blocks), (capability_build_from_blocks blocks)|].
  split; [done|]. intros P HP. unfold enforce_chain_endorsements in Henf. rewrite HP in Henf.
  destruct (fold_result _ blocks _) as [[caps pols]|] eqn:Hf; [|done].
  pose proof (enforce_chain_histories _ _ _ _ _ _ Hf) as [Hcaps Hpols].
  unfold capability_build_from_blocks, policy_build_from_blocks. rewrite Hcaps, Hpols.
  split; [by destruct world; eauto|]. split; [by destruct world|].
  intros pre b post ->. apply enforce_chain_prefix in Hf as (cs & ps & Hpre & Hb).
  apply enforce_chain_histories in Hpre as [Hcs Hps].
  unfold enforce_chain_block in Hb. cbn [fst snd] in Hb.
  destruct (capability_fold_block cs b) as [cs'|] eqn:Hcb; [|done].
  exists cs', ps. rewrite fold_result_snoc, Hcs. split; [done|]. split; [done|]. intros Hact.
  rewrite Hact in Hb. destruct (each_result _ (transactions b)) as [[]|] eqn:He; [|done].
  destruct (check_coverage b) as [[]|]; [|done]. split; [done|].
  apply each_result_Ok in He. by rewrite Forall_forall in He.
Qed.
End node.
