(* ===== verification/Ocsp.v ===== *)
(** Issuer-signed OCSP staples (glasschain-identity: ocsp.rs).

    The minimal DER encoder and decoder, the mint that a Root CA runs and the
    parser and checks that a receiving node runs.  SHA-256, the calendar of the
    time crate and ECDSA P-256 of the ring crate are parameters.  The theorems:
    the decoder accepts exactly the canonical encodings, it always terminates,
    and a minted staple verifies as good for its certificate and window. *)

From S2P Require Import Prelude.

Local Open Scope Z_scope.

(** A calendar instant: year, month, day, hour, minute, second. *)
Record Civil := mkCivil {
  c_year : Z; c_month : Z; c_day : Z; c_hour : Z; c_minute : Z; c_second : Z }.

(** Code outside the repository. *)
Class OcspCrates := {
  (** sha2: the raw digest *)
  sha256_bytes : list Z → list Z;
  (** time: [OffsetDateTime::from_unix_timestamp] *)
  civil_of_unix : Z → option Civil;
  (** time: [Date::from_calendar_date], [with_hms], [assume_utc().unix_timestamp()] *)
  unix_of_civil : Civil → option Z;
  (** ring: ECDSA_P256_SHA256_FIXED signing with a PKCS#8 key, and verification *)
  p256_sign : list Z → list Z → option (list Z);
  p256_verify : list Z → list Z → list Z → bool }.

Definition OID_BASIC : list Z := [0x2B; 0x06; 0x01; 0x05; 0x05; 0x07; 0x30; 0x01; 0x01].
Definition OID_ECDSA_WITH_SHA256 : list Z := [0x2A; 0x86; 0x48; 0xCE; 0x3D; 0x04; 0x03; 0x02].
Definition OID_SHA256 : list Z := [0x60; 0x86; 0x48; 0x01; 0x65; 0x03; 0x04; 0x02; 0x01].
Definition OCSP_VALIDITY_SECS : Z := 60 * 60 * 6.

Inductive OcspStatus := Good | StapleRevoked.
Inductive OcspError := Malformed | Expired | CertMismatch | StapleSignatureInvalid.

(** ** Minimal DER *)

Definition zlen {A} (l : list A) : Z := Z.of_nat (length l).

Definition bytes_eqb (a b : list Z) : bool := bool_decide (a = b).

Definition write_len (len : Z) : list Z :=
  if len <? 0x80 then [len]
  else if len <=? 0xFF then [0x81; len]
  else 0x82 :: be_bytes 2 len.

Definition write_tlv (tag : Z) (contents : list Z) : list Z :=
  tag :: write_len (zlen contents) ++ contents.

Definition sequence (body : list Z) : list Z := write_tlv 0x30 body.
Definition oid (b : list Z) : list Z := write_tlv 0x06 b.
Definition octet_string (b : list Z) : list Z := write_tlv 0x04 b.
Definition enumerated (v : Z) : list Z := write_tlv 0x0A [v].
Definition bit_string (b : list Z) : list Z := write_tlv 0x03 (0 :: b).

(** Leading zero bytes stripped. *)
Fixpoint minimal_be (b : list Z) : list Z :=
  match b with
  | x :: r => if x =? 0 then minimal_be r else b
  | [] => []
  end.

Definition integer (b : list Z) : list Z :=
  let stripped := minimal_be b in
  write_tlv 0x02
    match stripped with
    | [] => [0]
    | x :: _ => if Z.land x 0x80 =? 0 then stripped else 0 :: stripped
    end.

(** Zero-padded decimal: Rust's [{:0w}] (the sign counts in the width). *)
Definition pad_dec (w : nat) (z : Z) : list Z :=
  let digits := byte_list (pretty (Z.to_N (Z.abs z))) in
  if z <? 0 then 45 :: repeat 48 (w - 1 - length digits) ++ digits
  else repeat 48 (w - length digits) ++ digits.

Definition UNIX_EPOCH : Civil := mkCivil 1970 1 1 0 0 0.

Definition cast_signed (z : Z) : Z := if z <=? I64_MAX then z else z - 2 ^ 64.
Definition cast_unsigned (z : Z) : Z := z mod 2 ^ 64.

Definition write_explicit (index : Z) (contents_der : list Z) : list Z :=
  write_tlv (Z.lor 0xA0 (Z.land index 0x1F)) contents_der.

Record Element := mkElement { e_tag : Z; e_contents : list Z }.

(** The element at the head of the buffer and the offset just past it. *)
Definition read_tlv (data : list Z) : result OcspError (Element * nat) :=
  match data with
  | tag :: l :: rest =>
      let first := Z.land l 0x7F in
      let? lh :=
        if Z.land l 0x80 =? 0 then Ok (first, 2%nat)
        else if first =? 0 then Err Malformed
        else if first =? 1 then
          match rest with
          | len :: _ => if len <? 0x80 then Err Malformed else Ok (len, 3%nat)
          | [] => Err Malformed
          end
        else if first =? 2 then
          match rest with
          | b0 :: b1 :: _ =>
              let len := b0 * 256 + b1 in
              if len <? 0x100 then Err Malformed else Ok (len, 4%nat)
          | _ => Err Malformed
          end
        else Err Malformed in
      let '(len, header) := lh in
      let end_ := (header + Z.to_nat len)%nat in
      if (end_ <=? length data)%nat
      then Ok (mkElement tag (take (Z.to_nat len) (drop header data)), end_)
      else Err Malformed
  | _ => Err Malformed
  end.

(** The loop of [read_sequence]; the length of the buffer is enough fuel
    ([read_sequence_unfold]). *)
Fixpoint read_elements (fuel : nat) (rest : list Z) : result OcspError (list Element) :=
  match rest, fuel with
  | [], _ => Ok []
  | _, O => Err Malformed
  | _, S fuel =>
      let? e := read_tlv rest in
      let? es := read_elements fuel (drop e.2 rest) in
      Ok (e.1 :: es)
  end.

Definition read_sequence (data : list Z) : result OcspError (list Element) :=
  read_elements (length data) data.

Definition sequence_body (data : list Z) : result OcspError (list Z) :=
  let? e := read_tlv data in
  guard? (e_tag e.1 =? 0x30) && (e.2 =? length data)%nat else Malformed in
  Ok (e_contents e.1).

Definition explicit_index (tag : Z) : Z := Z.land tag 0x1F.

(** ** Minting *)

Record OcspMintInput := mkMintInput {
  mi_serial : list Z;
  mi_issuer_subject_der : list Z;
  mi_issuer_public_key : list Z;
  mi_issuer_pkcs8_der : list Z;
  mi_now : Z;
  mi_validity_secs : Z }.

Record ParsedStaple := mkParsedStaple {
  ps_tbs : list Z;
  ps_signature : list Z;
  ps_serial : list Z;
  ps_this_update : Z;
  ps_next_update : Z;
  ps_status : bool }.

Section ocsp.
Context `{C : OcspCrates}.

Definition civil_text (c : Civil) : list Z :=
  pad_dec 4 (c_year c) ++ pad_dec 2 (c_month c) ++ pad_dec 2 (c_day c)
  ++ pad_dec 2 (c_hour c) ++ pad_dec 2 (c_minute c) ++ pad_dec 2 (c_second c) ++ [90].

Definition generalized_time (unix_secs : Z) : list Z :=
  write_tlv 0x18 (civil_text (default UNIX_EPOCH (civil_of_unix (cast_signed unix_secs)))).

Definition cert_id (i : OcspMintInput) : list Z :=
  oid OID_SHA256 ++ octet_string (sha256_bytes (mi_issuer_subject_der i))
  ++ octet_string (sha256_bytes (mi_issuer_public_key i)) ++ integer (mi_serial i).

Definition single_response (i : OcspMintInput) : list Z :=
  sequence (cert_id i) ++ [0x80; 0x00] ++ generalized_time (mi_now i)
  ++ write_explicit 0 (generalized_time (add64 (mi_now i) (mi_validity_secs i))).

Definition response_data (i : OcspMintInput) : list Z :=
  write_explicit 0 (mi_issuer_subject_der i) ++ generalized_time (mi_now i)
  ++ sequence (sequence (single_response i)).

Definition sign_p256_sha256 (pkcs8_der message : list Z) : result OcspError (list Z) :=
  ok_or (p256_sign pkcs8_der message) StapleSignatureInvalid.

Definition basic_response (i : OcspMintInput) (signature : list Z) : list Z :=
  sequence (response_data i)
  ++ sequence (oid OID_ECDSA_WITH_SHA256 ++ [0x05; 0x00]) ++ bit_string signature.

Definition mint_good_response (i : OcspMintInput) : result OcspError (list Z) :=
  let? signature := sign_p256_sha256 (mi_issuer_pkcs8_der i) (response_data i) in
  let basic := sequence (basic_response i signature) in
  let response_bytes := oid OID_BASIC ++ octet_string basic in
  Ok (sequence (enumerated 0 ++ write_explicit 0 (sequence response_bytes))).

(** ** Parsing *)

Definition is_ascii_digit (b : Z) : bool := (48 <=? b) && (b <=? 57).

(** The UTF-8 check of the source is implied by the check on the characters. *)
Definition read_generalized (body : list Z) : result OcspError Z :=
  match body with
  | [y0; y1; y2; y3; m0; m1; d0; d1; h0; h1; i0; i1; s0; s1; z] =>
      guard? forallb is_ascii_digit [y0; y1; y2; y3; m0; m1; d0; d1; h0; h1; i0; i1; s0; s1]
             && (z =? 90) else Malformed in
      let two a b := (a - 48) * 10 + (b - 48) in
      let c := mkCivil ((y0 - 48) * 1000 + (y1 - 48) * 100 + (y2 - 48) * 10 + (y3 - 48))
                 (two m0 m1) (two d0 d1) (two h0 h1) (two i0 i1) (two s0 s1) in
      guard? (1 <=? c_month c) && (c_month c <=? 12) && (1 <=? c_day c) && (c_day c <=? 31)
             && (c_hour c <=? 23) && (c_minute c <=? 59) && (c_second c <=? 59)
             else Malformed in
      let? t := ok_or (unix_of_civil c) Malformed in
      Ok (cast_unsigned t)
  | _ => Err Malformed
  end.

(** The outer envelope: status successful, basic response type. *)
Definition parse_envelope (der_bytes : list Z) : result OcspError (list Z) :=
  let? body := sequence_body der_bytes in
  let? outer := read_sequence body in
  match outer with
  | [e0; e1] =>
      guard? (e_tag e0 =? 0x0A) && bytes_eqb (e_contents e0) [0] else Malformed in
      guard? (e_tag e1 =? 0xA0) && (explicit_index (e_tag e1) =? 0) else Malformed in
      let? inner := sequence_body (e_contents e1) in
      let? bytes_seq := read_sequence inner in
      match bytes_seq with
      | [b0; b1] =>
          guard? (e_tag b0 =? 0x06) && bytes_eqb (e_contents b0) OID_BASIC
                 && (e_tag b1 =? 0x04) else Malformed in
          Ok (e_contents b1)
      | _ => Err Malformed
      end
  | _ => Err Malformed
  end.

(** The signed part: the response data and the signature over it. *)
Definition parse_basic (basic_der : list Z) : result OcspError (list Z * list Z) :=
  let? body := sequence_body basic_der in
  let? basic := read_sequence body in
  match basic with
  | b0 :: b1 :: b2 :: _ =>
      guard? (e_tag b0 =? 0x30) && (e_tag b1 =? 0x30) && (e_tag b2 =? 0x03) else Malformed in
      let? alg := read_tlv (e_contents b1) in
      guard? (e_tag alg.1 =? 0x06) && bytes_eqb (e_contents alg.1) OID_ECDSA_WITH_SHA256
             else Malformed in
      match e_contents b2 with
      | u :: signature =>
          guard? (u =? 0) && (length (e_contents b2) =? 65)%nat else Malformed in
          Ok (e_contents b0, signature)
      | [] => Err Malformed
      end
  | _ => Err Malformed
  end.

Definition parse_next_update (rest : list Element) (this_update : Z) : result OcspError Z :=
  match rest with
  | e :: _ =>
      if e_tag e =? 0xA0 then
        let? inner := read_tlv (e_contents e) in
        guard? e_tag inner.1 =? 0x18 else Malformed in
        read_generalized (e_contents inner.1)
      else Ok this_update
  | [] => Ok this_update
  end.

(** certID, certStatus, thisUpdate, nextUpdate: serial, status and window. *)
Definition parse_single (contents : list Z) : result OcspError (list Z * bool * Z * Z) :=
  let? single := read_sequence contents in
  match single with
  | s0 :: s1 :: s2 :: rest =>
      let? cid := read_sequence (e_contents s0) in
      match cid with
      | [_; _; _; c3] =>
          guard? e_tag c3 =? 0x02 else Malformed in
          let? status :=
            if e_tag s1 =? 0x80 then Ok true
            else if e_tag s1 =? 0xA1 then Ok false else Err Malformed in
          guard? e_tag s2 =? 0x18 else Malformed in
          let? this_update := read_generalized (e_contents s2) in
          let? next_update := parse_next_update rest this_update in
          Ok (e_contents c3, status, this_update, next_update)
      | _ => Err Malformed
      end
  | _ => Err Malformed
  end.

(** responderID, producedAt, and the one single response. *)
Definition parse_response_data (tbs : list Z) : result OcspError (list Z * bool * Z * Z) :=
  let? data := read_sequence tbs in
  match data with
  | [r0; r1; r2] =>
      guard? (e_tag r0 =? 0xA0) && (e_tag r1 =? 0x18) && (e_tag r2 =? 0x30) else Malformed in
      let? _ := read_generalized (e_contents r1) in
      let? singles := read_sequence (e_contents r2) in
      match singles with
      | [s] => parse_single (e_contents s)
      | _ => Err Malformed
      end
  | _ => Err Malformed
  end.

Definition parse_staple (der_bytes : list Z) : result OcspError ParsedStaple :=
  let? basic_der := parse_envelope der_bytes in
  let? tbs_sig := parse_basic basic_der in
  let? s := parse_response_data tbs_sig.1 in
  let '(serial, status, this_update, next_update) := s in
  Ok (mkParsedStaple tbs_sig.1 tbs_sig.2 serial this_update next_update status).

(** [ParsedStaple::verify_against] *)
Definition verify_against (p : ParsedStaple) (issuer_public_key peer_serial : list Z) (now : Z)
  : result OcspError OcspStatus :=
  guard? p256_verify issuer_public_key (ps_tbs p) (ps_signature p)
         else StapleSignatureInvalid in
  guard? negb ((now <? ps_this_update p) || (ps_next_update p <? now)) else Expired in
  guard? bytes_eqb (minimal_be (ps_serial p)) (minimal_be peer_serial) else CertMismatch in
  Ok (if ps_status p then Good else StapleRevoked).
End ocsp.

(** ** The codec *)

Definition is_byte (b : Z) : Prop := 0 ≤ b < 256.

(** A boolean property of bytes is decided by its 256 instances. *)
Lemma byte_cases (P : Z → bool) b :
  forallb P (Z.of_nat <$> seq 0 256) = true → is_byte b → P b = true.
Proof.
  intros HP [??]. rewrite forallb_forall in HP. apply HP.
  apply list_elem_of_In, list_elem_of_fmap. exists (Z.to_nat b).
  split; [lia|]. apply elem_of_seq. lia.
Qed.

Lemma land_high b : is_byte b → (Z.land b 0x80 =? 0) = (b <? 0x80).
Proof.
  intros Hb. apply eqb_true_iff.
  by apply (byte_cases (λ b, Bool.eqb (Z.land b 0x80 =? 0) (b <? 0x80))).
Qed.

Lemma land_low b : is_byte b → Z.land b 0x7F = if b <? 0x80 then b else b - 0x80.
Proof.
  intros Hb. apply Z.eqb_eq.
  by apply (byte_cases (λ b, Z.land b 0x7F =? if b <? 0x80 then b else b - 0x80)).
Qed.

Lemma zlen_nonneg {A} (l : list A) : 0 ≤ zlen l.
Proof. unfold zlen. lia. Qed.

Lemma zlen_app {A} (k l : list A) : zlen (k ++ l) = zlen k + zlen l.
Proof. unfold zlen. rewrite length_app. lia. Qed.

Lemma zlen_cons {A} (x : A) (l : list A) : zlen (x :: l) = 1 + zlen l.
Proof. unfold zlen. simpl. lia. Qed.

Lemma be_bytes_2 x : 0 ≤ x < 65536 → be_bytes 2 x = [x / 256; x mod 256].
Proof.
  intros Hx. simpl. change (256 ^ Z.of_nat 1) with 256. change (256 ^ Z.of_nat 0) with 1.
  rewrite Z.div_1_r, (Z.mod_small (x / 256)); [done|].
  split; [apply Z.div_pos; lia | apply Z.div_lt_upper_bound; lia].
Qed.

Ltac tlv_body H :=
  rewrite H; simpl; rewrite length_app;
  match goal with |- context [(?a <=? ?b)%nat] => destruct (Nat.leb_spec a b); [|lia] end;
  by rewrite drop_0, take_app_length.

(** The element that the decoder reads at the head of a buffer is there in its
    canonical encoding, and the decoder reads every canonical encoding. *)
Lemma read_tlv_write tag c rest :
  zlen c < 65536 →
  read_tlv (write_tlv tag c ++ rest) = Ok (mkElement tag c, length (write_tlv tag c)).
Proof.
  intros Hc. pose proof (zlen_nonneg c). unfold write_tlv, write_len.
  assert (Hn : Z.to_nat (zlen c) = length c) by (unfold zlen; lia).
  destruct (zlen c <? 0x80) eqn:H1; [|destruct (zlen c <=? 0xFF) eqn:H2];
    bool_hyps.
  - simpl app. unfold read_tlv. rewrite land_high, land_low by (split; lia).
    destruct (zlen c <? 0x80) eqn:H3; [|bool_hyps; lia]. tlv_body Hn.
  - simpl app. unfold read_tlv. change (Z.land 129 128 =? 0) with false. change (Z.land 129 127) with 1.
    cbn [Z.eqb Pos.eqb]. destruct (zlen c <? 128) eqn:H3; [bool_hyps; lia|]. tlv_body Hn.
  - rewrite be_bytes_2 by lia. simpl app. unfold read_tlv.
    change (Z.land 130 128 =? 0) with false. change (Z.land 130 127) with 2.
    cbn [Z.eqb Pos.eqb].
    assert (zlen c / 256 * 256 + zlen c mod 256 = zlen c) as ->.
    { rewrite Z.mul_comm. symmetry. apply Z.div_mod. lia. }
    destruct (zlen c <? 256) eqn:H3; [bool_hyps; lia|]. tlv_body Hn.
Qed.

Lemma body_zlen (len : Z) (k : list Z) :
  0 ≤ len → (Z.to_nat len ≤ length k)%nat → zlen (take (Z.to_nat len) k) = len.
Proof. intros. unfold zlen. rewrite length_take. lia. Qed.

Lemma read_tlv_canonical data e n :
  Forall is_byte data → read_tlv data = Ok (e, n) →
  zlen (e_contents e) < 65536 ∧ n = length (write_tlv (e_tag e) (e_contents e))
  ∧ data = write_tlv (e_tag e) (e_contents e) ++ drop n data.
Proof.
  destruct data as [|tag [|l rest]]; [done..|]. intros Hb. unfold read_tlv.
  apply Forall_cons in Hb as [_ Hb]. apply Forall_cons in Hb as [Hl Hr].
  rewrite land_high, land_low by done. destruct (l <? 0x80) eqn:Hl8; bool_hyps.
  - intros H. destruct (Nat.leb_spec (2 + Z.to_nat l) (length (tag :: l :: rest))) as [Hle|]; [|done].
    injection H as [= <- <-]. simpl in Hle |- *. rewrite drop_0. unfold write_tlv, write_len.
    unfold is_byte in Hl. rewrite body_zlen by lia. destruct (l <? 128) eqn:H8; [|bool_hyps; lia].
    simpl. rewrite length_take, take_drop, Nat.min_l by lia. repeat split; [lia].
  - destruct (l - 128 =? 0) eqn:H0; [done|]. destruct (l - 128 =? 1) eqn:H1; bool_hyps.
    + destruct rest as [|len rest]; [done|]. apply Forall_cons in Hr as [Hlen _].
      destruct (len <? 128) eqn:H8; [done|]. intros H. 
      destruct (Nat.leb_spec (3 + Z.to_nat len) (length (tag :: l :: len :: rest))) as [Hle|]; [|done].
      injection H as [= <- <-]. simpl in Hle |- *. rewrite drop_0. unfold write_tlv, write_len.
      unfold is_byte in Hlen. rewrite body_zlen by lia. rewrite H8.
      destruct (len <=? 255) eqn:H9; bool_hyps; [|lia].
      simpl. rewrite length_take, take_drop, Nat.min_l by lia.
      assert (l = 129) as -> by lia. repeat split; [lia].
    + destruct (l - 128 =? 2) eqn:H2; [|done]. bool_hyps.
      destruct rest as [|b0 [|b1 rest]]; [done..|].
      apply Forall_cons in Hr as [Hb0 Hr]. apply Forall_cons in Hr as [Hb1 _].
      destruct (b0 * 256 + b1 <? 256) eqn:H8; [done|]. intros H.
      destruct (Nat.leb_spec (4 + Z.to_nat (b0 * 256 + b1)) (length (tag :: l :: b0 :: b1 :: rest)))
        as [Hle|]; [|done].
      injection H as [= <- <-]. simpl in Hle |- *. rewrite drop_0. unfold write_tlv, write_len.
      unfold is_byte in *. bool_hyps. rewrite body_zlen by lia.
      destruct (b0 * 256 + b1 <? 128) eqn:H9; bool_hyps; [lia|].
      destruct (b0 * 256 + b1 <=? 255) eqn:H10; bool_hyps; [lia|].
      rewrite be_bytes_2 by lia. simpl. rewrite length_take, take_drop, Nat.min_l by lia.
      rewrite (Z.add_comm (b0 * 256)), Z.div_add, Z.mod_add by lia.
      rewrite Z.div_small, Z.mod_small by lia. assert (l = 130) as -> by lia.
      repeat split; [lia].
Qed.

Definition encode_element (e : Element) : list Z := write_tlv (e_tag e) (e_contents e).
Definition short_element (e : Element) : Prop := zlen (e_contents e) < 65536.

(** Every element consumes input: the loop of [read_sequence] terminates. *)
Lemma read_tlv_progress data e n : read_tlv data = Ok (e, n) → (2 ≤ n ≤ length data)%nat.
Proof.
  destruct data as [|tag [|l rest]]; [done..|]. unfold read_tlv. intros H.
  repeat case_match; simplify_eq; try done;
    match goal with H : (_ <=? _)%nat = true |- _ => apply Nat.leb_le in H end; lia.
Qed.

Lemma read_elements_fuel fuel data :
  (length data ≤ fuel)%nat → read_elements fuel data = read_sequence data.
Proof.
  unfold read_sequence. generalize (Nat.le_refl (length data)).
  generalize (length data) at 2 4 as m. revert data.
  induction fuel as [|fuel IH]; intros data m Hm Hf.
  - destruct data; [|simpl in Hf; lia]. by destruct m.
  - destruct data as [|b data]; [by destruct m|]. destruct m as [|m]; [simpl in Hm; lia|].
    cbn [read_elements]. destruct (read_tlv (b :: data)) as [[e n]|] eqn:He; [|done].
    apply read_tlv_progress in He. simpl length in *. cbn [fst snd].
    rewrite (IH _ m); [done| rewrite length_drop; simpl length; lia..].
Qed.

Lemma read_sequence_unfold data :
  data ≠ [] →
  read_sequence data =
    let? e := read_tlv data in
    let? es := read_sequence (drop e.2 data) in
    Ok (e.1 :: es).
Proof.
  intros Hne. unfold read_sequence at 1. destruct data as [|b data]; [done|].
  cbn [read_elements length]. destruct (read_tlv (b :: data)) as [[e n]|] eqn:He; [|done].
  apply read_tlv_progress in He. cbn [fst snd].
  rewrite read_elements_fuel; [done|]. rewrite length_drop. simpl in *. lia.
Qed.

Lemma read_sequence_encode es :
  Forall short_element es → read_sequence (mjoin (encode_element <$> es)) = Ok es.
Proof.
  induction 1 as [|e es He _ IH]; [done|].
  change (mjoin (encode_element <$> e :: es))
    with (write_tlv (e_tag e) (e_contents e) ++ mjoin (encode_element <$> es)).
  rewrite read_sequence_unfold by done.
  rewrite read_tlv_write by done. cbn [fst snd].
  rewrite drop_app_length, IH. by destruct e.
Qed.

(** The decoder of a SEQUENCE body accepts a byte buffer exactly when it is the
    concatenation of the canonical encodings of elements shorter than 64 KiB, and
    returns those elements: truncated, non-minimal and over-long lengths are
    rejected, and no buffer has two readings. *)
Theorem der_sequence_exact data es :
  Forall is_byte data →
  read_sequence data = Ok es
    ↔ Forall short_element es ∧ data = mjoin (encode_element <$> es).
Proof.
  intros Hb. split; [|intros [Hs ->]; by apply read_sequence_encode].
  revert data Hb. induction es as [|e es IH]; intros data Hb.
  - destruct data as [|b data]; [done|]. rewrite read_sequence_unfold by done.
    intros H. repeat case_match; simplify_eq.
  - destruct data as [|b data]; [done|]. rewrite read_sequence_unfold by done.
    destruct (read_tlv (b :: data)) as [[e' n]|] eqn:He; [|done]. cbn [fst snd].
    destruct (read_sequence _) as [es'|] eqn:Hes; [|done]. intros [= -> ->].
    apply read_tlv_canonical in He as (Hlen & -> & Hd); [|done].
    apply IH in Hes as [Hs Hrest]; [|by apply Forall_drop].
    split; [by constructor|]. rewrite fmap_cons. simpl mjoin. rewrite <- Hrest. exact Hd.
Qed.

(** ** A minted staple verifies *)

(** [{:04}] and [{:02}] on the ranges of a calendar. *)
Lemma small_cases (n : nat) (P : Z → bool) z :
  forallb P (Z.of_nat <$> seq 0 n) = true → 0 ≤ z < Z.of_nat n → P z = true.
Proof.
  intros HP ?. rewrite forallb_forall in HP. apply HP.
  apply list_elem_of_In, list_elem_of_fmap. exists (Z.to_nat z).
  split; [lia|]. apply elem_of_seq. lia.
Qed.

Lemma pad_dec_4 z :
  0 ≤ z < 10000 →
  pad_dec 4 z = [48 + z / 1000; 48 + z / 100 mod 10; 48 + z / 10 mod 10; 48 + z mod 10].
Proof.
  intros Hz. apply (bool_decide_eq_true_1 _).
  refine (small_cases 10000 (λ z, bool_decide (pad_dec 4 z =
    [48 + z / 1000; 48 + z / 100 mod 10; 48 + z / 10 mod 10; 48 + z mod 10])) z _ Hz).
  by vm_compute.
Qed.

Lemma pad_dec_2 z : 0 ≤ z < 100 → pad_dec 2 z = [48 + z / 10; 48 + z mod 10].
Proof.
  intros Hz. apply (bool_decide_eq_true_1 _).
  refine (small_cases 100 (λ z, bool_decide (pad_dec 2 z = [48 + z / 10; 48 + z mod 10])) z _ Hz).
  by vm_compute.
Qed.

Record civil_ok (c : Civil) : Prop := {
  ok_year : 0 ≤ c_year c < 10000;
  ok_month : 1 ≤ c_month c ≤ 12;
  ok_day : 1 ≤ c_day c ≤ 31;
  ok_hour : 0 ≤ c_hour c ≤ 23;
  ok_minute : 0 ≤ c_minute c ≤ 59;
  ok_second : 0 ≤ c_second c ≤ 59 }.

Lemma two_digits z : 0 ≤ z < 100 → (48 + z / 10 - 48) * 10 + (48 + z mod 10 - 48) = z.
Proof. intros. pose proof (Z.div_mod z 10). lia. Qed.

Lemma four_digits z :
  0 ≤ z < 10000 →
  (48 + z / 1000 - 48) * 1000 + (48 + z / 100 mod 10 - 48) * 100
  + (48 + z / 10 mod 10 - 48) * 10 + (48 + z mod 10 - 48) = z.
Proof. intros. Z.to_euclidean_division_equations. lia. Qed.

Lemma digit_ok z : 0 ≤ z < 10 → is_ascii_digit (48 + z) = true.
Proof. intros. unfold is_ascii_digit. apply andb_true_intro. split; apply Z.leb_le; lia. Qed.

Section mint.
Context `{C : OcspCrates}.

(** The time crate maps the instant to its calendar fields and back. *)
Definition time_roundtrips (t : Z) : Prop :=
  ∃ c, civil_of_unix t = Some c ∧ civil_ok c ∧ unix_of_civil c = Some t ∧ 0 ≤ t ≤ I64_MAX.

Lemma civil_text_eq c :
  civil_ok c →
  civil_text c =
    [48 + c_year c / 1000; 48 + c_year c / 100 mod 10; 48 + c_year c / 10 mod 10;
     48 + c_year c mod 10; 48 + c_month c / 10; 48 + c_month c mod 10;
     48 + c_day c / 10; 48 + c_day c mod 10; 48 + c_hour c / 10; 48 + c_hour c mod 10;
     48 + c_minute c / 10; 48 + c_minute c mod 10; 48 + c_second c / 10;
     48 + c_second c mod 10; 90].
Proof.
  intros []. unfold civil_text. rewrite pad_dec_4, !pad_dec_2 by lia. done.
Qed.

Lemma read_generalized_text c t :
  civil_ok c → unix_of_civil c = Some t → 0 ≤ t ≤ I64_MAX →
  read_generalized (civil_text c) = Ok t.
Proof.
  intros Hc Hu Ht. rewrite civil_text_eq by done. destruct Hc. unfold read_generalized.
  replace (forallb is_ascii_digit _) with true; cycle 1.
  { symmetry. cbn [forallb]. rewrite !digit_ok; [done|..];
      Z.to_euclidean_division_equations; lia. }
  rewrite four_digits, !two_digits by lia. destruct c as [y mo d h mi s]. simpl in *.
  rewrite (proj2 (Z.leb_le 1 mo)), (proj2 (Z.leb_le mo 12)), (proj2 (Z.leb_le 1 d)),
    (proj2 (Z.leb_le d 31)), (proj2 (Z.leb_le h 23)), (proj2 (Z.leb_le mi 59)),
    (proj2 (Z.leb_le s 59)) by lia. simpl. rewrite Hu. simpl.
  unfold cast_unsigned. rewrite Z.mod_small; [done|]. unfold I64_MAX in *. lia.
Qed.

(** The time elements of a mint: a 15-byte GeneralizedTime that reads back. *)
Lemma generalized_time_spec t :
  time_roundtrips t →
  ∃ text, generalized_time t = write_tlv 0x18 text ∧ zlen text = 15
    ∧ read_generalized text = Ok t.
Proof.
  intros (c & Hc & Hok & Hu & Ht). exists (civil_text c). split_and!.
  - unfold generalized_time, cast_signed. destruct (Z.leb_spec t I64_MAX); [|lia]. by rewrite Hc.
  - by rewrite civil_text_eq.
  - by apply read_generalized_text.
Qed.

Lemma zlen_write_tlv tag c : zlen (write_tlv tag c) ≤ 4 + zlen c.
Proof.
  unfold write_tlv, write_len. rewrite zlen_cons, zlen_app.
  repeat case_match; unfold zlen; simpl; lia.
Qed.

(** Reading a body that is written element by element. *)
Lemma read_written data es :
  data = mjoin (encode_element <$> es) → Forall short_element es → read_sequence data = Ok es.
Proof. intros ->. apply read_sequence_encode. Qed.

Lemma sequence_body_write c : zlen c < 65536 → sequence_body (sequence c) = Ok c.
Proof.
  intros Hc. unfold sequence_body, sequence.
  rewrite <- (app_nil_r (write_tlv 0x30 c)) at 1. rewrite read_tlv_write by done.
  cbn [fst snd e_tag e_contents]. by rewrite Nat.eqb_refl.
Qed.

Lemma read_tlv_whole tag c :
  zlen c < 65536 → read_tlv (write_tlv tag c) = Ok (mkElement tag c, length (write_tlv tag c)).
Proof. intros. rewrite <- (app_nil_r (write_tlv tag c)) at 1. by apply read_tlv_write. Qed.

(** The INTEGER of a serial strips to the same digits. *)
Lemma integer_spec b :
  ∃ c, integer b = write_tlv 0x02 c ∧ minimal_be c = minimal_be b ∧ zlen c ≤ 1 + zlen b.
Proof.
  assert (Hidem : minimal_be (minimal_be b) = minimal_be b ∧ zlen (minimal_be b) ≤ zlen b).
  { induction b as [|x b [IH1 IH2]]; [done|]. simpl. destruct (x =? 0) eqn:Hx.
    - split; [done|]. rewrite zlen_cons. lia.
    - simpl. rewrite Hx. split; [done|lia]. }
  destruct Hidem as [Hi Hl]. pose proof (zlen_nonneg b). unfold integer. eexists. split; [done|].
  destruct (minimal_be b) as [|x r] eqn:Hm.
  - split; [done|]. unfold zlen in *. simpl in *. lia.
  - destruct (Z.land x 0x80 =? 0).
    + split; [done|lia].
    + change (minimal_be (0 :: x :: r)) with (minimal_be (x :: r)). rewrite Hi. split; [done|].
      rewrite zlen_cons. lia.
Qed.

(** Discharge the length side conditions of a written body. *)
Ltac shorts :=
  repeat first [apply Forall_nil_2 | apply Forall_cons_2]; unfold short_element; cbn [e_contents];
  try change (zlen (@nil Z)) with 0; try lia.

Lemma parse_next_update_spec e t u :
  e_tag e = 0xA0 → (∃ text, e_contents e = write_tlv 0x18 text ∧ zlen text = 15
    ∧ read_generalized text = Ok t) → parse_next_update [e] u = Ok t.
Proof.
  intros He (text & Hc & Hl & Hr). unfold parse_next_update. rewrite He, Hc.
  cbn [Z.eqb Pos.eqb]. rewrite read_tlv_whole by lia. done.
Qed.

Section one_mint.
Context (i : OcspMintInput).
Context (digest_len : ∀ b, zlen (sha256_bytes b) = 32).
Context (now_ok : time_roundtrips (mi_now i))
        (next_ok : time_roundtrips (add64 (mi_now i) (mi_validity_secs i))).
Context (serial_len : zlen (mi_serial i) = 8)
        (subject_len : zlen (mi_issuer_subject_der i) ≤ 60000).

(** The certID names the serial, and stays short. *)
Lemma cert_id_spec :
  ∃ d1 d2 serial, minimal_be serial = minimal_be (mi_serial i)
    ∧ read_sequence (cert_id i)
      = Ok [mkElement 0x06 OID_SHA256; mkElement 0x04 d1; mkElement 0x04 d2;
            mkElement 0x02 serial]
    ∧ zlen (cert_id i) ≤ 110.
Proof.
  destruct (integer_spec (mi_serial i)) as (ser & Hs & Hm & Ls).
  pose proof (digest_len (mi_issuer_subject_der i)) as L1.
  pose proof (digest_len (mi_issuer_public_key i)) as L2.
  unfold cert_id. rewrite Hs.
  generalize dependent (sha256_bytes (mi_issuer_subject_der i)). intros d1 L1.
  generalize dependent (sha256_bytes (mi_issuer_public_key i)). intros d2 L2.
  exists d1, d2, ser. split_and!; [done|..].
  - apply read_written; [|shorts; by change (zlen OID_SHA256) with 9].
    cbn [fmap list_fmap mjoin list_join]. by rewrite app_nil_r.
  - unfold oid, octet_string. rewrite !zlen_app.
    pose proof (zlen_write_tlv 0x06 OID_SHA256). pose proof (zlen_write_tlv 0x04 d1).
    pose proof (zlen_write_tlv 0x04 d2). pose proof (zlen_write_tlv 0x02 ser).
    change (zlen OID_SHA256) with 9 in *. lia.
Qed.

Lemma parse_single_minted :
  ∃ serial, minimal_be serial = minimal_be (mi_serial i) ∧
    parse_single (single_response i)
    = Ok (serial, true, mi_now i, add64 (mi_now i) (mi_validity_secs i)).
Proof.
  destruct (generalized_time_spec _ now_ok) as (tn & Hn & Ln & Rn).
  destruct (generalized_time_spec _ next_ok) as (tx & Hx & Lx & Rx).
  destruct cert_id_spec as (d1 & d2 & ser & Hm & Hcid & Lcid).
  exists ser. split; [done|]. unfold parse_single.
  rewrite (read_written _ [mkElement 0x30 (cert_id i); mkElement 0x80 []; mkElement 0x18 tn;
    mkElement 0xA0 (write_tlv 0x18 tx)]); cycle 1.
  { unfold single_response. rewrite Hn, Hx. cbn [fmap list_fmap mjoin list_join].
    by rewrite app_nil_r. }
  { pose proof (zlen_write_tlv 0x18 tx). shorts. }
  cbn [e_contents e_tag]. rewrite Hcid. cbn [e_tag e_contents Z.eqb Pos.eqb]. rewrite Rn.
  rewrite (parse_next_update_spec _ (add64 (mi_now i) (mi_validity_secs i))); [done..|]. by exists tx.
Qed.

Lemma zlen_single : zlen (single_response i) ≤ 180.
Proof.
  destruct (generalized_time_spec _ now_ok) as (tn & Hn & Ln & _).
  destruct (generalized_time_spec _ next_ok) as (tx & Hx & Lx & _).
  destruct cert_id_spec as (_ & _ & _ & _ & _ & Lcid).
  unfold single_response, sequence, write_explicit. rewrite Hn, Hx, !zlen_app.
  pose proof (zlen_write_tlv 0x30 (cert_id i)). pose proof (zlen_write_tlv 0x18 tn).
  pose proof (zlen_write_tlv 0x18 tx).
  pose proof (zlen_write_tlv (Z.lor 0xA0 (Z.land 0 0x1F)) (write_tlv 0x18 tx)).
  change (zlen [0x80; 0x00]) with 2. lia.
Qed.

Lemma parse_response_data_minted :
  ∃ serial, minimal_be serial = minimal_be (mi_serial i) ∧
    parse_response_data (response_data i)
    = Ok (serial, true, mi_now i, add64 (mi_now i) (mi_validity_secs i)).
Proof.
  destruct (generalized_time_spec _ now_ok) as (tn & Hn & Ln & Rn).
  destruct parse_single_minted as (ser & Hm & Hp). exists ser. split; [done|].
  pose proof zlen_single. pose proof (zlen_write_tlv 0x30 (single_response i)).
  unfold parse_response_data.
  rewrite (read_written _ [mkElement 0xA0 (mi_issuer_subject_der i); mkElement 0x18 tn;
    mkElement 0x30 (sequence (single_response i))]); cycle 1.
  { unfold response_data. rewrite Hn. cbn [fmap list_fmap mjoin list_join]. by rewrite app_nil_r. }
  { shorts. unfold sequence. lia. }
  cbn [e_contents e_tag]. rewrite Rn.
  rewrite (read_written _ [mkElement 0x30 (single_response i)]); [done|..|shorts].
  cbn [fmap list_fmap mjoin list_join]. by rewrite app_nil_r.
Qed.

Lemma zlen_response_data : zlen (response_data i) ≤ 60300.
Proof.
  destruct (generalized_time_spec _ now_ok) as (tn & Hn & Ln & _).
  unfold response_data, sequence. rewrite Hn, !zlen_app.
  pose proof zlen_single. unfold write_explicit.
  pose proof (zlen_write_tlv (Z.lor 0xA0 (Z.land 0 0x1F)) (mi_issuer_subject_der i)).
  pose proof (zlen_write_tlv 0x18 tn). pose proof (zlen_write_tlv 0x30 (single_response i)).
  pose proof (zlen_write_tlv 0x30 (write_tlv 0x30 (single_response i))). lia.
Qed.

Lemma parse_basic_minted sig :
  zlen sig = 64 →
  parse_basic (sequence (basic_response i sig)) = Ok (response_data i, sig)
  ∧ zlen (sequence (basic_response i sig)) ≤ 60500.
Proof.
  intros Hsig. pose proof zlen_response_data.
  pose (alg := oid OID_ECDSA_WITH_SHA256 ++ [0x05; 0x00]).
  assert (Hb : zlen (basic_response i sig) ≤ 60450).
  { unfold basic_response. fold alg. unfold sequence, bit_string. rewrite !zlen_app.
    pose proof (zlen_write_tlv 0x30 (response_data i)). pose proof (zlen_write_tlv 0x30 alg).
    pose proof (zlen_write_tlv 0x03 (0 :: sig)). rewrite zlen_cons in *.
    change (zlen alg) with 12 in *. lia. }
  split; [|unfold sequence; pose proof (zlen_write_tlv 0x30 (basic_response i sig)); lia].
  unfold parse_basic. rewrite sequence_body_write by lia.
  rewrite (read_written _ [mkElement 0x30 (response_data i); mkElement 0x30 alg;
    mkElement 0x03 (0 :: sig)]); cycle 1.
  { unfold basic_response. fold alg. cbn [fmap list_fmap mjoin list_join]. by rewrite app_nil_r. }
  { shorts; [done|]. rewrite zlen_cons. lia. }
  cbn [e_tag e_contents]. change (read_tlv alg) with
    (@Ok OcspError _ (mkElement 0x06 OID_ECDSA_WITH_SHA256, 10%nat)).
  assert (length sig = 64%nat) as Hl by (unfold zlen in Hsig; lia).
  cbn [e_tag e_contents fst snd length]. by rewrite Hl.
Qed.

Lemma parse_envelope_minted basic :
  zlen basic ≤ 60500 →
  parse_envelope (sequence (enumerated 0
    ++ write_explicit 0 (sequence (oid OID_BASIC ++ octet_string basic)))) = Ok basic.
Proof.
  intros Hb. pose (rb := oid OID_BASIC ++ octet_string basic).
  assert (Hrb : zlen rb ≤ 60600).
  { unfold rb, octet_string. rewrite zlen_app. pose proof (zlen_write_tlv 0x04 basic).
    change (zlen (oid OID_BASIC)) with 11. lia. }
  fold rb. pose proof (zlen_write_tlv 0x30 rb).
  pose proof (zlen_write_tlv (Z.lor 0xA0 (Z.land 0 0x1F)) (write_tlv 0x30 rb)).
  unfold parse_envelope. rewrite sequence_body_write; cycle 1.
  { unfold write_explicit, sequence. rewrite zlen_app. change (zlen (enumerated 0)) with 3. lia. }
  rewrite (read_written _ [mkElement 0x0A [0]; mkElement 0xA0 (sequence rb)]); cycle 1.
  { cbn [fmap list_fmap mjoin list_join]. by rewrite app_nil_r. }
  { shorts; [done|]. unfold sequence. lia. }
  cbn [e_tag e_contents Z.eqb Pos.eqb andb].
  change (bytes_eqb [0] [0]) with true. change (explicit_index 0xA0 =? 0) with true.
  rewrite sequence_body_write by lia.
  rewrite (read_written _ [mkElement 0x06 OID_BASIC; mkElement 0x04 basic]); cycle 1.
  { unfold rb. cbn [fmap list_fmap mjoin list_join]. by rewrite app_nil_r. }
  { shorts. done. }
  done.
Qed.
End one_mint.

(** C19: the staple that a Root CA mints for a certificate parses, and verifies under
    the CA's key: inside its window as good for the certificate's serial and as a
    mismatch for any other serial, outside its window as expired.  (The CA's key
    signs, its public half verifies those signatures, and the time crate
    round-trips the two instants; the subject DN fits the two-byte DER length.) *)
Theorem minted_staple_verifies i :
  (∀ b, zlen (sha256_bytes b) = 32) →
  time_roundtrips (mi_now i) → time_roundtrips (add64 (mi_now i) (mi_validity_secs i)) →
  zlen (mi_serial i) = 8 → zlen (mi_issuer_subject_der i) ≤ 60000 →
  (∀ m, ∃ sig, p256_sign (mi_issuer_pkcs8_der i) m = Some sig ∧ zlen sig = 64
           ∧ p256_verify (mi_issuer_public_key i) m sig = true) →
  ∃ der p, mint_good_response i = Ok der ∧ parse_staple der = Ok p
    ∧ ∀ peer_serial now,
        verify_against p (mi_issuer_public_key i) peer_serial now
        = if (mi_now i <=? now) && (now <=? add64 (mi_now i) (mi_validity_secs i)) then
            if bool_decide (minimal_be (mi_serial i) = minimal_be peer_serial)
            then Ok Good else Err CertMismatch
          else Err Expired.
Proof.
  intros Hd Hn Hx Hs Hsub Hk. destruct (Hk (response_data i)) as (sig & Hsig & Hl & Hv).
  destruct (parse_response_data_minted i Hd Hn Hx Hs Hsub) as (ser & Hm & Hp).
  destruct (parse_basic_minted i Hd Hn Hx Hs Hsub sig Hl) as [Hb Hbl].
  eexists _, _. split; [|split].
  - unfold mint_good_response, sign_p256_sha256. rewrite Hsig. done.
  - unfold parse_staple. rewrite parse_envelope_minted by done. rewrite Hb.
    cbn [fst snd]. rewrite Hp. done.
  - intros peer now. unfold verify_against. simpl. rewrite Hv, Hm. unfold bytes_eqb.
    destruct (Z.ltb_spec now (mi_now i)), (Z.leb_spec (mi_now i) now); try lia; [done|].
    destruct (Z.ltb_spec (add64 (mi_now i) (mi_validity_secs i)) now),
      (Z.leb_spec now (add64 (mi_now i) (mi_validity_secs i))); try lia; done.
Qed.
End mint.
