(* ===== verification/CertVerifier.v ===== *)
(** The certificate chain verifier (glasschain-identity: cert_verifier.rs).

    The trust store (own root, federation roots, intermediates, CRLs), the checks
    that a peer certificate goes through, the certificate-verified organization
    name and the OCSP staple check.  PEM and X.509 parsing, and the path building
    and revocation checking of webpki, are parameters. *)

From S2P Require Import Prelude Ocsp.

Local Open Scope Z_scope.

(** ** Code outside the repository *)

(** The parts of a parsed X.509 certificate that the verifier reads; names are
    their DER encodings. *)
Inductive DirectoryString :=
| Utf8String (text : string)
| PrintableString (text : string)
| OtherString.

Record ParsedCert := mkParsedCert {
  pc_subject : list Z;
  pc_issuer : list Z;
  pc_common_name : option DirectoryString;
  pc_organization_unit : option DirectoryString;
  pc_not_before : Z;
  pc_not_after : Z;
  pc_serial : list Z;
  pc_public_key : option (list Z) }.

Inductive WebpkiError :=
| WCertRevoked
| WUnknownRevocationStatus
| WCrlExpired
| WUnknownIssuer
| WOther (text : string).

Class Pki := {
  (** rustls-pki-types: the first CERTIFICATE (CRL) block of a PEM text *)
  cert_of_pem : string → result string (list Z);
  crl_of_pem : string → result string (list Z);
  (** x509-cert: [Certificate::from_der] *)
  cert_of_der : list Z → result string ParsedCert;
  (** webpki: [OwnedCertRevocationList::from_der], [anchor_from_trusted_cert] and
      [EndEntityCert::try_from] *)
  webpki_crl : list Z → result string unit;
  webpki_anchor : list Z → result string unit;
  webpki_end_entity : list Z → result string unit;
  (** [verify_for_usage] of an end entity against one anchor through
      intermediates at a time, with full-chain fail-closed revocation *)
  webpki_verify : list Z → list Z → list (list Z) → list (list Z) → Z
                  → result WebpkiError unit }.

(** ** The verifier *)

Inductive VerificationLevel := Structural | Full.

#[export] Instance VerificationLevel_eq_dec : EqDecision VerificationLevel.
Proof. solve_decision. Defined.

Inductive CertVerificationError :=
| ParseError (e : string)
| IssuerMismatch (expected_org actual_issuer : string)
| InvalidValidity
| Revoked
| RevocationStatusUnknown
| CrlExpired
| CrlMissing
| SignatureInvalid (e : string)
| PemError (e : string)
| MissingIssuer.

Record TrustAnchor := mkAnchor { ta_org_name : string; ta_cert_der : list Z }.

Record CertChainVerifier := mkVerifier {
  root_cert_der : list Z;
  cv_org_name : string;
  cv_level : VerificationLevel;
  federation_anchors : list TrustAnchor;
  intermediates : list TrustAnchor;
  crls : list (list Z) }.

Definition with_level (v : CertChainVerifier) (l : VerificationLevel) : CertChainVerifier :=
  mkVerifier (root_cert_der v) (cv_org_name v) l (federation_anchors v) (intermediates v) (crls v).

Definition add_federation (v : CertChainVerifier) (a : TrustAnchor) : CertChainVerifier :=
  mkVerifier (root_cert_der v) (cv_org_name v) (cv_level v) (federation_anchors v ++ [a])
    (intermediates v) (crls v).

Definition add_intermediate (v : CertChainVerifier) (a : TrustAnchor) : CertChainVerifier :=
  mkVerifier (root_cert_der v) (cv_org_name v) (cv_level v) (federation_anchors v)
    (intermediates v ++ [a]) (crls v).

Definition push_crl (v : CertChainVerifier) (c : list Z) : CertChainVerifier :=
  mkVerifier (root_cert_der v) (cv_org_name v) (cv_level v) (federation_anchors v)
    (intermediates v) (crls v ++ [c]).

Definition federation_anchor_count (v : CertChainVerifier) : nat := length (federation_anchors v).
Definition crl_count (v : CertChainVerifier) : nat := length (crls v).

Definition map_webpki_error (e : WebpkiError) : CertVerificationError :=
  match e with
  | WCertRevoked => Revoked
  | WUnknownRevocationStatus => RevocationStatusUnknown
  | WCrlExpired => CrlExpired
  | WUnknownIssuer => IssuerMismatch "" "no path to a trust anchor"
  | WOther t => SignatureInvalid t
  end.

Section verifier.
Context `{P : Pki} `{C : OcspCrates}.

Definition from_der (org_name : string) (root_ca_der : list Z)
  : result CertVerificationError CertChainVerifier :=
  let? _ := map_err ParseError (cert_of_der root_ca_der) in
  Ok (mkVerifier root_ca_der org_name Full [] [] []).

Definition from_pem (org_name root_ca_pem : string)
  : result CertVerificationError CertChainVerifier :=
  let? der := map_err PemError (cert_of_pem root_ca_pem) in
  from_der org_name der.

(** Self-issued certificates become anchors, the others intermediates. *)
Definition add_anchor (v : CertChainVerifier) (org_label : string) (root_ca_der : list Z)
  : result CertVerificationError CertChainVerifier :=
  let? parsed := map_err ParseError (cert_of_der root_ca_der) in
  let entry := mkAnchor org_label root_ca_der in
  Ok (if bytes_eqb (pc_subject parsed) (pc_issuer parsed)
      then add_federation v entry else add_intermediate v entry).

Definition add_federation_root_pem (v : CertChainVerifier) (org_label root_ca_pem : string)
  : result CertVerificationError CertChainVerifier :=
  let? der := map_err PemError (cert_of_pem root_ca_pem) in
  add_anchor v org_label der.

(** The loop over the CERTIFICATE blocks of a bundle file; what was added before
    an error stays. *)
Fixpoint add_root_blocks (v : CertChainVerifier) (label : string) (added : N)
    (blocks : list (result string (list Z))) : CertChainVerifier * result CertVerificationError N :=
  match blocks with
  | [] => (v, Ok added)
  | Err e :: _ => (v, Err (PemError e))
  | Ok der :: blocks =>
      match add_anchor v (label +:+ "#" +:+ pretty added) der with
      | Err e => (v, Err e)
      | Ok v => add_root_blocks v label (added + 1)%N blocks
      end
  end.

(** [blocks] is what the PEM iterator yields on the file, if it opens. *)
Definition add_federation_root_file (v : CertChainVerifier) (label path : string)
    (blocks : result string (list (result string (list Z))))
  : CertChainVerifier * result CertVerificationError unit :=
  match blocks with
  | Err e => (v, Err (PemError e))
  | Ok blocks =>
      match add_root_blocks v label 0 blocks with
      | (v, Err e) => (v, Err e)
      | (v, Ok added) =>
          (v, if (added =? 0)%N then Err (PemError ("no CERTIFICATE block found in " +:+ path))
              else Ok tt)
      end
  end.

Definition add_crl_pem (v : CertChainVerifier) (crl_pem : string)
  : result CertVerificationError CertChainVerifier :=
  let? der := map_err PemError (crl_of_pem crl_pem) in
  let? _ := map_err ParseError (webpki_crl der) in
  Ok (push_crl v der).

Fixpoint add_crl_blocks (v : CertChainVerifier) (added : N)
    (blocks : list (result string (list Z))) : CertChainVerifier * result CertVerificationError N :=
  match blocks with
  | [] => (v, Ok added)
  | Err e :: _ => (v, Err (PemError e))
  | Ok der :: blocks =>
      match webpki_crl der with
      | Err e => (v, Err (ParseError e))
      | Ok _ => add_crl_blocks (push_crl v der) (added + 1)%N blocks
      end
  end.

Definition add_crl_file (v : CertChainVerifier) (path : string)
    (blocks : result string (list (result string (list Z))))
  : CertChainVerifier * result CertVerificationError unit :=
  match blocks with
  | Err e => (v, Err (PemError e))
  | Ok blocks =>
      match add_crl_blocks v 0 blocks with
      | (v, Err e) => (v, Err e)
      | (v, Ok added) =>
          (v, if (added =? 0)%N then Err (PemError ("no X509 CRL block found in " +:+ path))
              else Ok tt)
      end
  end.

(** ** Verification *)

Definition check_validity (now : Z) (c : ParsedCert) : result CertVerificationError unit :=
  guard? negb ((now <? pc_not_before c) || (pc_not_after c <? now)) else InvalidValidity in
  Ok tt.

Definition verify_path (now : Z) (v : CertChainVerifier) (anchor : TrustAnchor)
    (peer_cert_der : list Z) : result CertVerificationError unit :=
  let? _ := map_err SignatureInvalid (webpki_anchor (ta_cert_der anchor)) in
  let? _ := map_err ParseError (webpki_end_entity peer_cert_der) in
  guard? negb (bool_decide (crls v = [])) else CrlMissing in
  map_err map_webpki_error
    (webpki_verify (ta_cert_der anchor) peer_cert_der (ta_cert_der <$> intermediates v) (crls v) now).

(** The anchor loop: the first path that verifies, or the last error. *)
Fixpoint verify_anchors (now : Z) (v : CertChainVerifier) (peer_cert_der : list Z)
    (anchors : list TrustAnchor) (last : CertVerificationError)
  : result CertVerificationError unit :=
  match anchors with
  | [] => Err last
  | a :: anchors =>
      match verify_path now v a peer_cert_der with
      | Ok _ => Ok tt
      | Err e => verify_anchors now v peer_cert_der anchors e
      end
  end.

Definition own_anchor (v : CertChainVerifier) : TrustAnchor :=
  mkAnchor (cv_org_name v) (root_cert_der v).

(** The fallback error is never returned: the own anchor is always tried. *)
Definition verify_cert_der (now : Z) (v : CertChainVerifier) (peer_cert_der : list Z)
  : result CertVerificationError unit :=
  let? peer_cert := map_err ParseError (cert_of_der peer_cert_der) in
  let? _ := check_validity now peer_cert in
  if bool_decide (cv_level v = Structural) then Ok tt else
  guard? negb (bool_decide (crls v = [])) else CrlMissing in
  verify_anchors now v peer_cert_der (own_anchor v :: federation_anchors v)
    (IssuerMismatch (cv_org_name v) "").

Definition subject_cn (c : ParsedCert) : option string :=
  match pc_common_name c with
  | Some (Utf8String t) | Some (PrintableString t) => Some t
  | _ => None
  end.

Definition verified_subject_cn (now : Z) (v : CertChainVerifier) (peer_cert_der : list Z)
  : result CertVerificationError string :=
  let? _ := verify_cert_der now v peer_cert_der in
  let? peer_cert := map_err ParseError (cert_of_der peer_cert_der) in
  ok_or (subject_cn peer_cert) (ParseError "subject Common Name is absent").

Definition verified_subject_cn_pem (now : Z) (v : CertChainVerifier) (peer_cert_pem : string)
  : result CertVerificationError string :=
  let? der := map_err PemError (cert_of_pem peer_cert_pem) in
  verified_subject_cn now v der.

Definition verify_cert_pem (now : Z) (v : CertChainVerifier) (peer_cert_pem : string)
  : result CertVerificationError unit :=
  let? der := map_err PemError (cert_of_pem peer_cert_pem) in
  verify_cert_der now v der.

(** The key of the first trusted certificate whose subject is the issuer. *)
Fixpoint issuer_key (issuer : list Z) (anchors : list (list Z)) : option (list Z) :=
  match anchors with
  | [] => None
  | a :: anchors =>
      match cert_of_der a with
      | Ok ca => if bytes_eqb (pc_subject ca) issuer then pc_public_key ca
                 else issuer_key issuer anchors
      | Err _ => issuer_key issuer anchors
      end
  end.

Definition trusted_ders (v : CertChainVerifier) : list (list Z) :=
  root_cert_der v :: (ta_cert_der <$> federation_anchors v) ++ (ta_cert_der <$> intermediates v).

Definition verify_ocsp_staple (now : Z) (v : CertChainVerifier) (peer_cert_pem : string)
    (staple_der : list Z) : result OcspError OcspStatus :=
  let? peer_der := map_err (λ _, Malformed) (cert_of_pem peer_cert_pem) in
  let? peer_cert := map_err (λ _, Malformed) (cert_of_der peer_der) in
  let? key := ok_or (issuer_key (pc_issuer peer_cert) (trusted_ders v)) Malformed in
  let? staple := parse_staple staple_der in
  verify_against staple key (pc_serial peer_cert) now.

(** ** What verification establishes *)

Definition in_window (now : Z) (c : ParsedCert) : Prop := pc_not_before c ≤ now ≤ pc_not_after c.

(** A path of the peer certificate to a trusted root, checked by webpki with the
    verifier's CRLs. *)
Definition trusted_path (now : Z) (v : CertChainVerifier) (a : TrustAnchor) (der : list Z) : Prop :=
  webpki_anchor (ta_cert_der a) = Ok tt ∧ webpki_end_entity der = Ok tt
  ∧ webpki_verify (ta_cert_der a) der (ta_cert_der <$> intermediates v) (crls v) now = Ok tt.

Lemma unit_ok {E} (r : result E unit) : is_ok r = true ↔ r = Ok tt.
Proof. by destruct r as [[]|]. Qed.

Lemma check_validity_ok now c : check_validity now c = Ok tt ↔ in_window now c.
Proof.
  unfold check_validity, in_window.
  destruct (Z.ltb_spec now (pc_not_before c)), (Z.ltb_spec (pc_not_after c) now); simpl;
    split; try done; lia.
Qed.

Lemma verify_path_ok now v a der :
  crls v ≠ [] → verify_path now v a der = Ok tt ↔ trusted_path now v a der.
Proof.
  intros Hc. unfold verify_path, trusted_path. rewrite (bool_decide_eq_false_2 _ Hc). simpl.
  destruct (webpki_anchor _) as [[]|]; simpl; [|naive_solver].
  destruct (webpki_end_entity _) as [[]|]; simpl; [|naive_solver].
  destruct (webpki_verify _ _ _ _ _) as [[]|]; simpl; naive_solver.
Qed.

Lemma verify_anchors_ok now v der anchors last :
  crls v ≠ [] →
  verify_anchors now v der anchors last = Ok tt ↔ ∃ a, a ∈ anchors ∧ trusted_path now v a der.
Proof.
  intros Hc. revert last. induction anchors as [|a anchors IH]; intros last; simpl.
  { split; [done|]. intros (? & []%not_elem_of_nil & _). }
  pose proof (verify_path_ok now v a der Hc) as Ha.
  destruct (verify_path now v a der) as [[]|e] eqn:Hp.
  - split; [|done]. intros _. exists a. split; [by left|]. by apply Ha.
  - rewrite IH. split; intros (b & Hb & Ht); exists b.
    + split; [by right|done].
    + apply elem_of_cons in Hb as [->|Hb]; [|done]. apply Ha in Ht. congruence.
Qed.

(** A peer certificate is accepted exactly when it parses, the clock is inside
    its validity window and, at the full level, CRLs are loaded and webpki verifies
    a path (signatures and revocation) to the own root or to a federation root.
    Without CRLs nothing is accepted at the full level. *)
Theorem verify_cert_der_exact now v der :
  verify_cert_der now v der = Ok tt
    ↔ ∃ c, cert_of_der der = Ok c ∧ in_window now c
        ∧ (cv_level v = Structural
           ∨ cv_level v = Full ∧ crls v ≠ []
             ∧ ∃ a, a ∈ own_anchor v :: federation_anchors v ∧ trusted_path now v a der).
Proof.
  unfold verify_cert_der. destruct (cert_of_der der) as [c|e]; cbn [map_err]; [|naive_solver].
  pose proof (check_validity_ok now c) as Hw.
  destruct (check_validity now c) as [[]|] eqn:Hcv; cycle 1.
  { split; [done|]. intros (? & [= <-] & Hin & _). apply Hw in Hin. congruence. }
  assert (in_window now c) as Hin by by apply Hw.
  destruct (cv_level v) eqn:Hl;
    [rewrite bool_decide_eq_true_2 by done | rewrite bool_decide_eq_false_2 by done].
  { split; [|done]. intros _. exists c. auto. }
  case_bool_decide as Hc; cbn [negb].
  { split; [done|]. naive_solver. }
  rewrite verify_anchors_ok by done. naive_solver.
Qed.

(** At the structural level the issuer is not looked at: a certificate whose
    issuer is no trusted certificate's subject is accepted, and so is the
    organization name it claims.  (The documentation of the level promises an
    issuer DN check.) *)
Theorem structural_ignores_issuer now v der c org :
  cv_level v = Structural → cert_of_der der = Ok c → in_window now c →
  subject_cn c = Some org →
  (∀ a ca, a ∈ trusted_ders v → cert_of_der a = Ok ca → pc_subject ca ≠ pc_issuer c) →
  verified_subject_cn now v der = Ok org.
Proof.
  intros Hl Hc Hw Hcn _. apply check_validity_ok in Hw.
  unfold verified_subject_cn, verify_cert_der. rewrite Hc. simpl. rewrite Hw. simpl.
  rewrite bool_decide_eq_true_2 by done. simpl. by rewrite Hcn.
Qed.

(** The verified organization name is not tied to the root that vouches for it:
    any federation root can issue a certificate that verifies as any organization,
    the verifier's own one included. *)
Theorem federation_root_vouches_for_any_name now v der c a org :
  cv_level v = Full → crls v ≠ [] → cert_of_der der = Ok c → in_window now c →
  a ∈ federation_anchors v → trusted_path now v a der → subject_cn c = Some org →
  ta_org_name a ≠ org →
  verified_subject_cn now v der = Ok org.
Proof.
  intros Hl Hcrl Hc Hw Ha Hp Hcn _. unfold verified_subject_cn.
  assert (verify_cert_der now v der = Ok tt) as ->.
  { unfold verify_cert_der. rewrite Hc. cbn [map_err].
    rewrite (proj2 (check_validity_ok now c) Hw). rewrite Hl.
    rewrite (bool_decide_eq_false_2 _ Hcrl). apply verify_anchors_ok; [done|].
    exists a. split; [by right|done]. }
  rewrite Hc. simpl. by rewrite Hcn.
Qed.

(** ** The trust store *)

(** The public operations that configure a verifier; the field [level] is public too. *)
Inductive StoreOp :=
| AddRootPem (label pem : string)
| AddRootFile (label path : string) (blocks : result string (list (result string (list Z))))
| AddCrlPem (pem : string)
| AddCrlFile (path : string) (blocks : result string (list (result string (list Z))))
| SetLevel (level : VerificationLevel).

(** A failed call leaves what it had added before the error. *)
Definition store_step (v : CertChainVerifier) (op : StoreOp) : CertChainVerifier :=
  match op with
  | AddRootPem l p => match add_federation_root_pem v l p with Ok v' => v' | Err _ => v end
  | AddRootFile l p b => (add_federation_root_file v l p b).1
  | AddCrlPem p => match add_crl_pem v p with Ok v' => v' | Err _ => v end
  | AddCrlFile p b => (add_crl_file v p b).1
  | SetLevel l => with_level v l
  end.

Definition parses (der : list Z) : bool := is_ok (cert_of_der der).
Definition self_issued (der : list Z) : bool :=
  match cert_of_der der with Ok c => bool_decide (pc_subject c = pc_issuer c) | Err _ => false end.

(** The blocks read up to the first that does not decode or is not accepted. *)
Fixpoint accepted_blocks (accepts : list Z → bool) (blocks : list (result string (list Z))) : list (list Z) :=
  match blocks with
  | Ok der :: blocks => if accepts der then der :: accepted_blocks accepts blocks else []
  | _ => []
  end.

(** The certificates and the CRLs an operation loads, and the level it leaves. *)
Definition loaded_certs (op : StoreOp) : list (list Z) :=
  match op with
  | AddRootPem _ p => accepted_blocks parses [cert_of_pem p]
  | AddRootFile _ _ (Ok blocks) => accepted_blocks parses blocks
  | _ => []
  end.
Definition loaded_crls (op : StoreOp) : list (list Z) :=
  match op with
  | AddCrlPem p => accepted_blocks (λ d, is_ok (webpki_crl d)) [crl_of_pem p]
  | AddCrlFile _ (Ok blocks) => accepted_blocks (λ d, is_ok (webpki_crl d)) blocks
  | _ => []
  end.
Definition level_after (l : VerificationLevel) (op : StoreOp) : VerificationLevel :=
  match op with SetLevel l' => l' | _ => l end.

(** [v'] is [v] with these certificates, sorted into anchors and intermediates, and these CRLs. *)
Record extends (v : CertChainVerifier) (certs revocations : list (list Z)) (v' : CertChainVerifier) : Prop := {
  ex_root : root_cert_der v' = root_cert_der v;
  ex_org : cv_org_name v' = cv_org_name v;
  ex_level : cv_level v' = cv_level v;
  ex_anchors : ta_cert_der <$> federation_anchors v'
    = (ta_cert_der <$> federation_anchors v) ++ List.filter self_issued certs;
  ex_intermediates : ta_cert_der <$> intermediates v'
    = (ta_cert_der <$> intermediates v) ++ List.filter (λ d, negb (self_issued d)) certs;
  ex_crls : crls v' = crls v ++ revocations }.

Lemma extends_refl v : extends v [] [] v.
Proof. split; by rewrite ?app_nil_r. Qed.

Lemma extends_trans v1 v2 v3 c1 c2 r1 r2 :
  extends v1 c1 r1 v2 → extends v2 c2 r2 v3 → extends v1 (c1 ++ c2) (r1 ++ r2) v3.
Proof.
  intros [A1 A2 A3 A4 A5 A6] [B1 B2 B3 B4 B5 B6]. split; try congruence.
  - by rewrite B4, A4, List.filter_app, app_assoc.
  - by rewrite B5, A5, List.filter_app, app_assoc.
  - by rewrite B6, A6, app_assoc.
Qed.

Lemma add_anchor_extends v l der :
  match add_anchor v l der with
  | Ok v' => parses der = true ∧ extends v [der] [] v'
  | Err _ => parses der = false
  end.
Proof.
  unfold add_anchor, parses. destruct (cert_of_der der) as [c|] eqn:Hc; cbn; [|done]. split; [done|].
  assert (self_issued der = bytes_eqb (pc_subject c) (pc_issuer c)) as Hs
    by (unfold self_issued, bytes_eqb; by rewrite Hc).
  unfold bytes_eqb in *. case_bool_decide; split; cbn; rewrite ?Hs, ?fmap_app, ?app_nil_r; done.
Qed.

Lemma add_root_blocks_extends l blocks : ∀ v n,
  extends v (accepted_blocks parses blocks) [] (add_root_blocks v l n blocks).1.
Proof.
  induction blocks as [|[der|e] blocks IH]; intros v n; cbn; [apply extends_refl| |apply extends_refl].
  pose proof (add_anchor_extends v (l +:+ "#" +:+ pretty n) der) as Ha.
  destruct (add_anchor _ _ _) as [v'|]; [|rewrite Ha; apply extends_refl]. destruct Ha as [-> Ha].
  apply (extends_trans _ _ _ [der] _ [] [] Ha), IH.
Qed.

Lemma push_crl_extends v d : extends v [] [d] (push_crl v d).
Proof. split; by rewrite ?app_nil_r. Qed.

Lemma add_crl_blocks_extends blocks : ∀ v n,
  extends v [] (accepted_blocks (λ d, is_ok (webpki_crl d)) blocks) (add_crl_blocks v n blocks).1.
Proof.
  induction blocks as [|[der|e] blocks IH]; intros v n; cbn; [apply extends_refl| |apply extends_refl].
  destruct (webpki_crl der) as [u|]; cbn; [|apply extends_refl].
  apply (extends_trans _ _ _ [] [] [der] _ (push_crl_extends v der)), IH.
Qed.

Lemma store_step_extends v op :
  extends (with_level v (level_after (cv_level v) op)) (loaded_certs op) (loaded_crls op) (store_step v op).
Proof.
  assert (with_level v (cv_level v) = v) as Hv by (by destruct v).
  destruct op as [l p|l p b|p|p b|l]; cbn [level_after loaded_certs loaded_crls store_step]; rewrite ?Hv.
  - unfold add_federation_root_pem. destruct (cert_of_pem p) as [der|]; cbn; [|apply extends_refl].
    pose proof (add_anchor_extends v l der) as Ha.
    destruct (add_anchor v l der) as [v'|]; [by destruct Ha as [-> Ha]|rewrite Ha; apply extends_refl].
  - unfold add_federation_root_file. destruct b as [b|]; [|apply extends_refl].
    pose proof (add_root_blocks_extends l b v 0) as H. by destruct (add_root_blocks _ _ _ _) as [? []].
  - unfold add_crl_pem. destruct (crl_of_pem p) as [der|]; cbn; [|apply extends_refl].
    destruct (webpki_crl der) as [u|]; cbn; [apply push_crl_extends|apply extends_refl].
  - unfold add_crl_file. destruct b as [b|]; [|apply extends_refl].
    pose proof (add_crl_blocks_extends b v 0) as H. by destruct (add_crl_blocks _ _ _) as [? []].
  - apply extends_refl.
Qed.

Lemma store_steps_extend ops : ∀ v,
  extends (with_level v (foldl level_after (cv_level v) ops)) (ops ≫= loaded_certs) (ops ≫= loaded_crls)
    (foldl store_step v ops).
Proof.
  induction ops as [|op ops IH]; intros v; cbn [foldl mbind list_bind].
  { destruct v. apply extends_refl. }
  pose proof (store_step_extends v op) as Hs. specialize (IH (store_step v op)).
  rewrite (ex_level _ _ _ _ Hs) in IH. cbn [cv_level with_level] in IH.
  eapply (extends_trans _ (with_level (store_step v op) (foldl level_after (level_after (cv_level v) op) ops)));
    [|exact IH]. destruct Hs as [H1 H2 H3 H4 H5 H6]. by split.
Qed.

Lemma accepted_blocks_ok accepts blocks der : der ∈ accepted_blocks accepts blocks → accepts der = true.
Proof.
  induction blocks as [|[d|e] blocks IH]; cbn; [by intros []%not_elem_of_nil| |by intros []%not_elem_of_nil].
  destruct (accepts d) eqn:Ha; [|by intros []%not_elem_of_nil]. by intros [->|]%elem_of_cons; auto.
Qed.

(** C36: what a trust store holds, after any sequence of configuration calls, some of which fail
    midway.  It keeps its own root, a certificate that parses, and its name; its level is the
    last one set, and full if none was.  Each certificate of a PEM text or of a bundle, up
    to the first block that does not decode or parse, is in exactly one list, in order: it is
    an anchor if it is self-issued and an intermediate otherwise; nothing else is in them.
    The CRLs are those of the texts and bundles, up to the first that does not decode or
    parse.  So every stored certificate and CRL parses.  (The documentation of
    [add_federation_root_file] says that every block becomes an anchor; the code keeps
    subordinate certificates as intermediates.) *)
Theorem trust_store_typed org der v ops :
  from_der org der = Ok v →
  let s := foldl store_step v ops in
  root_cert_der s = der ∧ parses der = true ∧ cv_org_name s = org
  ∧ cv_level s = foldl level_after Full ops
  ∧ ta_cert_der <$> federation_anchors s = List.filter self_issued (ops ≫= loaded_certs)
  ∧ ta_cert_der <$> intermediates s = List.filter (λ d, negb (self_issued d)) (ops ≫= loaded_certs)
  ∧ crls s = ops ≫= loaded_crls
  ∧ (∀ d, d ∈ ops ≫= loaded_certs → parses d = true)
  ∧ (∀ d, d ∈ crls s → webpki_crl d = Ok tt).
Proof.
  intros Hf. unfold from_der in Hf. destruct (cert_of_der der) as [c|] eqn:Hc; cbn in Hf; [|done].
  injection Hf as <-. cbv zeta.
  destruct (store_steps_extend ops (mkVerifier der org Full [] [] [])) as [H1 H2 H3 H4 H5 H6]. cbn in *.
  split_and!; try done.
  - unfold parses. by rewrite Hc.
  - intros d (op & Hd & _)%list_elem_of_bind. destruct op as [l p|l p [b|]|p|p b|l];
      try (by apply not_elem_of_nil in Hd); by eapply accepted_blocks_ok.
  - rewrite H6. intros d (op & Hd & _)%list_elem_of_bind.
    assert (is_ok (webpki_crl d) = true) as Hok; [|by destruct (webpki_crl d) as [[]|]].
    destruct op as [l p|l p b|p|p [b|]|l]; try (by apply not_elem_of_nil in Hd);
      by apply (accepted_blocks_ok (λ d, is_ok (webpki_crl d))) in Hd.
Qed.
End verifier.
