(* ===== verification/Custody.v ===== *)
(** The organization's certificate authority (glasschain-identity: msp.rs, with the
    key handling of identity.rs).

    Root and intermediate authorities as bookkeeping over serial numbers: issuing,
    revoking, the CRL and the staples they mint, and the durable snapshot of ADR-018.
    Key generation takes its random seed as an argument; certificate and CRL signing
    (rcgen), ed25519 (ed25519-dalek), hex and the JSON of the snapshot are parameters.
    The theorems: no serial is given out twice, a revoked certificate is in the next
    CRL and is never attested good again, and the snapshot restores the authority. *)

From S2P Require Import Prelude Utf8 Types Msp Ocsp CertVerifier.

Local Open Scope Z_scope.

Notation Serial := (list Z).

Inductive KeyUsagePurpose := KeyCertSign | CrlSign | DigitalSignature.

(** The fields of rcgen's [CertificateParams] that the code sets. *)
Record CertificateParams := mkCertParams {
  cp_common_name : string;
  cp_organization : string;
  cp_organizational_unit : option string;
  cp_is_ca : bool;
  cp_key_usages : list KeyUsagePurpose;
  cp_serial : option Serial }.

Record Issuer := mkIssuer { is_params : CertificateParams; is_key : list Z }.

Inductive RevocationReason :=
| Unspecified | KeyCompromise | CaCompromise | AffiliationChanged | Superseded
| CessationOfOperation | CertificateHold | RemoveFromCrl | PrivilegeWithdrawn | AaCompromise.

(** [revocation_time] in nanoseconds since the epoch. *)
Record RevokedCertParams := mkRevokedCert {
  rv_serial : Serial;
  rv_time : Z;
  rv_reason : option RevocationReason }.

Record CrlParams := mkCrlParams {
  crl_this_update : Z;
  crl_next_update : Z;
  crl_number : Serial;
  crl_revoked : list RevokedCertParams }.

Record RevokedRecord := mkRevokedRecord {
  rr_serial_hex : string; rr_time_unix : Z; rr_reason_code : Z }.

Record MemberRecord := mkMemberRecord {
  mr_node_id : string; mr_seed_hex : string; mr_certificate_pem : string }.

Record OrganizationSnapshot := mkOrgSnapshot {
  os_name : string;
  os_root_ca_cert_pem : string;
  os_ca_key_hex : string;
  os_next_serial : Z;
  os_issued_serials : list (string * string);
  os_revoked : list RevokedRecord;
  os_members : list MemberRecord }.

(** Code outside the repository. *)
Class CaCrates := {
  (** ed25519-dalek: the public key of a seed, and signing *)
  ed_public : string → string;
  ed_sign : string → list Z → string;
  (** rcgen: a self-signed certificate as PEM and DER, a certificate and a CRL signed by
      an issuer, the key pair of an ed25519 seed, the raw public key of a CA key, the
      check of a stored CA key, and [SerialNumber::from] *)
  self_signed : CertificateParams → list Z → result string (string * list Z);
  signed_by : CertificateParams → list Z → Issuer → result string (string * list Z);
  crl_signed_by : CrlParams → Issuer → result string string;
  ed_key_pair : string → result string (list Z);
  public_key_raw : list Z → list Z;
  ca_key_restores : list Z → result string unit;
  serial_of : Z → Serial;
  (** ring: the public key of a PKCS#8 P-256 key *)
  ring_public_key : list Z → result string (list Z);
  (** time: [OffsetDateTime::from_unix_timestamp] *)
  time_of_unix : Z → result string Z;
  hex_encode : list Z → string;
  hex_decode : string → result string (list Z);
  (** serde_json for the snapshot *)
  snapshot_to_json : OrganizationSnapshot → result string string;
  snapshot_of_json : string → result string OrganizationSnapshot }.

(** ** Identities (identity.rs) *)

(** [Identity] with its signing key as the seed. *)
Record KeyIdentity := mkKeyIdentity {
  ki_node_id : string;
  ki_seed : string;
  ki_certificate_pem : option string }.

Record Organization := mkOrganization {
  org_name : string;
  root_ca_cert_pem : string;
  ca_issuer : Issuer;
  ca_key_pkcs8_der : list Z;
  ca_subject_der : list Z;
  ca_public_key : list Z;
  org_members : gmap string KeyIdentity;
  next_serial : Z;
  issued_serials : gmap string Serial;
  revoked : list RevokedCertParams }.

Definition ADMIN_ROLE : string := "admin".
Definition CRL_VALIDITY_DAYS : Z := 30.
Definition days (n : Z) : Z := n * 86400 * 1000000000.

Section custody.
Context `{E : Env} `{P : Pki} `{O : OcspCrates} `{C : CaCrates}.

Definition generate (seed node : string) : KeyIdentity := mkKeyIdentity node seed None.
Definition from_seed (node seed : string) : KeyIdentity := mkKeyIdentity node seed None.
Definition ki_public_key (i : KeyIdentity) : string := ed_public (ki_seed i).

(** The view of an identity that the other components use. *)
Definition key_identity (i : KeyIdentity) : Identity :=
  mkIdentity (ki_node_id i) (ki_public_key i) (ed_sign (ki_seed i)) (ki_certificate_pem i).

Definition rcgen_key_pair (i : KeyIdentity) : result IdentityError (list Z) :=
  map_err CertGen (ed_key_pair (ki_seed i)).

Definition identity_error_text (e : IdentityError) : string :=
  match e with
  | CertGen m => "certificate generation failed: " +:+ m
  | VerificationFailed => "signature verification failed"
  | InvalidPublicKey => "invalid public key bytes"
  | IdSerialization m => "serialization error: " +:+ m
  | IdNotFound m => "identity not found: " +:+ m
  | IdChannel m => "channel error: " +:+ m
  end.

Definition sign_transaction (i : KeyIdentity) (tx : Transaction) : SignedTransaction :=
  mkSigned tx (ed_sign (ki_seed i) (byte_list (json_tx tx))) (ki_public_key i) (ki_node_id i).

(** ** The Root CA *)

Definition root_params (name : string) : CertificateParams :=
  mkCertParams (name +:+ " Root CA") name None true [KeyCertSign; CrlSign; DigitalSignature] None.

Definition set_serials (o : Organization) (m : gmap string KeyIdentity) (n : Z)
    (s : gmap string Serial) (r : list RevokedCertParams) : Organization :=
  mkOrganization (org_name o) (root_ca_cert_pem o) (ca_issuer o) (ca_key_pkcs8_der o)
    (ca_subject_der o) (ca_public_key o) m n s r.

(** [Organization::new] with the generated CA key. *)
Definition Organization_new (ca_key : list Z) (name : string) : result IdentityError Organization :=
  let? cert := map_err CertGen (self_signed (root_params name) ca_key) in
  let? parsed := map_err CertGen (cert_of_der cert.2) in
  Ok (mkOrganization name cert.1 (mkIssuer (root_params name) ca_key) ca_key (pc_subject parsed)
        (public_key_raw ca_key) ∅ 1 ∅ []).

Definition take_serial (o : Organization) : Organization * Serial :=
  (set_serials o (org_members o) (add64 (next_serial o) 1) (issued_serials o) (revoked o),
   serial_of (next_serial o)).

Definition member_params (org node : string) (role : option string) (serial : Serial) : CertificateParams :=
  mkCertParams node org role false [] (Some serial).

Definition issue_identity_with_role (seed : string) (o : Organization) (node : string)
    (role : option string) : Organization * result IdentityError KeyIdentity :=
  let identity := generate seed node in
  let '(o, serial) := take_serial o in
  match (let? member_key := map_err (λ e, CertGen (identity_error_text e)) (rcgen_key_pair identity) in
         map_err CertGen (signed_by (member_params (org_name o) node role serial) member_key (ca_issuer o))) with
  | Err e => (o, Err e)
  | Ok cert =>
      let identity := mkKeyIdentity node seed (Some cert.1) in
      (set_serials o (<[node := identity]> (org_members o)) (next_serial o)
         (<[node := serial]> (issued_serials o)) (revoked o), Ok identity)
  end.

Definition issue_identity (seed : string) (o : Organization) (node : string)
  : Organization * result IdentityError KeyIdentity := issue_identity_with_role seed o node None.

(** A serial right-aligned in eight bytes; [None] is the panic of [copy_from_slice] on a
    longer one. *)
Definition serial_be (raw : Serial) : option Serial :=
  if (length raw <=? 8)%nat then Some (repeat 0 (8 - length raw) ++ raw) else None.

Definition no_live_certificate (node : string) : IdentityError :=
  CertGen ("no live issued certificate for node `" +:+ node +:+ "`").

Definition ocsp_error_text (e : OcspError) : string :=
  match e with
  | Malformed => "malformed OCSP staple"
  | Expired => "OCSP staple is expired"
  | CertMismatch => "OCSP staple does not match the presented certificate"
  | StapleSignatureInvalid => "OCSP staple signature does not verify"
  end.

(** The response for a serial at [now]; [None] outside is the panic. *)
Definition staple_for (now : Z) (subject key pkcs8 : list Z) (serial : Serial)
  : option (result IdentityError (list Z)) :=
  match serial_be serial with
  | None => None
  | Some s =>
      Some (map_err (λ e, CertGen (ocsp_error_text e))
              (mint_good_response (mkMintInput s subject key pkcs8 now OCSP_VALIDITY_SECS)))
  end.

Definition ocsp_response_der (now : Z) (o : Organization) (node : string)
  : option (result IdentityError (list Z)) :=
  match issued_serials o !! node with
  | None => Some (Err (no_live_certificate node))
  | Some serial => staple_for now (ca_subject_der o) (ca_public_key o) (ca_key_pkcs8_der o) serial
  end.

Definition revocation (serial : Serial) (now_ns : Z) : RevokedCertParams :=
  mkRevokedCert serial now_ns (Some KeyCompromise).

Definition revoke_identity (now_ns : Z) (o : Organization) (node : string)
  : Organization * result IdentityError unit :=
  match issued_serials o !! node with
  | None => (o, Err (CertGen ("no issued certificate for node `" +:+ node +:+ "`")))
  | Some serial =>
      (set_serials o (org_members o) (next_serial o) (delete node (issued_serials o))
         (revoked o ++ [revocation serial now_ns]), Ok tt)
  end.

Definition crl_params (now_ns backdated_days validity_days : Z) (r : list RevokedCertParams) : CrlParams :=
  mkCrlParams (now_ns - days backdated_days) (now_ns - days backdated_days + days validity_days)
    (serial_of 1) r.

Definition crl_with_validity (now_ns backdated_days validity_days : Z) (o : Organization)
  : result IdentityError string :=
  map_err CertGen (crl_signed_by (crl_params now_ns backdated_days validity_days (revoked o)) (ca_issuer o)).

Definition crl_pem (now_ns : Z) (o : Organization) : result IdentityError string :=
  crl_with_validity now_ns 0 CRL_VALIDITY_DAYS o.

Definition get_member (o : Organization) (node : string) : option KeyIdentity := org_members o !! node.
Definition org_is_member (o : Organization) (node : string) : bool := is_some (org_members o !! node).
Definition member_ids (o : Organization) : list string := (map_to_list (org_members o)).*1.

(** ** Intermediate CAs *)

Record IntermediateCa := mkIntermediate {
  ic_cert_pem : string;
  ic_org_name : string;
  ic_issuer : Issuer;
  ic_key_pkcs8_der : list Z;
  ic_subject_der : list Z;
  ic_public_key : list Z;
  ic_next_serial : Z;
  ic_issued_serials : gmap string Serial;
  ic_revoked : list RevokedCertParams }.

Definition set_ic_serials (c : IntermediateCa) (n : Z) (s : gmap string Serial)
    (r : list RevokedCertParams) : IntermediateCa :=
  mkIntermediate (ic_cert_pem c) (ic_org_name c) (ic_issuer c) (ic_key_pkcs8_der c)
    (ic_subject_der c) (ic_public_key c) n s r.

Definition issue_intermediate_ca (key : list Z) (o : Organization) (cn : string)
  : Organization * result IdentityError IntermediateCa :=
  let '(o, serial) := take_serial o in
  let params := mkCertParams cn (org_name o) None true [KeyCertSign; CrlSign; DigitalSignature]
                  (Some serial) in
  (o,
   let? cert := map_err CertGen (signed_by params key (ca_issuer o)) in
   let? parsed := map_err CertGen (cert_of_der cert.2) in
   Ok (mkIntermediate cert.1 (org_name o) (mkIssuer params key) key (pc_subject parsed)
         (public_key_raw key) 1 ∅ [])).

Definition ic_issue_identity_with_role (seed : string) (c : IntermediateCa) (node : string)
    (role : option string) : IntermediateCa * result IdentityError KeyIdentity :=
  let serial := serial_of (ic_next_serial c) in
  let identity := generate seed node in
  let c := set_ic_serials c (add64 (ic_next_serial c) 1) (ic_issued_serials c) (ic_revoked c) in
  match (let? member_key := map_err (λ e, CertGen (identity_error_text e)) (rcgen_key_pair identity) in
         map_err CertGen (signed_by (member_params (ic_org_name c) node role serial) member_key (ic_issuer c))) with
  | Err e => (c, Err e)
  | Ok cert =>
      (set_ic_serials c (ic_next_serial c) (<[node := serial]> (ic_issued_serials c)) (ic_revoked c),
       Ok (mkKeyIdentity node seed (Some cert.1)))
  end.

Definition ic_issue_identity (seed : string) (c : IntermediateCa) (node : string)
  : IntermediateCa * result IdentityError KeyIdentity := ic_issue_identity_with_role seed c node None.

Definition ic_ocsp_response_der (now : Z) (c : IntermediateCa) (node : string)
  : option (result IdentityError (list Z)) :=
  match ic_issued_serials c !! node with
  | None => Some (Err (no_live_certificate node))
  | Some serial => staple_for now (ic_subject_der c) (ic_public_key c) (ic_key_pkcs8_der c) serial
  end.

Definition ic_revoke_identity (now_ns : Z) (c : IntermediateCa) (node : string)
  : IntermediateCa * result IdentityError unit :=
  match ic_issued_serials c !! node with
  | None => (c, Err (CertGen ("no issued certificate for node `" +:+ node +:+ "`")))
  | Some serial =>
      (set_ic_serials c (ic_next_serial c) (delete node (ic_issued_serials c))
         (ic_revoked c ++ [revocation serial now_ns]), Ok tt)
  end.

Definition ic_crl_pem (now_ns : Z) (c : IntermediateCa) : result IdentityError string :=
  map_err CertGen (crl_signed_by (crl_params now_ns 0 CRL_VALIDITY_DAYS (ic_revoked c)) (ic_issuer c)).

(** ** Durable custody (ADR-018) *)

Definition revocation_reason_code (r : RevocationReason) : Z :=
  match r with
  | Unspecified => 0 | KeyCompromise => 1 | CaCompromise => 2 | AffiliationChanged => 3
  | Superseded => 4 | CessationOfOperation => 5 | CertificateHold => 6 | RemoveFromCrl => 8
  | PrivilegeWithdrawn => 9 | AaCompromise => 10
  end.

Definition revocation_reason_from_code (code : Z) : RevocationReason :=
  match code with
  | 0 => Unspecified | 1 => KeyCompromise | 2 => CaCompromise | 3 => AffiliationChanged
  | 4 => Superseded | 5 => CessationOfOperation | 6 => CertificateHold | 8 => RemoveFromCrl
  | 9 => PrivilegeWithdrawn | 10 => AaCompromise
  | _ => Unspecified
  end.

Definition export_member (ni : string * KeyIdentity) : result IdentityError MemberRecord :=
  let? pem := ok_or (ki_certificate_pem ni.2)
                (CertGen ("member `" +:+ ni.1 +:+ "` has no certificate to persist")) in
  Ok (mkMemberRecord ni.1 (hex_encode (byte_list (ki_seed ni.2))) pem).

Definition unix_timestamp (ns : Z) : Z := ns / 1000000000.

Definition export_revoked (r : RevokedCertParams) : RevokedRecord :=
  mkRevokedRecord (hex_encode (rv_serial r)) (unix_timestamp (rv_time r))
    (from_option revocation_reason_code 0 (rv_reason r)).

Definition export_serial (ns : string * Serial) : string * string := (ns.1, hex_encode ns.2).

Definition snapshot_of (o : Organization) : result IdentityError OrganizationSnapshot :=
  let? members := try_map export_member (map_to_list (org_members o)) in
  Ok (mkOrgSnapshot (org_name o) (root_ca_cert_pem o) (hex_encode (ca_key_pkcs8_der o)) (next_serial o)
        (export_serial <$> map_to_list (issued_serials o)) (export_revoked <$> revoked o) members).

Definition export_json (o : Organization) : result IdentityError string :=
  let? snapshot := snapshot_of o in
  map_err CertGen (snapshot_to_json snapshot).

Definition import_serial (ns : string * string) : result IdentityError (string * Serial) :=
  let? b := map_err (λ e, CertGen ("serial is not hex: " +:+ e)) (hex_decode ns.2) in
  Ok (ns.1, b).

Definition import_revoked (r : RevokedRecord) : result IdentityError RevokedCertParams :=
  let? serial := map_err (λ e, CertGen ("serial is not hex: " +:+ e)) (hex_decode (rr_serial_hex r)) in
  let? time := map_err CertGen (time_of_unix (rr_time_unix r)) in
  Ok (mkRevokedCert serial time (Some (revocation_reason_from_code (rr_reason_code r)))).

Definition import_member (m : gmap string KeyIdentity) (r : MemberRecord)
  : result IdentityError (gmap string KeyIdentity) :=
  let? seed := map_err (λ e, CertGen ("seed is not hex: " +:+ e)) (hex_decode (mr_seed_hex r)) in
  guard? (length seed =? 32)%nat else CertGen "member seed is not 32 bytes" in
  Ok (<[mr_node_id r := mkKeyIdentity (mr_node_id r) (of_byte_list seed) (Some (mr_certificate_pem r))]> m).

Definition restore (s : OrganizationSnapshot) : result IdentityError Organization :=
  let? ca_key := map_err (λ e, CertGen ("CA key is not hex: " +:+ e)) (hex_decode (os_ca_key_hex s)) in
  let? _ := map_err (λ e, CertGen ("CA key does not restore: " +:+ e)) (ca_key_restores ca_key) in
  let issuer := mkIssuer (root_params (os_name s)) ca_key in
  let? root_der := map_err (λ e, CertGen ("root CA is not PEM: " +:+ e)) (cert_of_pem (os_root_ca_cert_pem s)) in
  let? parsed := map_err CertGen (cert_of_der root_der) in
  let? ca_public := map_err (λ e, CertGen ("CA key does not restore: " +:+ e)) (ring_public_key ca_key) in
  let? serials := try_map import_serial (os_issued_serials s) in
  let? revoked := try_map import_revoked (os_revoked s) in
  let? members := fold_result import_member (os_members s) ∅ in
  Ok (mkOrganization (os_name s) (os_root_ca_cert_pem s) issuer ca_key (pc_subject parsed) ca_public
        members (os_next_serial s) (list_to_map (reverse serials)) revoked).

Definition import_json (json : string) : result IdentityError Organization :=
  let? snapshot := map_err CertGen (snapshot_of_json json) in
  restore snapshot.

(** ** Serial numbers *)

Inductive CaOp :=
| CIssue (seed node : string) (role : option string)
| CRevoke (now_ns : Z) (node : string)
| CIntermediate (key : list Z) (cn : string).

Definition ca_step (o : Organization) (op : CaOp) : Organization :=
  match op with
  | CIssue seed node role => (issue_identity_with_role seed o node role).1
  | CRevoke now node => (revoke_identity now o node).1
  | CIntermediate key cn => (issue_intermediate_ca key o cn).1
  end.

Definition run_ca (o : Organization) (ops : list CaOp) : Organization := foldl ca_step o ops.

Definition revoked_serials (o : Organization) : list Serial := rv_serial <$> revoked o.

(** A serial that the authority has given out. *)
Definition used_serial (o : Organization) (s : Serial) : Prop :=
  ∃ n, s = serial_of n ∧ 1 ≤ n < next_serial o.

Record serials_wf (o : Organization) : Prop := {
  sw_next : 1 ≤ next_serial o;
  sw_live : ∀ k1 k2 s, issued_serials o !! k1 = Some s → issued_serials o !! k2 = Some s → k1 = k2;
  sw_apart : ∀ k s, issued_serials o !! k = Some s → s ∉ revoked_serials o;
  sw_revoked : NoDup (revoked_serials o);
  sw_issued : ∀ k s, issued_serials o !! k = Some s → used_serial o s;
  sw_used : Forall (used_serial o) (revoked_serials o) }.

(** Serial numbers of distinct counters differ. *)
Context (serial_inj : ∀ a b, in_u64 a → in_u64 b → serial_of a = serial_of b → a = b).

(** What a step does to the bookkeeping: nothing but a larger counter, a fresh live
    serial, or the move of a live serial to the revoked list. *)
Lemma ca_step_cases o op :
  next_serial o + 1 ≤ U64_MAX → 1 ≤ next_serial o →
  let o' := ca_step o op in
  next_serial o ≤ next_serial o' ≤ next_serial o + 1
  ∧ ((issued_serials o' = issued_serials o ∧ revoked o' = revoked o)
     ∨ (∃ node, issued_serials o' = <[node := serial_of (next_serial o)]> (issued_serials o)
          ∧ revoked o' = revoked o ∧ next_serial o' = next_serial o + 1)
     ∨ (∃ node s now, issued_serials o !! node = Some s
          ∧ issued_serials o' = delete node (issued_serials o)
          ∧ revoked o' = revoked o ++ [revocation s now] ∧ next_serial o' = next_serial o)).
Proof.
  intros Hmax H1.
  assert (Hadd : add64 (next_serial o) 1 = next_serial o + 1).
  { apply add64_small. lia. }
  destruct op as [seed node role|now node|key cn]; simpl.
  - unfold issue_identity_with_role. simpl. rewrite Hadd.
    repeat case_match; simpl; (split; [lia|]); eauto 10.
  - unfold revoke_identity. destruct (issued_serials o !! node) as [s|] eqn:Hn; simpl; (split; [lia|]).
    + right. right. by exists node, s, now.
    + by left.
  - rewrite Hadd. split; [lia|]. by left.
Qed.

Lemma used_serial_mono o o' s : next_serial o ≤ next_serial o' → used_serial o s → used_serial o' s.
Proof. intros ? (n & -> & ?). exists n. split; [done|lia]. Qed.

Lemma fresh_serial o s :
  next_serial o ≤ U64_MAX → used_serial o s → s ≠ serial_of (next_serial o).
Proof.
  intros Hm (n & -> & Hn) Heq. apply serial_inj in Heq; unfold in_u64, U64_MAX in *; lia.
Qed.

Lemma ca_step_wf o op :
  next_serial o + 1 ≤ U64_MAX → serials_wf o → serials_wf (ca_step o op).
Proof.
  intros Hm [H1 H2 H3 H4 H5 H6]. destruct (ca_step_cases o op Hm H1) as [Hn Hc].
  assert (Hfresh : ∀ s, used_serial o s → s ≠ serial_of (next_serial o)) by (intros; apply fresh_serial; [lia|done]).
  assert (Hmono : ∀ s, used_serial o s → used_serial (ca_step o op) s)
    by (intros; eapply used_serial_mono; [|done]; lia).
  assert (Hrev : ∀ s, s ∈ revoked_serials o → used_serial o s) by (intros; by eapply Forall_forall in H6).
  destruct Hc as [[Hi Hr]|[(node & Hi & Hr & Hnx)|(node & s & now & Hs & Hi & Hr & Hnx)]].
  - split; unfold revoked_serials in *; rewrite ?Hi, ?Hr; [lia|done|done|done|eauto|].
    eapply Forall_impl; [exact H6|]. auto.
  - assert (Hnew : used_serial (ca_step o op) (serial_of (next_serial o)))
      by (exists (next_serial o); split; [done|lia]).
    split; unfold revoked_serials in *; rewrite ?Hi, ?Hr; [lia| | |done| |].
    + intros k1 k2 s. rewrite !lookup_insert_Some.
      intros [[<- <-]|[? Hk1]] [[<- Heq]|[? Hk2]]; [done| | |by eapply H2].
      * by destruct (Hfresh (serial_of (next_serial o))); [eauto|].
      * by destruct (Hfresh s); [eauto|].
    + intros k s. rewrite lookup_insert_Some. intros [[<- <-]|[? Hk]]; [|by eapply H3].
      intros Hin. by destruct (Hfresh _ (Hrev _ Hin)).
    + intros k s. rewrite lookup_insert_Some. intros [[<- <-]|[? Hk]]; eauto.
    + eapply Forall_impl; [exact H6|]. auto.
  - assert (Hr' : revoked_serials (ca_step o op) = revoked_serials o ++ [s])
      by (unfold revoked_serials; by rewrite Hr, fmap_app).
    split; rewrite ?Hi, ?Hr'; [lia| | | | |].
    + intros k1 k2 s'. rewrite !lookup_delete_Some. intros [? Hk1] [? Hk2]. by eapply H2.
    + intros k s'. rewrite lookup_delete_Some, elem_of_app, list_elem_of_singleton.
      intros [Hne Hk] [Hin | ->]; [by eapply H3|]. apply Hne. by eapply H2.
    + apply NoDup_app. split; [done|]. split; [|apply NoDup_singleton].
      intros x Hx. rewrite list_elem_of_singleton. intros ->. by eapply H3.
    + intros k s'. rewrite lookup_delete_Some. intros [_ Hk]. eauto.
    + apply Forall_app. split; [eapply Forall_impl; [exact H6|]; auto|]. constructor; [eauto|constructor].
Qed.

Lemma run_ca_wf ops : ∀ o,
  next_serial o + Z.of_nat (length ops) ≤ U64_MAX → serials_wf o →
  serials_wf (run_ca o ops)
  ∧ next_serial o ≤ next_serial (run_ca o ops) ≤ next_serial o + Z.of_nat (length ops).
Proof.
  induction ops as [|op ops IH]; intros o Hm Hw; simpl in *; [split; [done|lia]|].
  destruct (ca_step_cases o op) as [Hn _]; [lia|apply Hw|].
  destruct (IH (ca_step o op)) as [Hw' Hle]; [lia|apply ca_step_wf; [lia|done]|]. split; [done|lia].
Qed.

Lemma Organization_new_wf key name o : Organization_new key name = Ok o → serials_wf o.
Proof.
  unfold Organization_new. repeat case_match; try done. intros [= <-].
  split; unfold revoked_serials; simpl; [lia|..]; try (intros; by simplify_map_eq); constructor.
Qed.

(** A serial that is given out and not live is never live again, and its presence in the
    revoked list does not change. *)
Lemma retired_step o op s :
  next_serial o + 1 ≤ U64_MAX → serials_wf o → used_serial o s →
  (∀ k, issued_serials o !! k ≠ Some s) →
  (∀ k, issued_serials (ca_step o op) !! k ≠ Some s)
  ∧ (s ∈ revoked_serials (ca_step o op) ↔ s ∈ revoked_serials o).
Proof.
  intros Hm Hw Hs Hl. destruct (ca_step_cases o op Hm (sw_next _ Hw)) as [_ Hc].
  unfold revoked_serials.
  destruct Hc as [[Hi Hr]|[(node & Hi & Hr & Hnx)|(node & s' & now & Hs' & Hi & Hr & Hnx)]]; rewrite Hi, Hr.
  - done.
  - split; [|done]. intros k. rewrite lookup_insert_Some.
    intros [[_ Heq]|[_ Hk]]; [|by eapply Hl]. by apply (fresh_serial o s); [lia| |].
  - split; [intros k; rewrite lookup_delete_Some; intros [_ Hk]; by eapply Hl|].
    rewrite fmap_app, elem_of_app. simpl. rewrite list_elem_of_singleton.
    split; [|by left]. intros [?|Heq]; [done|]. subst s'. by destruct (Hl node).
Qed.

Lemma retired_run ops : ∀ o s,
  next_serial o + Z.of_nat (length ops) ≤ U64_MAX → serials_wf o → used_serial o s →
  (∀ k, issued_serials o !! k ≠ Some s) →
  (∀ k, issued_serials (run_ca o ops) !! k ≠ Some s)
  ∧ (s ∈ revoked_serials (run_ca o ops) ↔ s ∈ revoked_serials o).
Proof.
  induction ops as [|op ops IH]; intros o s Hm Hw Hs Hl; simpl in *; [done|].
  destruct (ca_step_cases o op) as [Hn _]; [lia|apply Hw|].
  destruct (retired_step o op s) as [Hl' Hr']; [lia|done|done|done|].
  destruct (IH (ca_step o op) s) as [Hl2 Hr2]; [lia|apply ca_step_wf; [lia|done]| |done|].
  { eapply used_serial_mono; [|done]. lia. }
  split; [done|]. by rewrite Hr2.
Qed.

Lemma reachable_wf key name o0 ops :
  Organization_new key name = Ok o0 → Z.of_nat (length ops) + 1 ≤ U64_MAX →
  serials_wf (run_ca o0 ops) ∧ 1 ≤ next_serial (run_ca o0 ops) ≤ 1 + Z.of_nat (length ops).
Proof.
  intros Hnew Hlen. pose proof (Organization_new_wf _ _ _ Hnew) as Hw0.
  assert (H1 : next_serial o0 = 1).
  { revert Hnew. unfold Organization_new. repeat case_match; try done. by intros [= <-]. }
  destruct (run_ca_wf ops o0) as [Hw Hle]; [lia|done|]. split; [done|lia].
Qed.

(** C35: revocation is final.  For a certificate authority reached by any sequence of
    issuing, revoking and intermediate issuing, revoking a member with a live
    certificate succeeds; from then on the certificate's serial is listed in every CRL
    the authority mints, and no member's live serial ever equals it again, so no later
    staple attests it as good.  Serial numbers are encoded injectively by the certificate
    crate, and fewer than 2^64 of them are taken. *)
Theorem revocation_final key name o0 ops now node s ops' :
  Organization_new key name = Ok o0 →
  Z.of_nat (length ops) + Z.of_nat (length ops') + 2 ≤ U64_MAX →
  let o := run_ca o0 ops in
  issued_serials o !! node = Some s →
  let '(o', r) := revoke_identity now o node in
  let later := run_ca o' ops' in
  r = Ok tt
  ∧ (∀ t d, s ∈ rv_serial <$> crl_revoked (crl_params t 0 d (revoked later)))
  ∧ ∀ k, issued_serials later !! k ≠ Some s.
Proof.
  intros Hnew Hlen o Hs. destruct (reachable_wf _ _ _ ops Hnew) as [Hw Hle]; [lia|]. fold o in Hw, Hle.
  pose proof (ca_step_wf o (CRevoke now node)) as Hw'. simpl in Hw'.
  unfold revoke_identity in *. rewrite Hs in *. simpl in Hw' |- *. specialize (Hw' ltac:(lia) Hw).
  set (o' := set_serials _ _ _ _ _) in *.
  assert (Hin : s ∈ revoked_serials o').
  { unfold revoked_serials. simpl. rewrite fmap_app. apply elem_of_app. right. by left. }
  destruct (retired_run ops' o' s) as [Hl Hr]; [simpl; lia|done| | |].
  - by eapply Forall_forall in Hin; [|apply Hw'].
  - intros k Hk. by eapply (sw_apart _ Hw').
  - split; [done|]. split; [|done]. intros _ _. by apply Hr.
Qed.

Lemma issue_Ok seed o node role id :
  next_serial o + 1 ≤ U64_MAX → 1 ≤ next_serial o →
  (issue_identity_with_role seed o node role).2 = Ok id →
  issued_serials (issue_identity_with_role seed o node role).1
    = <[node := serial_of (next_serial o)]> (issued_serials o)
  ∧ revoked (issue_identity_with_role seed o node role).1 = revoked o
  ∧ next_serial (issue_identity_with_role seed o node role).1 = next_serial o + 1.
Proof.
  intros Hm H1. unfold issue_identity_with_role. simpl. rewrite add64_small by lia.
  repeat case_match; done.
Qed.

(** Issuing a second certificate to a node makes the first one irrevocable: its
    serial is overwritten in the bookkeeping, so no later sequence of operations,
    revoking that node included, ever puts it into a CRL, while the first certificate
    still chains to the root. *)
Theorem reissue_orphans_certificate key name o0 ops seed1 seed2 node role1 role2 id1 id2 ops' :
  Organization_new key name = Ok o0 →
  Z.of_nat (length ops) + Z.of_nat (length ops') + 3 ≤ U64_MAX →
  let o := run_ca o0 ops in
  let o1 := (issue_identity_with_role seed1 o node role1).1 in
  let o2 := (issue_identity_with_role seed2 o1 node role2).1 in
  (issue_identity_with_role seed1 o node role1).2 = Ok id1 →
  (issue_identity_with_role seed2 o1 node role2).2 = Ok id2 →
  ∃ s, issued_serials o1 !! node = Some s
    ∧ ∀ t d, s ∉ rv_serial <$> crl_revoked (crl_params t 0 d (revoked (run_ca o2 ops'))).
Proof.
  intros Hnew Hlen o o1 o2 Hi1 Hi2.
  destruct (reachable_wf _ _ _ ops Hnew) as [Hw Hle]; [lia|]. fold o in Hw, Hle.
  destruct (issue_Ok seed1 o node role1 id1 ltac:(lia) ltac:(lia) Hi1) as (Ha1 & Hb1 & Hc1). fold o1 in Ha1, Hb1, Hc1.
  destruct (issue_Ok seed2 o1 node role2 id2 ltac:(lia) ltac:(lia) Hi2) as (Ha2 & Hb2 & Hc2).
  fold o2 in Ha2, Hb2, Hc2.
  assert (Hw1 : serials_wf o1) by (apply (ca_step_wf o (CIssue seed1 node role1)); [lia|done]).
  assert (Hw2 : serials_wf o2) by (apply (ca_step_wf o1 (CIssue seed2 node role2)); [lia|done]).
  assert (Hs : issued_serials o1 !! node = Some (serial_of (next_serial o))) by (rewrite Ha1; by simplify_map_eq).
  exists (serial_of (next_serial o)). split; [done|].
  destruct (retired_run ops' o2 (serial_of (next_serial o))) as [_ Hr]; [lia|done| | |].
  - exists (next_serial o). split; [done|lia].
  - intros k. rewrite Ha2, lookup_insert_Some. intros [[<- Heq]|[Hne Hk]].
    + by apply (fresh_serial o1 (serial_of (next_serial o))); [lia|eapply (sw_issued _ Hw1)|].
    + apply Hne. by eapply (sw_live _ Hw1).
  - intros t d. simpl. change (serial_of (next_serial o) ∉ revoked_serials (run_ca o2 ops')).
    rewrite Hr. unfold revoked_serials. rewrite Hb2. by eapply (sw_apart _ Hw1).
Qed.

(** ** The snapshot restores the authority *)

(** What is relied on of the libraries: hex and JSON round trips, and that a CA key
    which signed a root certificate can be loaded again. *)
Record custody_laws : Prop := {
  cl_hex : ∀ b, Forall is_byte b → hex_decode (hex_encode b) = Ok b;
  cl_json : ∀ s, ∃ j, snapshot_to_json s = Ok j ∧ snapshot_of_json j = Ok s;
  cl_self_signed : ∀ p k pem der, self_signed p k = Ok (pem, der) →
    cert_of_pem pem = Ok der ∧ ca_key_restores k = Ok tt ∧ ring_public_key k = Ok (public_key_raw k);
  cl_serial : ∀ n, Forall is_byte (serial_of n);
  cl_time : ∀ t, 0 ≤ t ≤ 253402300799 → time_of_unix t = Ok (t * 1000000000) }.

Definition in_calendar (ns : Z) : Prop := 0 ≤ unix_timestamp ns ≤ 253402300799.

Record custody_wf (o : Organization) : Prop := {
  cw_issuer : ca_issuer o = mkIssuer (root_params (org_name o)) (ca_key_pkcs8_der o);
  cw_key : Forall is_byte (ca_key_pkcs8_der o) ∧ ca_key_restores (ca_key_pkcs8_der o) = Ok tt
           ∧ ring_public_key (ca_key_pkcs8_der o) = Ok (ca_public_key o);
  cw_root : ∃ der c, cert_of_pem (root_ca_cert_pem o) = Ok der ∧ cert_of_der der = Ok c
              ∧ pc_subject c = ca_subject_der o;
  cw_members : ∀ k i, org_members o !! k = Some i →
    ki_node_id i = k ∧ slen (ki_seed i) = 32%nat ∧ is_some (ki_certificate_pem i) = true;
  cw_issued : ∀ k s, issued_serials o !! k = Some s → Forall is_byte s;
  cw_revoked : Forall (λ r, Forall is_byte (rv_serial r) ∧ in_calendar (rv_time r)
                            ∧ rv_reason r = Some KeyCompromise) (revoked o) }.

Definition ca_op_ok (op : CaOp) : Prop :=
  match op with
  | CIssue seed _ _ => slen seed = 32%nat
  | CRevoke now _ => in_calendar now
  | CIntermediate _ _ => True
  end.

(** The authority with its revocation times at whole seconds. *)
Definition whole_seconds (o : Organization) : Organization :=
  set_serials o (org_members o) (next_serial o) (issued_serials o)
    ((λ r, mkRevokedCert (rv_serial r) (unix_timestamp (rv_time r) * 1000000000) (rv_reason r)) <$> revoked o).

Lemma Organization_new_custody (L : custody_laws) key name o :
  Forall is_byte key → Organization_new key name = Ok o → custody_wf o.
Proof.
  intros Hk. unfold Organization_new. destruct (self_signed _ _) as [[pem der]|e] eqn:Hs; [|done]. simpl.
  destruct (cert_of_der der) as [c|e] eqn:Hc; [|done]. intros [= <-].
  apply (cl_self_signed L) in Hs as (H1 & H2 & H3).
  split; simpl; try done.
  - by exists der, c.
Qed.

Lemma ca_step_custody (L : custody_laws) o op :
  ca_op_ok op → custody_wf o → custody_wf (ca_step o op).
Proof.
  intros Hop [H1 H2 H3 H4 H5 H6]. destruct op as [seed node role|now node|key cn]; simpl in *.
  - unfold issue_identity_with_role. simpl. repeat case_match; split; simpl; try done.
    + intros k i. rewrite lookup_insert_Some. intros [[<- <-]|[_ Hk]]; [done|eauto].
    + intros k s. rewrite lookup_insert_Some. intros [[<- <-]|[_ Hk]]; [apply (cl_serial L)|eauto].
  - unfold revoke_identity. destruct (issued_serials o !! node) as [s|] eqn:Hs; [|done].
    split; simpl; try done.
    + intros k s'. rewrite lookup_delete_Some. intros [_ Hk]. eauto.
    + apply Forall_app. split; [done|]. constructor; [|constructor]. simpl. eauto.
  - split; simpl; try done.
Qed.

Lemma try_map_export (f : RevokedCertParams → RevokedCertParams) l :
  (∀ r, r ∈ l → import_revoked (export_revoked r) = Ok (f r)) →
  try_map import_revoked (export_revoked <$> l) = Ok (f <$> l).
Proof.
  induction l as [|x l IH]; intros H; csimpl; [done|]. rewrite H by left. rewrite IH; [done|].
  intros y Hy. apply H. by right.
Qed.

Lemma list_to_map_reverse {A} (m : gmap string A) : list_to_map (reverse (map_to_list m)) = m.
Proof.
  rewrite <- (list_to_map_to_list m) at 2. apply list_to_map_proper.
  - rewrite fmap_reverse, reverse_Permutation. apply NoDup_fst_map_to_list.
  - apply reverse_Permutation.
Qed.

Lemma byte_list_bytes s : Forall is_byte (byte_list s).
Proof.
  unfold byte_list. rewrite Forall_fmap. apply Forall_true. intros c. unfold is_byte. simpl.
  pose proof (Ascii.nat_ascii_bounded c). lia.
Qed.

Lemma members_restore (L : custody_laws) l :
  (∀ ki, ki ∈ l → ki_node_id ki.2 = ki.1 ∧ slen (ki_seed ki.2) = 32%nat
                  ∧ is_some (ki_certificate_pem ki.2) = true) →
  ∃ recs, try_map export_member l = Ok recs
    ∧ ∀ m, fold_result import_member recs m = Ok (foldl (λ m ki, <[ki.1 := ki.2]> m) m l).
Proof.
  induction l as [|[k [nid seed cert]] l IH]; intros H; [by exists []|].
  destruct (H (k, mkKeyIdentity nid seed cert)) as (Hk & Hl & Hc); [by left|]. simpl in *. subst nid.
  destruct cert as [pem|]; [|done].
  destruct IH as (recs & Hr & Hf); [intros; apply H; by right|].
  exists (mkMemberRecord k (hex_encode (byte_list seed)) pem :: recs).
  split; [cbn [try_map]; by rewrite Hr|]. intros m. cbn [fold_result foldl].
  unfold import_member at 1. simpl. rewrite (cl_hex L) by apply byte_list_bytes. simpl.
  rewrite length_byte_list, Hl. simpl. rewrite of_byte_list_byte_list. apply Hf.
Qed.

Lemma foldl_insert_reverse {A} (l : list (string * A)) :
  foldl (λ m ki, <[ki.1 := ki.2]> m) ∅ l = list_to_map (reverse l) :> gmap string A.
Proof.
  induction l as [|[k a] l IH] using rev_ind; [done|].
  rewrite foldl_snoc, reverse_snoc. simpl. by rewrite IH.
Qed.

Lemma restore_snapshot (L : custody_laws) o :
  custody_wf o → ∃ s, snapshot_of o = Ok s ∧ restore s = Ok (whole_seconds o).
Proof.
  intros [H1 (H2a & H2b & H2c) (der & c & H3a & H3b & H3c) H4 H5 H6].
  destruct (members_restore L (map_to_list (org_members o))) as (recs & Hr & Hf).
  { intros [k i] Hk. apply elem_of_map_to_list in Hk. by apply H4. }
  unfold snapshot_of. rewrite Hr. eexists. split; [done|]. unfold restore. simpl.
  rewrite (cl_hex L) by done. simpl. rewrite H2b, H3a. simpl. rewrite H3b. simpl. rewrite H2c. simpl.
  rewrite try_map_fmap.
  2:{ intros [k s] Hs. apply elem_of_map_to_list in Hs. unfold import_serial. simpl.
      by rewrite (cl_hex L) by eauto. }
  rewrite (try_map_export (λ r, mkRevokedCert (rv_serial r) (unix_timestamp (rv_time r) * 1000000000) (rv_reason r))).
  2:{ intros [s t r] Hin. rewrite Forall_forall in H6. destruct (H6 _ Hin) as (Ha & Hb & Hc). simpl in *. subst r.
      unfold import_revoked. simpl. rewrite (cl_hex L) by done. simpl. by rewrite (cl_time L) by done. }
  rewrite Hf, foldl_insert_reverse, !list_to_map_reverse. unfold whole_seconds, set_serials.
  by rewrite <- H1, H3c.
Qed.

(** Two authorities that agree on what further operations depend on. *)
Record same_books (o o' : Organization) : Prop := {
  sb_name : org_name o' = org_name o;
  sb_issuer : ca_issuer o' = ca_issuer o;
  sb_next : next_serial o' = next_serial o;
  sb_issued : issued_serials o' = issued_serials o;
  sb_revoked : revoked_serials o' = revoked_serials o }.

Lemma same_books_step o o' op : same_books o o' → same_books (ca_step o op) (ca_step o' op).
Proof.
  intros [H1 H2 H3 H4 H5]. destruct op as [seed node role|now node|key cn]; simpl.
  - unfold issue_identity_with_role. simpl. rewrite H1, H2, H3.
    repeat case_match; split; simpl; try done; by rewrite H4.
  - unfold revoke_identity. rewrite H4. destruct (issued_serials o !! node); [|done].
    split; simpl; try done. unfold revoked_serials in *. simpl. by rewrite !fmap_app, H5.
  - split; simpl; try done. by rewrite H3.
Qed.

Lemma same_books_run ops : ∀ o o', same_books o o' → same_books (run_ca o ops) (run_ca o' ops).
Proof. induction ops as [|op ops IH]; intros o o' H; simpl; [done|]. apply IH. by apply same_books_step. Qed.

(** Durable custody is faithful.  For an authority reached from a fresh root by any
    sequence of issuing, revoking and intermediate issuing, the exported snapshot
    exists and its import gives back the same root key and certificate, member keys and
    certificates, serial counter, live serials and revocations, up to the sub-second
    part of the revocation times; the restored authority therefore continues exactly as
    the original would. *)
Theorem custody_roundtrip (L : custody_laws) key name o0 ops :
  Forall is_byte key → Organization_new key name = Ok o0 → Forall ca_op_ok ops →
  ∃ j, export_json (run_ca o0 ops) = Ok j
    ∧ import_json j = Ok (whole_seconds (run_ca o0 ops))
    ∧ ∀ ops', issued_serials (run_ca (whole_seconds (run_ca o0 ops)) ops')
              = issued_serials (run_ca (run_ca o0 ops) ops')
              ∧ revoked_serials (run_ca (whole_seconds (run_ca o0 ops)) ops')
                = revoked_serials (run_ca (run_ca o0 ops) ops').
Proof.
  intros Hk Hnew Hops. apply (Organization_new_custody L) in Hnew; [|done].
  assert (Hw : custody_wf (run_ca o0 ops)).
  { clear Hk. revert o0 Hnew. induction Hops as [|op ops Hop _ IH]; intros o0 Hw; simpl; [done|].
    apply IH. by apply ca_step_custody. }
  destruct (restore_snapshot L _ Hw) as (s & Hs & Hr).
  destruct (cl_json L s) as (j & Hj & Hj'). exists j.
  unfold export_json, import_json. rewrite Hs. simpl. rewrite Hj, Hj'. simpl. split; [done|].
  split; [done|]. intros ops'.
  destruct (same_books_run ops' (run_ca o0 ops) (whole_seconds (run_ca o0 ops))) as [_ _ _ ? ?]; [|done].
  split; simpl; try done. unfold revoked_serials. simpl. by rewrite <- list_fmap_compose.
Qed.
End custody.
