(* ===== verification/Auth.v ===== *)
(** RPC authentication (glasschain-rpc: auth.rs; glasschain-identity: possession.rs for
    the certificate accessors of the admin gate).

    The trusted-key registry, the interceptor that checks the three headers of a
    request, the certificate-bound admin gate and the two client-side builders.  The
    clock is an argument; tonic's header values, hex and base64 are parameters.  The
    theorems say exactly which requests pass either check, that built headers pass
    within the window, and what a captured set of headers is good for. *)

From S2P Require Import Prelude Utf8 Types Asset Msp Ocsp CertVerifier Custody.

Local Open Scope Z_scope.

Definition CERT_HEADER : string := "x-glasschain-cert".
Definition NODE_ID_HEADER : string := "x-glasschain-node-id".
Definition AUTH_TS_HEADER : string := "x-glasschain-auth-ts".
Definition AUTH_SIG_HEADER : string := "x-glasschain-auth-sig".

(** [tonic::Status] with the codes the crate returns. *)
Inductive Status :=
| Unauthenticated (message : string)
| PermissionDenied (message : string)
| NotFound (message : string)
| InvalidArgument (message : string)
| AlreadyExists (message : string)
| Internal (message : string).

(** ** The registry *)

Notation TrustedKeyRegistry := (gmap string string).

Definition registry_new : TrustedKeyRegistry := ∅.
Definition registry_register (r : TrustedKeyRegistry) (node key : string) : TrustedKeyRegistry :=
  <[node := key]> r.
Definition registry_get (r : TrustedKeyRegistry) (node : string) : option string := r !! node.
Definition registry_contains (r : TrustedKeyRegistry) (node : string) : bool := is_some (r !! node).
Definition registry_len (r : TrustedKeyRegistry) : nat := size r.

Record MspAuthInterceptor := mkInterceptor {
  mi_registry : TrustedKeyRegistry;
  require_auth : bool }.

Definition interceptor_new (r : TrustedKeyRegistry) : MspAuthInterceptor := mkInterceptor r false.
Definition interceptor_new_strict (r : TrustedKeyRegistry) : MspAuthInterceptor := mkInterceptor r true.

Record AdminGate := mkAdminGate { ag_verifier : CertChainVerifier; skew_secs : Z }.

Definition AdminGate_new (v : CertChainVerifier) : AdminGate := mkAdminGate v 60.
Definition update_verifier (g : AdminGate) (v : CertChainVerifier) : AdminGate :=
  mkAdminGate v (skew_secs g).

Import TrustScore.

Section auth.
Context `{D : Ed25519Crate} `{P : Pki} `{C : CaCrates}.
(** http: [HeaderValue::to_str]; base64; the texts of verification errors. *)
Context (to_str : string → option string).
Context (base64_decode : string → option (list Z)) (base64_encode : list Z → string).
Context (cert_error_text : CertVerificationError → string).

Definition register_from_org (r : TrustedKeyRegistry) (o : Organization) : TrustedKeyRegistry :=
  foldl (λ r node, match get_member o node with
                   | Some i => registry_register r node (ki_public_key i)
                   | None => r
                   end) r (member_ids o).

(** Request metadata: header names to raw values. *)
Notation MetadataMap := (gmap string string).

Definition header (md : MetadataMap) (name : string) : option string := md !! name ≫= to_str.

Definition abs_diff (a b : Z) : Z := Z.abs (a - b).

(** [hex::decode] and the conversion to 64 bytes *)
Definition decode_signature (sig_hex : string) : option string :=
  match hex_decode sig_hex with
  | Ok b => if (length b =? 64)%nat then Some (of_byte_list b) else None
  | Err _ => None
  end.

Definition challenge (node_id ts_str : string) : string := node_id +:+ ":" +:+ ts_str.

(** [verify_request] at the time [now] *)
Definition verify_request (now : Z) (m : MspAuthInterceptor) (md : MetadataMap) : result Status unit :=
  let present := is_some (md !! NODE_ID_HEADER) || is_some (md !! AUTH_TS_HEADER)
                 || is_some (md !! AUTH_SIG_HEADER) in
  if negb present then
    (if require_auth m then Err (Unauthenticated "missing x-glasschain auth headers") else Ok tt)
  else
  let? node := ok_or (header md NODE_ID_HEADER) (Unauthenticated "missing or invalid x-glasschain-node-id") in
  let? ts_str := ok_or (header md AUTH_TS_HEADER) (Unauthenticated "missing or invalid x-glasschain-auth-ts") in
  let? sig_hex := ok_or (header md AUTH_SIG_HEADER) (Unauthenticated "missing or invalid x-glasschain-auth-sig") in
  let? ts := ok_or (parse_unsigned U64_MAX (bytes ts_str)) (Unauthenticated "invalid timestamp format") in
  guard? negb (60 <? abs_diff now ts) else Unauthenticated "token expired" in
  let? sig := ok_or (decode_signature sig_hex) (Unauthenticated "invalid signature encoding") in
  let? key := ok_or (registry_get (mi_registry m) node) (Unauthenticated "unknown node") in
  guard? ed_key_ok key else Unauthenticated "invalid public key in registry" in
  guard? ed_verify key (byte_list (challenge node ts_str)) sig
  else Unauthenticated "signature verification failed" in
  Ok tt.

(** ** Certificate accessors (possession.rs) *)

Definition directory_string_text (v : DirectoryString) : option string :=
  match v with Utf8String t | PrintableString t => Some t | OtherString => None end.

Definition certificate_admin_role_der (der : list Z) : option string :=
  match cert_of_der der with
  | Ok c => pc_organization_unit c ≫= directory_string_text
  | Err _ => None
  end.

Definition certificate_admin_role (cert_pem : string) : option string :=
  match cert_of_pem cert_pem with Ok der => certificate_admin_role_der der | Err _ => None end.

Definition certificate_subject_cn (cert_pem : string) : option string :=
  match cert_of_pem cert_pem with
  | Ok der =>
      match cert_of_der der with Ok c => pc_common_name c ≫= directory_string_text | Err _ => None end
  | Err _ => None
  end.

Definition certificate_ed25519_public_key_der (der : list Z) : option string :=
  match cert_of_der der with
  | Ok c =>
      match pc_public_key c with
      | Some raw => if (length raw =? 32)%nat then Some (of_byte_list raw) else None
      | None => None
      end
  | Err _ => None
  end.

(** ** The admin gate *)

Definition authorize (now : Z) (g : AdminGate) (md : MetadataMap) : result Status string :=
  let? node := ok_or (header md NODE_ID_HEADER) (PermissionDenied "missing x-glasschain-node-id") in
  let? ts_str := ok_or (header md AUTH_TS_HEADER) (PermissionDenied "missing x-glasschain-auth-ts") in
  let? sig_hex := ok_or (header md AUTH_SIG_HEADER) (PermissionDenied "missing x-glasschain-auth-sig") in
  let? cert_b64 := ok_or (header md CERT_HEADER)
    (PermissionDenied ("missing " +:+ CERT_HEADER
       +:+ ": an admin operation requires an organization certificate")) in
  let? ts := ok_or (parse_unsigned U64_MAX (bytes ts_str)) (PermissionDenied "invalid timestamp format") in
  guard? negb (skew_secs g <? abs_diff now ts) else PermissionDenied "token expired" in
  let? cert_der := ok_or (base64_decode cert_b64) (PermissionDenied "certificate is not valid base64") in
  let? _ := map_err (λ e, PermissionDenied ("certificate verification failed: " +:+ cert_error_text e))
              (verify_cert_der now (ag_verifier g) cert_der) in
  let? cn := map_err (λ e, PermissionDenied ("certificate subject CN missing: " +:+ cert_error_text e))
               (verified_subject_cn now (ag_verifier g) cert_der) in
  guard? cn ==? node else
    PermissionDenied ("certificate CN '" +:+ cn +:+ "' does not match node id '" +:+ node +:+ "'") in
  let? key := ok_or (certificate_ed25519_public_key_der cert_der)
                (PermissionDenied "certificate carries no ed25519 public key") in
  let? sig := ok_or (decode_signature sig_hex) (PermissionDenied "invalid signature encoding") in
  guard? ed_key_ok key else PermissionDenied "invalid certificate public key" in
  guard? ed_verify key (byte_list (challenge node ts_str)) sig
  else PermissionDenied "signature verification failed" in
  guard? bool_decide (certificate_admin_role_der cert_der = Some ADMIN_ROLE)
  else PermissionDenied ("certificate does not carry the admin role (OU=" +:+ ADMIN_ROLE +:+ " required)") in
  Ok cn.

(** ** Client side *)

Definition insert_headers (hs : list (string * string)) (md : MetadataMap) : MetadataMap :=
  foldl (λ md nv, <[nv.1 := nv.2]> md) md hs.

Definition build_headers (now : Z) (signing_key verifying_key node : string)
  : result string (list (string * string)) :=
  guard? ed_key_ok verifying_key else "invalid verifying key bytes" in
  let ts := pretty now in
  Ok [(NODE_ID_HEADER, node); (AUTH_TS_HEADER, ts);
      (AUTH_SIG_HEADER, hex_encode (byte_list (ed_sign signing_key (byte_list (challenge node ts)))))].

Definition admin_headers_from_cert (now : Z) (cert_pem seed : string)
  : result string (list (string * string)) :=
  let? node := ok_or (certificate_subject_cn cert_pem) "certificate carries no subject CN" in
  let ts := pretty now in
  let sig := hex_encode (byte_list (ed_sign seed (byte_list (challenge node ts)))) in
  let? der := map_err (λ e, "certificate is not PEM: " +:+ e) (cert_of_pem cert_pem) in
  Ok [(NODE_ID_HEADER, node); (AUTH_TS_HEADER, ts); (AUTH_SIG_HEADER, sig);
      (CERT_HEADER, base64_encode der)].

(** ** Which requests pass *)

(** The three headers name [node] and carry a signature under [key] over the node and a
    timestamp within [window] seconds of [now]. *)
Definition token_ok (now window : Z) (md : MetadataMap) (node key : string) : Prop :=
  ∃ ts_str sig_hex ts sig,
    header md NODE_ID_HEADER = Some node ∧ header md AUTH_TS_HEADER = Some ts_str
    ∧ header md AUTH_SIG_HEADER = Some sig_hex
    ∧ parse_unsigned U64_MAX (bytes ts_str) = Some ts ∧ abs_diff now ts ≤ window
    ∧ decode_signature sig_hex = Some sig ∧ ed_key_ok key = true
    ∧ ed_verify key (byte_list (challenge node ts_str)) sig = true.

Definition no_headers (md : MetadataMap) : Prop :=
  md !! NODE_ID_HEADER = None ∧ md !! AUTH_TS_HEADER = None ∧ md !! AUTH_SIG_HEADER = None.

Lemma header_present md name v : header md name = Some v → is_some (md !! name) = true.
Proof. unfold header. by destruct (md !! name). Qed.

(** The interceptor admits exactly two kinds of request: one without any of the
    three headers, when authentication is not required, and one whose headers name a
    registered node and carry that node's signature over its id and a timestamp at most
    60 seconds away; everything else, a partial set of headers included, is refused as
    unauthenticated. *)
Theorem verify_request_exact now m md :
  verify_request now m md = Ok tt ↔
  (no_headers md ∧ require_auth m = false)
  ∨ ∃ node key, mi_registry m !! node = Some key ∧ token_ok now 60 md node key.
Proof.
  unfold verify_request, registry_get. split.
  - destruct (negb _) eqn:Hp.
    { destruct (require_auth m) eqn:Hr; [done|]. intros _. left. split; [|done]. unfold no_headers.
      apply negb_true_iff in Hp. by destruct (md !! NODE_ID_HEADER), (md !! AUTH_TS_HEADER), (md !! AUTH_SIG_HEADER). }
    destruct (header md NODE_ID_HEADER) as [node|] eqn:H1; [|done]. simpl.
    destruct (header md AUTH_TS_HEADER) as [ts_str|] eqn:H2; [|done]. simpl.
    destruct (header md AUTH_SIG_HEADER) as [sig_hex|] eqn:H3; [|done]. simpl.
    destruct (parse_unsigned _ _) as [ts|] eqn:H4; [|done]. simpl.
    destruct (60 <? _) eqn:H5; [done|]. simpl. apply Z.ltb_ge in H5.
    destruct (decode_signature sig_hex) as [sig|] eqn:H6; [|done]. simpl.
    destruct (mi_registry m !! node) as [key|] eqn:H7; [|done]. simpl.
    destruct (ed_key_ok key) eqn:H8; [|done]. destruct (ed_verify _ _ _) eqn:H9; [|done]. intros _.
    right. exists node, key. split; [done|]. by exists ts_str, sig_hex, ts, sig.
  - intros [[(Ha & Hb & Hc) Hr]|(node & key & Hk & ts_str & sig_hex & ts & sig & H1 & H2 & H3 & H4 & H5 & H6 & H7 & H8)].
    { rewrite Ha, Hb, Hc, Hr. done. }
    rewrite (header_present _ _ _ H1), H1. simpl. rewrite H2. simpl. rewrite H3. simpl. rewrite H4. simpl.
    destruct (Z.ltb_spec 60 (abs_diff now ts)); [lia|]. simpl. rewrite H6. simpl. rewrite Hk. simpl.
    by rewrite H7, H8.
Qed.

(** The ways a request is authorized, as one condition. *)
Definition admin_request (now : Z) (g : AdminGate) (md : MetadataMap) (cn : string) : Prop :=
  ∃ b64 der c key,
    header md CERT_HEADER = Some b64 ∧ base64_decode b64 = Some der
    ∧ verify_cert_der now (ag_verifier g) der = Ok tt
    ∧ cert_of_der der = Ok c ∧ subject_cn c = Some cn
    ∧ certificate_ed25519_public_key_der der = Some key
    ∧ certificate_admin_role_der der = Some ADMIN_ROLE
    ∧ token_ok now (skew_secs g) md cn key.

Lemma authorize_intro now g md cn : admin_request now g md cn → authorize now g md = Ok cn.
Proof.
  unfold authorize, verified_subject_cn.
  intros (b64 & der & c & key & H0 & Hd & Hv & Hc & Hcn & Hk & Hrole & ts_str & sig_hex & ts & sig
          & H1 & H2 & H3 & H4 & H5 & H6 & H7 & H8).
  rewrite H1, H2, H3, H0. simpl. rewrite H4. simpl.
  destruct (Z.ltb_spec (skew_secs g) (abs_diff now ts)); [lia|]. simpl. rewrite Hd. simpl.
  rewrite Hv. simpl. rewrite Hc. simpl. rewrite Hcn. simpl. rewrite str_eqb_refl, Hk. simpl.
  rewrite H6. simpl. rewrite H7, H8. by rewrite bool_decide_true.
Qed.

(** C37: the admin gate authorizes exactly the requests with a certificate that the
    trust store verifies now, whose Common Name is the calling node and whose unit is
    the admin role, together with headers signed by the certificate's own key within
    the window; the answer is the Common Name. *)
Theorem authorize_exact now g md cn :
  authorize now g md = Ok cn ↔ admin_request now g md cn.
Proof.
  unfold authorize, verified_subject_cn. split.
  - destruct (header md NODE_ID_HEADER) as [node|] eqn:H1; [|done]. simpl.
    destruct (header md AUTH_TS_HEADER) as [ts_str|] eqn:H2; [|done]. simpl.
    destruct (header md AUTH_SIG_HEADER) as [sig_hex|] eqn:H3; [|done]. simpl.
    destruct (header md CERT_HEADER) as [b64|] eqn:H0; [|done]. simpl.
    destruct (parse_unsigned _ _) as [ts|] eqn:H4; [|done]. simpl.
    destruct (skew_secs g <? _) eqn:H5; [done|]. simpl. apply Z.ltb_ge in H5.
    destruct (base64_decode b64) as [der|] eqn:Hd; [|done]. simpl.
    destruct (verify_cert_der _ _ _) as [[]|] eqn:Hv; [|done]. simpl.
    destruct (cert_of_der der) as [c|] eqn:Hc; [|done]. simpl.
    destruct (subject_cn c) as [cn'|] eqn:Hcn; [|done]. simpl.
    destruct (cn' ==? node) eqn:Hn; [|done]. apply str_eqb_eq in Hn as ->.
    destruct (certificate_ed25519_public_key_der der) as [key|] eqn:Hk; [|done]. simpl.
    destruct (decode_signature sig_hex) as [sig|] eqn:H6; [|done]. simpl.
    destruct (ed_key_ok key) eqn:H8; [|done]. destruct (ed_verify _ _ _) eqn:H9; [|done].
    case_bool_decide as Hrole; [|done]. intros [= ->].
    exists b64, der, c, key. split_and!; try done. by exists ts_str, sig_hex, ts, sig.
  - apply authorize_intro.
Qed.

(** What is relied on of the libraries: ed25519 signatures of a seed verify under its
    public key, hex round trips, and printed numbers and hex text are valid headers. *)
Record rpc_laws : Prop := {
  rl_key : ∀ seed, ed_key_ok (ed_public seed) = true;
  rl_sign : ∀ seed m, ed_verify (ed_public seed) m (ed_sign seed m) = true;
  rl_len : ∀ seed m, slen (ed_sign seed m) = 64%nat;
  rl_hex : ∀ b, Forall is_byte b → hex_decode (hex_encode b) = Ok b;
  rl_hex_header : ∀ b, to_str (hex_encode b) = Some (hex_encode b);
  rl_ts_header : ∀ z, 0 ≤ z → to_str (pretty z) = Some (pretty z) }.

Lemma decode_signature_encode (L : rpc_laws) sig :
  slen sig = 64%nat → decode_signature (hex_encode (byte_list sig)) = Some sig.
Proof.
  intros H. unfold decode_signature. rewrite (rl_hex L) by apply byte_list_bytes.
  rewrite length_byte_list, H. simpl. by rewrite of_byte_list_byte_list.
Qed.

Lemma build_headers_Ok (L : rpc_laws) now t window seed key node md hs :
  0 ≤ t ≤ U64_MAX → abs_diff now t ≤ window → to_str node = Some node →
  build_headers t seed key node = Ok hs →
  token_ok now window (insert_headers hs md) node (ed_public seed).
Proof.
  intros Ht Hw Hn. unfold build_headers. destruct (ed_key_ok key); [|done]. intros [= <-].
  exists (pretty t), (hex_encode (byte_list (ed_sign seed (byte_list (challenge node (pretty t)))))), t,
    (ed_sign seed (byte_list (challenge node (pretty t)))).
  unfold insert_headers. cbn [foldl fst snd]. unfold header.
  rewrite (lookup_insert_ne _ AUTH_SIG_HEADER NODE_ID_HEADER) by done.
  rewrite (lookup_insert_ne _ AUTH_TS_HEADER NODE_ID_HEADER) by done.
  rewrite (lookup_insert_ne _ AUTH_SIG_HEADER AUTH_TS_HEADER) by done.
  rewrite !lookup_insert_eq. cbn [mbind option_bind].
  split_and!; try done.
  - apply (rl_ts_header L). lia.
  - apply (rl_hex_header L).
  - by apply parse_unsigned_pretty.
  - apply decode_signature_encode; [done|]. apply (rl_len L).
  - apply (rl_key L).
  - apply (rl_sign L).
Qed.

(** Client and server agree: the headers a client builds at one time for a node
    whose key is registered are accepted at any time at most 60 seconds before or after,
    by a strict and by a permissive interceptor; but the builder does not check that the
    two keys belong together, so with another node's valid public key it still succeeds,
    and the server then decides by the signing key alone. *)
Theorem built_headers_accepted (L : rpc_laws) now t seed key node m md :
  0 ≤ t ≤ U64_MAX → abs_diff now t ≤ 60 → to_str node = Some node → ed_key_ok key = true →
  mi_registry m !! node = Some (ed_public seed) →
  ∃ hs, build_headers t seed key node = Ok hs
    ∧ verify_request now m (insert_headers hs md) = Ok tt.
Proof.
  intros Ht Hw Hn Hk Hr. unfold build_headers at 1. rewrite Hk. eexists. split; [done|].
  apply verify_request_exact. right. exists node, (ed_public seed). split; [done|].
  eapply build_headers_Ok; try done. unfold build_headers. by rewrite Hk.
Qed.

(** A captured request is an administrator's pass.  The admin gate checks a
    signature over the same text as the interceptor (node id and timestamp, no method,
    no body, no nonce), so the headers of any accepted request of a node whose
    certificate carries the admin role, with that public certificate attached, authorize
    admin operations at any time within the window, as often as they are sent. *)
Theorem captured_headers_authorize_admin now now' m g md b64 der c node key :
  require_auth m = true → verify_request now m md = Ok tt →
  header md NODE_ID_HEADER = Some node → mi_registry m !! node = Some key →
  base64_decode b64 = Some der → to_str b64 = Some b64 →
  verify_cert_der now' (ag_verifier g) der = Ok tt → cert_of_der der = Ok c → subject_cn c = Some node →
  certificate_ed25519_public_key_der der = Some key →
  certificate_admin_role_der der = Some ADMIN_ROLE →
  (∀ ts_str ts, header md AUTH_TS_HEADER = Some ts_str →
     parse_unsigned U64_MAX (bytes ts_str) = Some ts → abs_diff now' ts ≤ skew_secs g) →
  authorize now' g (<[CERT_HEADER := b64]> md) = Ok node.
Proof.
  intros Hm Hv Hn Hk Hb Hs Hc Hp Hcn Hkey Hrole Hw.
  apply verify_request_exact in Hv as [[_ Hr]|(node' & key' & Hk' & ts_str & sig_hex & ts & sig
    & H1 & H2 & H3 & H4 & H5 & H6 & H7 & H8)]; [congruence|].
  rewrite H1 in Hn. injection Hn as ->. rewrite Hk in Hk'. injection Hk' as <-.
  assert (Hh : ∀ name, name ≠ CERT_HEADER → header (<[CERT_HEADER := b64]> md) name = header md name)
    by (intros; unfold header; by rewrite lookup_insert_ne by done).
  apply authorize_intro. exists b64, der, c, key.
  split_and!; try done; [unfold header; by rewrite lookup_insert_eq|].
  exists ts_str, sig_hex, ts, sig. rewrite !Hh by done. split_and!; try done. by eapply Hw.
Qed.

Lemma register_from_org_lookup r o node :
  register_from_org r o !! node =
  match org_members o !! node with Some i => Some (ki_public_key i) | None => r !! node end.
Proof.
  unfold register_from_org, registry_register, get_member, member_ids.
  assert (H : ∀ l (r : TrustedKeyRegistry), foldl (λ r n, match org_members o !! n with
                | Some i => <[n := ki_public_key i]> r | None => r end) r l !! node
              = if bool_decide (node ∈ l) then
                  match org_members o !! node with Some i => Some (ki_public_key i) | None => r !! node end
                else r !! node).
  { clear. induction l as [|n l IH]; intros r; simpl; [done|]. rewrite IH.
    destruct (decide (n = node)) as [->|Hne].
    - rewrite (bool_decide_true (node ∈ node :: l)) by left. destruct (org_members o !! node); [|by case_bool_decide].
      rewrite lookup_insert_eq. by case_bool_decide.
    - assert (bool_decide (node ∈ n :: l) = bool_decide (node ∈ l)) as ->.
      { apply bool_decide_ext. rewrite elem_of_cons. naive_solver. }
      destruct (org_members o !! n); [|done]. by rewrite lookup_insert_ne by done. }
  rewrite H. case_bool_decide as Hin; [done|].
  destruct (org_members o !! node) as [i|] eqn:Hm; [|done]. destruct Hin.
  apply list_elem_of_fmap. exists (node, i). split; [done|]. by apply elem_of_map_to_list.
Qed.

(** Revoking a member's certificate does not withdraw its RPC access: the member
    stays in the registry of identities that [register_from_org] reads, so a registry
    built after the revocation still trusts its key and its headers are accepted. *)
Theorem revoked_member_authenticates (L : rpc_laws) (o : Organization) t t_ns now node i o' r strict md :
  org_members o !! node = Some i → revoke_identity t_ns o node = (o', Ok tt) →
  0 ≤ t ≤ U64_MAX → abs_diff now t ≤ 60 → to_str node = Some node →
  ∃ hs, build_headers t (ki_seed i) (ki_public_key i) node = Ok hs
    ∧ verify_request now (mkInterceptor (register_from_org r o') strict) (insert_headers hs md) = Ok tt.
Proof.
  intros Hi Hr Ht Hw Hn.
  assert (Hk : ed_key_ok (ki_public_key i) = true) by apply (rl_key L).
  unfold build_headers at 1. rewrite Hk. eexists. split; [done|].
  apply verify_request_exact. right. exists node, (ki_public_key i). split.
  - simpl. rewrite register_from_org_lookup.
    assert (org_members o' = org_members o) as ->; [|by rewrite Hi].
    revert Hr. unfold revoke_identity. case_match; [|done]. by intros [= <-].
  - eapply build_headers_Ok; try done. unfold build_headers. by rewrite Hk.
Qed.
End auth.
