(* ===== verification/Indexer.v ===== *)
(** The analytics projections of committed blocks (glasschain-indexer: provenance.rs,
    indexer.rs, event_bus.rs, flattener.rs).

    [Provenance] models the custody index, [Index] the block and transaction index,
    [EventBus] the bounded event log, [Flattener] the flat records with their queries
    and CSV rows, and the lineage that joins custody and flat records.  The JSON
    renderings are parameters.  The theorems relate each projection to the chain it is
    built from. *)

From S2P Require Import Prelude Types Asset.

Import TrustScore.

Local Open Scope Z_scope.

(** ** provenance.rs *)

Module Provenance.

Record CustodyEvent := mkCustodyEvent {
  ce_asset_id : string;
  ce_event_type : string;
  ce_custodian_id : string;
  ce_transaction_id : string;
  ce_block_index : Z;
  ce_timestamp : Z }.

Notation ProvenanceIndex := (gmap string (list CustodyEvent)).

Definition ProvenanceIndex_new : ProvenanceIndex := ∅.

Definition get_custody_chain (p : ProvenanceIndex) (asset_id : string) : list CustodyEvent :=
  default [] (p !! asset_id).

Definition record_event (p : ProvenanceIndex) (e : CustodyEvent) : ProvenanceIndex :=
  <[ce_asset_id e := get_custody_chain p (ce_asset_id e) ++ [e]]> p.

Definition asset_id_for (a : TraceableAsset) : string :=
  match gtin a, serial_number a, batch_number a with
  | Some g, Some sn, _ => "GTIN:" +:+ g +:+ ":SN:" +:+ sn
  | Some g, None, Some b => "GTIN:" +:+ g +:+ ":BATCH:" +:+ b
  | Some g, None, None => "GTIN:" +:+ g
  | None, Some sn, _ => "SN:" +:+ sn
  | None, None, _ => "PRODUCT:" +:+ product_name a
  end.

Definition custody_event (b : Block) (tx : Transaction) (r : TraceableAssetRegistration) : CustodyEvent :=
  mkCustodyEvent (asset_id_for (tar_asset r)) (event_type r) (custodian_id (tar_asset r)) (tx_id tx)
    (index b) (tx_timestamp tx).

Definition ingest_block (p : ProvenanceIndex) (b : Block) : ProvenanceIndex :=
  foldl (λ p tx, match tx_kind tx with
                 | KAssetRegistration r => record_event p (custody_event b tx r)
                 | _ => p
                 end) p (transactions b).

Definition tracked_assets (p : ProvenanceIndex) : list string := (map_to_list p).*1.

(** [chain_iter.any(..)]: the rest of the iterator after the first match. *)
Fixpoint skip_to (expected : string) (l : list CustodyEvent) : option (list CustodyEvent) :=
  match l with
  | [] => None
  | e :: l => if ce_event_type e ==? expected then Some l else skip_to expected l
  end.

Fixpoint in_order (chain : list CustodyEvent) (expected : list string) : bool :=
  match expected with
  | [] => true
  | x :: expected =>
      match skip_to x chain with Some rest => in_order rest expected | None => false end
  end.

Definition verify_lineage (p : ProvenanceIndex) (asset_id : string) (expected_events : list string) : bool :=
  let chain := get_custody_chain p asset_id in
  if (length chain <? length expected_events)%nat then false else in_order chain expected_events.

End Provenance.

(** ** indexer.rs *)

Module Index.

Record IndexedBlock := mkIndexedBlock {
  ib_index : Z;
  ib_hash : string;
  ib_previous_hash : string;
  ib_timestamp : Z;
  ib_transaction_count : nat;
  ib_transaction_ids : list string }.

Definition indexed_block (b : Block) : IndexedBlock :=
  mkIndexedBlock (index b) (hash b) (previous_hash b) (timestamp b) (length (transactions b))
    (tx_id <$> transactions b).

Record IndexedTransaction := mkIndexedTx {
  it_id : string;
  it_block_index : Z;
  it_timestamp : Z;
  it_kind : string;
  it_payload_json : string }.

Inductive IndexerError := IxSerialization (e : string) | IxStorage (e : string).

Definition kind_name (tx : Transaction) : string :=
  match tx_kind tx with
  | KSupplyOffer _ => "SupplyOffer"
  | KPurchaseOrder _ => "PurchaseOrder"
  | KContractCreation _ => "ContractCreation"
  | KContractExecution _ => "ContractExecution"
  | KInventoryUpdate _ => "InventoryUpdate"
  | KAssetRegistration _ => "AssetRegistration"
  | KCanonicalRecord _ => "CanonicalRecord"
  | KCapabilityActivation _ => "CapabilityActivation"
  | KPolicyUpdate _ => "PolicyUpdate"
  end.

Record InMemoryIndexer := mkIndexer {
  ix_blocks : gmap Z IndexedBlock;
  ix_transactions : gmap string IndexedTransaction;
  ix_block_tx_ids : gmap Z (list string) }.

Definition InMemoryIndexer_new : InMemoryIndexer := mkIndexer ∅ ∅ ∅.

Section index.
(** serde_json of a transaction *)
Context (tx_to_json : Transaction → result string string).

Definition indexed_transaction (b : Block) (tx : Transaction) : result IndexerError IndexedTransaction :=
  let? json := map_err IxSerialization (tx_to_json tx) in
  Ok (mkIndexedTx (tx_id tx) (index b) (tx_timestamp tx) (kind_name tx) json).

Definition indexed_transactions_of (b : Block) : result IndexerError (list IndexedTransaction) :=
  try_map (indexed_transaction b) (transactions b).

(** The block and its id list are written before the transactions are rendered. *)
Definition index_block (x : InMemoryIndexer) (b : Block) : InMemoryIndexer * result IndexerError unit :=
  let x := mkIndexer (<[index b := indexed_block b]> (ix_blocks x)) (ix_transactions x)
             (<[index b := tx_id <$> transactions b]> (ix_block_tx_ids x)) in
  match indexed_transactions_of b with
  | Err e => (x, Err e)
  | Ok txs =>
      (mkIndexer (ix_blocks x) (foldl (λ m t, <[it_id t := t]> m) (ix_transactions x) txs)
         (ix_block_tx_ids x), Ok tt)
  end.
End index.

Definition get_block (x : InMemoryIndexer) (i : Z) : option IndexedBlock := ix_blocks x !! i.
Definition get_transaction (x : InMemoryIndexer) (id : string) : option IndexedTransaction :=
  ix_transactions x !! id.
Definition transactions_in_block (x : InMemoryIndexer) (i : Z) : list IndexedTransaction :=
  match ix_block_tx_ids x !! i with
  | Some ids => omap (λ id, ix_transactions x !! id) ids
  | None => []
  end.
Definition block_count (x : InMemoryIndexer) : nat := size (ix_blocks x).

End Index.

(** ** event_bus.rs *)

Module EventBus.

Record IndexerEvent := mkEvent {
  ev_event_type : string;
  ev_block_index : Z;
  ev_transaction_id : string;
  ev_transaction_kind : string;
  ev_timestamp : Z;
  ev_payload_json : string }.

Inductive EventBusError := EbSerialization (e : string) | EbPublish (e : string).

(** The bounded log; subscribers read the same events from the broadcast channel. *)
Record InMemoryEventBus := mkBus { bus_log : list IndexerEvent; bus_capacity : nat }.

Definition InMemoryEventBus_new (capacity : nat) : InMemoryEventBus := mkBus [] capacity.

Definition publish (bus : InMemoryEventBus) (e : IndexerEvent) : InMemoryEventBus :=
  let log := if (bus_capacity bus <=? length (bus_log bus))%nat then tail (bus_log bus) else bus_log bus in
  mkBus (log ++ [e]) (bus_capacity bus).

Section bus.
Context (tx_to_json : Transaction → result string string)
        (block_json : Z → string → nat → string).

Definition tx_event (b : Block) (tx : Transaction) (json : string) : IndexerEvent :=
  mkEvent "transaction_committed" (index b) (tx_id tx) (Index.kind_name tx) (tx_timestamp tx) json.

Definition block_event (b : Block) : IndexerEvent :=
  mkEvent "block_committed" (index b) "" "" (timestamp b)
    (block_json (index b) (hash b) (length (transactions b))).

(** [publish_block] stops at the first transaction that does not serialize; what was
    published before stays. *)
Fixpoint publish_txs (bus : InMemoryEventBus) (b : Block) (txs : list Transaction)
  : InMemoryEventBus * result EventBusError unit :=
  match txs with
  | [] => (bus, Ok tt)
  | tx :: txs =>
      match tx_to_json tx with
      | Err e => (bus, Err (EbSerialization e))
      | Ok json => publish_txs (publish bus (tx_event b tx json)) b txs
      end
  end.

Definition publish_block (bus : InMemoryEventBus) (b : Block) : InMemoryEventBus * result EventBusError unit :=
  match publish_txs bus b (transactions b) with
  | (bus, Err e) => (bus, Err e)
  | (bus, Ok _) => (publish bus (block_event b), Ok tt)
  end.
End bus.

End EventBus.

(** ** flattener.rs *)

Module Flattener.
Import Provenance Index.

Record FlatAssetRecord := mkFlat {
  fr_block_index : Z;
  fr_block_hash : string;
  fr_block_timestamp : Z;
  fr_transaction_id : string;
  fr_transaction_timestamp : Z;
  fr_gtin : option string;
  fr_batch_number : option string;
  fr_expiry_date : option string;
  fr_serial_number : option string;
  fr_anvisa_registration : option string;
  fr_manufacturer_id : option string;
  fr_product_name : string;
  fr_custodian_id : string;
  fr_country_of_origin : option string;
  fr_storage_temp_celsius : option string;
  fr_quantity : Z;
  fr_event_type : string;
  fr_originator_id : string;
  fr_purchase_order_ref : option string;
  fr_trust_score : Z;
  fr_is_standard_compliant : bool;
  fr_missing_core_fields : string }.

Inductive FlattenerError := Deserialization (e : string) | NotAssetRegistration.

(** [slice.join(",")] *)
Fixpoint join_comma (l : list string) : string :=
  match l with
  | [] => ""
  | [s] => s
  | s :: l => s +:+ "," +:+ join_comma l
  end.

Definition flat_record (tx_id_ : string) (tx_time : Z) (block_index : Z) (block_hash : string)
    (block_timestamp : Z) (r : TraceableAssetRegistration) : FlatAssetRecord :=
  let a := tar_asset r in
  let s := compute a in
  mkFlat block_index block_hash block_timestamp tx_id_ tx_time (gtin a) (batch_number a)
    (expiry_date a) (serial_number a) (anvisa_registration a) (manufacturer_id a) (product_name a)
    (custodian_id a) (country_of_origin a) (storage_temp_celsius a) (asset_quantity a) (event_type r)
    (originator_id r) (purchase_order_ref r) (score s) (is_standard s)
    (join_comma (missing_core_fields s)).

Section flattener.
Context (tx_to_json : Transaction → result string string)
        (tx_of_json : string → result string Transaction).

Definition flatten_transaction (tx : IndexedTransaction) (block_index : Z) (block_hash : string)
    (block_timestamp : Z) : result FlattenerError FlatAssetRecord :=
  guard? it_kind tx ==? "AssetRegistration" else NotAssetRegistration in
  let? full := map_err Deserialization (tx_of_json (it_payload_json tx)) in
  match tx_kind full with
  | KAssetRegistration r =>
      Ok (flat_record (it_id tx) (it_timestamp tx) block_index block_hash block_timestamp r)
  | _ => Err NotAssetRegistration
  end.

(** [AnalyticalFlattener] is its records. *)
Notation AnalyticalFlattener := (list FlatAssetRecord).

Definition ingest_indexed_block (f : AnalyticalFlattener) (b : IndexedBlock)
    (txs : list IndexedTransaction) : AnalyticalFlattener :=
  foldl (λ f tx,
    if it_kind tx ==? "AssetRegistration" then
      match flatten_transaction tx (ib_index b) (ib_hash b) (ib_timestamp b) with
      | Ok r => f ++ [r]
      | Err _ => f
      end
    else f) f txs.

(** The commit path of node.rs: a block whose transactions do not serialize is skipped. *)
Definition flatten_block (f : AnalyticalFlattener) (b : Block) : AnalyticalFlattener :=
  match indexed_transactions_of tx_to_json b with
  | Ok txs => ingest_indexed_block f (indexed_block b) txs
  | Err _ => f
  end.
End flattener.

Notation AnalyticalFlattener := (list FlatAssetRecord).

Definition opt_is (o : option string) (s : string) : bool :=
  match o with Some t => t ==? s | None => false end.

Definition records_by_gtin (f : AnalyticalFlattener) (g : string) : list FlatAssetRecord :=
  List.filter (λ r, opt_is (fr_gtin r) g) f.
Definition records_by_custodian (f : AnalyticalFlattener) (c : string) : list FlatAssetRecord :=
  List.filter (λ r, fr_custodian_id r ==? c) f.
Definition records_by_batch (f : AnalyticalFlattener) (b : string) : list FlatAssetRecord :=
  List.filter (λ r, opt_is (fr_batch_number r) b) f.
Definition standard_compliant_records (f : AnalyticalFlattener) : list FlatAssetRecord :=
  List.filter fr_is_standard_compliant f.
Definition low_trust_records (f : AnalyticalFlattener) : list FlatAssetRecord :=
  List.filter (λ r, (fr_trust_score r <? 80)%Z) f.
Definition total_quantity_for_gtin (f : AnalyticalFlattener) (g : string) : Z :=
  foldl (λ acc r, add64 acc (fr_quantity r)) 0 (records_by_gtin f g).

(** *** CSV *)

Definition comma : Ascii.ascii := Ascii.ascii_of_nat 44.
Definition dquote : Ascii.ascii := Ascii.ascii_of_nat 34.
Definition newline : Ascii.ascii := Ascii.ascii_of_nat 10.

(** [s.replace(Q, QQ)] for the double quote Q *)
Fixpoint double_quotes (l : list Ascii.ascii) : list Ascii.ascii :=
  match l with
  | [] => []
  | c :: l => if Ascii.eqb c dquote then dquote :: dquote :: double_quotes l else c :: double_quotes l
  end.

Definition quote (s : string) : string :=
  if negb (no_char comma s) || negb (no_char dquote s) || negb (no_char newline s)
  then of_bytes ([dquote] ++ double_quotes (bytes s) ++ [dquote]) else s.

Definition opt (o : option string) : string := default "" o.
Definition bool_str (b : bool) : string := if b then "true" else "false".

(** The columns before the last. *)
Definition plain_columns (r : FlatAssetRecord) : list string :=
  [pretty (fr_block_index r); fr_block_hash r; pretty (fr_block_timestamp r); fr_transaction_id r;
   pretty (fr_transaction_timestamp r); opt (fr_gtin r); opt (fr_batch_number r);
   opt (fr_expiry_date r); opt (fr_serial_number r); opt (fr_anvisa_registration r);
   opt (fr_manufacturer_id r); fr_product_name r; fr_custodian_id r; opt (fr_country_of_origin r);
   opt (fr_storage_temp_celsius r); pretty (fr_quantity r); fr_event_type r; fr_originator_id r;
   opt (fr_purchase_order_ref r); pretty (fr_trust_score r); bool_str (fr_is_standard_compliant r)].

Definition to_csv_row (r : FlatAssetRecord) : string :=
  join_comma (plain_columns r ++ [quote (fr_missing_core_fields r)]).

Definition csv_header_columns : list string :=
  ["block_index"; "block_hash"; "block_timestamp"; "transaction_id"; "transaction_timestamp";
   "gtin"; "batch_number"; "expiry_date"; "serial_number"; "anvisa_registration"; "manufacturer_id";
   "product_name"; "custodian_id"; "country_of_origin"; "storage_temp_celsius"; "quantity";
   "event_type"; "originator_id"; "purchase_order_ref"; "trust_score"; "is_standard_compliant";
   "missing_core_fields"].
Definition to_csv_header : string := join_comma csv_header_columns.

(** *** Lineage *)

Definition colon : Ascii.ascii := Ascii.ascii_of_nat 58.

Fixpoint until (c : Ascii.ascii) (s : string) : string :=
  match s with
  | EmptyString => EmptyString
  | String a s => if Ascii.eqb a c then EmptyString else String a (until c s)
  end.

Definition extract_gtin (asset_id : string) : option string := until colon <$> strip_prefix "GTIN:" asset_id.

(** The average trust score is kept as the sum and the count it is the quotient of. *)
Record VerifiableLineage := mkLineage {
  vl_asset_id : string;
  vl_custody_chain : list CustodyEvent;
  vl_flat_records : list FlatAssetRecord;
  vl_is_complete : bool;
  vl_trust_score_avg : Z * nat }.

Definition lineage_build (asset_id : string) (p : ProvenanceIndex) (f : AnalyticalFlattener)
  : VerifiableLineage :=
  let custody := get_custody_chain p asset_id in
  let flat := match extract_gtin asset_id with Some g => records_by_gtin f g | None => [] end in
  mkLineage asset_id custody flat (length custody =? length flat)%nat
    (foldr Z.add 0 (fr_trust_score <$> flat), length flat).

End Flattener.

(** ** The projections of a chain *)

Section projections.
Import Provenance Index Flattener.

Notation Registration := (Block * Transaction * TraceableAssetRegistration)%type.

Definition block_registrations (b : Block) : list Registration :=
  omap (λ tx, match tx_kind tx with KAssetRegistration r => Some (b, tx, r) | _ => None end)
    (transactions b).

(** The asset registrations of a chain, in order. *)
Definition registrations (chain : list Block) : list Registration :=
  mjoin (block_registrations <$> chain).

Definition event_of (x : Registration) : CustodyEvent := custody_event x.1.1 x.1.2 x.2.
Definition flat_of (x : Registration) : FlatAssetRecord :=
  flat_record (tx_id x.1.2) (tx_timestamp x.1.2) (index x.1.1) (hash x.1.1) (timestamp x.1.1) x.2.

Lemma record_events_lookup es : ∀ p id,
  get_custody_chain (foldl record_event p es) id
  = get_custody_chain p id ++ List.filter (λ e, ce_asset_id e ==? id) es.
Proof.
  induction es as [|e es IH]; intros p id; simpl; [by rewrite app_nil_r|].
  rewrite IH. unfold record_event, get_custody_chain at 1 2.
  destruct (ce_asset_id e ==? id) eqn:He.
  - apply str_eqb_eq in He as <-. rewrite lookup_insert_eq. simpl. by rewrite <- app_assoc.
  - apply str_eqb_neq in He. by rewrite lookup_insert_ne by done.
Qed.

Lemma ingest_block_events p b :
  ingest_block p b = foldl record_event p (event_of <$> block_registrations b).
Proof.
  unfold ingest_block, block_registrations.
  assert (H : ∀ txs p, foldl (λ p tx, match tx_kind tx with
      | KAssetRegistration r => record_event p (custody_event b tx r) | _ => p end) p txs
    = foldl record_event p (event_of <$> omap (λ tx, match tx_kind tx with
        | KAssetRegistration r => Some (b, tx, r) | _ => None end) txs)).
  { clear. induction txs as [|tx txs IH]; intros p; csimpl; [done|]. by destruct (tx_kind tx). }
  apply H.
Qed.

Lemma ingest_chain_events chain : ∀ p,
  foldl ingest_block p chain = foldl record_event p (event_of <$> registrations chain).
Proof.
  induction chain as [|b chain IH]; intros p; simpl; [done|].
  unfold registrations. csimpl. by rewrite fmap_app, foldl_app, <- ingest_block_events, IH.
Qed.

Lemma custody_chain_of_chain chain id :
  get_custody_chain (foldl ingest_block ProvenanceIndex_new chain) id
  = List.filter (λ e, ce_asset_id e ==? id) (event_of <$> registrations chain).
Proof. by rewrite ingest_chain_events, record_events_lookup. Qed.

Lemma skip_to_sublist x xs l :
  (∃ rest, skip_to x l = Some rest ∧ xs `sublist_of` (ce_event_type <$> rest))
  ↔ x :: xs `sublist_of` (ce_event_type <$> l).
Proof.
  induction l as [|e l IH]; csimpl.
  { split; [by intros (? & ? & _)|by intros ?%sublist_nil_r]. }
  destruct (ce_event_type e ==? x) eqn:He.
  - apply str_eqb_eq in He as <-. split.
    + intros (rest & [= <-] & H). by constructor.
    + intros H. exists l. split; [done|]. inversion H as [| |? ? ? H2]; subst; [done|].
      etrans; [|exact H2]. by constructor.
  - apply str_eqb_neq in He. rewrite IH. split; [by constructor|].
    intros H. inversion H; subst; done.
Qed.

Lemma in_order_sublist expected : ∀ chain,
  in_order chain expected = true ↔ expected `sublist_of` (ce_event_type <$> chain).
Proof.
  induction expected as [|x expected IH]; intros chain; simpl.
  { split; [intros; apply sublist_nil_l|done]. }
  rewrite <- skip_to_sublist. destruct (skip_to x chain) as [rest|].
  - rewrite IH. naive_solver.
  - naive_solver.
Qed.

(** The custody index answers for the chain.  After ingesting a chain block by block,
    the custody chain of an asset is exactly the list of its registrations in committed
    order, and [verify_lineage] is true exactly when the expected event types occur in
    that order (other events may lie between them). *)
Theorem provenance_exact chain id expected :
  let p := foldl ingest_block ProvenanceIndex_new chain in
  let events := List.filter (λ e, ce_asset_id e ==? id) (event_of <$> registrations chain) in
  get_custody_chain p id = events
  ∧ (verify_lineage p id expected = true ↔ expected `sublist_of` (ce_event_type <$> events)).
Proof.
  intros p events. assert (H : get_custody_chain p id = events) by apply custody_chain_of_chain.
  split; [done|]. unfold verify_lineage. rewrite H.
  destruct (Nat.ltb_spec (length events) (length expected)) as [Hlt|_].
  - split; [done|]. intros Hs%sublist_length. rewrite length_fmap in Hs. lia.
  - apply in_order_sublist.
Qed.

Context (tx_to_json : Transaction → result string string)
        (tx_of_json : string → result string Transaction).
(** A transaction's JSON reads back as the transaction. *)
Context (json_roundtrip : ∀ tx, ∃ j, tx_to_json tx = Ok j ∧ tx_of_json j = Ok tx).

Lemma indexed_transactions_Ok b txs : ∃ l,
  try_map (indexed_transaction tx_to_json b) txs = Ok l
  ∧ ∀ f, ingest_indexed_block tx_of_json f (indexed_block b) l
         = f ++ (flat_of <$> omap (λ tx, match tx_kind tx with
             | KAssetRegistration r => Some (b, tx, r) | _ => None end) txs).
Proof.
  induction txs as [|tx txs IH]; [exists []; split; [done|]; intros f; by rewrite app_nil_r|].
  destruct IH as (l & Hl & Hf). destruct (json_roundtrip tx) as (j & Hj & Hj').
  exists (mkIndexedTx (tx_id tx) (index b) (tx_timestamp tx) (kind_name tx) j :: l). split.
  { cbn [try_map]. unfold indexed_transaction at 1. rewrite Hj. simpl. by rewrite Hl. }
  intros f. unfold ingest_indexed_block in *. cbn [foldl it_kind].
  unfold flatten_transaction at 2, kind_name at 1 2. cbn [it_kind it_payload_json it_id it_timestamp].
  rewrite Hj'. simpl. destruct (tx_kind tx) eqn:Hk; simpl; try apply Hf.
  rewrite Hf. by rewrite <- app_assoc.
Qed.

Lemma flatten_chain chain : ∀ f,
  foldl (flatten_block tx_to_json tx_of_json) f chain = f ++ (flat_of <$> registrations chain).
Proof.
  induction chain as [|b chain IH]; intros f; simpl; [by rewrite app_nil_r|].
  rewrite IH. unfold flatten_block, indexed_transactions_of.
  destruct (indexed_transactions_Ok b (transactions b)) as (l & -> & ->).
  unfold registrations. csimpl. by rewrite fmap_app, app_assoc.
Qed.

Lemma length_filter_fmap {A B} (p : B → bool) (f : A → B) l :
  length (List.filter p (f <$> l)) = length (List.filter (λ x, p (f x)) l).
Proof. induction l as [|x l IH]; csimpl; [done|]. destruct (p (f x)); simpl; by rewrite IH. Qed.

(** A filter that implies another keeps as many elements exactly when they agree. *)
Lemma filter_same_length {A} (p q : A → bool) l :
  (∀ x, x ∈ l → p x = true → q x = true) →
  length (List.filter p l) = length (List.filter q l) ↔ ∀ x, x ∈ l → q x = true → p x = true.
Proof.
  induction l as [|x l IH]; intros Hpq; simpl; [split; [by intros _ ? ?%elem_of_nil|done]|].
  assert (Hl : ∀ y, y ∈ l → p y = true → q y = true) by (intros; apply Hpq; [by right|done]).
  pose proof (filter_length_le p q l Hl) as Hle. specialize (IH Hl).
  pose proof (Hpq x ltac:(by left)) as Hx. setoid_rewrite elem_of_cons.
  destruct (p x) eqn:Hp, (q x) eqn:Hq; simpl; [| |split|].
  - rewrite Nat.succ_inj_wd, IH. split; intros H y; [intros [->|Hy]; auto|auto].
  - by specialize (Hx eq_refl).
  - lia.
  - intros H. specialize (H x (or_introl eq_refl) Hq). congruence.
  - rewrite IH. split; intros H y; [intros [->|Hy]; [congruence|auto]|auto].
Qed.

Lemma until_colon g rest : no_char colon g = true → until colon (g +:+ String colon rest) = g.
Proof.
  induction g as [|a g IH]; intros H; [done|]. rewrite app_str_cons. simpl in *.
  apply andb_prop in H as [H1 H2]. apply negb_true_iff in H1. by rewrite H1, IH.
Qed.

Lemma until_none g : no_char colon g = true → until colon g = g.
Proof.
  induction g as [|a g IH]; intros H; [done|]. simpl in *.
  apply andb_prop in H as [H1 H2]. apply negb_true_iff in H1. by rewrite H1, IH.
Qed.

Lemma extract_gtin_asset a g :
  gtin a = Some g → no_char colon g = true → extract_gtin (asset_id_for a) = Some g.
Proof.
  intros Hg Hc. unfold extract_gtin, asset_id_for. rewrite Hg.
  destruct (serial_number a) as [sn|]; [|destruct (batch_number a) as [bn|]];
    rewrite strip_prefix_app; simpl; f_equal; [by apply until_colon..|by apply until_none].
Qed.

Lemma extract_gtin_None a : gtin a = None → extract_gtin (asset_id_for a) = None.
Proof.
  intros Hg. unfold extract_gtin, asset_id_for. rewrite Hg. by destruct (serial_number a).
Qed.

Lemma opt_is_true o s : opt_is o s = true ↔ o = Some s.
Proof. destruct o as [t|]; simpl; [rewrite str_eqb_eq; split; congruence|done]. Qed.

Definition plain_gtins (chain : list Block) : Prop :=
  ∀ x, x ∈ registrations chain → ∀ g, gtin (tar_asset x.2) = Some g → no_char colon g = true.

(** When a lineage is reported complete.  For an asset with a GTIN, the completeness
    flag is true exactly when every registration of that GTIN on the chain is a
    registration of this very asset: the custody events are fetched for the full
    identifier but the flat records for the GTIN alone, so one registration of another
    serial number or batch of the same product makes a fully recorded lineage incomplete
    (and brings that unit's records and trust score into the answer). *)
Theorem lineage_complete_iff chain a g :
  gtin a = Some g → plain_gtins chain → no_char colon g = true →
  let p := foldl ingest_block ProvenanceIndex_new chain in
  let f := foldl (flatten_block tx_to_json tx_of_json) [] chain in
  vl_is_complete (lineage_build (asset_id_for a) p f) = true ↔
  ∀ x, x ∈ registrations chain → gtin (tar_asset x.2) = Some g →
       asset_id_for (tar_asset x.2) = asset_id_for a.
Proof.
  intros Hg Hplain Hc p f. unfold lineage_build, p, f, records_by_gtin. simpl.
  rewrite custody_chain_of_chain, (extract_gtin_asset _ _ Hg Hc), (flatten_chain chain []). simpl.
  rewrite !length_filter_fmap, Nat.eqb_eq, filter_same_length.
  - apply forall_proper. intros x. rewrite opt_is_true, str_eqb_eq. done.
  - intros x Hx Hid. simpl in *. apply str_eqb_eq in Hid.
    destruct (gtin (tar_asset x.2)) as [g'|] eqn:Hg'.
    + pose proof (extract_gtin_asset _ _ Hg' (Hplain x Hx g' Hg')) as E. unfold event_of in Hid. simpl in Hid.
      rewrite Hid, (extract_gtin_asset _ _ Hg Hc) in E. injection E as ->. apply opt_is_true. done.
    + pose proof (extract_gtin_None _ Hg') as E. unfold event_of in Hid. simpl in Hid.
      rewrite Hid, (extract_gtin_asset _ _ Hg Hc) in E. done.
Qed.
End projections.

(** ** The event log *)

Section event_log.
Import EventBus.

Lemma publish_log cap log e : (0 < cap)%nat → (length log ≤ cap)%nat →
  bus_log (publish (mkBus log cap) e) = drop (S (length log) - cap) (log ++ [e]).
Proof.
  intros Hc Hl. unfold publish. cbn [bus_log bus_capacity]. destruct (Nat.leb_spec cap (length log)).
  - replace (S (length log) - cap)%nat with 1%nat by lia. by destruct log; [simpl in *; lia|].
  - by replace (S (length log) - cap)%nat with 0%nat by lia.
Qed.

(** The event log is the suffix of everything published.  With a positive capacity,
    the log holds the last [capacity] events, all of them when there are fewer, in the
    order they were published. *)
Theorem event_log_suffix cap es : (0 < cap)%nat →
  bus_log (foldl publish (InMemoryEventBus_new cap) es) = drop (length es - cap) es.
Proof.
  intros Hc. induction es as [|e es IH] using rev_ind; [done|].
  rewrite foldl_app. cbn [foldl].
  assert (Hcap : bus_capacity (foldl publish (InMemoryEventBus_new cap) es) = cap).
  { clear IH. induction es as [|e' es IH] using rev_ind; [done|]. by rewrite foldl_app. }
  destruct (foldl publish _ es) as [log c]. simpl in IH, Hcap. subst log c.
  rewrite publish_log, length_drop, length_app by (rewrite ?length_drop; lia). simpl.
  destruct (decide (length es ≤ cap)%nat).
  - replace (length es - cap)%nat with 0%nat by lia. rewrite Nat.sub_0_r, drop_0. f_equal. lia.
  - rewrite <- drop_app_le, drop_drop by lia. f_equal. lia.
Qed.
End event_log.

(** ** Reading the CSV rows back *)

Section csv.
Import Flattener.

(** A reader of one RFC 4180 record: a field that starts with a double quote runs to the
    closing one, a doubled quote inside it stands for one. *)
Inductive csv_state := AtStart | InPlain | InQuotes | AfterQuote.

Fixpoint csv_go (st : csv_state) (cur : list Ascii.ascii) (l : list Ascii.ascii) : list string :=
  match l with
  | [] => [of_bytes cur]
  | c :: l =>
      match st with
      | AtStart => if Ascii.eqb c dquote then csv_go InQuotes cur l
                   else if Ascii.eqb c comma then of_bytes cur :: csv_go AtStart [] l
                   else csv_go InPlain (cur ++ [c]) l
      | InPlain => if Ascii.eqb c comma then of_bytes cur :: csv_go AtStart [] l
                   else csv_go InPlain (cur ++ [c]) l
      | InQuotes => if Ascii.eqb c dquote then csv_go AfterQuote cur l
                    else csv_go InQuotes (cur ++ [c]) l
      | AfterQuote => if Ascii.eqb c dquote then csv_go InQuotes (cur ++ [c]) l
                      else if Ascii.eqb c comma then of_bytes cur :: csv_go AtStart [] l
                      else csv_go InPlain (cur ++ [c]) l
      end
  end.

Definition csv_fields (row : string) : list string := csv_go AtStart [] (bytes row).

(** A value a row may carry without quotes. *)
Definition plain (s : string) : Prop := no_char comma s = true ∧ no_char dquote s = true.

Lemma csv_plain_go s l : ∀ cur st, st = InPlain ∨ st = AtStart ∧ cur = [] → plain s →
  csv_go st cur (bytes s ++ comma :: l) = of_bytes (cur ++ bytes s) :: csv_go AtStart [] l.
Proof.
  induction s as [|c s IH]; intros cur st Hst [H1 H2].
  { simpl. rewrite app_nil_r. by destruct Hst as [->|[-> ->]]. }
  simpl in *. apply andb_prop in H1 as [Hc1 H1]. apply andb_prop in H2 as [Hc2 H2].
  apply negb_true_iff in Hc1, Hc2. rewrite Hc1, Hc2.
  assert (E : csv_go InPlain (cur ++ [c]) (bytes s ++ comma :: l)
              = of_bytes (cur ++ c :: bytes s) :: csv_go AtStart [] l).
  { rewrite IH; [by rewrite <- app_assoc|by left|done]. }
  by destruct Hst as [->|[-> ->]].
Qed.

Lemma csv_plain_end s : ∀ cur st, st = InPlain ∨ st = AtStart ∧ cur = [] → plain s →
  csv_go st cur (bytes s) = [of_bytes (cur ++ bytes s)].
Proof.
  induction s as [|c s IH]; intros cur st Hst [H1 H2].
  { simpl. by rewrite app_nil_r. }
  simpl in *. apply andb_prop in H1 as [Hc1 H1]. apply andb_prop in H2 as [Hc2 H2].
  apply negb_true_iff in Hc1, Hc2. rewrite Hc1, Hc2.
  assert (E : csv_go InPlain (cur ++ [c]) (bytes s) = [of_bytes (cur ++ c :: bytes s)]).
  { rewrite IH; [by rewrite <- app_assoc|by left|done]. }
  by destruct Hst as [->|[-> ->]].
Qed.

Lemma csv_quoted_go l : ∀ cur,
  csv_go InQuotes cur (double_quotes l ++ [dquote]) = [of_bytes (cur ++ l)].
Proof.
  induction l as [|c l IH]; intros cur; [simpl; by rewrite app_nil_r|].
  cbn [double_quotes]. destruct (Ascii.eqb c dquote) eqn:Hc.
  - apply Ascii.eqb_eq in Hc as ->. cbn [app csv_go]. rewrite !Ascii.eqb_refl, IH, <- app_assoc. done.
  - cbn [app csv_go]. by rewrite Hc, IH, <- app_assoc.
Qed.

Lemma bytes_of_bytes l : bytes (of_bytes l) = l.
Proof. induction l as [|a l IH]; simpl; [done|by rewrite IH]. Qed.

Lemma csv_quote s : csv_go AtStart [] (bytes (quote s)) = [s].
Proof.
  unfold quote. destruct (no_char comma s) eqn:H1; [destruct (no_char dquote s) eqn:H2|]; simpl.
  1: destruct (no_char newline s); simpl.
  1: { rewrite csv_plain_end; [simpl; by rewrite of_bytes_bytes|by right|done]. }
  all: rewrite bytes_of_bytes; transitivity [of_bytes ([] ++ bytes s)];
    [apply csv_quoted_go|simpl; by rewrite of_bytes_bytes].
Qed.

Lemma bytes_join s l : l ≠ [] → bytes (join_comma (s :: l)) = bytes s ++ comma :: bytes (join_comma l).
Proof. destruct l as [|t l]; [done|]. intros _. cbn [join_comma]. by rewrite !bytes_app. Qed.

Lemma csv_join cols last : Forall plain cols →
  csv_fields (join_comma (cols ++ [quote last])) = cols ++ [last].
Proof.
  unfold csv_fields. induction 1 as [|s cols Hs Hcols IH]; [apply csv_quote|].
  change ((s :: cols) ++ [quote last]) with (s :: (cols ++ [quote last])).
  rewrite bytes_join by (intros E; apply (f_equal length) in E; rewrite length_app in E; simpl in E; lia).
  rewrite csv_plain_go; [|by right|done]. rewrite IH. simpl. by rewrite of_bytes_bytes.
Qed.

Lemma plain_pretty_go n : ∀ s, plain s → plain (pretty_N_go n s).
Proof.
  induction (N.lt_wf_0 n) as [n _ IH]. intros s Hs.
  destruct (decide (n = 0)%N) as [->|Hne]; [by rewrite pretty_N_go_0|].
  rewrite pretty_N_go_step by lia. apply IH; [apply N.div_lt; lia|].
  assert (Hd : (n mod 10 < 10)%N) by (apply N.mod_lt; lia).
  assert (n mod 10 = 0 ∨ n mod 10 = 1 ∨ n mod 10 = 2 ∨ n mod 10 = 3 ∨ n mod 10 = 4 ∨ n mod 10 = 5
          ∨ n mod 10 = 6 ∨ n mod 10 = 7 ∨ n mod 10 = 8 ∨ n mod 10 = 9)%N as E.
  { generalize dependent (n mod 10)%N. lia. }
  by repeat destruct E as [->|E]; try rewrite E.
Qed.

Lemma plain_pretty z : 0 <= z → plain (pretty z).
Proof.
  intros Hz. destruct z as [|z|z]; [done| |lia].
  change (plain (pretty (N.pos z))). unfold pretty, pretty_N.
  destruct (decide _); [done|]. by apply plain_pretty_go.
Qed.

(** The text columns a row leaves unquoted. *)
Definition text_columns (r : FlatAssetRecord) : list string :=
  [fr_block_hash r; fr_transaction_id r; opt (fr_gtin r); opt (fr_batch_number r);
   opt (fr_expiry_date r); opt (fr_serial_number r); opt (fr_anvisa_registration r);
   opt (fr_manufacturer_id r); fr_product_name r; fr_custodian_id r; opt (fr_country_of_origin r);
   opt (fr_storage_temp_celsius r); fr_event_type r; fr_originator_id r; opt (fr_purchase_order_ref r)].

Definition csv_numbers (r : FlatAssetRecord) : list Z :=
  [fr_block_index r; fr_block_timestamp r; fr_transaction_timestamp r; fr_quantity r; fr_trust_score r].

(** An exported row reads back.  When the text columns contain neither a comma nor a
    double quote, an RFC 4180 reader finds in a row exactly the record's 22 columns, the
    last one (the missing core fields, a comma-separated list) recovered from its quotes
    whatever it contains. *)
Theorem csv_row_roundtrip r :
  Forall plain (text_columns r) → Forall (λ n, 0 <= n) (csv_numbers r) →
  csv_fields (to_csv_row r) = plain_columns r ++ [fr_missing_core_fields r]
  ∧ length (csv_fields (to_csv_row r)) = length csv_header_columns.
Proof.
  intros Ht Hn. assert (E : csv_fields (to_csv_row r) = plain_columns r ++ [fr_missing_core_fields r]).
  { apply csv_join. unfold text_columns, csv_numbers in *.
    rewrite !Forall_cons in Ht. rewrite !Forall_cons in Hn. unfold plain_columns.
    repeat (apply Forall_cons; split); try apply Forall_nil_2; try (apply plain_pretty; tauto); try tauto.
    by destruct (fr_is_standard_compliant r). }
  by rewrite E.
Qed.

(** A product name with a comma shifts the columns: the row has one column too many. *)
Lemma csv_comma_shifts_columns :
  let r := mkFlat 1 "h" 10 "tx" 11 (Some "789") None None None None None "Dipirona 500mg, caixa" "dist-1"
             None None 5 "RECEIVED" "node-a" None 40 false "" in
  length (csv_fields (to_csv_row r)) = S (length csv_header_columns).
Proof. by vm_compute. Qed.
End csv.
