(* ===== verification/Channel.v ===== *)
(** Private data collections (glasschain-identity: channel.rs, payload_gate.rs).

    A channel keeps its effective members (the configured ones and the regulators),
    the off-chain payloads and the hashes that go on chain.  The theorems: the
    member list is exactly the configured members and the regulators through any
    history, and payloads are readable by current members only, under their hash. *)

From S2P Require Import Prelude Types.

Definition DEFAULT_REGULATOR_ORGS : list string := ["anvisa"; "mapa"].

Definition default_retention_secs : Z := (72 * 60 * 60)%Z.

Record ChannelConfig := mkChannelConfig {
  cc_name : string;
  cc_member_ids : list string;
  cc_description : string;
  cc_endorsement_policy : option PolicyExpression;
  cc_retention_secs : Z }.

Record PrivateDataEntry := mkPrivateDataEntry {
  pd_channel_name : string;
  pd_payload_hash : string;
  pd_payload : string;
  pd_submitter_id : string }.

Record Channel := mkChannel {
  ch_config : ChannelConfig;
  committed_hashes : list string;
  private_data : list PrivateDataEntry;
  members : list string }.

(** The scan of [contains_str]. *)
Fixpoint contains_str (ms : list string) (node_id : string) : bool :=
  match ms with
  | [] => false
  | m :: ms => if m ==? node_id then true else contains_str ms node_id
  end.

(** [Vec::dedup]: drop the later ones of equal neighbours. *)
Fixpoint dedup (l : list string) : list string :=
  match l with
  | x :: l' =>
      match dedup l' with
      | y :: r => if x ==? y then y :: r else x :: y :: r
      | [] => [x]
      end
  | [] => []
  end.

Definition Channel_new (c : ChannelConfig) : Channel :=
  mkChannel c [] [] (dedup (sort_by String.leb (cc_member_ids c ++ DEFAULT_REGULATOR_ORGS))).

Definition endorsement_policy (c : Channel) : option PolicyExpression :=
  cc_endorsement_policy (ch_config c).

Definition member_orgs (c : Channel) : list string := sort_by String.leb (members c).

Definition is_member (c : Channel) (node_id : string) : bool := contains_str (members c) node_id.

Definition set_member_ids (c : ChannelConfig) (ids : list string) : ChannelConfig :=
  mkChannelConfig (cc_name c) ids (cc_description c) (cc_endorsement_policy c)
    (cc_retention_secs c).

Definition add_member (c : Channel) (nid : string) : Channel :=
  let ids := cc_member_ids (ch_config c) in
  mkChannel
    (if bool_decide (nid ∈ ids) then ch_config c else set_member_ids (ch_config c) (ids ++ [nid]))
    (committed_hashes c) (private_data c)
    (if is_member c nid then members c else members c ++ [nid]).

(** [Vec::retain] *)
Definition retain_not (x : string) (l : list string) : list string :=
  List.filter (λ y, negb (y ==? x)) l.

Definition remove_member (c : Channel) (node_id : string) : Channel * bool :=
  if bool_decide (node_id ∈ DEFAULT_REGULATOR_ORGS) then (c, false) else
  (mkChannel (set_member_ids (ch_config c) (retain_not node_id (cc_member_ids (ch_config c))))
     (committed_hashes c) (private_data c) (retain_not node_id (members c)),
   is_member c node_id).

(** [IdentityError::Channel] carries the message. *)
Section channel.
Context `{E : Env}.

Definition submit_private_data (c : Channel) (submitter_id payload : string)
  : Channel * result string string :=
  if negb (is_member c submitter_id) then
    (c, Err (submitter_id +:+ " is not a member of channel '" +:+ cc_name (ch_config c) +:+ "'"))
  else
    let hash := sha256 payload in
    (mkChannel (ch_config c) (committed_hashes c ++ [hash])
       (private_data c ++ [mkPrivateDataEntry (cc_name (ch_config c)) hash payload submitter_id])
       (members c), Ok hash).

Definition get_private_data (c : Channel) (hash requestor_id : string) : option PrivateDataEntry :=
  if negb (is_member c requestor_id) then None
  else List.find (λ e, pd_payload_hash e ==? hash) (private_data c).

(** ** The private-payload gate (payload_gate.rs) *)

Definition private_payload_allowed (verifier_present org_verified org_is_member : bool) : bool :=
  verifier_present && org_verified && org_is_member.

(** ** Members and payloads over a history *)

Inductive ChannelOp :=
| OpSubmit (submitter payload : string)
| OpAdd (nid : string)
| OpRemove (nid : string).

Definition channel_step (c : Channel) (op : ChannelOp) : Channel :=
  match op with
  | OpSubmit s p => (submit_private_data c s p).1
  | OpAdd n => add_member c n
  | OpRemove n => (remove_member c n).1
  end.

Record channel_wf (c : Channel) : Prop := {
  wf_members : ∀ x, x ∈ members c ↔ x ∈ cc_member_ids (ch_config c) ∨ x ∈ DEFAULT_REGULATOR_ORGS;
  wf_distinct : NoDup (members c);
  wf_hashes : ∀ e, e ∈ private_data c →
    pd_payload_hash e = sha256 (pd_payload e) ∧ pd_channel_name e = cc_name (ch_config c);
  wf_committed : committed_hashes c = pd_payload_hash <$> private_data c }.

Lemma contains_str_elem ms x : contains_str ms x = true ↔ x ∈ ms.
Proof.
  induction ms as [|m ms IH]; simpl; [split; [done|by intros []%not_elem_of_nil]|].
  rewrite elem_of_cons, <- IH. destruct (m ==? x) eqn:Hm.
  - apply str_eqb_eq in Hm. naive_solver.
  - apply str_eqb_neq in Hm. naive_solver.
Qed.

Lemma is_member_elem c x : is_member c x = true ↔ x ∈ members c.
Proof. apply contains_str_elem. Qed.

Lemma dedup_elem l x : x ∈ dedup l ↔ x ∈ l.
Proof.
  induction l as [|y l IH]; [done|]. simpl. destruct (dedup l) as [|z r] eqn:Hd.
  - rewrite !elem_of_cons, <- IH. done.
  - rewrite elem_of_cons, <- IH.
    destruct (y ==? z) eqn:Hyz; rewrite !elem_of_cons; [apply str_eqb_eq in Hyz|]; naive_solver.
Qed.

Lemma retain_not_elem x l y : y ∈ retain_not x l ↔ y ∈ l ∧ y ≠ x.
Proof.
  unfold retain_not. rewrite !list_elem_of_In, List.filter_In.
  destruct (y ==? x) eqn:Hy; [apply str_eqb_eq in Hy | apply str_eqb_neq in Hy]; naive_solver.
Qed.

(** Deduplicating a sorted list leaves distinct members. *)
Lemma dedup_sorted_NoDup l :
  StronglySorted (λ x y, String.leb x y = true) l → NoDup (dedup l).
Proof.
  induction 1 as [|x l Hs IH Hx]; [constructor|]. simpl.
  destruct (dedup l) as [|y r] eqn:Hd; [apply NoDup_singleton|].
  destruct (x ==? y) eqn:Hxy; [done|]. apply str_eqb_neq in Hxy.
  apply NoDup_cons. split; [|done]. intros Hin.
  assert (Hy : y ∈ l) by (apply dedup_elem; rewrite Hd; by left).
  assert (StronglySorted (λ x y, String.leb x y = true) (dedup l)) as Hsd.
  { clear -Hs. induction Hs as [|a l _ IH Ha]; [constructor|]. simpl.
    destruct (dedup l) as [|b r] eqn:Hd; [by repeat constructor|].
    assert (∀ z, z ∈ dedup l → String.leb a z = true) as Hall.
    { intros z Hz. rewrite dedup_elem in Hz. rewrite Forall_forall in Ha. by apply Ha. }
    destruct (a ==? b); [done|]. constructor; [done|]. apply Forall_forall.
    intros z Hz. apply Hall. by rewrite Hd. }
  rewrite Hd in Hsd. apply StronglySorted_inv in Hsd as [_ Hyr].
  rewrite Forall_forall in Hx, Hyr. apply elem_of_cons in Hin as [?|Hin]; [done|].
  apply Hxy, String.leb_antisym; [by apply Hx | by apply Hyr].
Qed.

Lemma Channel_new_wf c : channel_wf (Channel_new c).
Proof.
  split; simpl; [|..|done].
  - intros x. by rewrite dedup_elem, sort_by_perm, elem_of_app.
  - apply dedup_sorted_NoDup, sort_by_sorted; [apply String.leb_total | apply str_leb_trans].
  - by intros e []%not_elem_of_nil.
Qed.

Lemma channel_step_wf c op : channel_wf c → channel_wf (channel_step c op).
Proof.
  intros [Hm Hd Hh Hc]. destruct op as [s p|n|n]; simpl.
  - unfold submit_private_data. destruct (is_member c s); simpl; [|by split].
    split; simpl; [done|done|..].
    + intros e [He| ->%list_elem_of_singleton]%elem_of_app; [by apply Hh|done].
    + by rewrite Hc, fmap_app.
  - pose proof (is_member_elem c n) as Hn. unfold add_member.
    split; simpl; [..|done].
    + intros x. rewrite Hm in Hn. case_bool_decide as Hi; destruct (is_member c n) eqn:Hmem; simpl;
        rewrite ?elem_of_app, ?list_elem_of_singleton, ?Hm; naive_solver.
    + destruct (is_member c n); [done|]. apply NoDup_app. split_and!; [done|..].
      * intros x Hx ->%list_elem_of_singleton. apply Hn in Hx. done.
      * apply NoDup_singleton.
    + case_bool_decide; naive_solver.
  - unfold remove_member. case_bool_decide as Hr; [by split|].
    split; simpl; [..|naive_solver|done].
    + intros x. rewrite !retain_not_elem, Hm. naive_solver.
    + apply NoDup_ListNoDup, List.NoDup_filter. by apply NoDup_ListNoDup.
Qed.

Lemma channel_run_wf c ops : channel_wf (foldl channel_step (Channel_new c) ops).
Proof.
  assert (∀ ch, channel_wf ch → channel_wf (foldl channel_step ch ops)) as H.
  { induction ops as [|op ops IH]; intros ch Hch; [done|]. apply IH. by apply channel_step_wf. }
  apply H, Channel_new_wf.
Qed.

(** Through any history of submissions, additions and removals, the effective
    members are the configured members and the regulators, each once; the chain
    carries exactly the SHA-256 hashes of the stored payloads; and a read returns a
    payload with the asked hash to a current member, and nothing to anyone else
    (regulators always read, a removed member no longer does). *)
Theorem channel_access cfg ops :
  let c := foldl channel_step (Channel_new cfg) ops in
  NoDup (members c)
  ∧ (∀ x, is_member c x = true
          ↔ x ∈ cc_member_ids (ch_config c) ∨ x ∈ DEFAULT_REGULATOR_ORGS)
  ∧ committed_hashes c = (λ e, sha256 (pd_payload e)) <$> private_data c
  ∧ (∀ h who e, get_private_data c h who = Some e → is_member c who = true ∧ sha256 (pd_payload e) = h)
  ∧ (∀ h who, h ∈ committed_hashes c → is_member c who = true →
       ∃ e, get_private_data c h who = Some e)
  ∧ (∀ who, who ∉ DEFAULT_REGULATOR_ORGS → ∀ h,
       get_private_data (remove_member c who).1 h who = None).
Proof.
  intros c. pose proof (channel_run_wf cfg ops) as Hwf. fold c in Hwf.
  pose proof Hwf as [Hm Hd Hh Hc]. split_and!.
  - done.
  - intros x. by rewrite is_member_elem.
  - rewrite Hc. apply list_fmap_ext. intros i e He. apply Hh. by eapply list_elem_of_lookup_2.
  - intros h who e. unfold get_private_data. destruct (is_member c who); simpl; [|done].
    intros [He Hf]%find_elem_of. apply str_eqb_eq in Hf. split; [done|].
    rewrite <- Hf. symmetry. by apply Hh.
  - intros h who. rewrite Hc. intros (e & -> & He)%list_elem_of_fmap Hw.
    unfold get_private_data. rewrite Hw. simpl.
    destruct (List.find _ _) eqn:Hf; [eauto|].
    apply list_elem_of_In in He. apply (find_none _ _ Hf) in He. by rewrite str_eqb_refl in He.
  - intros who Hr h. unfold remove_member. rewrite (bool_decide_eq_false_2 _ Hr). simpl.
    unfold get_private_data. destruct (is_member _ who) eqn:Hw; [|done].
    apply is_member_elem in Hw. simpl in Hw. by apply retain_not_elem in Hw as [_ ?].
Qed.
End channel.
