(* ===== verification/Wire.v ===== *)
(** Framed peer connections (glasschain-network: peer.rs, protocol.rs).

    A frame is a four-byte big-endian length and a JSON payload.  The stream is the
    list of bytes that will arrive and the way it ends; the JSON codec of messages
    is a parameter.  The theorems: any sequence of sent messages is received as it
    was sent, whatever follows it, and a frame header above the cap is refused
    without reading the body. *)

From S2P Require Import Prelude Ocsp.

Local Open Scope Z_scope.

Definition MAX_MESSAGE_SIZE : Z := 16 * 1024 * 1024.

Inductive NetworkError :=
| PeerDisconnected (address : string)
| MessageTooLarge (size max : Z)
| Io (e : string)
| Serialization (e : string).

(** How the incoming byte stream ends: closed by the peer, or by another error. *)
Inductive StreamEnd := ClosedByPeer | Failed (e : string).

Record Incoming := mkIncoming { arriving : list Z; stream_end : StreamEnd }.

(** tokio's [read_exact]: all [n] bytes, or the error at the end of the stream. *)
Definition read_exact (n : nat) (s : Incoming) : Incoming * result StreamEnd (list Z) :=
  if (n <=? length (arriving s))%nat
  then (mkIncoming (drop n (arriving s)) (stream_end s), Ok (take n (arriving s)))
  else (mkIncoming [] (stream_end s), Err (stream_end s)).

Definition read_error (address : string) (e : StreamEnd) : NetworkError :=
  match e with ClosedByPeer => PeerDisconnected address | Failed e => Io e end.

(** [u32::from_be_bytes] *)
Definition of_be_bytes (l : list Z) : Z := foldl (λ acc b, acc * 256 + b) 0 l.

Section framing.
(** serde_json on messages. *)
Context {Message : Type} (to_vec : Message → result string (list Z))
        (from_slice : list Z → result string Message).

(** [PeerWriter::send]: the bytes that go out. *)
Definition send (message : Message) : result NetworkError (list Z) :=
  let? payload := map_err Serialization (to_vec message) in
  guard? zlen payload <=? MAX_MESSAGE_SIZE else MessageTooLarge (zlen payload) MAX_MESSAGE_SIZE in
  guard? zlen payload <=? U32_MAX else MessageTooLarge (zlen payload) MAX_MESSAGE_SIZE in
  Ok (be_bytes 4 (zlen payload) ++ payload).

(** [PeerReader::receive] *)
Definition receive (address : string) (s : Incoming) : Incoming * result NetworkError Message :=
  match read_exact 4 s with
  | (s, Err e) => (s, Err (read_error address e))
  | (s, Ok len_buf) =>
      let len := of_be_bytes len_buf in
      if MAX_MESSAGE_SIZE <? len then (s, Err (MessageTooLarge len MAX_MESSAGE_SIZE)) else
      match read_exact (Z.to_nat len) s with
      | (s, Err e) => (s, Err (read_error address e))
      | (s, Ok buf) => (s, map_err Serialization (from_slice buf))
      end
  end.

(** The read loop of a connection: messages up to the first error, in order.
    Every message takes at least its four header bytes, so the number of arriving
    bytes is enough fuel. *)
Fixpoint receive_loop (fuel : nat) (address : string) (s : Incoming)
  : list Message * option NetworkError :=
  match fuel with
  | O => ([], None)
  | S fuel =>
      match receive address s with
      | (s, Ok m) => let '(ms, e) := receive_loop fuel address s in (m :: ms, e)
      | (s, Err e) => ([], Some e)
      end
  end.

Definition receive_all (address : string) (s : Incoming) : list Message * option NetworkError :=
  receive_loop (S (length (arriving s))) address s.

(** ** Properties *)

Lemma of_be_bytes_4 x : 0 ≤ x ≤ U32_MAX → of_be_bytes (be_bytes 4 x) = x.
Proof.
  intros Hx. unfold of_be_bytes. simpl.
  change (256 ^ Z.of_nat 3) with 16777216. change (256 ^ Z.of_nat 2) with 65536.
  change (256 ^ Z.of_nat 1) with 256. change (256 ^ Z.of_nat 0) with 1.
  unfold U32_MAX in Hx. Z.to_euclidean_division_equations. lia.
Qed.

Lemma read_exact_app l r e :
  read_exact (length l) (mkIncoming (l ++ r) e) = (mkIncoming r e, Ok l).
Proof.
  unfold read_exact. simpl. rewrite length_app.
  destruct (Nat.leb_spec (length l) (length l + length r)); [|lia].
  by rewrite drop_app_length, take_app_length.
Qed.

Lemma receive_sent address m bytes r e :
  (∀ m b, to_vec m = Ok b → from_slice b = Ok m) →
  send m = Ok bytes →
  receive address (mkIncoming (bytes ++ r) e) = (mkIncoming r e, Ok m).
Proof.
  intros Hcodec. unfold send. destruct (to_vec m) as [p|] eqn:Hm; cbn [map_err]; [|done].
  destruct (Z.leb_spec (zlen p) MAX_MESSAGE_SIZE) as [Hle|]; [|done].
  destruct (Z.leb_spec (zlen p) U32_MAX) as [Hu|]; [|done].
  intros H. assert (bytes = be_bytes 4 (zlen p) ++ p) as -> by congruence. rewrite <- app_assoc. unfold receive. pose proof (zlen_nonneg p).
  pose proof (read_exact_app (be_bytes 4 (zlen p)) (p ++ r) e) as H4.
  rewrite length_be_bytes in H4. rewrite H4, of_be_bytes_4 by lia.
  destruct (Z.ltb_spec MAX_MESSAGE_SIZE (zlen p)); [lia|].
  replace (Z.to_nat (zlen p)) with (length p) by (unfold zlen; lia).
  rewrite read_exact_app. simpl. by rewrite (Hcodec m p Hm).
Qed.

Lemma send_length m bytes : send m = Ok bytes → (4 ≤ length bytes)%nat.
Proof.
  unfold send. destruct (to_vec m) as [p|]; cbn [map_err]; [|done].
  repeat case_match; try done. intros H'.
  assert (bytes = be_bytes 4 (zlen p) ++ p) as -> by congruence.
  rewrite length_app, length_be_bytes. lia.
Qed.

(** A receive that succeeds took its header from the stream. *)
Lemma receive_progress address s s' m :
  receive address s = (s', Ok m) → (length (arriving s') + 4 ≤ length (arriving s))%nat.
Proof.
  unfold receive, read_exact. destruct (Nat.leb_spec 4 (length (arriving s))) as [H4|]; [|done].
  simpl. destruct (_ <? _); [done|].
  destruct (_ <=? _)%nat eqn:Hn; [|done]. intros [= <- _]. simpl.
  rewrite !length_drop. lia.
Qed.

(** The loop always ends with the error that closes the connection. *)
Lemma receive_loop_ends fuel address s :
  (length (arriving s) < fuel)%nat → is_Some (receive_loop fuel address s).2.
Proof.
  revert s. induction fuel as [|fuel IH]; intros s Hf; [lia|]. simpl.
  destruct (receive address s) as [s' [m|e]] eqn:Hr; [|by eexists].
  apply receive_progress in Hr. specialize (IH s' ltac:(lia)).
  by destruct (receive_loop fuel address s').
Qed.

Lemma receive_loop_sent address ms frames r e fuel :
  (∀ m b, to_vec m = Ok b → from_slice b = Ok m) →
  Forall2 (λ m b, send m = Ok b) ms frames →
  receive_loop (length ms + fuel) address (mkIncoming (mjoin frames ++ r) e)
  = let '(ms', o) := receive_loop fuel address (mkIncoming r e) in (ms ++ ms', o).
Proof.
  intros Hcodec Hs. induction Hs as [|m b ms frames Hb _ IH].
  - simpl. by destruct (receive_loop fuel address _).
  - change (mjoin (b :: frames)) with (b ++ mjoin frames). rewrite <- app_assoc.
    cbn [length Nat.add receive_loop]. rewrite (receive_sent _ _ _ _ _ Hcodec Hb). rewrite IH.
    by destruct (receive_loop fuel address _).
Qed.

(** The messages sent on a connection are received as they were sent, in order,
    however many there are; when the peer then closes (or the stream fails in the
    middle of a frame header) the loop ends with that error.  A header above the
    16 MiB cap is refused before its body is read, and on any stream the loop ends. *)
Theorem frames_roundtrip address ms frames :
  (∀ m b, to_vec m = Ok b → from_slice b = Ok m) →
  Forall2 (λ m b, send m = Ok b) ms frames →
  (∀ e partial, (length partial < 4)%nat →
     receive_all address (mkIncoming (mjoin frames ++ partial) e)
     = (ms, Some (read_error address e)))
  ∧ (∀ e len body, MAX_MESSAGE_SIZE < len ≤ U32_MAX →
     receive_all address (mkIncoming (mjoin frames ++ be_bytes 4 len ++ body) e)
     = (ms, Some (MessageTooLarge len MAX_MESSAGE_SIZE)))
  ∧ (∀ s, is_Some (receive_all address s).2).
Proof.
  intros Hcodec Hs.
  assert (Hn : (length ms ≤ length (mjoin frames))%nat).
  { induction Hs as [|m b ms frames Hb _ IH]; [done|]. apply send_length in Hb.
    change (mjoin (b :: frames)) with (b ++ mjoin frames). rewrite length_app. simpl. lia. }
  assert (Hall : ∀ r : list Z, ∃ fuel, S (length (mjoin frames ++ r)) = (length ms + S fuel)%nat).
  { intros r. exists (length (mjoin frames ++ r) - length ms)%nat. rewrite length_app. lia. }
  split_and!.
  - intros e partial Hp. unfold receive_all. cbn [arriving]. destruct (Hall partial) as [fuel ->].
    rewrite (receive_loop_sent _ _ _ _ _ _ Hcodec Hs). cbn [receive_loop].
    assert (read_exact 4 (mkIncoming partial e) = (mkIncoming [] e, Err e)) as H4.
    { unfold read_exact. cbn [arriving stream_end].
      destruct (Nat.leb_spec 4 (length partial)); [lia|done]. }
    unfold receive. rewrite H4. by rewrite app_nil_r.
  - intros e len body Hl. unfold receive_all. cbn [arriving].
    destruct (Hall (be_bytes 4 len ++ body)) as [fuel ->].
    rewrite (receive_loop_sent _ _ _ _ _ _ Hcodec Hs). cbn [receive_loop]. unfold receive.
    pose proof (read_exact_app (be_bytes 4 len) body e) as H4. rewrite length_be_bytes in H4.
    rewrite H4, of_be_bytes_4 by (unfold MAX_MESSAGE_SIZE in Hl; lia).
    destruct (Z.ltb_spec MAX_MESSAGE_SIZE len); [|lia]. by rewrite app_nil_r.
  - intros s. apply receive_loop_ends. lia.
Qed.
End framing.
