(* ===== verification/Peers.v ===== *)
(** Peer identity: pinning, the Hello handshake and connection state
    (glasschain-core: pin.rs; glasschain-network: node.rs, the peer registry, the
    Hello branch of process_message and the end of handle_peer).

    A connection is named by a number; what is written to it is returned.  Storage
    is any [StorageProvider]; the JSON of a stored pin and base64 are parameters. *)

From S2P Require Import Prelude Types Chain Capability Msp Storage Ocsp CertVerifier Channel.

(** ** The pin decision (pin.rs) *)

Record PinState := mkPinState {
  ps_node_id : string; ps_cert_fingerprint : string; ps_org : string;
  ps_public_key : option string }.

Record IdentityClaim := mkIdentityClaim {
  ic_node_id : string; ic_cert_fingerprint : string; ic_org : string;
  ic_public_key : option string }.

Inductive RotationProof := Missing | Invalid | Valid.

Inductive RejectReason :=
| Poisoned | NodeIdChanged | OrgChanged | NoPinnedKey | MissingProof | InvalidProof.

Inductive PinDecision := PinNew | PinKnown | PinRotated | PinRejected (r : RejectReason).

Definition decide_pin (existing : option PinState) (poisoned : bool) (claim : IdentityClaim)
    (rotation_proof : RotationProof) : PinDecision :=
  if poisoned then PinRejected Poisoned else
  match existing with
  | None => PinNew
  | Some pinned =>
      if negb (ps_node_id pinned ==? ic_node_id claim) then PinRejected NodeIdChanged else
      if negb (ps_org pinned ==? ic_org claim) then PinRejected OrgChanged else
      if ps_cert_fingerprint pinned ==? ic_cert_fingerprint claim then PinKnown else
      if negb (is_some (ps_public_key pinned)) then PinRejected NoPinnedKey else
      match rotation_proof with
      | Missing => PinRejected MissingProof
      | Invalid => PinRejected InvalidProof
      | Valid => PinRotated
      end
  end.

(** ** The peer registry (node.rs) *)

Record CapabilityAdvertisement := mkAdvert { ca_id : string; ca_version : Z }.

Record VerifiedPeer := mkPeer {
  vp_node_id : string;
  vp_cert_fingerprint : string;
  vp_org : string;
  vp_org_verified : bool;
  vp_public_key : option string;
  vp_advertised : list CapabilityAdvertisement }.

Record StoredPeerPin := mkStoredPin {
  sp_node_id : string;
  sp_cert_fingerprint : string;
  sp_org : string;
  sp_org_verified : bool;
  sp_public_key : option string }.

Definition stored_pin (p : VerifiedPeer) : StoredPeerPin :=
  mkStoredPin (vp_node_id p) (vp_cert_fingerprint p) (vp_org p) (vp_org_verified p)
    (vp_public_key p).

Definition pin_state (p : VerifiedPeer) : PinState :=
  mkPinState (vp_node_id p) (vp_cert_fingerprint p) (vp_org p) (vp_public_key p).

Inductive TofuOutcome := TofuNew | TofuKnown | TofuRotated.

Definition supports (p : VerifiedPeer) (set : CapabilitySet) : bool :=
  forallb (λ c,
    match active_version set (cap_id c) with
    | None => true
    | Some (v, _) =>
        existsb (λ a, (ca_id a ==? cap_id c) && (ca_version a =? v)%Z) (vp_advertised p)
    end) CAPABILITY_V1.

Record PeerRegistry := mkRegistry {
  peers : gmap string VerifiedPeer;
  poisoned : gmap string string }.

Definition PeerRegistry_new : PeerRegistry := mkRegistry ∅ ∅.

Definition set_peer (r : PeerRegistry) (addr : string) (p : VerifiedPeer) : PeerRegistry :=
  mkRegistry (<[addr := p]> (peers r)) (poisoned r).

Definition org_verified (r : PeerRegistry) (addr org : string) : option bool :=
  match peers r !! addr with
  | Some p => if vp_org p ==? org then Some (vp_org_verified p) else None
  | None => None
  end.

Definition poison (r : PeerRegistry) (addr reason : string) : PeerRegistry :=
  mkRegistry (peers r) (<[addr := reason]> (poisoned r)).

Definition tofu_rejection_message (reason : RejectReason) (poison_reason : option string)
    (listen_addr node_id org : string) (pinned : option PinState) : string :=
  match reason with
  | Poisoned =>
      "persisted TOFU pin for '" +:+ listen_addr +:+ "' is unreadable ("
      +:+ default "unreadable" poison_reason
      +:+ "); remove the stored pin to re-trust this address"
  | NodeIdChanged =>
      "node_id changed: expected '" +:+ from_option ps_node_id "" pinned +:+ "', got '"
      +:+ node_id +:+ "'"
  | OrgChanged =>
      "org changed for node '" +:+ node_id +:+ "': expected '" +:+ from_option ps_org "" pinned
      +:+ "', got '" +:+ org +:+ "'"
  | NoPinnedKey =>
      "TLS certificate fingerprint changed for node '" +:+ node_id +:+ "' and no "
      +:+ "pinned identity key is available for a signed rotation; operator "
      +:+ "action required"
  | MissingProof =>
      "TLS certificate fingerprint changed for node '" +:+ node_id +:+ "' without a "
      +:+ "signed rotation proof"
  | InvalidProof =>
      "TLS certificate fingerprint changed for node '" +:+ node_id +:+ "' with an "
      +:+ "invalid rotation proof (not signed by the pinned key)"
  end.

Definition set_advertised (r : PeerRegistry) (addr : string)
    (adv : list CapabilityAdvertisement) : PeerRegistry :=
  match peers r !! addr with
  | Some p => set_peer r addr (mkPeer (vp_node_id p) (vp_cert_fingerprint p) (vp_org p)
                                 (vp_org_verified p) (vp_public_key p) adv)
  | None => r
  end.

Definition is_read_only (r : PeerRegistry) (addr : string) (set : CapabilitySet) : bool :=
  match peers r !! addr with
  | None => true
  | Some p => negb (supports p set)
  end.

Definition peer_of_pin (pin : StoredPeerPin) : VerifiedPeer :=
  mkPeer (sp_node_id pin) (sp_cert_fingerprint pin) (sp_org pin) (sp_org_verified pin)
    (sp_public_key pin) [].

Definition load_pin (r : PeerRegistry) (addr : string) (pin : StoredPeerPin) : PeerRegistry :=
  set_peer r addr (peer_of_pin pin).

Section registry.
Context `{E : Env} `{D : Ed25519Crate} `{X : X509}.

(** The proof is looked at only when the fingerprint changed and a key is pinned. *)
Definition rotation_proof_of (pinned : option PinState) (node_id cert_fingerprint : string)
    (fingerprint_proof : option string) : RotationProof :=
  match pinned with
  | Some pin =>
      if ps_cert_fingerprint pin ==? cert_fingerprint then Missing else
      match ps_public_key pin, fingerprint_proof with
      | Some key, Some proof =>
          if verify_ed25519 key (tofu_pin_message node_id cert_fingerprint) proof
          then Valid else Invalid
      | _, _ => Missing
      end
  | None => Missing
  end.

Definition verify_or_register (r : PeerRegistry) (listen_addr node_id cert_fingerprint org : string)
    (verified : bool) (public_key fingerprint_proof : option string)
  : PeerRegistry * result string TofuOutcome :=
  let pinned := pin_state <$> peers r !! listen_addr in
  let claim := mkIdentityClaim node_id cert_fingerprint org public_key in
  let proof := rotation_proof_of pinned node_id cert_fingerprint fingerprint_proof in
  match decide_pin pinned (is_some (poisoned r !! listen_addr)) claim proof with
  | PinRejected reason =>
      (r, Err (tofu_rejection_message reason (poisoned r !! listen_addr) listen_addr node_id org
                 pinned))
  | PinNew =>
      (set_peer r listen_addr (mkPeer node_id cert_fingerprint org verified public_key []),
       Ok TofuNew)
  | PinKnown =>
      (match peers r !! listen_addr with
       | Some p =>
           set_peer r listen_addr
             (mkPeer (vp_node_id p) (vp_cert_fingerprint p) (vp_org p) verified
                (match vp_public_key p with None => public_key | k => k end) (vp_advertised p))
       | None => r
       end, Ok TofuKnown)
  | PinRotated =>
      (match peers r !! listen_addr with
       | Some p =>
           set_peer r listen_addr
             (mkPeer (vp_node_id p) cert_fingerprint (vp_org p) verified
                (match public_key with None => vp_public_key p | k => k end) (vp_advertised p))
       | None => r
       end, Ok TofuRotated)
  end.
End registry.

(** ** Persisted pins *)

Definition TOFU_PIN_PREFIX : string := "tofu:peer:".

Section pins.
Context {S : Type} `{SP : StorageProvider S}.
Context (pin_to_json : StoredPeerPin → string) (pin_of_json : string → result string StoredPeerPin).

(** A failed write is logged; the pin stays in memory. *)
Definition persist_tofu_pin (s : S) (listen_addr : string) (p : VerifiedPeer) : S :=
  (put_state s (TOFU_PIN_PREFIX +:+ listen_addr) (pin_to_json (stored_pin p))).1.

Definition load_key (s : S) (acc : list (string * StoredPeerPin) * list (string * string))
    (key : string) : list (string * StoredPeerPin) * list (string * string) :=
  let '(pins, bad) := acc in
  match strip_prefix TOFU_PIN_PREFIX key with
  | None => acc
  | Some addr =>
      match get_state s key with
      | Ok (Some raw) =>
          match pin_of_json raw with
          | Ok pin => (pins ++ [(addr, pin)], bad)
          | Err e => (pins, bad ++ [(addr, e)])
          end
      | Ok None => acc
      | Err e => (pins, bad ++ [(addr, display_error e)])
      end
  end.

Definition load_tofu_pins (s : S) (r : PeerRegistry) : PeerRegistry :=
  match list_state_keys s TOFU_PIN_PREFIX with
  | Err _ => r
  | Ok keys =>
      let '(pins, bad) := foldl (load_key s) ([], []) keys in
      foldl (λ r ae, poison r ae.1 ae.2) (foldl (λ r ap, load_pin r ap.1 ap.2) r pins) bad
  end.
End pins.

(** ** The connection state of a node *)

Record PeerNode (S : Type) := mkPeerNode {
  pn_registry : PeerRegistry;
  known_peers : gset string;
  peer_senders : gmap string N;
  reconnect_attempts : gmap string Z;
  cert_verifier : option CertChainVerifier;
  pn_storage : S }.
Arguments mkPeerNode {S}. Arguments pn_registry {S}. Arguments known_peers {S}.
Arguments peer_senders {S}. Arguments reconnect_attempts {S}. Arguments cert_verifier {S}.
Arguments pn_storage {S}.

(** The context of one connection: this node's ids, its transport fingerprint and
    the TLS exporter output of the session. *)
Record PeerContext := mkContext {
  ctx_node_id : string;
  ctx_listen_addr : string;
  ctx_local_fingerprint : string;
  ctx_session_binding : option string }.

Record HelloMsg := mkHello {
  h_node_id : string;
  h_fingerprint : string;
  h_chain_length : Z;
  h_version : string;
  h_capabilities : list CapabilityAdvertisement;
  h_org : string;
  h_certificate_pem : option string;
  h_certificate_proof : option string;
  h_fingerprint_proof : option string;
  h_ocsp : option string;
  h_listen_addr : string }.

Definition PROTOCOL_VERSION : string := "glasschain/7".

Record MessageEffect := mkEffect { stable_addr : option string; disconnect : bool }.
Definition effect_default : MessageEffect := mkEffect None false.
Definition effect_disconnect : MessageEffect := mkEffect None true.

Inductive ChainRequest := RequestChain | RequestChainFrom (from_index : Z).

(** [is_some_and] *)
Definition some_and {A} (o : option A) (f : A → bool) : bool :=
  match o with Some a => f a | None => false end.

Section node.
Context `{E : Env} `{D : Ed25519Crate} `{X : X509} `{P : Pki} `{C : OcspCrates}.
Context (base64_decode : string → result string string) (base64_encode : string → string).
Context {S : Type} `{SP : StorageProvider S}.
Context (pin_to_json : StoredPeerPin → string) (pin_of_json : string → result string StoredPeerPin).

(** Step 2.5 of the Hello: the organization certificate verifies under its name,
    and the peer holds its key on this session. *)
Definition cert_names_org (now : Z) (v : option CertChainVerifier) (h : HelloMsg) : bool :=
  some_and v (λ v, some_and (h_certificate_pem h) (λ pem,
    match verified_subject_cn_pem now v pem with
    | Ok cn => cn ==? h_org h
    | Err _ => false
    end)).

Definition possession_ok (now : Z) (ctx : PeerContext) (v : option CertChainVerifier)
    (h : HelloMsg) : bool :=
  cert_names_org now v h
  && some_and (ctx_session_binding ctx) (λ binding,
       some_and (h_certificate_proof h) (λ proof,
         some_and (h_certificate_pem h) (λ pem,
           match base64_decode proof with
           | Ok raw => verify_org_possession pem (h_org h) (h_node_id h) binding raw
           | Err _ => false
           end))).

Definition staple_revoked (now : Z) (ctx : PeerContext) (v : option CertChainVerifier)
    (h : HelloMsg) : bool :=
  is_some v && possession_ok now ctx v h
  && some_and (h_ocsp h) (λ staple,
       some_and (h_certificate_pem h) (λ pem,
         some_and v (λ v,
           match base64_decode staple with
           | Ok raw =>
               match verify_ocsp_staple now v pem (byte_list raw) with
               | Ok StapleRevoked => true
               | _ => false
               end
           | Err _ => false
           end))).

Definition hello_org_verified (now : Z) (ctx : PeerContext) (v : option CertChainVerifier)
    (h : HelloMsg) : bool :=
  possession_ok now ctx v h && negb (staple_revoked now ctx v h).

Definition with_registry (n : PeerNode S) (r : PeerRegistry) (s : S) : PeerNode S :=
  mkPeerNode r (known_peers n) (peer_senders n) (reconnect_attempts n) (cert_verifier n) s.

(** Steps 2 to 5 of the Hello on the connection [conn]: the pin, its persistence, the
    advertised capabilities, the live connection and the catch-up request. *)
Definition register_hello (conn : N) (observed : string) (local_len : Z) (n : PeerNode S)
    (h : HelloMsg) (verified : bool) : PeerNode S * MessageEffect * option ChainRequest :=
  let key := h_certificate_pem h ≫= certificate_ed25519_public_key in
  let proof := h_fingerprint_proof h ≫= λ p,
    match base64_decode p with Ok raw => Some raw | Err _ => None end in
  let addr := h_listen_addr h in
  match verify_or_register (pn_registry n) addr (h_node_id h) observed (h_org h) verified key proof with
  | (r, Err _) => (with_registry n r (pn_storage n), effect_disconnect, None)
  | (r, Ok _) =>
      let s := match peers r !! addr with
               | Some p => persist_tofu_pin pin_to_json (pn_storage n) addr p
               | None => pn_storage n
               end in
      let n' := mkPeerNode (set_advertised r addr (h_capabilities h))
                  ({[ addr ]} ∪ known_peers n) (<[addr := conn]> (peer_senders n))
                  (delete addr (reconnect_attempts n)) (cert_verifier n) s in
      let request :=
        if (local_len <? h_chain_length h)%Z then
          Some (if (local_len <=? 1)%Z then RequestChain else RequestChainFrom local_len)
        else None in
      (n', mkEffect (Some addr) false, request)
  end.

(** The Hello branch of [process_message]. *)
Definition process_hello (now : Z) (ctx : PeerContext) (conn : N) (observed : string)
    (local_len : Z) (n : PeerNode S) (h : HelloMsg)
  : PeerNode S * MessageEffect * option ChainRequest :=
  if negb (h_version h ==? PROTOCOL_VERSION) then (n, effect_disconnect, None) else
  if h_fingerprint h ==? ctx_local_fingerprint ctx then (n, effect_disconnect, None) else
  if negb (h_fingerprint h ==? observed) then (n, effect_disconnect, None) else
  register_hello conn observed local_len n h (hello_org_verified now ctx (cert_verifier n) h).

(** Discovery: [RequestPeers] and [Peers]. *)
Definition peers_reply (n : PeerNode S) (exclude : string) : list string :=
  List.filter (λ p, negb (p ==? exclude)) (elements (known_peers n)).

Definition add_known (acc : gset string * list string) (a : string) : gset string * list string :=
  if bool_decide (a ∈ acc.1) then acc else ({[ a ]} ∪ acc.1, acc.2 ++ [a]).

(** The new addresses are queued for dialling. *)
Definition learn_peers (n : PeerNode S) (addrs : list string) : PeerNode S * list string :=
  let '(known, new) := foldl add_known (known_peers n, []) addrs in
  (mkPeerNode (pn_registry n) known (peer_senders n) (reconnect_attempts n) (cert_verifier n)
     (pn_storage n), new).

Definition reconnect_delay_secs (attempt : Z) : Z :=
  if (attempt =? 0)%Z then 1 else if (attempt =? 1)%Z then 2 else 5.

(** The end of [handle_peer] for a connection registered at [stable]: the address
    is forgotten and redialled after the returned delay. *)
Definition peer_disconnected (n : PeerNode S) (stable : string) : PeerNode S * Z :=
  let count := match reconnect_attempts n !! stable with Some c => add32 c 1 | None => 0%Z end in
  let attempt := if (count =? 0)%Z then 0%Z else (count - 1)%Z in
  (mkPeerNode (pn_registry n) (known_peers n ∖ {[ stable ]}) (delete stable (peer_senders n))
     (<[stable := count]> (reconnect_attempts n)) (cert_verifier n) (pn_storage n),
   reconnect_delay_secs attempt).

(** What a restart over the same storage begins with. *)
Definition restarted (n : PeerNode S) : PeerNode S :=
  mkPeerNode (load_tofu_pins pin_of_json (pn_storage n) PeerRegistry_new) ∅ ∅ ∅
    (cert_verifier n) (pn_storage n).

(** This node's own Hello for a session ([build_local_hello]). *)
Definition local_org (identity : option Identity) (node : string) : string :=
  match identity with Some i => node_id i | None => node end.

Definition build_local_hello (ctx : PeerContext) (chain_length : Z) (identity : option Identity)
    (ocsp_staple : option string) : HelloMsg :=
  let org := local_org identity (ctx_node_id ctx) in
  mkHello (ctx_node_id ctx) (ctx_local_fingerprint ctx) chain_length PROTOCOL_VERSION
    ((λ c, mkAdvert (cap_id c) (cap_version c)) <$> CAPABILITY_V1) org
    (identity ≫= certificate_pem)
    (match identity, ctx_session_binding ctx with
     | Some i, Some binding =>
         Some (base64_encode (sign_bytes i (org_possession_message org (ctx_node_id ctx) binding)))
     | _, _ => None
     end)
    ((λ i, base64_encode (sign_bytes i
             (tofu_pin_message (ctx_node_id ctx) (ctx_local_fingerprint ctx)))) <$> identity)
    (base64_encode <$> ocsp_staple) (ctx_listen_addr ctx).

(** Write targets for active-write relay, in the map's iteration order. *)
Definition relay_targets (n : PeerNode S) (active : CapabilitySet) : list N :=
  (List.filter (λ ac : string * N, negb (is_read_only (pn_registry n) ac.1 active))
     (map_to_list (peer_senders n))).*2.

(** ** Pins are not hijacked *)

(** The identity part of a pin stays; its fingerprint changes only under a signature
    of the pinned key over the new one, and a key is replaced only then. *)
Record authorized_step (p p' : VerifiedPeer) : Prop := {
  as_node : vp_node_id p' = vp_node_id p;
  as_org : vp_org p' = vp_org p;
  as_change :
    (vp_cert_fingerprint p' = vp_cert_fingerprint p
     ∧ (vp_public_key p = None ∨ vp_public_key p' = vp_public_key p))
    ∨ ∃ key proof, vp_public_key p = Some key
        ∧ verify_ed25519 key (tofu_pin_message (vp_node_id p) (vp_cert_fingerprint p')) proof = true }.

#[local] Instance authorized_refl : Reflexive authorized_step.
Proof. intros p. split; auto. Qed.

(** What a claim does to the registry. *)
Lemma verify_or_register_spec r addr nid fp org v key proof r' o :
  verify_or_register r addr nid fp org v key proof = (r', o) →
  (∀ a, a ≠ addr → peers r' !! a = peers r !! a) ∧ poisoned r' = poisoned r
  ∧ match o with
    | Err _ => r' = r
    | Ok _ =>
        poisoned r !! addr = None
        ∧ ∃ p', peers r' !! addr = Some p'
            ∧ vp_node_id p' = nid ∧ vp_org p' = org ∧ vp_cert_fingerprint p' = fp
            ∧ vp_org_verified p' = v
            ∧ (∀ p, peers r !! addr = Some p → authorized_step p p')
    end.
Proof.
  unfold verify_or_register, decide_pin, rotation_proof_of.
  destruct (poisoned r !! addr) as [e|] eqn:Hpo; simpl; [by intros [= <- <-]|].
  destruct (peers r !! addr) as [p|] eqn:Hp; simpl; cycle 1.
  { intros [= <- <-]. simpl. split_and!; [|done|done|].
    - intros a Ha. by rewrite lookup_insert_ne.
    - eexists. rewrite lookup_insert_eq. by split_and!. }
  destruct (vp_node_id p ==? nid) eqn:Hn; simpl; [|by intros [= <- <-]].
  destruct (vp_org p ==? org) eqn:Ho; simpl; [|by intros [= <- <-]].
  apply str_eqb_eq in Hn as <-. apply str_eqb_eq in Ho as <-.
  destruct (vp_cert_fingerprint p ==? fp) eqn:Hf; simpl.
  { apply str_eqb_eq in Hf as <-. intros [= <- <-]. simpl. split_and!; [|done|done|].
    - intros a Ha. by rewrite lookup_insert_ne.
    - eexists. rewrite lookup_insert_eq. split_and!; try done. intros ? [= <-].
      split; simpl; [done..|]. left. split; [done|]. destruct (vp_public_key p); auto. }
  destruct (vp_public_key p) as [k|] eqn:Hk; simpl; [|by intros [= <- <-]].
  destruct proof as [prf|]; simpl; [|by intros [= <- <-]].
  destruct (verify_ed25519 k _ prf) eqn:Hv; [|by intros [= <- <-]].
  intros [= <- <-]. simpl. split_and!; [|done|done|].
  - intros a Ha. by rewrite lookup_insert_ne.
  - eexists. rewrite lookup_insert_eq. split_and!; try done. intros ? [= <-].
    split; simpl; [done..|]. right. eauto.
Qed.

Lemma set_advertised_lookup r addr adv a :
  stored_pin <$> peers (set_advertised r addr adv) !! a = stored_pin <$> peers r !! a.
Proof.
  unfold set_advertised. destruct (peers r !! addr) as [p|] eqn:Hp; [|done]. simpl.
  destruct (decide (a = addr)) as [->|Ha].
  - by rewrite lookup_insert_eq, Hp.
  - by rewrite lookup_insert_ne.
Qed.

(** Equal stored forms are authorized. *)
Lemma authorized_stored p q q' :
  stored_pin q = stored_pin q' → authorized_step p q → authorized_step p q'.
Proof.
  destruct q, q'. unfold stored_pin. simpl. intros [= -> -> -> -> ->] []. by split.
Qed.

(** ** Loading *)

Lemma foldl_insert_functional {A B} (f : A → B) (l : list (string * A)) a v :
  (∀ a x y, (a, x) ∈ l → (a, y) ∈ l → x = y) →
  (foldl (λ m ax, <[ax.1 := f ax.2]> m) ∅ l : gmap string B) !! a = Some v
    ↔ ∃ x, (a, x) ∈ l ∧ v = f x.
Proof.
  induction l as [|[b y] l IH] using rev_ind; intros Hl.
  { split; [done|]. intros (x & []%not_elem_of_nil & _). }
  rewrite foldl_app. simpl. destruct (decide (a = b)) as [->|Hab].
  - rewrite lookup_insert_eq. split.
    + intros [= <-]. exists y. split; [apply elem_of_app; right; by left|done].
    + intros (x & Hx & ->). do 2 f_equal. eapply Hl; [|done]. apply elem_of_app. right. by left.
  - rewrite lookup_insert_ne by done.
    rewrite IH by (intros ??? H1 H2; eapply Hl; apply elem_of_app; left; [exact H1|exact H2]).
    split; intros (x & Hx & ->); exists x; (split; [|done]).
    + apply elem_of_app. by left.
    + apply elem_of_app in Hx as [Hx|Hx%list_elem_of_singleton]; [done|]. congruence.
Qed.

Lemma foldl_load_pin l r :
  peers (foldl (λ r ap, load_pin r ap.1 ap.2) r l)
    = foldl (λ m ap, <[ap.1 := peer_of_pin ap.2]> m) (peers r) l
  ∧ poisoned (foldl (λ r ap, load_pin r ap.1 ap.2) r l) = poisoned r.
Proof.
  revert r. induction l as [|ap l IH]; intros r; [done|].
  exact (IH (load_pin r ap.1 ap.2)).
Qed.

Lemma foldl_poison l r :
  peers (foldl (λ r ae, poison r ae.1 ae.2) r l) = peers r
  ∧ poisoned (foldl (λ r ae, poison r ae.1 ae.2) r l)
    = foldl (λ m ae, <[ae.1 := id ae.2]> m) (poisoned r) l.
Proof.
  revert r. induction l as [|ae l IH]; intros r; [done|].
  exact (IH (poison r ae.1 ae.2)).
Qed.

Context `{L : !StorageLaws S}.

(** The persisted form found at an address. *)
Definition durable (s : S) (addr : string) : option (result string StoredPeerPin) :=
  pin_of_json <$> world s !! (TOFU_PIN_PREFIX +:+ addr).

Lemma load_key_eq s pins bad addr :
  load_key pin_of_json s (pins, bad) (TOFU_PIN_PREFIX +:+ addr)
  = match durable s addr with
    | Some (Ok pin) => (pins ++ [(addr, pin)], bad)
    | Some (Err e) => (pins, bad ++ [(addr, e)])
    | None => (pins, bad)
    end.
Proof.
  unfold load_key, durable. rewrite strip_prefix_app, get_state_law.
  destruct (world s !! _) as [raw|]; simpl; [|done]. by destruct (pin_of_json raw).
Qed.

Lemma load_keys_elem s keys pins0 bad0 :
  (∀ k, k ∈ keys → is_Some (strip_prefix TOFU_PIN_PREFIX k)) →
  let '(pins, bad) := foldl (load_key pin_of_json s) (pins0, bad0) keys in
  (∀ a x, (a, x) ∈ pins
     ↔ (a, x) ∈ pins0 ∨ TOFU_PIN_PREFIX +:+ a ∈ keys ∧ durable s a = Some (Ok x))
  ∧ (∀ a e, (a, e) ∈ bad
     ↔ (a, e) ∈ bad0 ∨ TOFU_PIN_PREFIX +:+ a ∈ keys ∧ durable s a = Some (Err e)).
Proof.
  revert pins0 bad0. induction keys as [|k keys IH]; intros pins0 bad0 Hk.
  { simpl. set_solver. }
  destruct (Hk k ltac:(by left)) as [addr ->%strip_prefix_Some].
  assert (Hinj : ∀ a, TOFU_PIN_PREFIX +:+ a = TOFU_PIN_PREFIX +:+ addr → a = addr).
  { intros a. apply app_str_inj_l. }
  cbn [foldl]. rewrite load_key_eq.
  assert (Hk' : ∀ k, k ∈ keys → is_Some (strip_prefix TOFU_PIN_PREFIX k)).
  { intros k Hin. apply Hk. by right. }
  destruct (durable s addr) as [[pin|e]|] eqn:Hd;
    match goal with |- context [foldl _ (?ps, ?bs) keys] => specialize (IH ps bs Hk') end;
    destruct (foldl _ _ keys) as [pins bad]; destruct IH as [IH1 IH2];
    split; intros a x; rewrite ?IH1, ?IH2, ?elem_of_app, ?list_elem_of_singleton, elem_of_cons;
    split; naive_solver.
Qed.

(** A restart finds exactly the persisted pins: readable ones are pinned, the
    others poison their address. *)
Lemma load_tofu_pins_spec s a :
  peers (load_tofu_pins pin_of_json s PeerRegistry_new) !! a
    = match durable s a with Some (Ok pin) => Some (peer_of_pin pin) | _ => None end
  ∧ poisoned (load_tofu_pins pin_of_json s PeerRegistry_new) !! a
    = match durable s a with Some (Err e) => Some e | _ => None end.
Proof.
  unfold load_tofu_pins. rewrite list_state_keys_law.
  assert (Hkeys : ∀ k, k ∈ sorted_keys_with TOFU_PIN_PREFIX (world s) ↔
            is_Some (world s !! k) ∧ is_Some (strip_prefix TOFU_PIN_PREFIX k)).
  { intros k. rewrite sorted_keys_with_elem, starts_with_strip.
    destruct (strip_prefix TOFU_PIN_PREFIX k) as [r|]; simpl; split; intros [??]; split;
      try done; by destruct (_ : is_Some None). }
  pose proof (load_keys_elem s (sorted_keys_with TOFU_PIN_PREFIX (world s)) [] []
    ltac:(intros k Hk; by apply Hkeys)) as Hl.
  destruct (foldl _ _ _) as [pins bad]. destruct Hl as [Hpins Hbad].
  assert (Hd : ∀ x, durable s a = Some x → TOFU_PIN_PREFIX +:+ a
            ∈ sorted_keys_with TOFU_PIN_PREFIX (world s)).
  { intros x Hx. apply Hkeys. split; [|by rewrite strip_prefix_app].
    unfold durable in Hx. apply fmap_Some in Hx as (raw & -> & _). by eexists. }
  destruct (foldl_poison bad (foldl (λ r ap, load_pin r ap.1 ap.2) PeerRegistry_new pins))
    as [-> ->].
  destruct (foldl_load_pin pins PeerRegistry_new) as [-> ->].
  split; apply option_eq; intros v; cbn [PeerRegistry_new peers poisoned].
  - rewrite foldl_insert_functional.
    2: { intros ??? H1%Hpins H2%Hpins. destruct H1 as [[]%not_elem_of_nil|[_ H1]],
           H2 as [[]%not_elem_of_nil|[_ H2]]. congruence. }
    split.
    + intros (x & [[]%not_elem_of_nil|[_ Hx]]%Hpins & ->). by rewrite Hx.
    + destruct (durable s a) as [[pin|]|] eqn:Hda; [|done..]. intros [= <-]. exists pin.
      split; [|done]. apply Hpins. right. eauto.
  - rewrite foldl_insert_functional.
    2: { intros ??? H1%Hbad H2%Hbad. destruct H1 as [[]%not_elem_of_nil|[_ H1]],
           H2 as [[]%not_elem_of_nil|[_ H2]]. congruence. }
    split.
    + intros (x & [[]%not_elem_of_nil|[_ Hx]]%Hbad & ->). by rewrite Hx.
    + destruct (durable s a) as [[|e]|] eqn:Hda; [done| |done]. intros [= <-]. exists e.
      split; [|done]. apply Hbad. right. eauto.
Qed.

(** ** Histories *)

Inductive PeerEvent :=
| EvHello (now : Z) (ctx : PeerContext) (conn : N) (observed : string) (local_len : Z)
    (h : HelloMsg)
| EvPeers (addrs : list string)
| EvDisconnect (stable : string)
| EvRestart.

Definition peer_event (n : PeerNode S) (e : PeerEvent) : PeerNode S :=
  match e with
  | EvHello now ctx conn observed len h => (process_hello now ctx conn observed len n h).1.1
  | EvPeers addrs => (learn_peers n addrs).1
  | EvDisconnect a => (peer_disconnected n a).1
  | EvRestart => restarted n
  end.

(** An accepted Hello. *)
Record accepted (now : Z) (ctx : PeerContext) (conn : N) (observed : string) (n : PeerNode S)
    (h : HelloMsg) (n' : PeerNode S) : Prop := {
  ac_version : h_version h = PROTOCOL_VERSION;
  ac_observed : h_fingerprint h = observed;
  ac_not_self : h_fingerprint h ≠ ctx_local_fingerprint ctx;
  ac_pin : ∃ p', peers (pn_registry n') !! h_listen_addr h = Some p'
    ∧ vp_node_id p' = h_node_id h ∧ vp_org p' = h_org h ∧ vp_cert_fingerprint p' = observed
    ∧ vp_org_verified p' = hello_org_verified now ctx (cert_verifier n) h
    ∧ (∀ p, peers (pn_registry n) !! h_listen_addr h = Some p → authorized_step p p')
    ∧ ∃ s0, pn_storage n' = persist_tofu_pin pin_to_json (pn_storage n) (h_listen_addr h) s0
        ∧ stored_pin s0 = stored_pin p';
  ac_others : ∀ a, a ≠ h_listen_addr h →
    peers (pn_registry n') !! a = peers (pn_registry n) !! a;
  ac_not_poisoned : poisoned (pn_registry n) !! h_listen_addr h = None;
  ac_senders : peer_senders n' = <[h_listen_addr h := conn]> (peer_senders n);
  ac_known : known_peers n' = {[ h_listen_addr h ]} ∪ known_peers n;
  ac_attempts : reconnect_attempts n' = delete (h_listen_addr h) (reconnect_attempts n);
  ac_verifier : cert_verifier n' = cert_verifier n }.

Lemma process_hello_cases now ctx conn observed len n h n' eff req :
  process_hello now ctx conn observed len n h = (n', eff, req) →
  (n' = n ∧ eff = effect_disconnect ∧ req = None)
  ∨ (eff = mkEffect (Some (h_listen_addr h)) false ∧ accepted now ctx conn observed n h n').
Proof.
  unfold process_hello, register_hello.
  destruct (h_version h ==? PROTOCOL_VERSION) eqn:Hv; simpl; [|intros [= <- <- <-]; by left].
  destruct (h_fingerprint h ==? ctx_local_fingerprint ctx) eqn:Hs; [intros [= <- <- <-]; by left|].
  destruct (h_fingerprint h ==? observed) eqn:Ho; simpl; [|intros [= <- <- <-]; by left].
  destruct (verify_or_register _ _ _ _ _ _ _ _) as [r o] eqn:Hr.
  apply verify_or_register_spec in Hr as (Hoth & Hpo & Hr).
  destruct o as [o|e]; cycle 1.
  { subst r. intros [= <- <- <-]. left. by destruct n. }
  destruct Hr as (Hnp & p1 & Hp1 & Hn1 & Ho1 & Hf1 & Hv1 & Ha1).
  intros [= <- <- <-]. right. split; [done|]. apply str_eqb_eq in Hv, Ho. apply str_eqb_neq in Hs.
  split; try done; simpl.
  - pose proof (set_advertised_lookup r (h_listen_addr h) (h_capabilities h) (h_listen_addr h)) as Hadv.
    rewrite Hp1 in Hadv. simpl in Hadv. apply fmap_Some in Hadv as (p2 & Hp2 & Heq).
    exists p2. rewrite Hp1. split_and!; try done.
    + by rewrite <- Hn1; injection Heq.
    + by rewrite <- Ho1; injection Heq.
    + by rewrite <- Hf1; injection Heq.
    + by rewrite <- Hv1; injection Heq.
    + intros p Hp. eapply authorized_stored; [exact Heq|]. by apply Ha1.
    + by exists p1.
  - intros a Ha. rewrite <- (Hoth a Ha). unfold set_advertised. rewrite Hp1. simpl.
    by rewrite lookup_insert_ne.
Qed.

Context (codec : ∀ p, pin_of_json (pin_to_json p) = Ok p).

Definition pins_durable (n : PeerNode S) : Prop :=
  ∀ a p, peers (pn_registry n) !! a = Some p → durable (pn_storage n) a = Some (Ok (stored_pin p)).

Lemma durable_persist s addr p a :
  durable (persist_tofu_pin pin_to_json s addr p) a
  = if decide (a = addr) then Some (Ok (stored_pin p)) else durable s a.
Proof.
  unfold durable, persist_tofu_pin.
  destruct (put_state_law s (TOFU_PIN_PREFIX +:+ addr) (pin_to_json (stored_pin p)))
    as (s' & -> & Hw). simpl. rewrite Hw. destruct (decide (a = addr)) as [->|Ha].
  - rewrite lookup_insert_eq. simpl. by rewrite codec.
  - rewrite lookup_insert_ne; [done|]. intros H%app_str_inj_l. done.
Qed.

(** Every event keeps the pins durable and changes a pin only when authorized. *)
Lemma peer_event_pins n e :
  pins_durable n →
  pins_durable (peer_event n e)
  ∧ ∀ a p, peers (pn_registry n) !! a = Some p →
      ∃ p', peers (pn_registry (peer_event n e)) !! a = Some p' ∧ authorized_step p p'.
Proof.
  intros Hd. destruct e as [now ctx conn observed len h|addrs|stable|]; simpl.
  - destruct (process_hello _ _ _ _ _ _ _) as [[n' eff] req] eqn:Hh.
    apply process_hello_cases in Hh as [(-> & _ & _)|[_ Hac]]; simpl.
    { split; [done|]. intros a p Hp. exists p. by split. }
    destruct (ac_pin _ _ _ _ _ _ _ Hac)
      as (p' & Hp' & _ & _ & _ & _ & Hauth & s0 & Hst & Heq).
    split.
    + intros a p Hp. rewrite Hst, durable_persist. destruct (decide _) as [->|Ha].
      * assert (p = p') as -> by congruence. by rewrite Heq.
      * apply Hd. by rewrite <- (ac_others _ _ _ _ _ _ _ Hac a Ha).
    + intros a p Hp. destruct (decide (a = h_listen_addr h)) as [->|Ha].
      * exists p'. auto.
      * exists p. rewrite (ac_others _ _ _ _ _ _ _ Hac a Ha). by split.
  - unfold learn_peers. destruct (foldl _ _ _) as [known new]. simpl. split; [done|].
    intros a p Hp. exists p. by split.
  - split; [done|]. intros a p Hp. exists p. by split.
  - split.
    + intros a p Hp. simpl in *. rewrite (proj1 (load_tofu_pins_spec _ _)) in Hp.
      destruct (durable (pn_storage n) a) as [[pin|]|]; [|done..]. injection Hp as <-.
      by destruct pin.
    + intros a p Hp. rewrite (proj1 (load_tofu_pins_spec _ _)), (Hd a p Hp). eexists.
      split; [done|]. eapply authorized_stored; [|reflexivity]. done.
Qed.

(** C17: a pinned peer identity survives every history of Hellos (genuine and
    hostile), discovery messages, disconnections and restarts: the address stays
    pinned to the same node id and organization, and its transport fingerprint (and
    key) changed only along a chain of rotations each signed by the key pinned at
    that point.  The pins must be stored as they are registered when the history begins
    (as after a start), and the storage must not fail: a pin that could not be written is
    lost with a restart. *)
Theorem pins_not_hijacked n es a p :
  pins_durable n → peers (pn_registry n) !! a = Some p →
  ∃ p', peers (pn_registry (foldl peer_event n es)) !! a = Some p' ∧ rtc authorized_step p p'
    ∧ vp_node_id p' = vp_node_id p ∧ vp_org p' = vp_org p.
Proof.
  revert n p. induction es as [|e es IH]; intros n p Hd Hp; simpl.
  { exists p. by split_and!. }
  destruct (peer_event_pins n e Hd) as [Hd' Hstep]. destruct (Hstep a p Hp) as (p1 & Hp1 & Ha).
  destruct (IH _ p1 Hd' Hp1) as (p' & Hp' & Hr & Hn & Ho). pose proof Ha as [Hn1 Ho1 _].
  exists p'. split_and!; [done|by eapply rtc_l|congruence..].
Qed.

(** A restart keeps every pin as it was stored, and an address whose stored pin
    is unreadable refuses every Hello from then on, whatever it presents. *)
Theorem restart_keeps_pins n a :
  pins_durable n →
  (∀ p, peers (pn_registry n) !! a = Some p →
     peers (pn_registry (restarted n)) !! a = Some (peer_of_pin (stored_pin p)))
  ∧ (∀ err, durable (pn_storage n) a = Some (Err err) →
     ∀ now ctx conn observed len h, h_listen_addr h = a →
       process_hello now ctx conn observed len (restarted n) h
       = (restarted n, effect_disconnect, None)).
Proof.
  intros Hd. split.
  - intros p Hp. simpl. by rewrite (proj1 (load_tofu_pins_spec _ _)), (Hd a p Hp).
  - intros err He now ctx conn observed len h Ha.
    destruct (process_hello _ _ _ _ _ _ _) as [[n' eff] req] eqn:Hh.
    apply process_hello_cases in Hh as [(-> & -> & ->)|[_ Hac]]; [done|].
    pose proof (ac_not_poisoned _ _ _ _ _ _ _ Hac) as Hnp. simpl in Hnp.
    rewrite (proj2 (load_tofu_pins_spec _ _)), Ha, He in Hnp. done.
Qed.

(** ** Organization verification is bound to the session *)

(** An identity whose certificate carries its key, and whose signatures verify. *)
Record sound_identity (i : Identity) (pem : string) : Prop := {
  si_cert : certificate_pem i = Some pem;
  si_key : certificate_ed25519_public_key pem = Some (public_key_bytes i);
  si_sign : ∀ m, verify_ed25519 (public_key_bytes i) m (sign_bytes i m) = true }.

(** The identity's signature on one message passes for another: a forgery. *)
Definition forged (i : Identity) (m m' : list Z) : Prop :=
  m' ≠ m ∧ verify_ed25519 (public_key_bytes i) m' (sign_bytes i m) = true.

(** The Hello that a node with an organization identity builds for a session is
    organization-verified by the receiver on that session (same TLS exporter).  On a
    session with another exporter value a copy of it verifies only with a forgery: the
    signature would have to pass for the possession message of that other session, which
    it was never made for.  Without a verifier nothing is verified. *)
Theorem hello_verified_on_its_session now v i pem sender receiver len binding :
  sound_identity i pem → (∀ s, base64_decode (base64_encode s) = Ok s) →
  verified_subject_cn_pem now v pem = Ok (node_id i) →
  ctx_session_binding sender = Some binding →
  fits_u32 (node_id i) → fits_u32 (ctx_node_id sender) → fits_u32 binding →
  let h := build_local_hello sender len (Some i) None in
  let message := org_possession_message (node_id i) (ctx_node_id sender) in
  (ctx_session_binding receiver = Some binding → hello_org_verified now receiver (Some v) h = true)
  ∧ (∀ other, fits_u32 other → other ≠ binding → ctx_session_binding receiver = Some other →
       hello_org_verified now receiver (Some v) h = true → forged i (message binding) (message other))
  ∧ hello_org_verified now receiver None h = false.
Proof.
  intros [Hc Hk Hs] Hb Hcn Hsb Hf1 Hf2 Hf3 h message.
  assert (Hcert : cert_names_org now (Some v) h = true).
  { unfold cert_names_org. simpl. rewrite Hc. simpl. rewrite Hcn. apply str_eqb_refl. }
  assert (Hpos : ∀ b, ctx_session_binding receiver = Some b →
    possession_ok now receiver (Some v) h
    = verify_ed25519 (public_key_bytes i) (message b) (sign_bytes i (message binding))).
  { intros b Hrb. unfold possession_ok. rewrite Hcert, Hrb. simpl. rewrite Hsb. simpl.
    rewrite Hc. simpl. rewrite Hb. unfold verify_org_possession. by rewrite Hk. }
  assert (Hrev : ∀ ctx v', staple_revoked now ctx v' h = false).
  { intros ctx v'. unfold staple_revoked. simpl. apply andb_false_r. }
  split_and!.
  - intros Hr. unfold hello_org_verified. by rewrite (Hpos _ Hr), Hrev, Hs.
  - intros other Hfo Hne Hr. unfold hello_org_verified. rewrite (Hpos _ Hr).
    intros [Hv _]%andb_true_iff. split; [|done]. unfold message. intros Heq.
    apply org_possession_inj in Heq as (_ & _ & ?); done.
  - done.
Qed.

(** What an organization-verified Hello has shown. *)
Lemma hello_org_verified_inv now ctx v h :
  hello_org_verified now ctx v h = true →
  ∃ ver pem binding proof raw, v = Some ver ∧ h_certificate_pem h = Some pem
    ∧ verified_subject_cn_pem now ver pem = Ok (h_org h)
    ∧ ctx_session_binding ctx = Some binding ∧ h_certificate_proof h = Some proof
    ∧ base64_decode proof = Ok raw
    ∧ verify_org_possession pem (h_org h) (h_node_id h) binding raw = true
    ∧ staple_revoked now ctx v h = false.
Proof.
  unfold hello_org_verified. intros [Hp Hr]%andb_true_iff. apply negb_true_iff in Hr.
  pose proof Hp as Hp'. unfold possession_ok, cert_names_org in Hp'.
  destruct v as [ver|]; [|done]. destruct (h_certificate_pem h) as [pem|] eqn:Hpem; [|done].
  simpl in Hp'. destruct (verified_subject_cn_pem now ver pem) as [cn|] eqn:Hcn; [|done].
  destruct (cn ==? h_org h) eqn:He; [|done]. apply str_eqb_eq in He as ->.
  destruct (ctx_session_binding ctx) as [binding|] eqn:Hb; [|done].
  destruct (h_certificate_proof h) as [proof|] eqn:Hpr; [|done]. simpl in Hp'.
  destruct (base64_decode proof) as [raw|] eqn:Hraw; [|done].
  exists ver, pem, binding, proof, raw. done.
Qed.

(** ** Where the connection state goes wrong *)

(** The rotation proof has no freshness: a peer that moved its pin from one
    transport fingerprint to a new one (keeping its identity key) can be moved back
    to the retired fingerprint by whoever presents it with the proof the peer itself
    broadcast in its earlier Hellos. *)
Theorem rotation_proof_replayable r addr p key proof0 proof1 fp1 :
  peers r !! addr = Some p → poisoned r !! addr = None → vp_public_key p = Some key →
  verify_ed25519 key (tofu_pin_message (vp_node_id p) (vp_cert_fingerprint p)) proof0 = true →
  verify_ed25519 key (tofu_pin_message (vp_node_id p) fp1) proof1 = true →
  fp1 ≠ vp_cert_fingerprint p →
  ∃ r1 r2 p2,
    verify_or_register r addr (vp_node_id p) fp1 (vp_org p) true (Some key) (Some proof1)
      = (r1, Ok TofuRotated)
    ∧ verify_or_register r1 addr (vp_node_id p) (vp_cert_fingerprint p) (vp_org p) false None
        (Some proof0) = (r2, Ok TofuRotated)
    ∧ peers r2 !! addr = Some p2 ∧ vp_cert_fingerprint p2 = vp_cert_fingerprint p.
Proof.
  intros Hp Hpo Hk H0 H1 Hne. eexists _, _, _. split_and!.
  - unfold verify_or_register, decide_pin, rotation_proof_of. rewrite Hp, Hpo. simpl.
    rewrite !str_eqb_refl. simpl. rewrite (proj2 (str_eqb_neq _ _)) by done.
    rewrite Hk. simpl. rewrite H1. done.
  - unfold verify_or_register, decide_pin, rotation_proof_of. simpl.
    rewrite lookup_insert_eq, Hpo. simpl. rewrite !str_eqb_refl. simpl.
    rewrite (proj2 (str_eqb_neq _ _)) by done. rewrite H0. done.
  - simpl. by rewrite lookup_insert_eq.
  - done.
Qed.

(** After a Hello on a second connection for the same address, the end of the
    first connection removes the second one's write channel and the address from the
    known peers, although the second connection is still open and registered. *)
Theorem stale_disconnect_silences_live_peer now ctx conn observed len n h n' eff req old :
  process_hello now ctx conn observed len n h = (n', eff, req) → disconnect eff = false →
  peer_senders n !! h_listen_addr h = Some old → old ≠ conn →
  let n'' := (peer_disconnected n' (h_listen_addr h)).1 in
  peer_senders n' !! h_listen_addr h = Some conn
  ∧ peer_senders n'' !! h_listen_addr h = None ∧ h_listen_addr h ∉ known_peers n''
  ∧ ∀ active, conn ∈ relay_targets n'' active →
      ∃ a, a ≠ h_listen_addr h ∧ peer_senders n'' !! a = Some conn.
Proof.
  intros Hh Hd _ _. apply process_hello_cases in Hh as [(_ & -> & _)|[_ Hac]]; [done|].
  simpl. rewrite (ac_senders _ _ _ _ _ _ _ Hac). split_and!.
  - by rewrite lookup_insert_eq.
  - by rewrite lookup_delete_eq.
  - set_solver.
  - intros active ([a c] & -> & Hin)%list_elem_of_fmap.
    apply list_elem_of_In, List.filter_In in Hin as [Hin _].
    apply list_elem_of_In, elem_of_map_to_list in Hin. simpl in *.
    exists a. split; [|done]. intros ->. by rewrite lookup_delete_eq in Hin.
Qed.

(** The reconnect delay after a connection that completed its Hello is always
    one second: the Hello clears the attempt counter that the ladder counts, so the
    longer delays are not reached by reconnecting. *)
Theorem backoff_restarts_at_each_hello now ctx conn observed len n h n' eff req :
  process_hello now ctx conn observed len n h = (n', eff, req) → disconnect eff = false →
  (peer_disconnected n' (h_listen_addr h)).2 = 1%Z.
Proof.
  intros Hh Hd. apply process_hello_cases in Hh as [(_ & -> & _)|[_ Hac]]; [done|].
  simpl. rewrite (ac_attempts _ _ _ _ _ _ _ Hac), lookup_delete_eq. done.
Qed.
End node.
