(* ===== verification/Handshake.v ===== *)
(** The transport handshake (glasschain-network: node.rs, the accept loop of [start],
    [connect_to_peer], [build_tls] and the dial side of a connection).

    Both sides exchange their TLS certificate in the clear, length-prefixed, before the
    TLS session; the fingerprint that the Hello is compared with is the hash of the bytes
    of that exchange.  The TLS library is a parameter: a server is configured without
    client authentication, so accepting a session says nothing about the certificate the
    client sent.  The theorems: the exchange round-trips, and on an inbound connection the
    observed fingerprint is whatever the client chose to send, so a client that knows a
    peer's certificate is taken for that peer. *)

From S2P Require Import Prelude Utf8 Types Chain Capability Msp Storage Ocsp CertVerifier Channel Wire Peers.

Local Open Scope Z_scope.

(** The cap on the certificate of the other side. *)
Definition MAX_PEER_CERT : Z := 64 * 1024.

(** What a side sends first; [None] when its certificate does not fit a u32 length. *)
Definition send_preamble (cert : string) : option (list Z) :=
  if Z.of_nat (slen cert) <=? U32_MAX then Some (len_prefixed cert) else None.

(** What a side reads: the length, then that many bytes. *)
Definition read_preamble (s : Incoming) : Incoming * option string :=
  match read_exact 4 s with
  | (s, Err _) => (s, None)
  | (s, Ok len_buf) =>
      let peer_len := of_be_bytes len_buf in
      if (peer_len =? 0) || (MAX_PEER_CERT <? peer_len) then (s, None) else
      match read_exact (Z.to_nat peer_len) s with
      | (s, Err _) => (s, None)
      | (s, Ok buf) => (s, Some (of_byte_list buf))
      end
  end.

(** The order of the two steps: a listener reads first, a dialler writes first. *)
Inductive Outgoing := Sent (bytes : list Z) | NothingSent.

Definition accept_preamble (local_cert : string) (s : Incoming) : Incoming * Outgoing * option string :=
  match read_preamble s with
  | (s, None) => (s, NothingSent, None)
  | (s, Some cert) =>
      match send_preamble local_cert with
      | None => (s, NothingSent, None)
      | Some bytes => (s, Sent bytes, Some cert)
      end
  end.

Definition dial_preamble (local_cert : string) (s : Incoming) : Incoming * Outgoing * option string :=
  match send_preamble local_cert with
  | None => (s, NothingSent, None)
  | Some bytes => let '(s, cert) := read_preamble s in (s, Sent bytes, cert)
  end.

(** ** The connector *)

(** [insecure_tls_allowed]: the build feature or the environment variable. *)
Definition insecure_tls_allowed (feature : bool) (env_var : option string) : bool :=
  feature || match env_var with Some v => v ==? "1" | None => false end.

(** Whom a dialled session trusts: anyone, or the one root that was sent. *)
Inductive ServerTrust := AcceptAnyCert | RootCertificate (cert : string).

Definition connector_for (insecure : bool) (peer_cert : string) : ServerTrust :=
  if insecure then AcceptAnyCert else RootCertificate peer_cert.

Section session.
Context `{E : Env}.
(** The accepting side of the TLS library without client authentication: whether the
    stream carries a TLS client, and the exporter of the session. *)
Context (tls_accept : Incoming → option (option string)).
(** The dialling side: the certificate of the server that completed the handshake, and
    the verifier's answer for a presented certificate under a root. *)
Context (tls_connect : Incoming → option (string * option string)).
Context (webpki_verify : string → string → bool).

Definition verify_server_cert (t : ServerTrust) (presented : string) : bool :=
  match t with AcceptAnyCert => true | RootCertificate root => webpki_verify root presented end.

(** A connection ready for [handle_peer]: the fingerprint the Hello has to name, and the
    session binding. *)
Record Connection := mkConnection {
  observed_cert_fingerprint : string;
  session_binding : option string }.

Definition accept_connection (local_cert : string) (s : Incoming) : option Connection :=
  match accept_preamble local_cert s with
  | (s, _, Some peer_cert) =>
      binding ← tls_accept s;
      Some (mkConnection (sha256 peer_cert) binding)
  | (_, _, None) => None
  end.

Definition connect_to_peer (insecure : bool) (local_cert : string) (s : Incoming) : option Connection :=
  match dial_preamble local_cert s with
  | (s, _, Some peer_cert) =>
      '(presented, binding) ← tls_connect s;
      if verify_server_cert (connector_for insecure peer_cert) presented
      then Some (mkConnection (sha256 peer_cert) binding) else None
  | (_, _, None) => None
  end.

(** ** The exchange *)

Lemma read_sent_preamble cert bytes r e :
  0 < Z.of_nat (slen cert) ≤ MAX_PEER_CERT → send_preamble cert = Some bytes →
  read_preamble (mkIncoming (bytes ++ r) e) = (mkIncoming r e, Some cert).
Proof.
  intros Hlen. unfold send_preamble. destruct (_ <=? U32_MAX) eqn:Hu; [|done]. intros [= <-].
  unfold read_preamble, len_prefixed. rewrite <- app_assoc.
  pose proof (read_exact_app (be_bytes 4 (Z.of_nat (slen cert))) (byte_list cert ++ r) e) as H4.
  rewrite length_be_bytes in H4. rewrite H4, of_be_bytes_4 by (unfold MAX_PEER_CERT, U32_MAX in *; lia).
  destruct (Z.eqb_spec (Z.of_nat (slen cert)) 0); [lia|].
  destruct (Z.ltb_spec MAX_PEER_CERT (Z.of_nat (slen cert))); [lia|]. cbn [orb].
  rewrite Nat2Z.id, <- length_byte_list, read_exact_app. by rewrite of_byte_list_byte_list.
Qed.

(** A dialled session is with a server whose certificate verifies under the one that was
    observed, unless verification is switched off. *)
Lemma dialled_fingerprint_verified local_cert s c :
  connect_to_peer false local_cert s = Some c →
  ∃ root presented s', tls_connect s' = Some (presented, session_binding c)
    ∧ webpki_verify root presented = true ∧ observed_cert_fingerprint c = sha256 root.
Proof.
  unfold connect_to_peer. destruct (dial_preamble local_cert s) as [[s' out] [cert|]]; [|done].
  destruct (tls_connect s') as [[presented binding]|] eqn:Ht; [|done]. cbn.
  destruct (webpki_verify cert presented) eqn:He; [|done]. intros [= <-].
  by exists cert, presented, s'.
Qed.

(** An accepted connection observes the hash of what the client sent in the clear. *)
Lemma inbound_fingerprint_chosen local_cert cert bytes r e binding :
  0 < Z.of_nat (slen cert) ≤ MAX_PEER_CERT → fits_u32 local_cert →
  send_preamble cert = Some bytes → tls_accept (mkIncoming r e) = Some binding →
  accept_connection local_cert (mkIncoming (bytes ++ r) e) = Some (mkConnection (sha256 cert) binding).
Proof.
  intros Hlen Hl Hs Ht. unfold accept_connection, accept_preamble.
  rewrite (read_sent_preamble cert bytes r e Hlen Hs). unfold send_preamble. unfold fits_u32 in Hl.
  apply Z.leb_le in Hl as ->. by rewrite Ht.
Qed.
End session.

(** ** Impersonation *)

Section impersonation.
Context `{E : Env} `{D : Ed25519Crate} `{X : X509} `{P : Pki} `{C : OcspCrates}.
Context (base64_decode : string → result string string).
Context {S : Type} `{SP : StorageProvider S}.
Context (pin_to_json : StoredPeerPin → string).
Context (tls_accept : Incoming → option (option string)).

(** On an inbound connection a pinned identity is not protected by its pin: a client
    that sends a pinned peer's certificate, which every peer receives in the clear, and
    repeats its node id, organization and address in a Hello without any proof, is
    accepted as that peer.  The peer's traffic then goes to the client's connection, its
    organization counts as unverified, and the client may propose whatever the
    capabilities it claims allow. *)
Theorem inbound_peer_impersonated now ctx conn local_len (n : PeerNode S) p addr cert local_cert bytes r e
    binding length caps :
  peers (pn_registry n) !! addr = Some p → poisoned (pn_registry n) !! addr = None →
  vp_cert_fingerprint p = sha256 cert → sha256 cert ≠ ctx_local_fingerprint ctx →
  0 < Z.of_nat (slen cert) ≤ MAX_PEER_CERT → fits_u32 local_cert →
  send_preamble cert = Some bytes → tls_accept (mkIncoming r e) = Some binding →
  let h := mkHello (vp_node_id p) (sha256 cert) length PROTOCOL_VERSION caps (vp_org p)
             None None None None addr in
  ∃ observed n' request,
    accept_connection tls_accept local_cert (mkIncoming (bytes ++ r) e)
      = Some (mkConnection observed binding)
    ∧ process_hello base64_decode pin_to_json now ctx conn observed local_len n h
      = (n', mkEffect (Some addr) false, request)
    ∧ peer_senders n' !! addr = Some conn
    ∧ org_verified (pn_registry n') addr (vp_org p) = Some false
    ∧ ∀ set, is_read_only (pn_registry n') addr set
             = negb (supports (mkPeer "" "" "" false None caps) set).
Proof.
  intros Hp Hpo Hf Hloc Hlen Hl Hs Ht h. exists (sha256 cert).
  assert (hello_org_verified base64_decode now ctx (cert_verifier n) h = false) as Hv.
  { unfold hello_org_verified, possession_ok, cert_names_org. unfold some_and.
    destruct (cert_verifier n); done. }
  assert (verify_or_register (pn_registry n) addr (vp_node_id p) (sha256 cert) (vp_org p) false None None
    = (set_peer (pn_registry n) addr (mkPeer (vp_node_id p) (vp_cert_fingerprint p) (vp_org p) false
         (vp_public_key p) (vp_advertised p)), Ok TofuKnown)) as Hr.
  { unfold verify_or_register, decide_pin. rewrite Hp, Hpo. cbn.
    rewrite !str_eqb_refl, Hf, str_eqb_refl. cbn. by destruct (vp_public_key p). }
  do 2 eexists. split; [by apply inbound_fingerprint_chosen|]. split.
  - unfold process_hello. rewrite Hv. cbn [h_version h_fingerprint h]. rewrite str_eqb_refl. cbn [negb].
    apply str_eqb_neq in Hloc. rewrite Hloc, str_eqb_refl. cbn [negb].
    unfold register_hello. cbn. rewrite Hr. cbn. rewrite lookup_insert_eq. done.
  - cbn. unfold set_advertised. cbn. rewrite !lookup_insert_eq. split; [done|].
    unfold org_verified, is_read_only. cbn. rewrite !lookup_insert_eq. cbn. by rewrite str_eqb_refl.
Qed.
End impersonation.
