(* ===== verification/Outbound.v ===== *)
(** The outbound side of a connection (glasschain-network: protocol.rs, and in
    node.rs the message classes, [PeerWrite], the writer task of [handle_peer] and
    the fan-out of [try_send_all]).

    A connection has two bounded queues, one for consensus traffic and one for the
    rest, and a writer that serves the first whenever it holds a message.  The
    theorems: the queues stay bounded, what happens to consensus messages does not
    depend on background traffic, an accepted consensus message is written within
    a bounded number of writes, and every refused message is counted in its class. *)

From S2P Require Import Prelude Types Chain Capability Bft Peers.

Local Open Scope Z_scope.

(** [enum Message] *)
Inductive Message :=
| MHello (hello : HelloMsg)
| MTransaction (tx : Transaction)
| MBlock (block : Block)
| MProposal (block : Block) (round : Z)
| MVote (vote : BftVote)
| MPrecommit (block : Block) (round : Z) (prevote_certificate : QuorumCertificate)
| MPrivatePayload (collection commitment payload : string)
| MRequestPrivatePayload (collection commitment : string)
| MRequestChain
| MRequestChainFrom (from_index : Z)
| MChain (from_index : Z) (blocks : list Block)
| MRequestPeers
| MPeers (addrs : list string)
| MGoodbye (reason : string).

Definition is_consensus_class (m : Message) : bool :=
  match m with
  | MProposal _ _ | MPrecommit _ _ _ | MVote _ | MBlock _ | MRequestChain | MChain _ _ => true
  | _ => false
  end.

(** The capacity of each channel of [handle_peer]. *)
Definition QUEUE_CAP : nat := Z.to_nat 256.
Lemma queue_cap_pos : (0 < QUEUE_CAP)%nat.
Proof. unfold QUEUE_CAP. lia. Qed.
#[global] Opaque QUEUE_CAP.

(** [PeerWrite], with whether the writer task still holds the receivers. *)
Record PeerWrite := mkPeerWrite {
  consensus : list Message;
  background : list Message;
  writer_open : bool }.

Definition PeerWrite_new : PeerWrite := mkPeerWrite [] [] true.

(** [mpsc::Sender::try_send] *)
Definition push_bounded (open : bool) (q : list Message) (m : Message) : list Message * bool :=
  if open && (length q <? QUEUE_CAP)%nat then (q ++ [m], true) else (q, false).

Definition try_send (w : PeerWrite) (m : Message) : PeerWrite * bool :=
  if is_consensus_class m then
    let '(q, ok) := push_bounded (writer_open w) (consensus w) m in
    (mkPeerWrite q (background w) (writer_open w), ok)
  else
    let '(q, ok) := push_bounded (writer_open w) (background w) m in
    (mkPeerWrite (consensus w) q (writer_open w), ok).

(** [PeerWrite::send]: while the message's queue is full and the writer lives the caller waits
    ([None]); otherwise it ends like [try_send]. *)
Definition send (w : PeerWrite) (m : Message) : option (PeerWrite * bool) :=
  let q := if is_consensus_class m then consensus w else background w in
  if writer_open w && (QUEUE_CAP <=? length q)%nat then None else Some (try_send w m).

(** One turn of the writer task: the biased select takes a consensus message if
    there is one.  A write that fails ends the task and drops both receivers. *)
Definition writer_turn (write_ok : bool) (w : PeerWrite) : PeerWrite * option Message :=
  if negb (writer_open w) then (w, None) else
  match consensus w, background w with
  | m :: q, bg => if write_ok then (mkPeerWrite q bg true, Some m) else (mkPeerWrite [] [] false, None)
  | [], m :: bg => if write_ok then (mkPeerWrite [] bg true, Some m) else (mkPeerWrite [] [] false, None)
  | [], [] => (w, None)
  end.

(** ** The fan-out *)

(** The queues by connection, and the drop counters by label. *)
Record Outbound := mkOutbound {
  queues : gmap N PeerWrite;
  dropped_outbound : gmap string Z;
  dropped_background : gmap string Z }.

Definition count_drop (addr : string) (m : gmap string Z) : gmap string Z :=
  <[addr := add64 (default 0 (m !! addr)) 1]> m.

(** The body of the loop of [try_send_all]; a connection whose queue is gone refuses. *)
Definition send_one (m : Message) (o : Outbound) (target : string * N) : Outbound :=
  let '(w, ok) := match queues o !! target.2 with
                  | Some w => let '(w, ok) := try_send w m in (Some w, ok)
                  | None => (None, false)
                  end in
  let qs := match w with Some w => <[target.2 := w]> (queues o) | None => queues o end in
  if ok then mkOutbound qs (dropped_outbound o) (dropped_background o)
  else if is_consensus_class m
  then mkOutbound qs (count_drop target.1 (dropped_outbound o)) (dropped_background o)
  else mkOutbound qs (dropped_outbound o) (count_drop target.1 (dropped_background o)).

Definition try_send_all (o : Outbound) (senders : list (string * N)) (m : Message) : Outbound :=
  foldl (send_one m) o senders.

(** The choice of senders of [broadcast]: transactions go to the relay targets under
    a shared label, everything else to every connected peer. *)
Definition broadcast_targets {S} (n : PeerNode S) (active : CapabilitySet) (m : Message)
  : list (string * N) :=
  match m with
  | MTransaction _ => (λ c, ("relay", c)) <$> relay_targets n active
  | _ => map_to_list (peer_senders n)
  end.

Definition broadcast {S} (n : PeerNode S) (active : CapabilitySet) (o : Outbound) (m : Message)
  : Outbound :=
  try_send_all o (broadcast_targets n active m) m.

(** ** Runs of one connection *)

Inductive QueueOp := Push (m : Message) | Turn (write_ok : bool).

(** The queues, what was written, and the consensus messages that were refused. *)
Definition queue_op (st : PeerWrite * list Message) (op : QueueOp) : PeerWrite * list Message :=
  match op with
  | Push m => ((try_send st.1 m).1, st.2)
  | Turn ok => let '(w, out) := writer_turn ok st.1 in (w, st.2 ++ option_list out)
  end.

Definition run_queue (st : PeerWrite * list Message) (ops : list QueueOp)
  : PeerWrite * list Message := foldl queue_op st ops.

Definition bounded (w : PeerWrite) : Prop :=
  (length (consensus w) ≤ QUEUE_CAP)%nat ∧ (length (background w) ≤ QUEUE_CAP)%nat.

Lemma push_bounded_length open q m :
  (length q ≤ QUEUE_CAP → length (push_bounded open q m).1 ≤ QUEUE_CAP)%nat.
Proof.
  unfold push_bounded. destruct open, (Nat.ltb_spec (length q) QUEUE_CAP); csimpl; try done.
  rewrite length_app. simpl. lia.
Qed.

(** An awaited vote is never dropped for want of room: when it has to wait, one turn of the
    writer ends the wait, and the vote is queued unless that turn's write failed. *)
Lemma awaited_send_resolves w m ok :
  is_consensus_class m = true → bounded w → send w m = None →
  ∃ w', send (writer_turn ok w).1 m = Some (w', ok)
    ∧ (ok = true → consensus w' = tail (consensus w) ++ [m]).
Proof.
  intros Hm [Hc _]. unfold send, writer_turn, try_send. rewrite Hm. pose proof queue_cap_pos.
  destruct (writer_open w); [|done]. cbn [negb andb]. destruct (consensus w) as [|x q].
  { by destruct (Nat.leb_spec QUEUE_CAP (length (@nil Message))); [cbn in *; lia|]. }
  intros _. cbn in Hc. destruct ok; cbn; [|by eexists].
  assert ((QUEUE_CAP <=? length q)%nat = false) as -> by (apply Nat.leb_gt; lia).
  unfold push_bounded. assert ((length q <? QUEUE_CAP)%nat = true) as -> by (apply Nat.ltb_lt; lia). cbn. eauto.
Qed.

Lemma send_keeps_bound w m : bounded w → bounded (try_send w m).1.
Proof.
  intros [Hc Hb]. unfold try_send. destruct (is_consensus_class m).
  - pose proof (push_bounded_length (writer_open w) _ m Hc). by destruct (push_bounded _ _ m).
  - pose proof (push_bounded_length (writer_open w) _ m Hb). by destruct (push_bounded _ _ m).
Qed.

Lemma writer_turn_bounded ok w : bounded w → bounded (writer_turn ok w).1.
Proof.
  intros [Hc Hb]. unfold writer_turn, bounded.
  destruct (writer_open w), (consensus w) eqn:Hq, (background w) eqn:Hbg, ok; cbn in *;
    rewrite ?Hq, ?Hbg; cbn; lia.
Qed.

(** Each queue holds only its class. *)
Definition classified (w : PeerWrite) : Prop :=
  Forall (λ m, is_consensus_class m = true) (consensus w)
  ∧ Forall (λ m, is_consensus_class m = false) (background w).

Lemma push_bounded_Forall (P : Message → Prop) open q m :
  P m → Forall P q → Forall P (push_bounded open q m).1.
Proof. unfold push_bounded. intros. destruct (open && _); [|done]. apply Forall_app_2; auto. Qed.

Lemma writer_turn_classified ok w : classified w → classified (writer_turn ok w).1.
Proof.
  intros [Hc Hg]. unfold writer_turn, classified.
  destruct (writer_open w), (consensus w) eqn:Hq, (background w) eqn:Hbg, ok; csimpl;
    rewrite ?Hq, ?Hbg; try done; split; try constructor; (by inv Hc) || (by inv Hg) || done.
Qed.

Lemma queue_op_wf st op :
  bounded st.1 ∧ classified st.1 → bounded (queue_op st op).1 ∧ classified (queue_op st op).1.
Proof.
  intros [Hb [Hc Hg]]. destruct op as [m|ok].
  - cbn [queue_op fst]. split; [by apply send_keeps_bound|]. unfold try_send, classified.
    destruct (is_consensus_class m) eqn:Hm.
    + pose proof (push_bounded_Forall (λ m, is_consensus_class m = true) (writer_open st.1) _ m Hm Hc).
      by destruct (push_bounded _ _ m).
    + pose proof (push_bounded_Forall (λ m, is_consensus_class m = false) (writer_open st.1) _ m Hm Hg).
      by destruct (push_bounded _ _ m).
  - assert (queue_op st (Turn ok) = ((writer_turn ok st.1).1,
      st.2 ++ option_list (writer_turn ok st.1).2)) as Heq by (csimpl; by destruct (writer_turn ok st.1)).
    rewrite Heq. split; [by apply writer_turn_bounded | by apply writer_turn_classified].
Qed.

(** On any sequence of sends and writer turns of a connection, starting empty, both
    queues keep to their capacity of 256 messages and hold only messages of their
    class. *)
Theorem queues_bounded ops :
  let w := (run_queue (PeerWrite_new, []) ops).1 in bounded w ∧ classified w.
Proof.
  cbv zeta. unfold run_queue. induction ops as [|op ops IH] using rev_ind.
  - split; split; (apply Nat.le_0_l || constructor).
  - rewrite foldl_app. by apply queue_op_wf.
Qed.

(** Background traffic erased. *)
Definition consensus_op (op : QueueOp) : bool :=
  match op with Push m => is_consensus_class m | Turn _ => true end.

Definition writes_ok (ops : list QueueOp) : Prop :=
  Forall (λ op, match op with Turn ok => ok = true | Push _ => True end) ops.

Definition consensus_of (out : list Message) : list Message := List.filter is_consensus_class out.
#[global] Arguments consensus_of _ : simpl never.

Lemma consensus_of_one m : consensus_of [m] = if is_consensus_class m then [m] else [].
Proof. done. Qed.

(** Two connections that agree on everything a consensus message can see. *)
Record agree (st st' : PeerWrite * list Message) : Prop := {
  ag_queue : consensus st.1 = consensus st'.1;
  ag_open : writer_open st.1 = writer_open st'.1;
  ag_out : consensus_of st.2 = consensus_of st'.2;
  ag_class : classified st.1;
  ag_idle : background st'.1 = [];
  ag_class' : Forall (λ m, is_consensus_class m = true) (consensus st'.1) }.

Lemma consensus_of_app a b : consensus_of (a ++ b) = consensus_of a ++ consensus_of b.
Proof. apply List.filter_app. Qed.

Lemma agree_push st st' m :
  agree st st' →
  agree (queue_op st (Push m)) (if is_consensus_class m then queue_op st' (Push m) else st').
Proof.
  intros [H1 H2 H3 [H4 H5] H6 H7]. csimpl. unfold try_send. destruct (is_consensus_class m) eqn:Hm.
  - pose proof (push_bounded_Forall _ (writer_open st.1) _ m Hm H4) as Hp.
    rewrite <- H1, <- H2. destruct (push_bounded _ _ m) as [q ok]; split; csimpl; done.
  - pose proof (push_bounded_Forall (λ m, is_consensus_class m = false) (writer_open st.1) _ m Hm H5).
    destruct (push_bounded _ _ m) as [q ok]; split; csimpl; done.
Qed.

Lemma agree_turn st st' : agree st st' → agree (queue_op st (Turn true)) (queue_op st' (Turn true)).
Proof.
  destruct st as [[q bg o] out], st' as [[q' bg' o'] out'].
  intros [H1 H2 H3 [H4 H5] H6 H7]. cbn in *. subst q' o' bg'.
  destruct o; [|by split; cbn; rewrite ?app_nil_r]. destruct q as [|m q]; [destruct bg as [|m bg]|]; cbn.
  - split; cbn; rewrite ?app_nil_r; done.
  - apply Forall_cons in H5 as [Hm H5].
    split; cbn; rewrite ?consensus_of_app, ?app_nil_r; try done. by rewrite consensus_of_one, Hm, app_nil_r.
  - apply Forall_cons in H4 as [Hm H4]. split; cbn; rewrite ?consensus_of_app; try done. by rewrite H3.
Qed.

Lemma agree_run ops st st' :
  writes_ok ops → agree st st' →
  agree (run_queue st ops) (run_queue st' (List.filter consensus_op ops)).
Proof.
  unfold run_queue. revert st st'. induction ops as [|[m|ok] ops IH]; intros st st' Hok Hag; [done| |].
  - apply Forall_cons_1 in Hok as [_ Hok]. cbn [foldl List.filter consensus_op].
    pose proof (agree_push _ _ m Hag) as Hag'. destruct (is_consensus_class m); by apply IH.
  - apply Forall_cons_1 in Hok as [-> Hok]. cbn [foldl List.filter consensus_op].
    apply IH; [done|]. by apply agree_turn.
Qed.

Lemma consensus_only_out ops st :
  (∀ op, op ∈ ops → consensus_op op = true) →
  classified st.1 ∧ background st.1 = [] ∧ consensus_of st.2 = st.2 →
  consensus_of (run_queue st ops).2 = (run_queue st ops).2.
Proof.
  unfold run_queue. revert st. induction ops as [|op ops IH]; intros st Hops Hst; [by destruct Hst as (_&_&?)|].
  cbn [foldl]. apply IH; [set_solver|]. assert (consensus_op op = true) as Hop by set_solver.
  destruct st as [[q bg o] out], Hst as ([Hc Hg] & Hbg & Hout). cbn in *. subst bg. destruct op as [m|ok]; cbn in *.
  - unfold try_send. rewrite Hop. cbn.
    pose proof (push_bounded_Forall _ o _ m Hop Hc) as Hp. by destruct (push_bounded o q m).
  - destruct o; [|cbn; by rewrite app_nil_r]. destruct q as [|m q]; [cbn; by rewrite app_nil_r|].
    apply Forall_cons in Hc as [Hm Hc].
    destruct ok; cbn; rewrite ?app_nil_r; [|by repeat constructor].
    by rewrite consensus_of_app, Hout, consensus_of_one, Hm.
Qed.

(** C24: on a connection whose writes succeed, background traffic does not affect consensus
    traffic: after any interleaving of sends and writer turns, the consensus queue, the
    sequence of consensus messages written to the peer, and whether the next consensus
    message is accepted are those of the same run with every background send removed.  The
    sends are [try_send]s; a vote, which is awaited instead, waits at most for the next turn
    of the writer ([awaited_send_resolves]). *)
Theorem consensus_unaffected_by_background ops m :
  writes_ok ops → is_consensus_class m = true →
  let '(w, out) := run_queue (PeerWrite_new, []) ops in
  let '(w', out') := run_queue (PeerWrite_new, []) (List.filter consensus_op ops) in
  consensus w = consensus w' ∧ consensus_of out = out' ∧ (try_send w m).2 = (try_send w' m).2.
Proof.
  intros Hok Hm.
  pose proof (agree_run ops (PeerWrite_new, []) (PeerWrite_new, []) Hok) as [H1 H2 H3 _ _ _];
    [by repeat constructor|].
  pose proof (consensus_only_out (List.filter consensus_op ops) (PeerWrite_new, [])) as Hout.
  destruct (run_queue _ ops) as [w out], (run_queue _ (List.filter _ ops)) as [w' out'].
  cbn in *. split; [done|]. split; [rewrite H3; apply Hout|].
  - intros op Hop. apply list_elem_of_In, filter_In in Hop. apply Hop.
  - by repeat constructor.
  - unfold try_send. rewrite Hm, H1, H2. by destruct (push_bounded _ _ m).
Qed.

(** ** Latency *)

Definition turns (ops : list QueueOp) : nat :=
  length (List.filter (λ op, match op with Turn _ => true | Push _ => false end) ops).

Lemma written_stays ops st x : x ∈ st.2 → x ∈ (run_queue st ops).2.
Proof.
  unfold run_queue. revert st. induction ops as [|[m|ok] ops IH]; intros st Hx; [done|by apply IH|].
  apply IH. cbn [queue_op]. destruct (writer_turn ok st.1). apply elem_of_app. by left.
Qed.

Lemma queued_is_written ops pre m post bg out :
  writes_ok ops → (length pre < turns ops)%nat →
  m ∈ (run_queue (mkPeerWrite (pre ++ m :: post) bg true, out) ops).2.
Proof.
  revert pre post bg out. induction ops as [|[x|ok] ops IH]; intros pre post bg out Hok Hlen;
    [cbn in Hlen; lia| |]; apply Forall_cons in Hok as [Hw Hok]; unfold run_queue; cbn [foldl].
  - change (turns (Push x :: ops)) with (turns ops) in Hlen.
    unfold queue_op, try_send, push_bounded. cbn [fst snd writer_open andb consensus background].
    destruct (is_consensus_class x), (_ <? QUEUE_CAP)%nat; cbn [fst]; try by apply IH.
    rewrite <- app_assoc. by apply IH.
  - cbn in Hw, Hlen. subst ok. destruct pre as [|y pre]; cbn.
    + apply written_stays. apply elem_of_app. right. by left.
    + apply IH; [done|]. unfold turns. cbn in Hlen. lia.
Qed.

(** An accepted consensus message is on the wire after at most 256 turns of the
    writer, whatever else is sent on the connection meanwhile. *)
Theorem consensus_latency w m ops :
  is_consensus_class m = true → (try_send w m).2 = true → writes_ok ops →
  (QUEUE_CAP ≤ turns ops)%nat → m ∈ (run_queue ((try_send w m).1, []) ops).2.
Proof.
  intros Hm Hs Hok Ht. unfold try_send, push_bounded in *. rewrite Hm in *.
  destruct (writer_open w); [|done]. destruct (Nat.ltb_spec (length (consensus w)) QUEUE_CAP); [|done].
  cbn. apply queued_is_written; [done|lia].
Qed.

(** ** Drop accounting *)

(** Whether the connection refuses [m] as things stand. *)
Definition refuses (o : Outbound) (m : Message) (c : N) : bool :=
  match queues o !! c with Some w => negb (try_send w m).2 | None => true end.

Definition refusals (o : Outbound) (m : Message) (addr : string) (senders : list (string * N)) : Z :=
  Z.of_nat (length (List.filter (λ t : string * N, (t.1 ==? addr) && refuses o m t.2) senders)).

(** The counters of the class of [m], and of the other class. *)
Definition class_drops (m : Message) (o : Outbound) : gmap string Z :=
  if is_consensus_class m then dropped_outbound o else dropped_background o.
Definition other_drops (m : Message) (o : Outbound) : gmap string Z :=
  if is_consensus_class m then dropped_background o else dropped_outbound o.

Lemma send_one_spec m o t :
  class_drops m (send_one m o t) = (if refuses o m t.2 then count_drop t.1 else id) (class_drops m o)
  ∧ other_drops m (send_one m o t) = other_drops m o
  ∧ ∀ c, queues (send_one m o t) !! c =
      if bool_decide (c = t.2) then (λ w, (try_send w m).1) <$> queues o !! c else queues o !! c.
Proof.
  unfold send_one, refuses, class_drops, other_drops.
  destruct (queues o !! t.2) as [w|] eqn:Hq; [destruct (try_send w m) as [w' [|]] eqn:Hs|];
    destruct (is_consensus_class m); cbn; (split; [done|]; split; [done|]); intros c;
    case_bool_decide as Hc; subst; rewrite ?Hq, ?lookup_insert_eq, ?lookup_insert_ne by done; cbn;
    by rewrite ?Hs.
Qed.

(** The fan-out of one message to distinct connections counts every refusal once, under
    the label of its target and in the counter of the message's class; the other
    class's counters do not move, and every connection's queue is what sending the
    message to it alone gives. *)
Theorem fanout_accounts_drops m senders o addr :
  NoDup senders.*2 →
  0 ≤ default 0 (class_drops m o !! addr) →
  default 0 (class_drops m o !! addr) + Z.of_nat (length senders) ≤ U64_MAX →
  let o' := try_send_all o senders m in
  default 0 (class_drops m o' !! addr)
    = default 0 (class_drops m o !! addr) + refusals o m addr senders
  ∧ other_drops m o' = other_drops m o
  ∧ ∀ c, queues o' !! c =
      if bool_decide (c ∈ senders.*2) then (λ w, (try_send w m).1) <$> queues o !! c else queues o !! c.
Proof.
  cbv zeta. unfold try_send_all, refusals. revert o. induction senders as [|t ts IH]; intros o Hnd Hpos Hle.
  { split_and!; cbn; [lia|done|done]. }
  apply NoDup_cons in Hnd as [Hnin Hnd]. destruct (send_one_spec m o t) as (Hcd & Hod & Hq).
  cbn [length] in Hle. rewrite Nat2Z.inj_succ in Hle.
  assert (default 0 (class_drops m (send_one m o t) !! addr) = default 0 (class_drops m o !! addr)
    + if (t.1 ==? addr) && refuses o m t.2 then 1 else 0) as Hone.
  { rewrite Hcd. destruct (refuses o m t.2); [|rewrite andb_false_r; cbn; lia]. rewrite andb_true_r.
    unfold count_drop. destruct (t.1 ==? addr) eqn:He; [apply str_eqb_eq in He as -> | apply str_eqb_neq in He].
    - rewrite lookup_insert_eq. csimpl. rewrite add64_small; lia.
    - rewrite lookup_insert_ne by done. lia. }
  destruct (IH (send_one m o t) Hnd) as (I1 & I2 & I3); [destruct (_ && _); lia..|].
  cbn [foldl]. rewrite I2, Hod, I1, Hone. split_and!; [|done|].
  - assert (∀ t', t' ∈ ts → refuses (send_one m o t) m t'.2 = refuses o m t'.2) as Hsame.
    { intros t' Ht'. unfold refuses. rewrite Hq, bool_decide_eq_false_2; [done|].
      intros Heq. apply Hnin. rewrite <- Heq. by apply list_elem_of_fmap_2. }
    rewrite (filter_ext_in (λ t' : string * N, (t'.1 ==? addr) && refuses (send_one m o t) m t'.2)
      (λ t' : string * N, (t'.1 ==? addr) && refuses o m t'.2) ts)
      by (intros t' Ht'; rewrite Hsame; [done|by apply list_elem_of_In]).
    cbn [List.filter]. destruct (_ && _); cbn [length]; lia.
  - intros c. rewrite I3, Hq. cbn [fmap list_fmap]. case_bool_decide as Hc.
    + rewrite (bool_decide_eq_false_2 (c = t.2)) by (intros ->; by apply Hnin).
      rewrite bool_decide_eq_true_2; [done|]. by right.
    + case_bool_decide as Hct; subst.
      * rewrite bool_decide_eq_true_2; [done|]. by left.
      * rewrite bool_decide_eq_false_2; [done|]. rewrite elem_of_cons. by intros [?|?].
Qed.
