(* ===== verification/Private.v ===== *)
(** Private payloads between nodes (glasschain-network: node.rs, the collection and
    payload helpers of NodeState, submit_private_payload, disseminate_private_writes,
    reconcile_private_payloads and the PrivatePayload and RequestPrivatePayload
    branches of process_message).

    Each connection task keeps the address its last accepted Hello registered;
    handlers run one at a time, and what they queue on a connection is returned.
    The theorems say to whom cleartext goes, what a node accepts and stores, and
    that a member that missed a payload asks for exactly the missing ones. *)

From S2P Require Import Prelude Utf8 Types WriteSet Chain Capability Msp Storage Transient.
From S2P Require Import Ocsp CertVerifier Channel Peers.

Inductive PrivateMsg :=
| PrivatePayload (collection com payload : string)
| RequestPrivatePayload (collection com : string).

Record PrivNode (S : Type) := mkPriv {
  pv_peers : PeerNode S;
  (** the expiry index of the transient store, which shares the node's storage *)
  pv_index : gmap string Z;
  collections : list Channel;
  pv_identity : option Identity;
  pv_node_id : string;
  pv_cache : option CapabilityHistory;
  pv_chain : list Block;
  (** the [peer_stable_addr] of each connection task *)
  pv_conns : gmap N string }.
Arguments mkPriv {S}. Arguments pv_peers {S}. Arguments pv_index {S}. Arguments collections {S}.
Arguments pv_identity {S}. Arguments pv_node_id {S}. Arguments pv_cache {S}.
Arguments pv_chain {S}. Arguments pv_conns {S}.

Section private.
Context `{E : Env} `{D : Ed25519Crate} `{X : X509} `{P : Pki} `{C : OcspCrates}.
Context (base64_decode : string → result string string).
Context {S : Type} `{SP : StorageProvider S}.
Context (pin_to_json : StoredPeerPin → string) (pin_of_json : string → result string StoredPeerPin).
Context (to_json : PayloadEnvelope → string) (of_json : string → result CoreError PayloadEnvelope).

Definition with_peers (n : PrivNode S) (p : PeerNode S) : PrivNode S :=
  mkPriv p (pv_index n) (collections n) (pv_identity n) (pv_node_id n) (pv_cache n) (pv_chain n)
    (pv_conns n).

Definition transient (n : PrivNode S) : TransientStore :=
  mkTransient (pn_storage (pv_peers n)) (pv_index n).

Definition with_transient (n : PrivNode S) (t : TransientStore) : PrivNode S :=
  let p := pv_peers n in
  mkPriv (mkPeerNode (pn_registry p) (known_peers p) (peer_senders p) (reconnect_attempts p)
            (cert_verifier p) (storage t))
    (expiry_index t) (collections n) (pv_identity n) (pv_node_id n) (pv_cache n) (pv_chain n)
    (pv_conns n).

Definition with_cache (n : PrivNode S) (c : option CapabilityHistory) : PrivNode S :=
  mkPriv (pv_peers n) (pv_index n) (collections n) (pv_identity n) (pv_node_id n) c (pv_chain n)
    (pv_conns n).

(** ** Collections and trust *)

Definition collection (n : PrivNode S) (name : string) : option Channel :=
  List.find (λ c, cc_name (ch_config c) ==? name) (collections n).

Definition is_collection_member (n : PrivNode S) (name org : string) : bool :=
  some_and (collection n name) (λ c, is_member c org).

Definition peer_org (n : PrivNode S) (addr : string) : option string :=
  vp_org <$> peers (pn_registry (pv_peers n)) !! addr.

Definition own_org (n : PrivNode S) : string := local_org (pv_identity n) (pv_node_id n).

Definition private_peer_trusted (n : PrivNode S) (addr coll : string) : bool :=
  let org := peer_org n addr in
  private_payload_allowed (is_some (cert_verifier (pv_peers n)))
    (some_and org (λ o, bool_decide (org_verified (pn_registry (pv_peers n)) addr o = Some true)))
    (some_and org (is_collection_member n coll)).

(** In the iteration order of the sender map. *)
Definition payload_targets (n : PrivNode S) (c : Channel) : list N :=
  (List.filter (λ ac : string * N,
     some_and (peer_org n ac.1) (is_member c)
     && private_peer_trusted n ac.1 (cc_name (ch_config c)))
   (map_to_list (peer_senders (pv_peers n)))).*2.

(** ** Sending *)

Definition next_height (n : PrivNode S) : Z := Z.of_nat (length (pv_chain n)).

(** [capability_effective_set] fills the cache; a broken history counts as inactive. *)
Definition pdc_active_cached (n : PrivNode S) : PrivNode S * bool :=
  match pv_cache n with
  | Some h => (n, is_active (effective_set h (next_height n)) PDC_CAPABILITY_ID)
  | None =>
      match capability_build_from_blocks (pv_chain n) with
      | Ok h => (with_cache n (Some h), is_active (effective_set h (next_height n)) PDC_CAPABILITY_ID)
      | Err _ => (n, false)
      end
  end.

Definition to_targets (targets : list N) (m : PrivateMsg) : list (N * PrivateMsg) :=
  (λ c, (c, m)) <$> targets.

Definition submit_private_payload (now : Z) (n : PrivNode S) (coll payload : string)
  : PrivNode S * result CoreError unit * list (N * PrivateMsg) :=
  if negb (is_some (cert_verifier (pv_peers n))) then
    (n, Err (InvalidTransaction ("private payloads require a configured certificate verifier; "
       +:+ "org trust fails closed without one (zero-trust #86)")), []) else
  if negb (is_collection_member n coll (own_org n)) then
    (n, Err (InvalidTransaction ("org '" +:+ own_org n +:+ "' is not a member of collection '"
       +:+ coll +:+ "'")), []) else
  let '(n, active) := pdc_active_cached n in
  if negb active then
    (n, Err (InvalidTransaction "private payloads require the 'pdc' capability to be active"), [])
  else
  match collection n coll with
  | None => (n, Err (InvalidTransaction ("collection '" +:+ coll +:+ "' is not configured")), [])
  | Some c =>
      let com := sha256 payload in
      match transient_put to_json now (transient n) coll com payload
              (cc_retention_secs (ch_config c)) with
      | (t, Err e) => (with_transient n t, Err e, [])
      | (t, Ok _) =>
          (with_transient n t, Ok tt, to_targets (payload_targets n c) (PrivatePayload coll com payload))
      end
  end.

(** One write of [disseminate_private_writes]; a failed put is logged. *)
Definition disseminate_write (now : Z) (n : PrivNode S) (w : PersistentWrite)
  : PrivNode S * list (N * PrivateMsg) :=
  match pw_op w, pw_visibility w with
  | WSet value, Pdc coll =>
      if negb (is_collection_member n coll (own_org n)) then (n, []) else
      match collection n coll with
      | None => (n, [])
      | Some c =>
          let com := sha256 value in
          let t := (transient_put to_json now (transient n) coll com value
                      (cc_retention_secs (ch_config c))).1 in
          (with_transient n t, to_targets (payload_targets n c) (PrivatePayload coll com value))
      end
  | _, _ => (n, [])
  end.

Fixpoint disseminate_private_writes (now : Z) (n : PrivNode S) (ws : list PersistentWrite)
  : PrivNode S * list (N * PrivateMsg) :=
  match ws with
  | [] => (n, [])
  | w :: ws =>
      let '(n, out) := disseminate_write now n w in
      let '(n, out') := disseminate_private_writes now n ws in
      (n, out ++ out')
  end.

(** ** Receiving *)

(** The receive gate falls back to the genesis set. *)
Definition pdc_active_received (n : PrivNode S) : bool :=
  is_active
    match pv_cache n with
    | Some h => effective_set h (next_height n)
    | None =>
        match capability_build_from_blocks (pv_chain n) with
        | Ok h => effective_set h (next_height n)
        | Err _ => genesis_set
        end
    end PDC_CAPABILITY_ID.

(** Whether the payload is stored (and announced as an event). *)
Definition process_private_payload (now : Z) (n : PrivNode S) (conn : N)
    (coll com payload : string) : PrivNode S * bool :=
  if negb (pdc_active_received n) then (n, false) else
  match pv_conns n !! conn with
  | None => (n, false)
  | Some addr =>
      let sender_org := peer_org n addr in
      let sender_ok :=
        is_some (cert_verifier (pv_peers n))
        && some_and sender_org (is_collection_member n coll)
        && some_and sender_org (λ o,
             bool_decide (org_verified (pn_registry (pv_peers n)) addr o = Some true)) in
      if negb (is_collection_member n coll (own_org n)) then (n, false) else
      if negb sender_ok then (n, false) else
      if negb (sha256 payload ==? com) then (n, false) else
      match transient_put to_json now (transient n) coll com payload
              (from_option (λ c, cc_retention_secs (ch_config c)) default_retention_secs
                 (collection n coll)) with
      | (t, Ok _) => (with_transient n t, true)
      | (t, Err _) => (with_transient n t, false)
      end
  end.

(** The answer to a reconciliation request, queued on the asking connection. *)
Definition process_request (now : Z) (n : PrivNode S) (conn : N) (coll com : string)
  : PrivNode S * list (N * PrivateMsg) :=
  match pv_conns n !! conn with
  | None => (n, [])
  | Some addr =>
      if negb (private_peer_trusted n addr coll) || negb (is_collection_member n coll (own_org n))
      then (n, []) else
      match transient_get of_json now (transient n) coll com with
      | (t, Ok (Some payload)) => (with_transient n t, [(conn, PrivatePayload coll com payload)])
      | (t, _) => (with_transient n t, [])
      end
  end.

(** ** Reconciliation *)

(** The commitments the chain records for a collection, in chain order. *)
Definition committed_values (n : PrivNode S) (coll : string) : list string :=
  omap (λ w, match pw_op w, pw_visibility w with
             | WSet v, Pdc name => if name ==? coll then Some v else None
             | _, _ => None
             end) (mjoin (write_set <$> pv_chain n)).

Fixpoint scan_missing (now : Z) (t : TransientStore) (coll : string) (coms : list string)
    (missing : list string) : TransientStore * result CoreError (list string) :=
  match coms with
  | [] => (t, Ok missing)
  | com :: coms =>
      if negb (utf8_valid (byte_list com)) then
        (t, Err (InvalidBlock ("PDC commitment for '" +:+ coll +:+ "' is not valid UTF-8"))) else
      match transient_get of_json now t coll com with
      | (t, Err e) => (t, Err e)
      | (t, Ok (Some _)) => scan_missing now t coll coms missing
      | (t, Ok None) => scan_missing now t coll coms (missing ++ [com])
      end
  end.

Definition reconcile_private_payloads (now : Z) (n : PrivNode S) (coll : string)
  : PrivNode S * result CoreError nat * list (N * PrivateMsg) :=
  if negb (is_some (cert_verifier (pv_peers n))) then (n, Ok 0, []) else
  if negb (is_collection_member n coll (own_org n)) then (n, Ok 0, []) else
  match scan_missing now (transient n) coll (committed_values n coll) [] with
  | (t, Err e) => (with_transient n t, Err e, [])
  | (t, Ok missing) =>
      let n := with_transient n t in
      let missing := dedup (sort_by String.leb missing) in
      match collection n coll with
      | None => (n, Ok 0, [])
      | Some c =>
          let targets := payload_targets n c in
          if bool_decide (targets = []) then (n, Ok 0, []) else
          (n, Ok (length missing),
           mjoin ((λ c, (λ com, (c, RequestPrivatePayload coll com)) <$> missing) <$> targets))
      end
  end.

(** ** Connection tasks: the read loop of [handle_peer] *)

Definition with_conns (n : PrivNode S) (p : PeerNode S) (conns : gmap N string) : PrivNode S :=
  mkPriv p (pv_index n) (collections n) (pv_identity n) (pv_node_id n) (pv_cache n) (pv_chain n)
    conns.

(** The task ends: its registered address, if any, is forgotten. *)
Definition end_conn (n : PrivNode S) (conn : N) : PrivNode S :=
  match pv_conns n !! conn with
  | Some a => with_conns n (peer_disconnected (pv_peers n) a).1 (delete conn (pv_conns n))
  | None => n
  end.

(** A Hello on a connection: a refused one ends the task. *)
Definition hello_event (now : Z) (ctx : PeerContext) (conn : N) (observed : string) (n : PrivNode S)
    (h : HelloMsg) : PrivNode S * bool :=
  let '(p, eff, _) := process_hello base64_decode pin_to_json now ctx conn observed
                        (Z.of_nat (length (pv_chain n))) (pv_peers n) h in
  if disconnect eff then (end_conn (with_peers n p) conn, false) else
  match stable_addr eff with
  | Some a => (with_conns n p (<[conn := a]> (pv_conns n)), true)
  | None => (with_peers n p, true)
  end.

(** What a node goes through. *)
Inductive NodeEvent :=
| NHello (now : Z) (ctx : PeerContext) (conn : N) (observed : string) (h : HelloMsg)
| NEnd (conn : N)
| NPeers (addrs : list string)
| NRestart
| NCommit (chain : list Block) (cache : option CapabilityHistory)
| NSubmit (now : Z) (coll payload : string)
| NDisseminate (now : Z) (ws : list PersistentWrite)
| NPayload (now : Z) (conn : N) (coll com payload : string)
| NRequest (now : Z) (conn : N) (coll com : string)
| NReconcile (now : Z) (coll : string).

(** An accepted Hello of the current run of the node. *)
Record Session := mkSession {
  se_now : Z; se_ctx : PeerContext; se_conn : N; se_hello : HelloMsg }.

Definition node_event (nl : PrivNode S * list Session) (e : NodeEvent)
  : PrivNode S * list Session * list (N * PrivateMsg) :=
  let '(n, log) := nl in
  match e with
  | NHello now ctx conn observed h =>
      let '(n', ok) := hello_event now ctx conn observed n h in
      (n', if ok then mkSession now ctx conn h :: log else log, [])
  | NEnd conn => (end_conn n conn, log, [])
  | NPeers addrs => (with_peers n (learn_peers (pv_peers n) addrs).1, log, [])
  | NRestart =>
      (mkPriv (restarted pin_of_json (pv_peers n)) ∅ (collections n) (pv_identity n) (pv_node_id n)
         None (pv_chain n) ∅, [], [])
  | NCommit chain cache =>
      (mkPriv (pv_peers n) (pv_index n) (collections n) (pv_identity n) (pv_node_id n) cache chain
         (pv_conns n), log, [])
  | NSubmit now coll payload =>
      let '(n, _, out) := submit_private_payload now n coll payload in (n, log, out)
  | NDisseminate now ws =>
      let '(n, out) := disseminate_private_writes now n ws in (n, log, out)
  | NPayload now conn coll com payload =>
      ((process_private_payload now n conn coll com payload).1, log, [])
  | NRequest now conn coll com =>
      let '(n, out) := process_request now n conn coll com in (n, log, out)
  | NReconcile now coll =>
      let '(n, _, out) := reconcile_private_payloads now n coll in (n, log, out)
  end.

Definition run_node (nl : PrivNode S * list Session) (es : list NodeEvent)
  : PrivNode S * list Session :=
  foldl (λ nl e, (node_event nl e).1) nl es.

(** ** Sessions stand behind trust *)

(** The session [e] at its address is what the registry currently records there. *)
Definition current_session (n : PrivNode S) (e : Session) : Prop :=
  ∃ p, peers (pn_registry (pv_peers n)) !! h_listen_addr (se_hello e) = Some p
    ∧ vp_org p = h_org (se_hello e)
    ∧ vp_org_verified p
      = hello_org_verified base64_decode (se_now e) (se_ctx e) (cert_verifier (pv_peers n)) (se_hello e).

Record sessions_wf (n : PrivNode S) (log : list Session) : Prop := {
  sw_senders : ∀ a c, peer_senders (pv_peers n) !! a = Some c →
    ∃ e, e ∈ log ∧ h_listen_addr (se_hello e) = a ∧ se_conn e = c ∧ current_session n e;
  sw_conns : ∀ c a, pv_conns n !! c = Some a →
    ∃ e, e ∈ log ∧ h_listen_addr (se_hello e) = a ∧ current_session n e }.

(** The parts of a node that the sessions depend on. *)
Definition same_sessions (n n' : PrivNode S) : Prop :=
  pn_registry (pv_peers n') = pn_registry (pv_peers n)
  ∧ peer_senders (pv_peers n') = peer_senders (pv_peers n)
  ∧ cert_verifier (pv_peers n') = cert_verifier (pv_peers n)
  ∧ pv_conns n' = pv_conns n ∧ collections n' = collections n
  ∧ pv_identity n' = pv_identity n ∧ pv_node_id n' = pv_node_id n.

#[local] Instance same_sessions_preorder : PreOrder same_sessions.
Proof.
  split; [by repeat split|]. intros x y z. unfold same_sessions. intuition congruence.
Qed.

Lemma sessions_wf_same n n' log : same_sessions n n' → sessions_wf n log → sessions_wf n' log.
Proof.
  intros (Hr & Hs & Hv & Hc & _) [H1 H2].
  assert (Hcur : ∀ e, current_session n e → current_session n' e).
  { intros e. unfold current_session. by rewrite Hr, Hv. }
  split.
  - intros a c. rewrite Hs. intros (e & ? & ? & ? & ?)%H1. exists e. auto.
  - intros c a. rewrite Hc. intros (e & ? & ? & ?)%H2. exists e. auto.
Qed.

Lemma with_transient_same n t : same_sessions n (with_transient n t).
Proof. by repeat split. Qed.

Lemma pdc_active_cached_same n : same_sessions n (pdc_active_cached n).1.
Proof. unfold pdc_active_cached. repeat case_match; by repeat split. Qed.

Lemma submit_same now n coll payload : same_sessions n (submit_private_payload now n coll payload).1.1.
Proof.
  unfold submit_private_payload. destruct (negb _); [done|]. destruct (negb _); [done|].
  pose proof (pdc_active_cached_same n) as H. destruct (pdc_active_cached n) as [n1 active].
  simpl in H. etrans; [exact H|]. destruct active; simpl; [|done].
  destruct (collection n1 coll) as [c|]; [|done].
  destruct (transient_put _ _ _ _ _ _ _) as [t []]; apply with_transient_same.
Qed.

Lemma disseminate_write_same now n w : same_sessions n (disseminate_write now n w).1.
Proof.
  unfold disseminate_write. repeat case_match; try done; apply with_transient_same.
Qed.

Lemma disseminate_same now n ws : same_sessions n (disseminate_private_writes now n ws).1.
Proof.
  revert n. induction ws as [|w ws IH]; intros n; simpl; [done|].
  pose proof (disseminate_write_same now n w) as H. destruct (disseminate_write now n w) as [n1 o].
  specialize (IH n1). destruct (disseminate_private_writes now n1 ws) as [n2 o2].
  simpl in *. by etrans.
Qed.

Lemma receive_same now n conn coll com payload :
  same_sessions n (process_private_payload now n conn coll com payload).1.
Proof.
  unfold process_private_payload. destruct (negb _); [done|]. destruct (pv_conns n !! conn); [|done].
  do 3 (destruct (negb _); [done|]).
  destruct (transient_put _ _ _ _ _ _ _) as [t []]; apply with_transient_same.
Qed.

Lemma request_same now n conn coll com : same_sessions n (process_request now n conn coll com).1.
Proof.
  unfold process_request. destruct (pv_conns n !! conn); [|done]. destruct (_ || _); [done|].
  destruct (transient_get _ _ _ _ _) as [t [[]|]]; apply with_transient_same.
Qed.

Lemma reconcile_same now n coll : same_sessions n (reconcile_private_payloads now n coll).1.1.
Proof.
  unfold reconcile_private_payloads. do 2 (destruct (negb _); [done|]).
  destruct (scan_missing _ _ _ _ _) as [t []]; [|apply with_transient_same].
  repeat case_match; apply with_transient_same.
Qed.

Lemma end_conn_wf n conn log : sessions_wf n log → sessions_wf (end_conn n conn) log.
Proof.
  intros [H1 H2]. unfold end_conn. destruct (pv_conns n !! conn) as [a0|] eqn:Hc; [|by split].
  split; simpl.
  - intros a c [_ Ha]%lookup_delete_Some. by apply H1.
  - intros c a [_ Ha]%lookup_delete_Some. by eapply H2.
Qed.

(** The step that matters: an accepted Hello installs its own session. *)
Lemma hello_event_wf now ctx conn observed n h n' ok log :
  hello_event now ctx conn observed n h = (n', ok) → sessions_wf n log →
  sessions_wf n' (if ok then mkSession now ctx conn h :: log else log).
Proof.
  unfold hello_event. intros Hh Hwf.
  destruct (process_hello _ _ _ _ _ _ _ _ _) as [[p eff] req] eqn:Hp.
  apply process_hello_cases in Hp as [(-> & -> & _)|[-> Hac]]; simpl in Hh; injection Hh as <- <-.
  { apply end_conn_wf. by destruct n. }
  destruct Hwf as [H1 H2]. destruct (ac_pin _ _ _ _ _ _ _ _ _ Hac)
    as (p' & Hp' & _ & Ho & _ & Hv & _).
  assert (Hnew : current_session (with_conns n p (<[conn:=h_listen_addr h]> (pv_conns n)))
            (mkSession now ctx conn h)).
  { exists p'. simpl. by rewrite (ac_verifier _ _ _ _ _ _ _ _ _ Hac). }
  assert (Hold : ∀ e, h_listen_addr (se_hello e) ≠ h_listen_addr h → current_session n e →
            current_session (with_conns n p (<[conn:=h_listen_addr h]> (pv_conns n))) e).
  { intros e Hne (q & Hq & Hqo & Hqv). exists q. simpl.
    by rewrite (ac_others _ _ _ _ _ _ _ _ _ Hac _ Hne), (ac_verifier _ _ _ _ _ _ _ _ _ Hac). }
  split; simpl.
  - rewrite (ac_senders _ _ _ _ _ _ _ _ _ Hac). intros a c.
    destruct (decide (a = h_listen_addr h)) as [->|Ha].
    + rewrite lookup_insert_eq. intros [= <-]. eexists. split; [by left|]. done.
    + rewrite lookup_insert_ne by done. intros (e & He & <- & <- & Hcur)%H1.
      exists e. split; [by right|]. auto.
  - intros c a Hca. destruct (decide (a = h_listen_addr h)) as [->|Ha].
    + eexists. split; [by left|]. done.
    + apply lookup_insert_Some in Hca as [[_ ?]|[_ Hca]]; [done|].
      apply H2 in Hca as (e & He & <- & Hcur). exists e. split; [by right|]. auto.
Qed.

Lemma node_event_wf n log e :
  sessions_wf n log → sessions_wf (node_event (n, log) e).1.1 (node_event (n, log) e).1.2.
Proof.
  intros Hwf. destruct e as [now ctx conn observed h|conn|addrs| |ch ca|now coll p|now ws
    |now conn coll com p|now conn coll com|now coll]; simpl.
  - destruct (hello_event _ _ _ _ _ _) as [n' ok] eqn:Hh. by eapply hello_event_wf.
  - by apply end_conn_wf.
  - eapply sessions_wf_same; [|done]. unfold learn_peers.
    destruct (foldl _ _ _) as [known new]. by repeat split.
  - split; simpl; intros ?? Hl; by rewrite lookup_empty in Hl.
  - eapply sessions_wf_same; [|done]. by repeat split.
  - pose proof (submit_same now n coll p). destruct (submit_private_payload _ _ _ _) as [[n' r] o].
    by eapply sessions_wf_same.
  - pose proof (disseminate_same now n ws). destruct (disseminate_private_writes _ _ _) as [n' o].
    by eapply sessions_wf_same.
  - eapply sessions_wf_same; [|done]. apply receive_same.
  - pose proof (request_same now n conn coll com). destruct (process_request _ _ _ _ _) as [n' o].
    by eapply sessions_wf_same.
  - pose proof (reconcile_same now n coll). destruct (reconcile_private_payloads _ _ _) as [[n' r] o].
    by eapply sessions_wf_same.
Qed.

Lemma run_node_wf n log es :
  sessions_wf n log → sessions_wf (run_node (n, log) es).1 (run_node (n, log) es).2.
Proof.
  unfold run_node. revert n log. induction es as [|e es IH]; intros n log Hwf; [done|].
  cbn [foldl]. pose proof (node_event_wf n log e Hwf) as He.
  destruct (node_event (n, log) e) as [[n' log'] out]. by apply IH.
Qed.

(** What trust in an address amounts to. *)
Lemma trusted_inv n addr coll :
  private_peer_trusted n addr coll = true →
  ∃ p, peers (pn_registry (pv_peers n)) !! addr = Some p ∧ vp_org_verified p = true
    ∧ is_collection_member n coll (vp_org p) = true.
Proof.
  unfold private_peer_trusted, private_payload_allowed, peer_org, org_verified.
  destruct (peers _ !! addr) as [p|]; simpl; [|by rewrite !andb_false_r].
  intros H. bool_hyps. destruct_and!. exists p. split; [done|].
  rewrite str_eqb_refl in *. bool_hyps. naive_solver.
Qed.

Lemma payload_targets_inv n log c conn :
  sessions_wf n log → conn ∈ payload_targets n c →
  ∃ e, e ∈ log ∧ se_conn e = conn
    ∧ hello_org_verified base64_decode (se_now e) (se_ctx e) (cert_verifier (pv_peers n)) (se_hello e)
      = true
    ∧ is_member c (h_org (se_hello e)) = true
    ∧ is_collection_member n (cc_name (ch_config c)) (h_org (se_hello e)) = true.
Proof.
  intros [H1 _] ([a x] & -> & Hin)%list_elem_of_fmap.
  apply list_elem_of_In, List.filter_In in Hin as [Hin Hf].
  apply list_elem_of_In, elem_of_map_to_list in Hin. simpl in *.
  apply H1 in Hin as (e & He & <- & Hc & p & Hp & Ho & Hv).
  apply andb_true_iff in Hf as [Hm Ht]. apply trusted_inv in Ht as (q & Hq & Hqv & Hqm).
  simplify_eq. unfold peer_org in Hm. rewrite Hp in Hm. simpl in Hm.
  exists e. split_and!; congruence.
Qed.

Lemma same_member n n' coll org :
  same_sessions n n' → is_collection_member n' coll org = is_collection_member n coll org.
Proof. intros (_ & _ & _ & _ & Hc & _). unfold is_collection_member, collection. by rewrite Hc. Qed.

Lemma collection_name n coll c : collection n coll = Some c → cc_name (ch_config c) = coll.
Proof. unfold collection. intros [_ H]%find_elem_of. by apply str_eqb_eq. Qed.

(** Behind a connection stands a Hello of this run on that very connection, whose
    certificate verified as the organization, with a possession proof for that
    session, and the organization is a member of the collection. *)
Definition proven_member (n : PrivNode S) (log : list Session) (conn : N) (coll : string) : Prop :=
  ∃ e ver pem binding proof raw,
    e ∈ log ∧ se_conn e = conn ∧ cert_verifier (pv_peers n) = Some ver
    ∧ h_certificate_pem (se_hello e) = Some pem
    ∧ verified_subject_cn_pem (se_now e) ver pem = Ok (h_org (se_hello e))
    ∧ ctx_session_binding (se_ctx e) = Some binding
    ∧ h_certificate_proof (se_hello e) = Some proof ∧ base64_decode proof = Ok raw
    ∧ verify_org_possession pem (h_org (se_hello e)) (h_node_id (se_hello e)) binding raw = true
    ∧ is_collection_member n coll (h_org (se_hello e)) = true.

Lemma target_proven n log c conn :
  sessions_wf n log → conn ∈ payload_targets n c →
  proven_member n log conn (cc_name (ch_config c)).
Proof.
  intros Hwf Hin. destruct (payload_targets_inv n log c conn Hwf Hin)
    as (e & He & Hc & Hv & _ & Hm).
  apply hello_org_verified_inv in Hv
    as (ver & pem & binding & proof & raw & ? & ? & ? & ? & ? & ? & ? & _).
  exists e, ver, pem, binding, proof, raw. by split_and!.
Qed.

Lemma proven_same n n' log conn coll :
  same_sessions n n' → proven_member n' log conn coll → proven_member n log conn coll.
Proof.
  intros Hs (e & ver & pem & b & pr & raw & H). exists e, ver, pem, b, pr, raw.
  rewrite <- (same_member _ _ _ _ Hs). destruct Hs as (_ & _ & <- & _). exact H.
Qed.

(** What a pushed message may be. *)
Definition well_addressed (n : PrivNode S) (log : list Session) (cm : N * PrivateMsg) : Prop :=
  match cm.2 with
  | PrivatePayload coll com payload => com = sha256 payload ∧ proven_member n log cm.1 coll
  | RequestPrivatePayload coll com => proven_member n log cm.1 coll
  end.

Lemma to_targets_addressed n log c coll com payload cm :
  sessions_wf n log → collection n coll = Some c → com = sha256 payload →
  cm ∈ to_targets (payload_targets n c) (PrivatePayload coll com payload) →
  well_addressed n log cm.
Proof.
  intros Hwf Hc -> (conn & -> & Hin)%list_elem_of_fmap. split; [done|]. simpl.
  rewrite <- (collection_name _ _ _ Hc). by apply target_proven.
Qed.

Lemma submit_addressed now n log coll payload cm :
  sessions_wf n log → cm ∈ (submit_private_payload now n coll payload).2 → well_addressed n log cm.
Proof.
  intros Hwf. unfold submit_private_payload.
  destruct (negb _); [by intros []%not_elem_of_nil|].
  destruct (negb _); [by intros []%not_elem_of_nil|].
  pose proof (pdc_active_cached_same n) as Hs. destruct (pdc_active_cached n) as [n1 active].
  simpl in Hs. destruct active; simpl; [|by intros []%not_elem_of_nil].
  destruct (collection n1 coll) as [c|] eqn:Hc; [|by intros []%not_elem_of_nil].
  destruct (transient_put _ _ _ _ _ _ _) as [t []]; simpl; [|by intros []%not_elem_of_nil].
  intros Hin. apply (to_targets_addressed n1 log) in Hin;
    [|by eapply sessions_wf_same|done|done].
  destruct cm as [conn [coll' com' p'|]]; [|by eapply proven_same].
  destruct Hin as [-> Hp]. split; [done|]. by eapply proven_same.
Qed.

Lemma well_addressed_same n n' log cm :
  same_sessions n n' → well_addressed n' log cm → well_addressed n log cm.
Proof.
  intros Hs. destruct cm as [conn [coll com p|coll com]]; unfold well_addressed; simpl.
  - intros [-> Hp]. split; [done|]. by eapply proven_same.
  - by apply proven_same.
Qed.

Lemma disseminate_addressed now n log ws cm :
  sessions_wf n log → cm ∈ (disseminate_private_writes now n ws).2 → well_addressed n log cm.
Proof.
  revert n. induction ws as [|w ws IH]; intros n Hwf; [by intros []%not_elem_of_nil|].
  cbn [disseminate_private_writes]. pose proof (disseminate_write_same now n w) as Hs.
  assert (Hw : ∀ cm, cm ∈ (disseminate_write now n w).2 → well_addressed n log cm).
  { intros cm'. unfold disseminate_write.
    destruct (pw_op w) as [v|], (pw_visibility w) as [|coll]; try by intros []%not_elem_of_nil.
    destruct (negb _); [by intros []%not_elem_of_nil|].
    destruct (collection n coll) as [c|] eqn:Hc; [|by intros []%not_elem_of_nil].
    by apply to_targets_addressed. }
  destruct (disseminate_write now n w) as [n1 o1]. simpl in Hs, Hw.
  specialize (IH n1 (sessions_wf_same _ _ _ Hs Hwf)).
  destruct (disseminate_private_writes now n1 ws) as [n2 o2]. simpl in *.
  intros [Hin|Hin]%elem_of_app; [by apply Hw|]. eapply well_addressed_same; [exact Hs|]. by apply IH.
Qed.

Lemma reconcile_addressed now n log coll cm :
  sessions_wf n log → cm ∈ (reconcile_private_payloads now n coll).2 → well_addressed n log cm.
Proof.
  intros Hwf. unfold reconcile_private_payloads.
  do 2 (destruct (negb _); [by intros []%not_elem_of_nil|]).
  destruct (scan_missing _ _ _ _ _) as [t [missing|]]; [|by intros []%not_elem_of_nil].
  pose proof (with_transient_same n t) as Hs.
  destruct (collection (with_transient n t) coll) as [c|] eqn:Hc; [|by intros []%not_elem_of_nil].
  case_bool_decide; [by intros []%not_elem_of_nil|]. simpl.
  intros (l & Hin & (conn & -> & Hconn)%list_elem_of_fmap)%list_elem_of_join.
  apply list_elem_of_fmap in Hin as (com & -> & _).
  eapply well_addressed_same; [exact Hs|]. unfold well_addressed. simpl.
  rewrite <- (collection_name _ _ _ Hc). apply target_proven; [|done].
  by eapply sessions_wf_same.
Qed.

(** A node that has just started. *)
Definition fresh (n : PrivNode S) : Prop := peer_senders (pv_peers n) = ∅ ∧ pv_conns n = ∅.

Lemma fresh_wf n : fresh n → sessions_wf n [].
Proof. intros [H1 H2]. split; rewrite ?H1, ?H2; by intros ?? ?%lookup_empty_Some. Qed.

(** Whatever happened since the node started (accepted and refused Hellos,
    rotations, stale disconnections, restarts, commits), private cleartext and
    reconciliation requests are pushed only to connections on which, in this run, a
    Hello proved by certificate and by a possession proof bound to that TLS session
    that the peer is an organization of the collection; and a payload travels under
    its own SHA-256. *)
Theorem cleartext_pushed_to_proven_members n0 es n log :
  fresh n0 → run_node (n0, []) es = (n, log) →
  (∀ now coll payload cm, cm ∈ (submit_private_payload now n coll payload).2 →
     well_addressed n log cm)
  ∧ (∀ now ws cm, cm ∈ (disseminate_private_writes now n ws).2 → well_addressed n log cm)
  ∧ (∀ now coll cm, cm ∈ (reconcile_private_payloads now n coll).2 → well_addressed n log cm).
Proof.
  intros Hf Hr. pose proof (run_node_wf n0 [] es (fresh_wf n0 Hf)) as Hwf. rewrite Hr in Hwf.
  simpl in Hwf. split_and!; intros.
  - by eapply submit_addressed.
  - by eapply disseminate_addressed.
  - by eapply reconcile_addressed.
Qed.

(** ** The pull path *)

(** The pull path is weaker: a payload is answered on a connection whose
    registered address was proven by some Hello of this run, but not necessarily by
    the Hello of that connection.  A connection whose own Hello proved nothing (say
    with a transport key that was retired by a rotation) receives the cleartext once
    the genuine peer has authenticated a second connection for the same address. *)
Theorem unproven_connection_pulls now n0 ctx1 ctx2 c1 c2 o1 o2 h1 h2 n1 n2 t1 t2 coll com payload t' :
  hello_event t1 ctx1 c1 o1 n0 h1 = (n1, true) →
  hello_org_verified base64_decode t1 ctx1 (cert_verifier (pv_peers n0)) h1 = false →
  hello_event t2 ctx2 c2 o2 n1 h2 = (n2, true) → c1 ≠ c2 →
  h_listen_addr h2 = h_listen_addr h1 →
  hello_org_verified base64_decode t2 ctx2 (cert_verifier (pv_peers n1)) h2 = true →
  is_collection_member n2 coll (h_org h2) = true →
  is_collection_member n2 coll (own_org n2) = true →
  transient_get of_json now (transient n2) coll com = (t', Ok (Some payload)) →
  (process_request now n2 c1 coll com).2 = [(c1, PrivatePayload coll com payload)].
Proof.
  intros H1 _ H2 Hne Ha Hv Hm Hown Hget. unfold process_request.
  assert (pv_conns n2 !! c1 = Some (h_listen_addr h1)) as ->.
  { unfold hello_event in H1, H2.
    destruct (process_hello _ _ t1 _ _ _ _ _ _) as [[p1 eff1] req1] eqn:Hp1.
    apply process_hello_cases in Hp1 as [(_ & -> & _)|[-> _]]; [done|]. injection H1 as <-.
    destruct (process_hello _ _ t2 _ _ _ _ _ _) as [[p2 eff2] req2] eqn:Hp2.
    apply process_hello_cases in Hp2 as [(_ & -> & _)|[-> _]]; [done|]. injection H2 as <-.
    simpl. by rewrite lookup_insert_ne, lookup_insert_eq by done. }
  assert (private_peer_trusted n2 (h_listen_addr h1) coll = true) as ->.
  { unfold hello_event in H2.
    destruct (process_hello _ _ t2 _ _ _ _ _ _) as [[p2 eff2] req2] eqn:Hp2.
    apply process_hello_cases in Hp2 as [(_ & -> & _)|[-> Hac]]; [done|]. injection H2 as <-.
    destruct (ac_pin _ _ _ _ _ _ _ _ _ Hac) as (p' & Hp' & _ & Ho & _ & Hpv & _).
    apply hello_org_verified_inv in Hv as Hv'. destruct Hv' as (ver & _ & _ & _ & _ & Hver & _).
    unfold private_peer_trusted, private_payload_allowed, peer_org, org_verified. simpl.
    rewrite <- Ha, Hp'. simpl. rewrite str_eqb_refl, Hpv, Hv, Ho, Hm.
    rewrite (ac_verifier _ _ _ _ _ _ _ _ _ Hac), Hver. done. }
  rewrite Hown. simpl. by rewrite Hget.
Qed.

(** ** Receiving *)

Context `{L : !StorageLaws S}.
Context (codec : ∀ e, of_json (to_json e) = Ok e).

(** A received payload is stored exactly when the pdc capability is active at
    the next height, the connection completed its Hello, this node runs certificate
    verification and belongs to the collection, the sender's organization was
    verified and belongs to it too, and the commitment is the payload's SHA-256.
    Then every read until the collection's retention returns it; otherwise the node
    is unchanged. *)
Theorem payload_accepted_exactly now n conn coll com payload n' ok :
  process_private_payload now n conn coll com payload = (n', ok) →
  (ok = true ↔
     pdc_active_received n = true ∧ is_collection_member n coll (own_org n) = true
     ∧ is_Some (cert_verifier (pv_peers n)) ∧ sha256 payload = com
     ∧ ∃ addr p, pv_conns n !! conn = Some addr
         ∧ peers (pn_registry (pv_peers n)) !! addr = Some p ∧ vp_org_verified p = true
         ∧ is_collection_member n coll (vp_org p) = true)
  ∧ (ok = false → n' = n)
  ∧ (ok = true → ∃ c, collection n coll = Some c ∧
       let deadline := (now + cc_retention_secs (ch_config c))%Z in
       (0 ≤ deadline ≤ U64_MAX)%Z → ∀ t,
       (transient_get of_json t (transient n') coll com).2
       = Ok (if (t <? deadline)%Z then Some payload else None)).
Proof.
  unfold process_private_payload. destruct (pdc_active_received n); simpl; cycle 1.
  { intros [= <- <-]. naive_solver. }
  destruct (pv_conns n !! conn) as [addr|]; cycle 1.
  { intros [= <- <-]. naive_solver. }
  destruct (is_collection_member n coll (own_org n)) eqn:Hown; simpl; cycle 1.
  { intros [= <- <-]. naive_solver. }
  unfold peer_org, org_verified.
  destruct (cert_verifier (pv_peers n)) as [ver|]; simpl; cycle 1.
  { intros [= <- <-]. split_and!; [|done|done]. split; [done|]. intros (_ & _ & [? ?] & _). done. }
  destruct (peers _ !! addr) as [p|] eqn:Hp; simpl; cycle 1.
  { intros [= <- <-]. naive_solver. }
  rewrite str_eqb_refl.
  destruct (is_collection_member n coll (vp_org p)) eqn:Hm; simpl; cycle 1.
  { intros [= <- <-]. naive_solver. }
  destruct (vp_org_verified p) eqn:Hv; simpl; cycle 1.
  { intros [= <- <-]. naive_solver. }
  destruct (sha256 payload ==? com) eqn:Hc; simpl; cycle 1.
  { apply str_eqb_neq in Hc. intros [= <- <-]. naive_solver. }
  apply str_eqb_eq in Hc.
  unfold is_collection_member in Hown.
  destruct (collection n coll) as [c|] eqn:Hcol; [|done]. simpl.
  pose proof (transient_put_spec to_json of_json codec now (transient n) coll com payload
    (cc_retention_secs (ch_config c))) as Hput.
  pose proof (λ t, transient_roundtrip to_json of_json codec now t (transient n) coll com payload
    (cc_retention_secs (ch_config c))) as Hget.
  destruct (transient_put _ _ _ _ _ _ _) as [t res]. destruct Hput as (-> & _).
  intros [= <- <-]. split_and!; [|done|].
  - split; [|done]. intros _. split_and!; try done. by exists addr, p.
  - intros _. exists c. split; [done|]. intros Hr t'.
    replace (transient (with_transient n t)) with t by (by destruct t).
    by apply (Hget t').
Qed.

(** ** Reconciliation asks for exactly what is missing *)

(** The store does not return the payload (never held, or past its retention). *)
Definition is_missing (now : Z) (s : S) (coll com : string) : Prop :=
  (transient_get of_json now (mkTransient s ∅) coll com).2 = Ok None.

Lemma transient_get_storage now t coll com :
  storage (transient_get of_json now t coll com).1 = storage t
  ∧ (transient_get of_json now t coll com).2
    = (transient_get of_json now (mkTransient (storage t) ∅) coll com).2.
Proof. split; [unfold transient_get; by repeat case_match | by rewrite !(transient_get_spec of_json)]. Qed.

Lemma scan_missing_spec now t coll coms m0 t' m :
  scan_missing now t coll coms m0 = (t', Ok m) →
  storage t' = storage t
  ∧ ∀ com, com ∈ m ↔ com ∈ m0 ∨ com ∈ coms ∧ is_missing now (storage t) coll com.
Proof.
  revert t m0. induction coms as [|c coms IH]; intros t m0; simpl.
  { intros [= <- <-]. split; [done|]. intros com. rewrite elem_of_nil. tauto. }
  destruct (utf8_valid _); simpl; [|done].
  destruct (transient_get_storage now t coll c) as [Hs Hg].
  destruct (transient_get of_json now t coll c) as [t1 [[p|]|e]]; simpl in Hs, Hg; [..|done];
    intros H; apply IH in H as [Hs' Hm]; (split; [congruence|]);
    intros com; rewrite Hm, elem_of_cons, Hs; unfold is_missing in *.
  - split; [naive_solver|]. intros [?|[[->|?] ?]]; [by left|congruence|by right].
  - rewrite elem_of_app, list_elem_of_singleton. naive_solver.
Qed.

(** A reconciliation that succeeds asks every trusted member peer for exactly the
    payloads that the chain commits to for the collection and the store does not
    hold, and reports how many distinct ones they are. *)
Theorem reconcile_requests_missing now n coll n' k out c :
  reconcile_private_payloads now n coll = (n', Ok k, out) →
  is_Some (cert_verifier (pv_peers n)) → is_collection_member n coll (own_org n) = true →
  collection n coll = Some c → payload_targets n c ≠ [] →
  (∀ conn m, (conn, m) ∈ out ↔
     ∃ com, m = RequestPrivatePayload coll com ∧ conn ∈ payload_targets n c
       ∧ com ∈ committed_values n coll ∧ is_missing now (pn_storage (pv_peers n)) coll com)
  ∧ (∃ missing, NoDup missing ∧ length missing = k
       ∧ ∀ com, com ∈ missing ↔
           com ∈ committed_values n coll ∧ is_missing now (pn_storage (pv_peers n)) coll com)
  ∧ pn_storage (pv_peers n') = pn_storage (pv_peers n).
Proof.
  intros H [ver Hver] Hm Hc Ht. unfold reconcile_private_payloads in H.
  rewrite Hver, Hm in H. simpl in H.
  destruct (scan_missing _ _ _ _ _) as [t [missing|e]] eqn:Hscan; [|done].
  apply scan_missing_spec in Hscan as [Hst Hmiss]. simpl in Hst.
  change (collection (with_transient n t) coll) with (collection n coll) in H. rewrite Hc in H.
  change (payload_targets (with_transient n t) c) with (payload_targets n c) in H.
  rewrite (bool_decide_eq_false_2 _ Ht) in H. injection H as <- <- <-.
  assert (Hd : ∀ com, com ∈ dedup (sort_by String.leb missing) ↔
    com ∈ committed_values n coll ∧ is_missing now (pn_storage (pv_peers n)) coll com).
  { intros com. rewrite dedup_elem, sort_by_perm, Hmiss, elem_of_nil. naive_solver. }
  split_and!; [..|done].
  - intros conn m. rewrite list_elem_of_join. split.
    + intros (l & Hin & (c' & -> & Hc')%list_elem_of_fmap).
      apply list_elem_of_fmap in Hin as (com & [= -> ->] & Hcom). apply Hd in Hcom as [??].
      by exists com.
    + intros (com & -> & Hconn & Hcom). eexists. split; [|apply list_elem_of_fmap; by eexists].
      apply list_elem_of_fmap. exists com. split; [done|]. by apply Hd.
  - eexists. split_and!; [|done|done].
    apply dedup_sorted_NoDup, sort_by_sorted; [apply String.leb_total | apply str_leb_trans].
Qed.
End private.
