(* ===== verification/Contracts.v ===== *)
(** The contract engine and its approval gate (glasschain-contracts:
    contract.rs, approval_gate.rs, engine.rs, error.rs).

    The engine keeps purchase contracts by id and turns supply offers into
    purchase orders.  The execution provider that runs a contract's gate is an
    argument, as are the base64 decoder and the JSON rendering of an offer.  The
    theorems: a contract never orders beyond its budget or outside its terms, an
    attached gate is fail-closed, and replaying the chain rebuilds the contract
    state the live engine reached. *)

From S2P Require Import Prelude Types.

(** ** Execution providers (core providers.rs) *)

Record ExecutionLimits := mkExecutionLimits {
  fuel_limit : Z;
  operation_gas_limit : Z }.

(** [ExecutionProvider::execute_with_state]: execution id, module bytes, initial
    state, budgets. *)
Definition ExecutionProvider :=
  string → string → gmap string string → ExecutionLimits → result CoreError ExecutionResult.

(** ** Contracts (contract.rs) *)

Inductive ContractStatus := Active | Paused | Fulfilled | Cancelled.

#[export] Instance ContractStatus_eq_dec : EqDecision ContractStatus.
Proof. solve_decision. Defined.

Record Contract := mkContract {
  c_definition : SmartContractDef;
  c_status : ContractStatus;
  quantity_purchased : Z;
  execution_count : Z }.

Definition Contract_new (d : SmartContractDef) : Contract := mkContract d Active 0 0.

Definition is_active (c : Contract) : bool := bool_decide (c_status c = Active).
Definition conditions (c : Contract) : PurchaseConditions := scd_conditions (c_definition c).
Definition contract_id (c : Contract) : string := scd_contract_id (c_definition c).

Definition set_status (s : ContractStatus) (c : Contract) : Contract :=
  mkContract (c_definition c) s (quantity_purchased c) (execution_count c).

Inductive ContractError :=
| NotFound (id : string)
| AlreadyExists (id : string)
| Inactive (id : string)
| ConditionsNotMet (msg : string)
| ContractCore (e : CoreError).

(** ** The approval gate (approval_gate.rs) *)

Inductive ApprovalGatePolicy := ContractEvaluation | InventoryGate.

Definition gate_limits (p : ApprovalGatePolicy) : ExecutionLimits :=
  match p with
  | ContractEvaluation => mkExecutionLimits 50000 50000
  | InventoryGate => mkExecutionLimits 100000 100000
  end.

Inductive GateDenial :=
| InvalidPayload (e : string)
| StatePreparation (e : string)
| GateExecution (e : string)
| MissingApproval.

Inductive GateDecision := Approved | Denied (reason : GateDenial).

Definition is_approval (kv : string * string) : bool := (kv.1 ==? "approve") && (kv.2 ==? "1").

Section gate.
(** The base64 decoder of the base64 crate, with its error text. *)
Context (base64_std : string → result string string).

Definition gate_evaluate (executor : ExecutionProvider) (policy : ApprovalGatePolicy)
    (execution_id wasm_b64 : string) (initial_state : result string (gmap string string))
  : GateDecision :=
  match base64_std wasm_b64 with
  | Err e => Denied (InvalidPayload e)
  | Ok wasm =>
      match initial_state with
      | Err e => Denied (StatePreparation e)
      | Ok state =>
          match executor execution_id wasm state (gate_limits policy) with
          | Err e => Denied (GateExecution (display_error e))
          | Ok r => if existsb is_approval (ephemeral r) then Approved else Denied MissingApproval
          end
      end
  end.
End gate.

(** ** The engine (engine.rs) *)

Record ContractEngine := mkEngine {
  contracts : gmap string Contract;
  executor : option ExecutionProvider }.

Definition ContractEngine_new : ContractEngine := mkEngine ∅ None.

Definition set_executor (e : ContractEngine) (x : ExecutionProvider) : ContractEngine :=
  mkEngine (contracts e) (Some x).

Definition set_contracts (e : ContractEngine) (m : gmap string Contract) : ContractEngine :=
  mkEngine m (executor e).

Definition register_contract (e : ContractEngine) (d : SmartContractDef)
  : ContractEngine * result ContractError unit :=
  match contracts e !! scd_contract_id d with
  | Some _ => (e, Err (AlreadyExists (scd_contract_id d)))
  | None => (set_contracts e (<[scd_contract_id d := Contract_new d]> (contracts e)), Ok tt)
  end.

Definition cancel_contract (e : ContractEngine) (id : string)
  : ContractEngine * result ContractError unit :=
  match contracts e !! id with
  | None => (e, Err (NotFound id))
  | Some c => (set_contracts e (<[id := set_status Cancelled c]> (contracts e)), Ok tt)
  end.

Definition pause_contract (e : ContractEngine) (id : string)
  : ContractEngine * result ContractError unit :=
  match contracts e !! id with
  | None => (e, Err (NotFound id))
  | Some c =>
      if negb (is_active c) then (e, Err (Inactive id))
      else (set_contracts e (<[id := set_status Paused c]> (contracts e)), Ok tt)
  end.

Definition resume_contract (e : ContractEngine) (id : string)
  : ContractEngine * result ContractError unit :=
  match contracts e !! id with
  | None => (e, Err (NotFound id))
  | Some c =>
      (if bool_decide (c_status c = Paused)
       then set_contracts e (<[id := set_status Active c]> (contracts e)) else e, Ok tt)
  end.

Definition load_from_ledger (m : gmap string Contract) (d : SmartContractDef)
  : gmap string Contract :=
  match m !! scd_contract_id d with
  | Some _ => m
  | None => <[scd_contract_id d := Contract_new d]> m
  end.

Definition offer_matches (c : Contract) (o : SupplyOffer) : bool :=
  let k := conditions c in
  (scd_product_id (c_definition c) ==? so_product_id o) && (pc_currency k ==? so_currency o)
  && (so_price_per_unit o <=? max_price_per_unit k)%Z
  && (so_lead_time_days o <=? max_lead_time_days k)%Z
  && (min_quantity k <=? so_quantity_available o)%Z
  && match preferred_seller_id k with None => true | Some s => s ==? so_seller_id o end.

Record PurchasePlan := mkPlan {
  plan_order : Transaction;
  plan_execution : Transaction;
  plan_quantity : Z }.

Section engine.
Context (base64_std : string → result string string) (json_offer : SupplyOffer → string).
(** [clock id]: the second at which the transaction [id] is built. *)
Context (clock : string → Z).

Definition prepare_purchase (c : Contract) (o : SupplyOffer) (offer_tx_id : string)
  : option PurchasePlan :=
  let k := conditions c in
  let remaining := saturating_sub (max_quantity k) (quantity_purchased c) in
  if (remaining =? 0)%Z then None else
  let quantity := Z.min (Z.min remaining (so_quantity_available o)) (max_quantity k) in
  let total := saturating_mul64 quantity (so_price_per_unit o) in
  let po_id := "po:" +:+ contract_id c +:+ "-" +:+ offer_tx_id in
  let exec_id := "exec:" +:+ contract_id c +:+ "-" +:+ offer_tx_id in
  Some (mkPlan
    (Transaction_with_id (clock po_id) po_id (KPurchaseOrder
       (mkPurchaseOrder (so_product_id o) (scd_buyer_id (c_definition c)) (so_seller_id o) quantity
          (so_price_per_unit o) (so_currency o) (Some (contract_id c)))))
    (Transaction_with_id (clock exec_id) exec_id (KContractExecution
       (mkContractExecution (contract_id c) po_id (scd_buyer_id (c_definition c)) (so_seller_id o)
          (so_product_id o) quantity total (so_currency o))))
    quantity).

(** The update that a purchase of [quantity] makes, live and on replay. *)
Definition record_execution (c : Contract) (quantity : Z) : Contract :=
  let purchased := add64 (quantity_purchased c) quantity in
  mkContract (c_definition c)
    (if (max_quantity (conditions c) <=? purchased)%Z then Fulfilled else c_status c)
    purchased (add32 (execution_count c) 1).

Definition apply_purchase (c : Contract) (plan : PurchasePlan) : Contract * list Transaction :=
  (record_execution c (plan_quantity plan), [plan_order plan; plan_execution plan]).

(** An attached executor must approve the module a contract carries. *)
Definition gate_passes (x : option ExecutionProvider) (c : Contract) (o : SupplyOffer)
    (offer_tx_id : string) : bool :=
  match wasm_code_b64 (c_definition c), x with
  | Some wasm, Some x =>
      match gate_evaluate base64_std x ContractEvaluation
              ("wasm:" +:+ contract_id c +:+ ":" +:+ offer_tx_id) wasm
              (Ok {[ "offer" := json_offer o ]}) with
      | Approved => true
      | Denied _ => false
      end
  | _, _ => true
  end.

(** The body of the loop of [evaluate_supply_offer]. *)
Definition evaluate_contract (x : option ExecutionProvider) (o : SupplyOffer)
    (offer_tx_id : string) (c : Contract) : Contract * list Transaction :=
  if negb (is_active c) then (c, []) else
  if negb (gate_passes x c o offer_tx_id) then (c, []) else
  if negb (offer_matches c o) then (c, []) else
  if negb (auto_execute (conditions c)) then (c, []) else
  match prepare_purchase c o offer_tx_id with
  | None => (set_status Fulfilled c, [])
  | Some plan => apply_purchase c plan
  end.

(** Contracts are visited in ascending id order; each iteration touches only its
    own contract. *)
Definition evaluate_supply_offer (e : ContractEngine) (o : SupplyOffer) (offer_tx_id : string)
  : ContractEngine * list Transaction :=
  (set_contracts e ((λ c, (evaluate_contract (executor e) o offer_tx_id c).1) <$> contracts e),
   mjoin ((λ kc, (evaluate_contract (executor e) o offer_tx_id kc.2).2)
            <$> btree_items (contracts e))).

(** Second pass of [rebuild_from_chain]. *)
Definition replay_execution (m : gmap string Contract) (tx : Transaction) : gmap string Contract :=
  match tx_kind tx with
  | KContractExecution x =>
      match m !! ce_contract_id x with
      | Some c => <[ce_contract_id x := record_execution c (ce_quantity x)]> m
      | None => m
      end
  | _ => m
  end.

(** First pass. *)
Definition replay_creation (m : gmap string Contract) (tx : Transaction) : gmap string Contract :=
  match tx_kind tx with KContractCreation d => load_from_ledger m d | _ => m end.

Definition chain_transactions (chain : list Block) : list Transaction :=
  mjoin (transactions <$> chain).

Definition rebuild_from_chain (chain : list Block) : ContractEngine :=
  let txs := chain_transactions chain in
  mkEngine (foldl replay_execution (foldl replay_creation ∅ txs) txs) None.

(** ** One evaluation *)

(** A definition whose counters are machine integers. *)
Definition def_wf (d : SmartContractDef) : Prop := in_u64 (max_quantity (scd_conditions d)).

(** The counters describe an unspent part of the budget. *)
Definition contract_wf (c : Contract) : Prop :=
  def_wf (c_definition c) ∧ (0 ≤ quantity_purchased c ≤ max_quantity (conditions c))%Z.

Definition offer_wf (o : SupplyOffer) : Prop := in_u64 (so_quantity_available o).

(** The terms of a contract that an offer has to meet. *)
Record within_terms (c : Contract) (o : SupplyOffer) : Prop := {
  wt_product : so_product_id o = scd_product_id (c_definition c);
  wt_currency : so_currency o = pc_currency (conditions c);
  wt_price : (so_price_per_unit o ≤ max_price_per_unit (conditions c))%Z;
  wt_lead : (so_lead_time_days o ≤ max_lead_time_days (conditions c))%Z;
  wt_available : (min_quantity (conditions c) ≤ so_quantity_available o)%Z;
  wt_seller : ∀ s, preferred_seller_id (conditions c) = Some s → s = so_seller_id o }.

Lemma offer_matches_terms c o : offer_matches c o = true → within_terms c o.
Proof.
  unfold offer_matches. intros H. bool_hyps. destruct_and!.
  split; try done. intros s Hs. rewrite Hs in *. by bool_hyps.
Qed.

(** Either nothing is ordered and the counters stay, or the plan is applied. *)
Lemma evaluate_contract_cases x o id c c' txs :
  evaluate_contract x o id c = (c', txs) →
  (txs = [] ∧ (c' = c ∨ c' = set_status Fulfilled c ∧ c_status c = Active
                 ∧ prepare_purchase c o id = None))
  ∨ ∃ plan, prepare_purchase c o id = Some plan ∧ c' = record_execution c (plan_quantity plan)
      ∧ txs = [plan_order plan; plan_execution plan]
      ∧ c_status c = Active ∧ gate_passes x c o id = true ∧ within_terms c o
      ∧ auto_execute (conditions c) = true.
Proof.
  unfold evaluate_contract. destruct (is_active c) eqn:Ha; simpl; [|intros [= <- <-]; eauto].
  unfold is_active in Ha. bool_hyps.
  destruct (gate_passes x c o id) eqn:Hg; simpl; [|intros [= <- <-]; eauto].
  destruct (offer_matches c o) eqn:Hm; simpl; [|intros [= <- <-]; eauto].
  destruct (auto_execute (conditions c)) eqn:Hx; simpl; [|intros [= <- <-]; eauto].
  destruct (prepare_purchase c o id) as [plan|] eqn:Hp; intros [= <- <-].
  - right. exists plan. apply offer_matches_terms in Hm. done.
  - left. split; [done|]. by right.
Qed.

Lemma prepare_purchase_Some c o id plan :
  contract_wf c → offer_wf o → prepare_purchase c o id = Some plan →
  (0 ≤ plan_quantity plan ≤ so_quantity_available o)%Z
  ∧ (quantity_purchased c + plan_quantity plan ≤ max_quantity (conditions c))%Z
  ∧ ∃ px pp, tx_kind (plan_execution plan) = KContractExecution px
      ∧ tx_kind (plan_order plan) = KPurchaseOrder pp
      ∧ ce_contract_id px = contract_id c ∧ ce_quantity px = plan_quantity plan
      ∧ po_quantity pp = plan_quantity plan
      ∧ purchase_order_tx_id px = tx_id (plan_order plan).
Proof.
  unfold contract_wf, def_wf, offer_wf, in_u64, prepare_purchase, saturating_sub.
  intros [Hd Hq] Ho. fold (conditions c) in Hd.
  destruct (_ =? 0)%Z eqn:Hr; [done|]. bool_hyps. intros [= <-]. simpl.
  repeat split; [lia|lia|lia|]. by do 2 eexists.
Qed.

Lemma record_execution_wf c q :
  contract_wf c → (0 ≤ q)%Z → (quantity_purchased c + q ≤ max_quantity (conditions c))%Z →
  contract_wf (record_execution c q)
  ∧ quantity_purchased (record_execution c q) = (quantity_purchased c + q)%Z.
Proof.
  intros [Hd Hq] H0 Hle. unfold def_wf, in_u64 in Hd. fold (conditions c) in Hd.
  assert (add64 (quantity_purchased c) q = (quantity_purchased c + q)%Z) as Ha.
  { apply add64_small. lia. }
  unfold contract_wf, record_execution. simpl. rewrite Ha. unfold conditions in *. simpl in *.
  repeat split; lia.
Qed.

(** The quantities that a list of transactions executes for a contract. *)
Definition exec_quantities (id : string) (txs : list Transaction) : list Z :=
  omap (λ tx, match tx_kind tx with
              | KContractExecution x =>
                  if ce_contract_id x ==? id then Some (ce_quantity x) else None
              | _ => None
              end) txs.

Definition executed_quantity (id : string) (txs : list Transaction) : Z :=
  foldr Z.add 0%Z (exec_quantities id txs).

Lemma executed_quantity_app id l k :
  executed_quantity id (l ++ k) = (executed_quantity id l + executed_quantity id k)%Z.
Proof.
  unfold executed_quantity, exec_quantities. rewrite omap_app.
  induction (omap _ l) as [|q qs IH]; simpl; lia.
Qed.

Lemma evaluate_contract_spec x o id c c' txs :
  contract_wf c → offer_wf o → evaluate_contract x o id c = (c', txs) →
  c_definition c' = c_definition c ∧ contract_wf c'
  ∧ (quantity_purchased c' = quantity_purchased c + executed_quantity (contract_id c) txs)%Z
  ∧ (0 ≤ executed_quantity (contract_id c) txs)%Z
  ∧ ∀ k, k ≠ contract_id c → exec_quantities k txs = [].
Proof.
  intros Hc Ho [[-> Hc']|(plan & Hp & -> & -> & _)]%evaluate_contract_cases.
  - destruct Hc' as [->|[-> _]]; (split; [done|]; split; [apply Hc|]);
      unfold executed_quantity; (split; [simpl; lia|]); split; [simpl; lia | done | simpl; lia | done].
  - destruct (prepare_purchase_Some _ _ _ _ Hc Ho Hp) as (H0 & Hle & px & pp & Kx & Kp & Hid & Hq & _).
    destruct (record_execution_wf c (plan_quantity plan)) as [Hwf Heq]; [done|lia|done|].
    unfold executed_quantity, exec_quantities. rewrite Heq. cbn [omap list_omap]. rewrite Kp, Kx, Hid, Hq, str_eqb_refl.
    cbn [foldr]. split; [done|]. split; [done|]. split; [lia|]. split; [lia|].
    intros k Hk. by rewrite (proj2 (str_eqb_neq _ _)) by done.
Qed.

(** ** Engine histories *)

Inductive EngineOp :=
| OpExecutor (x : ExecutionProvider)
| OpRegister (d : SmartContractDef)
| OpLoad (d : SmartContractDef)
| OpCancel (id : string)
| OpPause (id : string)
| OpResume (id : string)
| OpOffer (o : SupplyOffer) (offer_tx_id : string).

Definition run_op (e : ContractEngine) (op : EngineOp) : ContractEngine * list Transaction :=
  match op with
  | OpExecutor x => (set_executor e x, [])
  | OpRegister d => ((register_contract e d).1, [])
  | OpLoad d => (set_contracts e (load_from_ledger (contracts e) d), [])
  | OpCancel id => ((cancel_contract e id).1, [])
  | OpPause id => ((pause_contract e id).1, [])
  | OpResume id => ((resume_contract e id).1, [])
  | OpOffer o id => evaluate_supply_offer e o id
  end.

Fixpoint run_ops (e : ContractEngine) (ops : list EngineOp) : ContractEngine * list Transaction :=
  match ops with
  | [] => (e, [])
  | op :: ops =>
      let '(e, t) := run_op e op in
      let '(e, ts) := run_ops e ops in (e, t ++ ts)
  end.

Definition op_wf (op : EngineOp) : Prop :=
  match op with
  | OpRegister d | OpLoad d => def_wf d
  | OpOffer o _ => offer_wf o
  | _ => True
  end.

(** Contracts sit under their own id with counters inside their budgets. *)
Definition engine_wf (e : ContractEngine) : Prop :=
  map_Forall (λ id c, contract_id c = id ∧ contract_wf c) (contracts e).

Lemma Contract_new_wf d : def_wf d → contract_wf (Contract_new d).
Proof. intros Hd. split; [done|]. unfold def_wf, in_u64 in Hd. simpl. unfold conditions. simpl. lia. Qed.

Lemma exec_quantities_nil id (f : string * Contract → list Transaction) items :
  (∀ kc, kc ∈ items → exec_quantities id (f kc) = []) →
  exec_quantities id (mjoin (f <$> items)) = [].
Proof.
  induction items as [|kc items IH]; intros Hz; [done|].
  change (mjoin (f <$> kc :: items)) with (f kc ++ mjoin (f <$> items)).
  unfold exec_quantities in *. rewrite omap_app, Hz, IH; [done| |left]. intros ??. apply Hz. by right.
Qed.

Lemma exec_quantities_join id (f : string * Contract → list Transaction) items c :
  (∀ kc, kc ∈ items → kc.1 ≠ id → exec_quantities id (f kc) = []) →
  NoDup items.*1 → (id, c) ∈ items →
  exec_quantities id (mjoin (f <$> items)) = exec_quantities id (f (id, c)).
Proof.
  induction items as [|kc items IH]; intros Hz Hnd Hin; [by apply elem_of_nil in Hin|].
  change (mjoin (f <$> kc :: items)) with (f kc ++ mjoin (f <$> items)).
  rewrite fmap_cons in Hnd. apply NoDup_cons in Hnd as [Hn Hnd].
  unfold exec_quantities at 1. rewrite omap_app. fold (exec_quantities id (f kc)).
  fold (exec_quantities id (mjoin (f <$> items))).
  apply elem_of_cons in Hin as [<-|Hin].
  - rewrite exec_quantities_nil; [apply app_nil_r|]. intros kc' Hi. apply Hz; [by right|]. intros Heq.
    apply Hn. simpl. rewrite <- Heq. by apply list_elem_of_fmap_2.
  - rewrite Hz, IH; [done| |done|done|left|].
    + intros ??. apply Hz. by right.
    + intros Heq. apply Hn. rewrite Heq. by apply (list_elem_of_fmap_2 fst items (id, c)).
Qed.

(** The executions that an offer emits for a contract are that contract's own. *)
Lemma evaluate_supply_offer_quantities e o oid id :
  engine_wf e → offer_wf o →
  exec_quantities id (evaluate_supply_offer e o oid).2 =
  match contracts e !! id with
  | Some c => exec_quantities id (evaluate_contract (executor e) o oid c).2
  | None => []
  end.
Proof.
  intros He Ho. set (f := λ kc : string * Contract, (evaluate_contract (executor e) o oid kc.2).2).
  assert (∀ kc, kc ∈ btree_items (contracts e) → kc.1 ≠ id → exec_quantities id (f kc) = []) as Hz.
  { intros [k c] Hkc Hne. apply btree_items_elem in Hkc. unfold f. simpl in *.
    destruct (evaluate_contract (executor e) o oid c) as [c' txs] eqn:Hev.
    destruct (He k c Hkc) as [<- Hwf].
    destruct (evaluate_contract_spec _ _ _ _ _ _ Hwf Ho Hev) as (_ & _ & _ & _ & H). by apply H. }
  unfold evaluate_supply_offer. cbn [snd]. destruct (contracts e !! id) as [c|] eqn:Hc.
  - apply (exec_quantities_join id f); [done|apply btree_items_NoDup|by apply btree_items_elem].
  - apply (exec_quantities_nil id f). intros [k c] Hkc. apply Hz; [done|].
    simpl. intros ->. apply btree_items_elem in Hkc. congruence.
Qed.

Lemma evaluate_supply_offer_spec e o oid e' txs :
  engine_wf e → offer_wf o → evaluate_supply_offer e o oid = (e', txs) →
  engine_wf e' ∧ (∀ id, contracts e !! id = None → executed_quantity id txs = 0%Z)
  ∧ ∀ id c, contracts e !! id = Some c → ∃ c', contracts e' !! id = Some c'
      ∧ c_definition c' = c_definition c ∧ (0 ≤ executed_quantity id txs)%Z
      ∧ quantity_purchased c' = (quantity_purchased c + executed_quantity id txs)%Z.
Proof.
  intros He Ho Hev. assert (∀ id, exec_quantities id txs = match contracts e !! id with
    | Some c => exec_quantities id (evaluate_contract (executor e) o oid c).2 | None => [] end) as Hq.
  { intros id. rewrite <- evaluate_supply_offer_quantities by done. by rewrite Hev. }
  injection Hev as <- _. unfold executed_quantity. split; [|split].
  - intros k c'. simpl. rewrite lookup_fmap. intros (c & Hc & ->)%fmap_Some.
    destruct (He k c Hc) as [<- Hwf].
    destruct (evaluate_contract (executor e) o oid c) as [c' l] eqn:Hev.
    destruct (evaluate_contract_spec _ _ _ _ _ _ Hwf Ho Hev) as (Hd & ? & _). simpl. split; [|done].
    unfold contract_id. by rewrite Hd.
  - intros id Hid. by rewrite Hq, Hid.
  - intros id c Hc. simpl. rewrite lookup_fmap, Hc, Hq, Hc. eexists. split; [done|].
    destruct (He id c Hc) as [<- Hwf].
    destruct (evaluate_contract (executor e) o oid c) as [c' l] eqn:Hev.
    destruct (evaluate_contract_spec _ _ _ _ _ _ Hwf Ho Hev) as (? & _ & ? & ? & _). done.
Qed.

(** What the engine has on its books for a contract id. *)
Definition spent (e : ContractEngine) (id : string) : Z :=
  match contracts e !! id with Some c => quantity_purchased c | None => 0 end.

Lemma set_status_wf s c : contract_wf c → contract_wf (set_status s c).
Proof. done. Qed.

(** Changing the status of a contract keeps the books. *)
Lemma status_change_spent e id c s :
  engine_wf e → contracts e !! id = Some c →
  let e' := set_contracts e (<[id := set_status s c]> (contracts e)) in
  engine_wf e' ∧ ∀ k, spent e' k = spent e k.
Proof.
  intros He Hc e'. split.
  - apply map_Forall_insert_2; [|done]. destruct (He id c Hc). by split.
  - intros k. unfold e', spent. simpl. destruct (decide (k = id)) as [->|].
    + by rewrite lookup_insert_eq, Hc.
    + by rewrite lookup_insert_ne.
Qed.

Lemma load_spent e d :
  engine_wf e → def_wf d →
  let e' := set_contracts e (load_from_ledger (contracts e) d) in
  engine_wf e' ∧ ∀ k, spent e' k = spent e k.
Proof.
  intros He Hd e'. unfold e', load_from_ledger.
  destruct (contracts e !! scd_contract_id d) as [c|] eqn:Hc; [done|]. split.
  - apply map_Forall_insert_2; [|done]. split; [done | by apply Contract_new_wf].
  - intros k. unfold spent. simpl. destruct (decide (k = scd_contract_id d)) as [->|].
    + by rewrite lookup_insert_eq, Hc.
    + by rewrite lookup_insert_ne.
Qed.

Lemma run_op_spent e op e' txs :
  engine_wf e → op_wf op → run_op e op = (e', txs) →
  engine_wf e' ∧ ∀ id, (spent e' id = spent e id + executed_quantity id txs)%Z
                       ∧ (0 ≤ executed_quantity id txs)%Z.
Proof.
  intros He Hop Hrun.
  assert (∀ e'', engine_wf e'' ∧ (∀ k, spent e'' k = spent e k) → (e'', []) = (e', txs) →
    engine_wf e' ∧ ∀ id, (spent e' id = spent e id + executed_quantity id txs)%Z
                       ∧ (0 ≤ executed_quantity id txs)%Z) as Hquiet.
  { intros e'' [Hwf Hs] [= -> <-]. split; [done|]. intros id. rewrite Hs. unfold executed_quantity. simpl. lia. }
  destruct op as [x|d|d|id|id|id|o oid]; simpl in Hop, Hrun; try (eapply Hquiet; [|exact Hrun]).
  - done.
  - pose proof (load_spent e d He Hop) as Hl. unfold register_contract, load_from_ledger in *.
    by destruct (contracts e !! scd_contract_id d).
  - by apply load_spent.
  - unfold cancel_contract. destruct (contracts e !! id) eqn:Hc; [by apply status_change_spent | done].
  - unfold pause_contract. destruct (contracts e !! id) as [c|] eqn:Hc; [|done].
    destruct (negb (is_active c)); [done | by apply status_change_spent].
  - unfold resume_contract. destruct (contracts e !! id) as [c|] eqn:Hc; [|done].
    cbn [fst]. destruct (bool_decide (c_status c = Paused)); [by apply status_change_spent | done].
  - destruct (evaluate_supply_offer_spec e o oid e' txs He Hop Hrun) as (Hwf & Hn & Hs).
    split; [done|]. intros id. unfold spent. destruct (contracts e !! id) as [c|] eqn:Hc.
    + by destruct (Hs id c Hc) as (c' & -> & _ & ? & ?).
    + rewrite (Hn id Hc). injection Hrun as <- _. simpl. by rewrite lookup_fmap, Hc.
Qed.

Lemma run_ops_spent ops e e' txs :
  engine_wf e → Forall op_wf ops → run_ops e ops = (e', txs) →
  engine_wf e' ∧ ∀ id, (spent e' id = spent e id + executed_quantity id txs)%Z
                       ∧ (0 ≤ executed_quantity id txs)%Z.
Proof.
  intros He Hops. revert e He txs. induction Hops as [|op ops Hop Hops IH]; intros e He txs; simpl.
  { intros [= -> <-]. split; [done|]. intros. unfold executed_quantity. simpl. lia. }
  destruct (run_op e op) as [e1 t1] eqn:H1. destruct (run_ops e1 ops) as [e2 t2] eqn:H2.
  intros [= <- <-]. destruct (run_op_spent e op e1 t1 He Hop H1) as [He1 Hs1].
  destruct (IH e1 He1 t2 H2) as [He2 Hs2]. split; [done|]. intros id.
  rewrite executed_quantity_app. specialize (Hs1 id). specialize (Hs2 id). lia.
Qed.

(** C16: A contract never overspends: over any history of registrations, pauses,
    resumptions, cancellations, gate changes and offers, the quantities of the
    executions emitted for a contract add up to what the contract has on its
    books, which is within the maximum its buyer set. *)
Theorem budget_respected ops e txs id :
  Forall op_wf ops → run_ops ContractEngine_new ops = (e, txs) →
  match contracts e !! id with
  | Some c => executed_quantity id txs = quantity_purchased c
              ∧ (0 ≤ executed_quantity id txs ≤ max_quantity (conditions c))%Z
  | None => executed_quantity id txs = 0%Z
  end.
Proof.
  intros Hops Hrun. assert (engine_wf ContractEngine_new) as H0.
  { intros k c. simpl. by rewrite lookup_empty. }
  destruct (run_ops_spent ops _ e txs H0 Hops Hrun) as [He Hs]. destruct (Hs id) as [Heq Hpos].
  unfold spent in Heq. simpl in Heq. rewrite lookup_empty in Heq.
  destruct (contracts e !! id) as [c|] eqn:Hc; [|lia].
  destruct (He id c Hc) as (_ & _ & Hle). lia.
Qed.

(** ** Terms and the gate *)

(** The gate's approval, spelled out. *)
Definition gate_approved (x : ExecutionProvider) (c : Contract) (o : SupplyOffer)
    (oid wasm : string) : Prop :=
  ∃ m r, base64_std wasm = Ok m
    ∧ x ("wasm:" +:+ contract_id c +:+ ":" +:+ oid) m {[ "offer" := json_offer o ]}
        (mkExecutionLimits 50000 50000) = Ok r
    ∧ ("approve", "1") ∈ ephemeral r.

Lemma gate_passes_approved x c o oid wasm :
  wasm_code_b64 (c_definition c) = Some wasm → gate_passes (Some x) c o oid = true →
  gate_approved x c o oid wasm.
Proof.
  intros Hw. unfold gate_passes, gate_evaluate. rewrite Hw.
  destruct (base64_std wasm) as [m|] eqn:Hm; [|done]. simpl.
  destruct (x _ m _ _) as [r|] eqn:Hx; [|done].
  destruct (existsb is_approval (ephemeral r)) eqn:Ha; [|done]. intros _.
  exists m, r. split; [done|]. split; [done|].
  apply existsb_elem_of in Ha as ([k v] & Hin & Hkv). unfold is_approval in Hkv. simpl in Hkv.
  bool_hyps. by destruct Hkv as [-> ->].
Qed.

(** Every automatic order is inside its contract's terms and authorized: it
    belongs to a registered, active, auto-executing contract whose product,
    currency, price, lead-time, quantity and seller terms the offer meets, orders
    at the offer's price no more than is available and left in the budget, comes
    with the execution record that references it, and, when the contract carries a
    module and an executor is attached, the module ran under its budgets and
    approved. *)
Theorem orders_within_terms e o oid e' txs tx pp :
  engine_wf e → offer_wf o → evaluate_supply_offer e o oid = (e', txs) →
  tx ∈ txs → tx_kind tx = KPurchaseOrder pp →
  ∃ id c px, contracts e !! id = Some c ∧ c_status c = Active ∧ within_terms c o
    ∧ auto_execute (conditions c) = true
    ∧ po_contract_id pp = Some id ∧ po_buyer_id pp = scd_buyer_id (c_definition c)
    ∧ po_seller_id pp = so_seller_id o ∧ po_product_id pp = so_product_id o
    ∧ po_agreed_price_per_unit pp = so_price_per_unit o
    ∧ (0 ≤ po_quantity pp ≤ so_quantity_available o)%Z
    ∧ (quantity_purchased c + po_quantity pp ≤ max_quantity (conditions c))%Z
    ∧ (∃ tx', tx' ∈ txs ∧ tx_kind tx' = KContractExecution px ∧ purchase_order_tx_id px = tx_id tx
         ∧ ce_contract_id px = id ∧ ce_quantity px = po_quantity pp)
    ∧ ∀ x wasm, executor e = Some x → wasm_code_b64 (c_definition c) = Some wasm →
        gate_approved x c o oid wasm.
Proof.
  intros He Ho [= <- <-] Hin Hk.
  apply list_elem_of_join in Hin as (l & Hin & ((id & c) & -> & Hc)%list_elem_of_fmap).
  apply btree_items_elem in Hc. destruct (He id c Hc) as [Hid Hwf].
  destruct (evaluate_contract (executor e) o oid c) as [c' l] eqn:Hev.
  assert (∀ t, t ∈ l → t ∈ mjoin ((λ kc, (evaluate_contract (executor e) o oid kc.2).2)
    <$> btree_items (contracts e))) as Hsub.
  { intros t Ht. apply list_elem_of_join. exists l. split; [done|]. apply list_elem_of_fmap.
    exists (id, c). simpl. rewrite Hev. split; [done | by apply btree_items_elem]. }
  cbn [snd] in Hin. rewrite Hev in Hin.
  apply evaluate_contract_cases in Hev as [[-> _]|(plan & Hp & -> & -> & Ha & Hg & Ht & Hx)];
    [by apply elem_of_nil in Hin|].
  destruct (prepare_purchase_Some c o oid plan Hwf Ho Hp) as (H0 & Hle & px & pp' & Kx & Kp & E1 & E2 & E3 & E4).
  assert (tx = plan_order plan) as ->.
  { apply elem_of_cons in Hin as [->|Hin]; [done|]. apply list_elem_of_singleton in Hin as ->. simpl in *. congruence. }
  rewrite Kp in Hk. injection Hk as <-.
  unfold prepare_purchase in Hp. destruct (_ =? 0)%Z; [done|]. injection Hp as <-. simpl in *.
  injection Kp as <-. injection Kx as <-. simpl in *.
  exists id, c. eexists. repeat split; try done; try lia; try apply Ht; [by rewrite Hid| |].
  - eexists. split; [apply Hsub; right; left|]. simpl. done.
  - intros x wasm Hex Hw. rewrite Hex in Hg. by apply gate_passes_approved.
Qed.

(** ** Replay *)

Lemma replay_execution_lookup txs m id :
  foldl replay_execution m txs !! id =
  (λ c, foldl record_execution c (exec_quantities id txs)) <$> m !! id.
Proof.
  revert m. induction txs as [|tx txs IH]; intros m; simpl; [by destruct (m !! id)|].
  rewrite IH. unfold replay_execution. destruct (tx_kind tx) as [| | |x| | | | |]; try done.
  destruct (ce_contract_id x ==? id) eqn:Hid; bool_hyps.
  - subst. destruct (m !! ce_contract_id x) eqn:Hm; [|by rewrite Hm]. by rewrite lookup_insert_eq.
  - destruct (m !! ce_contract_id x); [|done]. by rewrite lookup_insert_ne.
Qed.

(** A contract that a chain replay produces is still active only while its
    budget is not spent. *)
Definition replayed_ok (c : Contract) : Prop :=
  c_status c = Active →
  (quantity_purchased c = 0 ∨ quantity_purchased c < max_quantity (conditions c))%Z.

Lemma record_execution_ok c q : replayed_ok (record_execution c q).
Proof.
  unfold replayed_ok, record_execution. simpl.
  destruct (Z.leb_spec (max_quantity (conditions c)) (add64 (quantity_purchased c) q)); [done|].
  intros _. right. done.
Qed.

Lemma rebuild_replayed chain id c :
  contracts (rebuild_from_chain chain) !! id = Some c → replayed_ok c.
Proof.
  unfold rebuild_from_chain. simpl. set (txs := chain_transactions chain).
  rewrite replay_execution_lookup. intros (c0 & Hc0 & ->)%fmap_Some.
  assert (replayed_ok c0) as H0.
  { assert (map_Forall (λ _ c, quantity_purchased c = 0%Z) (foldl replay_creation ∅ txs)) as Hz.
    { clear Hc0. generalize (map_Forall_empty (K := string) (λ _ c, quantity_purchased c = 0%Z)).
      generalize (∅ : gmap string Contract). induction txs as [|t ts IH]; intros m Hm; [done|].
      simpl. apply IH. unfold replay_creation. destruct (tx_kind t); try done.
      unfold load_from_ledger. destruct (m !! _); [done|]. by apply map_Forall_insert_2. }
    intros _. left. by apply (Hz id c0). }
  clear Hc0. revert c0 H0. induction (exec_quantities id txs) as [|q qs IH]; intros c0 H0; [done|].
  simpl. apply IH, record_execution_ok.
Qed.

Lemma no_creation_replay txs m :
  Forall (λ tx, ∀ d, tx_kind tx ≠ KContractCreation d) txs → foldl replay_creation m txs = m.
Proof.
  induction 1 as [|tx txs Ht _ IH]; [done|]. simpl. unfold replay_creation at 2.
  destruct (tx_kind tx); try done. by edestruct Ht.
Qed.

Lemma chain_transactions_snoc chain b :
  chain_transactions (chain ++ [b]) = chain_transactions chain ++ transactions b.
Proof.
  unfold chain_transactions. rewrite fmap_app, join_app. simpl. by rewrite app_nil_r.
Qed.

(** Replay refines the live engine: if the engine's contracts are those a replay
    of the chain gives, and the transactions an offer makes it emit are committed
    in the next block (with no new contract), then the contracts after the offer
    are again those a replay gives, statuses and counters included. *)
Theorem rebuild_matches_live e chain o oid e' txs b :
  engine_wf e → offer_wf o →
  contracts e = contracts (rebuild_from_chain chain) →
  map_Forall (λ _ c, (0 < max_quantity (conditions c))%Z) (contracts e) →
  evaluate_supply_offer e o oid = (e', txs) →
  Forall (λ tx, ∀ d, tx_kind tx ≠ KContractCreation d) (transactions b) →
  (∀ id, exec_quantities id (transactions b) = exec_quantities id txs) →
  contracts e' = contracts (rebuild_from_chain (chain ++ [b])).
Proof.
  intros He Ho Hsync Hmax Hev Hnew Hb. apply map_eq. intros id.
  assert (contracts (rebuild_from_chain (chain ++ [b])) !! id =
    (λ c, foldl record_execution c (exec_quantities id (transactions b)))
      <$> contracts (rebuild_from_chain chain) !! id) as ->.
  { unfold rebuild_from_chain. cbn [contracts]. rewrite chain_transactions_snoc, !foldl_app.
    rewrite (no_creation_replay (transactions b)) by done. by rewrite replay_execution_lookup. }
  rewrite <- Hsync, Hb. pose proof (evaluate_supply_offer_quantities e o oid id He Ho) as Hq.
  rewrite Hev in Hq. cbn [snd] in Hq. rewrite Hq. injection Hev as <- _. simpl. rewrite lookup_fmap.
  destruct (contracts e !! id) as [c|] eqn:Hc; [|done]. simpl. f_equal.
  destruct (He id c Hc) as [Hid Hwf].
  destruct (evaluate_contract (executor e) o oid c) as [c' l] eqn:Hone.
  apply evaluate_contract_cases in Hone as [[-> [->|(-> & Ha & Hp)]]|(plan & Hp & -> & -> & _)]; [done| |].
  - exfalso. rewrite Hsync in Hc. pose proof (rebuild_replayed chain id c Hc Ha) as Hr.
    rewrite <- Hsync in Hc. specialize (Hmax id c Hc). simpl in Hmax.
    unfold prepare_purchase, saturating_sub in Hp.
    destruct (_ =? 0)%Z eqn:Hz; [bool_hyps; lia | done].
  - destruct (prepare_purchase_Some c o oid plan Hwf Ho Hp) as (_ & _ & px & pp & Kx & Kp & E1 & E2 & _).
    unfold exec_quantities. cbn. rewrite Kp, Kx, E1, Hid, str_eqb_refl. cbn. by rewrite E2.
Qed.

(** ** Limits *)

(** Without an executor an active contract orders on a matching offer, whatever its module. *)
Lemma ungated_order e o oid id c :
  executor e = None → contracts e !! id = Some c →
  c_status c = Active → offer_matches c o = true → auto_execute (conditions c) = true →
  (quantity_purchased c < max_quantity (conditions c))%Z →
  ∃ plan, prepare_purchase c o oid = Some plan ∧ plan_order plan ∈ (evaluate_supply_offer e o oid).2.
Proof.
  intros Hx Hc Ha Hm Hax Hlt. destruct (prepare_purchase c o oid) as [plan|] eqn:Hp.
  - exists plan. split; [done|]. apply list_elem_of_join. eexists.
    split; [|apply list_elem_of_fmap; exists (id, c); split; [done | by apply btree_items_elem]].
    simpl. unfold evaluate_contract, is_active, gate_passes. rewrite Hx, Ha, Hm, Hax, Hp.
    simpl. destruct (wasm_code_b64 (c_definition c)); simpl; left.
  - unfold prepare_purchase, saturating_sub in Hp. destruct (_ =? 0)%Z eqn:Hz; [|done]. bool_hyps. lia.
Qed.

(** A rebuild forgets the gate: with the executor attached, a contract whose
    module does not approve an offer orders nothing on it; after
    [rebuild_from_chain], which attaches no executor, the engine with the same
    contracts orders on the same offer. *)
Theorem rebuild_drops_gate chain e x o oid id c :
  engine_wf e → offer_wf o → contracts e = contracts (rebuild_from_chain chain) →
  executor e = Some x → contracts e !! id = Some c →
  gate_passes (Some x) c o oid = false →
  c_status c = Active → offer_matches c o = true → auto_execute (conditions c) = true →
  (quantity_purchased c < max_quantity (conditions c))%Z →
  exec_quantities id (evaluate_supply_offer e o oid).2 = []
  ∧ ∃ plan, prepare_purchase c o oid = Some plan
      ∧ plan_order plan ∈ (evaluate_supply_offer (rebuild_from_chain chain) o oid).2.
Proof.
  intros He Ho Hsync Hx Hc Hg Ha Hm Hax Hlt. split.
  { rewrite evaluate_supply_offer_quantities, Hc by done. unfold evaluate_contract. rewrite Hx, Hg.
    by destruct (is_active c). }
  rewrite Hsync in Hc. by eapply ungated_order.
Qed.

(** Offers are not idempotent: evaluating the same offer twice emits transactions
    with the same ids, which the ledger keeps once, but books the quantity twice,
    so part of the budget is spent on an order that does not exist. *)
Theorem repeated_offer_double_books x o oid c c1 txs1 c2 txs2 plan :
  contract_wf c → offer_wf o → evaluate_contract x o oid c = (c1, txs1) →
  prepare_purchase c o oid = Some plan → txs1 ≠ [] → c_status c1 = Active →
  evaluate_contract x o oid c1 = (c2, txs2) →
  tx_id <$> txs2 = tx_id <$> txs1
  ∧ (quantity_purchased c2 = quantity_purchased c1 + executed_quantity (contract_id c) txs2)%Z
  ∧ (quantity_purchased c1 = quantity_purchased c + executed_quantity (contract_id c) txs1)%Z.
Proof.
  intros Hwf Ho H1 Hp Hne Ha H2.
  destruct (evaluate_contract_spec _ _ _ _ _ _ Hwf Ho H1) as (Hd & Hwf1 & Hq1 & _).
  assert (contract_id c1 = contract_id c) as Hid by (unfold contract_id; by rewrite Hd).
  destruct (evaluate_contract_spec _ _ _ _ _ _ Hwf1 Ho H2) as (_ & _ & Hq2 & _).
  rewrite Hid in Hq2. split; [|done].
  unfold evaluate_contract in H1, H2.
  assert (conditions c1 = conditions c) as Hk by (unfold conditions; by rewrite Hd).
  assert (offer_matches c1 o = offer_matches c o) as Hm by (unfold offer_matches; by rewrite Hk, Hd).
  assert (gate_passes x c1 o oid = gate_passes x c o oid) as Hg.
  { unfold gate_passes. by rewrite Hd, Hid. }
  unfold is_active in H2. rewrite Ha, Hm, Hg, Hk in H2. simpl in H2.
  destruct (negb (is_active c)); [injection H1 as <- <-; done|].
  destruct (negb (gate_passes x c o oid)); [injection H1 as <- <-; done|].
  destruct (negb (offer_matches c o)); [injection H1 as <- <-; done|].
  destruct (negb (auto_execute (conditions c))); [injection H1 as <- <-; done|].
  rewrite Hp in H1. injection H1 as <- <-.
  destruct (prepare_purchase (record_execution c (plan_quantity plan)) o oid) as [plan2|] eqn:Hp2.
  - injection H2 as _ <-. unfold prepare_purchase in Hp, Hp2.
    destruct (_ =? 0)%Z in Hp; [done|]. destruct (_ =? 0)%Z in Hp2; [done|].
    injection Hp as <-. injection Hp2 as <-. done.
  - exfalso. unfold prepare_purchase, saturating_sub in Hp2.
    destruct (_ =? 0)%Z eqn:Hz in Hp2; [|done]. bool_hyps. simpl in Ha.
    destruct (Z.leb_spec (max_quantity (conditions c)) (add64 (quantity_purchased c) (plan_quantity plan))); [done|].
    unfold conditions in *. simpl in *. lia.
Qed.

End engine.
