(* ===== verification/Gas.v ===== *)
(** Gas accounting (glasschain-vm: gas.rs). *)

From S2P Require Import Prelude.

Local Open Scope Z_scope.

Definition state_cost (flat per_byte byte_count : Z) : Z :=
  saturating_add64 flat (saturating_mul64 per_byte byte_count).

(** The balance after the charge, and whether it fits the limit. *)
Definition apply_charge (used amount limit : Z) : Z * bool :=
  let charged := saturating_add64 used amount in (charged, charged <=? limit).

Record GasReport := mkGasReport {
  gas_used : Z; gas_limit : Z; completed_normally : bool }.

Record GasCosts := mkGasCosts {
  base_execution : Z;
  state_read : Z;
  state_write : Z;
  per_byte_read : Z;
  per_byte_write : Z;
  max_call_depth : Z }.

Definition default_costs : GasCosts := mkGasCosts 1000 50 200 1 2 8.

Definition total_state_read_cost (c : GasCosts) (byte_count : Z) : Z :=
  state_cost (state_read c) (per_byte_read c) byte_count.
Definition total_state_write_cost (c : GasCosts) (byte_count : Z) : Z :=
  state_cost (state_write c) (per_byte_write c) byte_count.

Record GasCounter := mkCounter {
  limit : Z;
  used : Z;
  call_depth : Z;
  costs : GasCosts;
  state_reads : Z;
  state_writes : Z }.

Definition GasCounter_new (l : Z) : GasCounter := mkCounter l 0 0 default_costs 0 0.
Definition GasCounter_new_with_costs (l : Z) (c : GasCosts) : GasCounter := mkCounter l 0 0 c 0 0.

(** The counter moves also when the charge fails. *)
Definition charge (g : GasCounter) (amount : Z) : GasCounter * result string unit :=
  let '(charged, fits) := apply_charge (used g) amount (limit g) in
  (mkCounter (limit g) charged (call_depth g) (costs g) (state_reads g) (state_writes g),
   if fits then Ok tt else Err "gas exhausted").

Definition charge_state_read (g : GasCounter) (byte_count : Z) : GasCounter * result string unit :=
  match charge g (total_state_read_cost (costs g) byte_count) with
  | (g, Ok _) =>
      (mkCounter (limit g) (used g) (call_depth g) (costs g) (add64 (state_reads g) 1)
         (state_writes g), Ok tt)
  | (g, Err e) => (g, Err e)
  end.

Definition charge_state_write (g : GasCounter) (byte_count : Z) : GasCounter * result string unit :=
  match charge g (total_state_write_cost (costs g) byte_count) with
  | (g, Ok _) =>
      (mkCounter (limit g) (used g) (call_depth g) (costs g) (state_reads g)
         (add64 (state_writes g) 1), Ok tt)
  | (g, Err e) => (g, Err e)
  end.

Definition push_call (g : GasCounter) : GasCounter * result string unit :=
  let depth := add32 (call_depth g) 1 in
  (mkCounter (limit g) (used g) depth (costs g) (state_reads g) (state_writes g),
   if max_call_depth (costs g) <? depth
   then Err "max call depth exceeded: potential reentrancy" else Ok tt).

Definition pop_call (g : GasCounter) : GasCounter :=
  mkCounter (limit g) (used g) (saturating_sub (call_depth g) 1) (costs g) (state_reads g)
    (state_writes g).

Definition remaining (g : GasCounter) : Z := saturating_sub (limit g) (used g).

Definition to_report (g : GasCounter) (completed : bool) : GasReport :=
  mkGasReport (used g) (limit g) completed.

(** ** Properties *)

Definition costs_wf (c : GasCosts) : Prop :=
  in_u64 (base_execution c) ∧ in_u64 (state_read c) ∧ in_u64 (state_write c)
  ∧ in_u64 (per_byte_read c) ∧ in_u64 (per_byte_write c).

Lemma state_cost_spec flat per n :
  0 ≤ flat → 0 ≤ per → 0 ≤ n →
  state_cost flat per n = Z.min (flat + per * n) U64_MAX.
Proof.
  intros. unfold state_cost, saturating_add64, saturating_mul64. assert (0 ≤ per * n) by lia. lia.
Qed.

Inductive GasOp := OpCharge (amount : Z) | OpRead (bytes : Z) | OpWrite (bytes : Z) | OpPush | OpPop.

Definition gas_step (g : GasCounter) (op : GasOp) : GasCounter * result string unit :=
  match op with
  | OpCharge a => charge g a
  | OpRead n => charge_state_read g n
  | OpWrite n => charge_state_write g n
  | OpPush => push_call g
  | OpPop => (pop_call g, Ok tt)
  end.

(** The mathematical cost of an operation. *)
Definition op_cost (c : GasCosts) (op : GasOp) : Z :=
  match op with
  | OpCharge a => a
  | OpRead n => state_read c + per_byte_read c * n
  | OpWrite n => state_write c + per_byte_write c * n
  | _ => 0
  end.

Definition op_wf (op : GasOp) : Prop :=
  match op with OpCharge a => 0 ≤ a | OpRead n | OpWrite n => 0 ≤ n | _ => True end.

Definition total_cost (c : GasCosts) (ops : list GasOp) : Z :=
  foldr (λ op acc, op_cost c op + acc) 0 ops.

Lemma charge_spec g a :
  0 ≤ used g → 0 ≤ a →
  used (charge g a).1 = Z.min (used g + a) U64_MAX
  ∧ limit (charge g a).1 = limit g ∧ costs (charge g a).1 = costs g
  ∧ is_ok (charge g a).2 = (Z.min (used g + a) U64_MAX <=? limit g).
Proof.
  intros. unfold charge, apply_charge, saturating_add64. simpl. split_and!; try done.
  by destruct (_ <=? _).
Qed.

Lemma gas_step_spec g op :
  costs_wf (costs g) → op_wf op → 0 ≤ used g ≤ U64_MAX →
  used (gas_step g op).1 = Z.min (used g + op_cost (costs g) op) U64_MAX
  ∧ limit (gas_step g op).1 = limit g ∧ costs (gas_step g op).1 = costs g
  ∧ match op with
    | OpCharge _ | OpRead _ | OpWrite _ =>
        is_ok (gas_step g op).2 = (used (gas_step g op).1 <=? limit g)
    | _ => True
    end.
Proof.
  intros (H1 & H2 & H3 & H4 & H5) Hop Hu. unfold in_u64 in *.
  destruct op as [a|n|n| |]; cbn [gas_step op_cost op_wf] in *.
  - destruct (charge_spec g a) as (Hc1 & Hc2 & Hc3 & Hc4); [lia|done|]. by rewrite Hc1, Hc4.
  - unfold charge_state_read, total_state_read_cost. rewrite state_cost_spec by lia.
    assert (0 ≤ per_byte_read (costs g) * n) by lia.
    destruct (charge_spec g (Z.min (state_read (costs g) + per_byte_read (costs g) * n) U64_MAX))
      as (Hc1 & Hc2 & Hc3 & Hc4); [lia|lia|].
    destruct (charge g _) as [g' [[]|e]]; simpl in *; rewrite Hc1, <- Hc4; split_and!; try done; lia.
  - unfold charge_state_write, total_state_write_cost. rewrite state_cost_spec by lia.
    assert (0 ≤ per_byte_write (costs g) * n) by lia.
    destruct (charge_spec g (Z.min (state_write (costs g) + per_byte_write (costs g) * n) U64_MAX))
      as (Hc1 & Hc2 & Hc3 & Hc4); [lia|lia|].
    destruct (charge g _) as [g' [[]|e]]; simpl in *; rewrite Hc1, <- Hc4; split_and!; try done; lia.
  - simpl. split_and!; try done; lia.
  - simpl. split_and!; try done; lia.
Qed.

Lemma op_cost_nonneg c op : costs_wf c → op_wf op → 0 ≤ op_cost c op.
Proof.
  intros (? & ? & ? & ? & ?) Hop. unfold in_u64 in *. destruct op; simpl in *; lia.
Qed.

(** Gas is exact up to saturation: after any sequence of operations the counter
    holds the true total cost, capped at 2^64 - 1, so a total over the limit is
    always visible (no wrap-around makes room again), and a charge is refused exactly
    when the total including it exceeds the limit. *)
Theorem gas_exact l c ops op :
  costs_wf c → Forall op_wf ops → in_u64 l →
  let g := foldl (λ g op, (gas_step g op).1) (GasCounter_new_with_costs l c) ops in
  used g = Z.min (total_cost c ops) U64_MAX ∧ limit g = l
  ∧ (op_wf op → match op with OpCharge _ | OpRead _ | OpWrite _ => True | _ => False end →
     l < U64_MAX →
     is_ok (gas_step g op).2 = true ↔ total_cost c ops + op_cost c op ≤ l).
Proof.
  intros Hc Hops Hl.
  assert (H : ∀ g, costs g = c → 0 ≤ used g ≤ U64_MAX →
    let g' := foldl (λ g op, (gas_step g op).1) g ops in
    used g' = Z.min (used g + total_cost c ops) U64_MAX ∧ limit g' = limit g ∧ costs g' = c
    ∧ 0 ≤ total_cost c ops).
  { clear -Hc Hops. induction Hops as [|o ops Ho _ IH]; intros g Hg Hu; simpl.
    { split_and!; try done; lia. }
    destruct (gas_step_spec g o) as (Hs1 & Hs2 & Hs3 & _); [by rewrite Hg|done|done|].
    rewrite Hg in Hs1. pose proof (op_cost_nonneg c o Hc Ho).
    destruct (IH (gas_step g o).1) as (Hi1 & Hi2 & Hi3 & Hi4); [congruence|lia|].
    rewrite Hi1, Hi2, Hs1, Hs2. split_and!; try done; lia. }
  destruct (H (GasCounter_new_with_costs l c)) as (Hu & Hlim & Hcost & H0); [done|simpl; split; [lia|]|].
  { unfold U64_MAX. lia. }
  intros g. simpl in Hu, Hlim. fold g in Hu, Hlim, Hcost. split_and!; [done|done|].
  intros Hop Hcharge Hlt. unfold in_u64 in Hl.
  destruct (gas_step_spec g op) as (Hs1 & Hs2 & Hs3 & Hs4); [by rewrite Hcost|done|lia|].
  pose proof (op_cost_nonneg c op Hc Hop).
  assert (is_ok (gas_step g op).2 = (used (gas_step g op).1 <=? limit g)) as -> by by destruct op.
  rewrite Hs1, Hlim, Hcost, Hu, Z.leb_le. lia.
Qed.
