(* ===== verification/Wasm.v ===== *)
(** The Wasm execution provider (glasschain-vm: wasm.rs).

    The guest is what wasmtime runs: a module with a start function and an [execute]
    export, whose run is a tree of instruction fuel, host calls on the exported
    memory, traps and the return.  Wasmtime's part (compilation, the instruction
    semantics behind such a tree, the texts of its errors) is a parameter; the host
    functions, the budgets and the order of the setup are the code's. *)

From S2P Require Import Prelude Utf8 Types WriteSet Contracts Gas.

Record HostState := mkHost {
  hs_world : gmap string string;
  hs_ephemeral : list (string * string);
  hs_writes : list PersistentWrite;
  operation_gas : GasCounter }.

(** The imports of the linker with their i32 arguments. *)
Inductive HostCall :=
| SetState (key_ptr key_len val_ptr val_len : Z)
| GetStateLen (key_ptr key_len : Z)
| GetState (key_ptr key_len val_ptr val_buf_len : Z)
| PersistState (channel_ptr channel_len contract_ptr contract_len key_ptr key_len val_ptr val_len
    op visibility pdc_ptr pdc_len : Z).

(** The exported linear memory, if there is one. *)
Definition Memory : Type := option (list Z).

Definition charge_operation_gas (s : HostState) (f : GasCounter → GasCounter * result string unit)
  : HostState * result string unit :=
  let '(g, r) := f (operation_gas s) in
  (mkHost (hs_world s) (hs_ephemeral s) (hs_writes s) g, r).

(** [read_bytes]: [None] on a negative or out-of-range pointer. *)
Definition read_bytes (mem : Memory) (ptr len : Z) : option (list Z) :=
  match mem with
  | None => None
  | Some data =>
      if (ptr <? 0)%Z || (len <? 0)%Z then None
      else if (ptr + len <=? Z.of_nat (length data))%Z
      then Some (take (Z.to_nat len) (drop (Z.to_nat ptr) data)) else None
  end.

Definition read_string (mem : Memory) (ptr len : Z) : option string :=
  match read_bytes mem ptr len with
  | Some b => if utf8_valid b then Some (of_byte_list b) else None
  | None => None
  end.

Definition lossy_string (b : list Z) : string := of_byte_list (utf8_lossy b).

(** What a host function gives back to the guest: its result and the memory. *)
Definition HostReturn : Type := Z * Memory.

Definition host_set_state (s : HostState) (mem : Memory) (kp kl vp vl : Z)
  : HostState * result string HostReturn :=
  match read_bytes mem kp kl, read_bytes mem vp vl with
  | Some k, Some v =>
      match charge_operation_gas s (λ g, charge_state_write g (Z.of_nat (length v))) with
      | (s, Err e) => (s, Err e)
      | (s, Ok _) =>
          (mkHost (hs_world s) (hs_ephemeral s ++ [(lossy_string k, of_byte_list v)]) (hs_writes s)
             (operation_gas s), Ok (0%Z, mem))
      end
  | _, _ => (s, Ok (0%Z, mem))
  end.

Definition I32_MAX : Z := 2147483647.
Definition i32_of_len (v : string) : Z :=
  if (Z.of_nat (slen v) <=? I32_MAX)%Z then Z.of_nat (slen v) else (-1)%Z.

Definition host_get_state_len (s : HostState) (mem : Memory) (kp kl : Z)
  : HostState * result string HostReturn :=
  match read_bytes mem kp kl with
  | None => (s, Ok ((-1)%Z, mem))
  | Some k =>
      match charge_operation_gas s (λ g, charge_state_read g 0) with
      | (s, Err e) => (s, Err e)
      | (s, Ok _) =>
          (s, Ok (from_option i32_of_len (-1)%Z (hs_world s !! lossy_string k), mem))
      end
  end.

(** [copy_from_slice] at an offset inside the memory. *)
Definition write_memory (data : list Z) (at_ : nat) (v : list Z) : list Z :=
  take at_ data ++ v ++ drop (at_ + length v) data.

Definition host_get_state (s : HostState) (mem : Memory) (kp kl vp vbl : Z)
  : HostState * result string HostReturn :=
  match mem with
  | None => (s, Ok ((-1)%Z, mem))
  | Some data =>
      if (vp <? 0)%Z || (vbl <? 0)%Z then (s, Ok ((-1)%Z, mem)) else
      match read_bytes mem kp kl with
      | None => (s, Ok ((-1)%Z, mem))
      | Some k =>
          match hs_world s !! lossy_string k with
          | None => (s, Ok ((-1)%Z, mem))
          | Some value =>
              let len := Z.of_nat (slen value) in
              match charge_operation_gas s (λ g, charge_state_read g len) with
              | (s, Err e) => (s, Err e)
              | (s, Ok _) =>
                  if (vbl <? len)%Z then (s, Ok ((-2)%Z, mem)) else
                  if (Z.of_nat (length data) <? vp + len)%Z then (s, Ok ((-1)%Z, mem)) else
                  (s, Ok (i32_of_len value, Some (write_memory data (Z.to_nat vp) (byte_list value))))
              end
          end
      end
  end.

Definition persist_op (mem : Memory) (op vp vl : Z) : result Z WriteOp :=
  if (op =? 0)%Z then
    match read_bytes mem vp vl with Some v => Ok (WSet (of_byte_list v)) | None => Err (-4)%Z end
  else if (op =? 1)%Z then Ok WDelete else Err (-1)%Z.

Definition persist_visibility (mem : Memory) (visibility pp pl : Z) : result Z WriteVisibility :=
  if (visibility =? 0)%Z then Ok Public
  else if (visibility =? 1)%Z then
    match read_string mem pp pl with
    | None => Err (-4)%Z
    | Some pdc => if is_empty pdc then Err (-3)%Z else Ok (Pdc pdc)
    end
  else Err (-2)%Z.

Definition op_bytes (op : WriteOp) : Z :=
  match op with WSet v => Z.of_nat (slen v) | WDelete => 0%Z end.

(** The decoded write, or the error code for the guest. *)
Definition persist_write (mem : Memory) (cp cl tp tl kp kl vp vl op vis pp pl : Z)
  : result Z PersistentWrite :=
  let? channel := ok_or (read_string mem cp cl) (-4)%Z in
  let? contract := ok_or (read_string mem tp tl) (-4)%Z in
  let? key := ok_or (read_string mem kp kl) (-4)%Z in
  let? operation := persist_op mem op vp vl in
  let? visibility := persist_visibility mem vis pp pl in
  Ok (mkPersistentWrite channel contract key operation visibility).

Definition host_persist_state (s : HostState) (mem : Memory)
    (cp cl tp tl kp kl vp vl op vis pp pl : Z) : HostState * result string HostReturn :=
  match persist_write mem cp cl tp tl kp kl vp vl op vis pp pl with
  | Err code => (s, Ok (code, mem))
  | Ok w =>
      match charge_operation_gas s (λ g, charge_state_write g (op_bytes (pw_op w))) with
      | (s, Err e) => (s, Err e)
      | (s, Ok _) =>
          (mkHost (hs_world s) (hs_ephemeral s) (hs_writes s ++ [w]) (operation_gas s),
           Ok (0%Z, mem))
      end
  end.

Definition host_call (s : HostState) (mem : Memory) (c : HostCall)
  : HostState * result string HostReturn :=
  match c with
  | SetState kp kl vp vl => host_set_state s mem kp kl vp vl
  | GetStateLen kp kl => host_get_state_len s mem kp kl
  | GetState kp kl vp vbl => host_get_state s mem kp kl vp vbl
  | PersistState cp cl tp tl kp kl vp vl op vis pp pl =>
      host_persist_state s mem cp cl tp tl kp kl vp vl op vis pp pl
  end.

(** ** The guest *)

Inductive Guest :=
| GReturn
| GTrap (msg : string)
| GBurn (cost : Z) (k : Guest)
| GCall (mem : Memory) (c : HostCall) (k : Z → Memory → Guest).

Inductive GuestEnd := Returned | OutOfFuel | Trapped (msg : string).

(** A run: instructions burn fuel and stop when it is used up; a host function that
    fails traps.  The fuel left and the host state at the end. *)
Fixpoint run_guest (g : Guest) (fuel : Z) (s : HostState) : HostState * Z * GuestEnd :=
  match g with
  | GReturn => (s, fuel, Returned)
  | GTrap m => (s, fuel, Trapped m)
  | GBurn cost k => if (fuel <? cost)%Z then (s, 0%Z, OutOfFuel) else run_guest k (fuel - cost)%Z s
  | GCall mem c k =>
      match host_call s mem c with
      | (s, Err e) => (s, fuel, Trapped e)
      | (s, Ok (r, mem)) => run_guest (k r mem) fuel s
      end
  end.

(** A compiled module; an absent or ill-typed [execute] export carries its error. *)
Record WasmModule := mkModule {
  wm_start : Guest;
  wm_execute : result string Guest }.

Section provider.
(** wasmtime: compilation, and the texts of traps. *)
Context (compile : string → result string WasmModule) (trap_text : GuestEnd → string).

Definition host_new (state : gmap string string) (l : ExecutionLimits) : HostState :=
  mkHost state [] [] (GasCounter_new (operation_gas_limit l)).

(** [execute_internal] once the module is compiled. *)
Definition execute_module (contract_id : string) (m : WasmModule) (initial_state : gmap string string)
    (limits : ExecutionLimits) : result CoreError ExecutionResult :=
  match run_guest (wm_start m) U64_MAX (host_new initial_state limits) with
  | (_, _, OutOfFuel as e) | (_, _, Trapped _ as e) =>
      Err (Execution ("wasm instantiate [" +:+ contract_id +:+ "]: " +:+ trap_text e))
  | (s, _, Returned) =>
      let base_cost := base_execution (costs (operation_gas s)) in
      if (operation_gas_limit limits <? base_cost)%Z
      then Err (GasExhausted Operation base_cost (operation_gas_limit limits)) else
      match charge_operation_gas s (λ g, charge g base_cost) with
      | (_, Err e) => Err (Execution ("operation gas setup: " +:+ e))
      | (s, Ok _) =>
          match wm_execute m with
          | Err e => Err (Execution ("wasm export 'execute' [" +:+ contract_id +:+ "]: " +:+ e))
          | Ok g =>
              match run_guest g (fuel_limit limits) s with
              | (s, _, Returned) =>
                  map_err (λ e, Execution ("invalid write set [" +:+ contract_id +:+ "]: "
                                           +:+ display_error e))
                    (canonicalize (mkExecutionResult (hs_ephemeral s) (hs_writes s)))
              | (s, fuel_left, e) =>
                  if (operation_gas_limit limits <? used (operation_gas s))%Z
                  then Err (GasExhausted Operation (used (operation_gas s)) (operation_gas_limit limits))
                  else if match e with OutOfFuel => true | _ => (fuel_left =? 0)%Z end
                  then Err (GasExhausted Fuel (saturating_sub (fuel_limit limits) fuel_left)
                              (fuel_limit limits))
                  else Err (Execution ("wasm execution [" +:+ contract_id +:+ "]: " +:+ trap_text e))
              end
          end
      end
  end.

(** [execute_with_state]; [execute] starts from an empty state. *)
Definition execute_internal (contract_id payload : string) (initial_state : gmap string string)
    (limits : ExecutionLimits) : result CoreError ExecutionResult :=
  match compile payload with
  | Err e => Err (Execution ("wasm compile [" +:+ contract_id +:+ "]: " +:+ e))
  | Ok m => execute_module contract_id m initial_state limits
  end.

Definition execute (contract_id payload : string) (limits : ExecutionLimits)
  : result CoreError ExecutionResult := execute_internal contract_id payload ∅ limits.

(** The provider that contracts, gates and mining use. *)
Definition wasm_provider : ExecutionProvider := execute_internal.
End provider.

(** ** Properties *)

Local Open Scope Z_scope.

(** The gas a host state has paid for its output, by the default table. *)
Definition write_gas (n : nat) : Z := 200 + 2 * Z.of_nat n.
Definition ephemeral_gas (e : list (string * string)) : Z :=
  foldr (λ kv acc, write_gas (slen kv.2) + acc) 0 e.
Definition persisted_gas (ws : list PersistentWrite) : Z :=
  foldr (λ w acc, 200 + 2 * op_bytes (pw_op w) + acc) 0 ws.

Lemma ephemeral_gas_snoc e kv : ephemeral_gas (e ++ [kv]) = ephemeral_gas e + write_gas (slen kv.2).
Proof. unfold ephemeral_gas. induction e as [|a e IH]; simpl in *; lia. Qed.
Lemma persisted_gas_snoc ws w :
  persisted_gas (ws ++ [w]) = persisted_gas ws + (200 + 2 * op_bytes (pw_op w)).
Proof. unfold persisted_gas. induction ws as [|a ws IH]; simpl in *; lia. Qed.

Lemma persisted_gas_perm ws ws' : ws ≡ₚ ws' → persisted_gas ws = persisted_gas ws'.
Proof. unfold persisted_gas. induction 1; simpl; lia. Qed.

(** [paid base l s]: the counter is below the limit and covers [base] and the output. *)
Definition paid (base l : Z) (s : HostState) : Prop :=
  costs (operation_gas s) = default_costs ∧ limit (operation_gas s) = l
  ∧ 0 ≤ used (operation_gas s) ≤ l
  ∧ base + ephemeral_gas (hs_ephemeral s) + persisted_gas (hs_writes s) ≤ used (operation_gas s).

(** A charge by the default table that goes through is added exactly. *)
Lemma gas_step_ok g op l :
  l < U64_MAX → costs g = default_costs → limit g = l → 0 ≤ used g ≤ l → op_wf op →
  match op with OpCharge _ | OpRead _ | OpWrite _ => True | _ => False end →
  (gas_step g op).2 = Ok tt →
  costs (gas_step g op).1 = default_costs ∧ limit (gas_step g op).1 = l
  ∧ used (gas_step g op).1 = used g + op_cost default_costs op ∧ used (gas_step g op).1 ≤ l.
Proof.
  intros Hl Hc Hlim Hu Hop Hch Hok.
  destruct (gas_step_spec g op) as (H1 & H2 & H3 & H4); [|done|lia|].
  { rewrite Hc. unfold costs_wf, in_u64. simpl. unfold U64_MAX. lia. }
  assert (is_ok (gas_step g op).2 = (used (gas_step g op).1 <=? limit g)) as H5 by by destruct op.
  rewrite Hok in H5. symmetry in H5. apply Z.leb_le in H5. rewrite Hc in H1.
  split_and!; [congruence|congruence|lia|lia].
Qed.

Lemma i_charge_ok s s' u op l base :
  l < U64_MAX → paid base l s → op_wf op →
  match op with OpCharge _ | OpRead _ | OpWrite _ => True | _ => False end →
  charge_operation_gas s (λ g, gas_step g op) = (s', Ok u) →
  hs_world s' = hs_world s ∧ hs_ephemeral s' = hs_ephemeral s ∧ hs_writes s' = hs_writes s
  ∧ paid (base + op_cost default_costs op) l s'.
Proof.
  intros Hl (Hc & Hlim & Hu & Hp) Hop Hch. unfold charge_operation_gas.
  destruct u. intros Hs. pose proof (gas_step_ok (operation_gas s) op l) as G.
  destruct (gas_step (operation_gas s) op) as [g r]. injection Hs as <- ->. simpl in *.
  destruct G as (G1 & G2 & G3 & G4); try done.
  pose proof (op_cost_nonneg default_costs op) as Hn.
  unfold paid. simpl. split_and!; try done; try lia.
  rewrite G3. destruct op; simpl in *; try done; lia.
Qed.

(** A host function that does not trap keeps the account. *)
Lemma host_call_paid base l s mem c s' r :
  l < U64_MAX → paid base l s → host_call s mem c = (s', Ok r) → paid base l s'.
Proof.
  intros Hl Hp. destruct c; simpl.
  - unfold host_set_state. destruct (read_bytes _ _ _) as [k|]; [|naive_solver].
    destruct (read_bytes mem val_ptr val_len) as [v|]; [|naive_solver].
    destruct (charge_operation_gas s _) as [s1 [u|e]] eqn:Hc; [|done].
    apply (i_charge_ok _ _ _ (OpWrite (Z.of_nat (length v))) l base) in Hc
      as (_ & He & Hw & H1 & H2 & H3 & H4); [|done|done|simpl; lia|done].
    intros [= <- _]. unfold paid. simpl in *. split_and!; try done; try lia.
    rewrite ephemeral_gas_snoc, He, Hw in *. unfold write_gas. simpl in *.
    rewrite of_byte_list_len. lia.
  - unfold host_get_state_len. destruct (read_bytes _ _ _) as [k|]; [|naive_solver].
    destruct (charge_operation_gas s _) as [s1 [u|e]] eqn:Hc; [|done].
    apply (i_charge_ok _ _ _ (OpRead 0) l base) in Hc
      as (_ & He & Hw & H1 & H2 & H3 & H4); [|done|done|simpl; lia|done].
    intros [= <- _]. unfold paid. simpl in *. split_and!; try done; lia.
  - unfold host_get_state. destruct mem as [data|]; [|naive_solver].
    destruct (_ || _); [naive_solver|]. destruct (read_bytes _ _ _) as [k|]; [|naive_solver].
    destruct (hs_world s !! _) as [v|]; [|naive_solver].
    destruct (charge_operation_gas s _) as [s1 [u|e]] eqn:Hc; [|done].
    apply (i_charge_ok _ _ _ (OpRead (Z.of_nat (slen v))) l base) in Hc
      as (_ & He & Hw & H1 & H2 & H3 & H4); [|done|done|simpl; lia|done].
    intros Hs. assert (s' = s1) as -> by (repeat case_match; naive_solver).
    unfold paid. simpl in *. split_and!; try done; lia.
  - unfold host_persist_state. destruct (persist_write _ _ _ _ _ _ _ _ _ _ _ _ _) as [w|e]; [|naive_solver].
    assert (0 ≤ op_bytes (pw_op w)) as H0 by (destruct (pw_op w); simpl; lia).
    destruct (charge_operation_gas s _) as [s1 [u|e]] eqn:Hc; [|done].
    apply (i_charge_ok _ _ _ (OpWrite (op_bytes (pw_op w))) l base) in Hc
      as (_ & He & Hw & H1 & H2 & H3 & H4); [|done|done|done|done].
    intros [= <- _]. unfold paid. simpl in *. split_and!; try done; try lia.
    rewrite persisted_gas_snoc, He, Hw in *. lia.
Qed.

Lemma run_guest_paid base l g : ∀ fuel s s' f',
  l < U64_MAX → paid base l s → run_guest g fuel s = (s', f', Returned) → paid base l s'.
Proof.
  induction g as [|m|c k IH|mem c k IH]; intros fuel s s' f' Hl Hp; simpl; [naive_solver|done| |].
  - case_match; [done|]. by apply IH.
  - destruct (host_call s mem c) as [s1 [[r mem']|e]] eqn:Hc; [|done].
    intros Hr. eapply IH; [done| |done]. by eapply host_call_paid.
Qed.

Lemma host_new_paid st l : 0 ≤ operation_gas_limit l → paid 0 (operation_gas_limit l) (host_new st l).
Proof. intros. unfold paid. simpl. split_and!; try done; lia. Qed.

Section wasm_properties.
Context (compile : string → result string WasmModule) (trap_text : GuestEnd → string).

(** The state a module reaches before [execute]: instantiated and charged. *)
Definition ready (m : WasmModule) (st : gmap string string) (l : ExecutionLimits) : option HostState :=
  match run_guest (wm_start m) U64_MAX (host_new st l) with
  | (s, _, Returned) =>
      match charge_operation_gas s (λ g, charge g (base_execution (costs (operation_gas s)))) with
      | (s, Ok _) => Some s
      | _ => None
      end
  | _ => None
  end.

Lemma ready_paid m st l s :
  0 ≤ operation_gas_limit l < U64_MAX → ready m st l = Some s →
  paid 1000 (operation_gas_limit l) s.
Proof.
  intros Hl. unfold ready.
  destruct (run_guest _ _ _) as [[s0 f] [| |e]] eqn:Hr; try done.
  apply (run_guest_paid 0 (operation_gas_limit l)) in Hr; [|lia|by apply host_new_paid; lia].
  destruct (charge_operation_gas s0 _) as [s1 [u|e]] eqn:Hc; [|done]. intros [= <-].
  destruct (Hr) as (Hcost & _). rewrite Hcost in Hc.
  by apply (i_charge_ok _ _ _ (OpCharge 1000) (operation_gas_limit l) 0) in Hc
    as (_ & _ & _ & Hp); [|lia|done|simpl; lia|done].
Qed.

(** What [execute_internal] answers, by how far the run comes. *)
Lemma execute_module_Ok id m st l r :
  execute_module trap_text id m st l = Ok r →
  ∃ g s s' f, wm_execute m = Ok g ∧ ready m st l = Some s
    ∧ run_guest g (fuel_limit l) s = (s', f, Returned)
    ∧ canonicalize (mkExecutionResult (hs_ephemeral s') (hs_writes s')) = Ok r.
Proof.
  unfold execute_module, ready. destruct (run_guest _ _ _) as [[s0 f0] [| |e]]; try done.
  destruct (_ <? _); [done|].
  destruct (charge_operation_gas s0 _) as [s1 [u|e]]; [|done].
  destruct (wm_execute m) as [g|e]; [|done].
  destruct (run_guest g (fuel_limit l) s1) as [[s2 f2] [| |e]] eqn:Hr; [|by repeat case_match..].
  destruct (canonicalize _) as [c|e] eqn:Hc; [|done]. intros [= ->]. naive_solver.
Qed.

(** C30: a contract cannot output more than it paid for.  Whatever module is run, an
    accepted execution's ephemeral pairs and persistent writes, priced by the default
    table (200 per write and 2 per byte of the value, keys being free, on top of the 1000
    base cost), fit within the operation-gas limit, provided that limit is below the largest
    64-bit number, at which the saturating meter never refuses; and the write set handed to
    the caller is canonical: fully scoped, each scope once, in scope order. *)
Theorem output_within_gas id payload st l r :
  0 ≤ operation_gas_limit l < U64_MAX →
  execute_internal compile trap_text id payload st l = Ok r →
  1000 + ephemeral_gas (ephemeral r) + persisted_gas (writes r) ≤ operation_gas_limit l
  ∧ Forall well_scoped (writes r) ∧ NoDup (scope <$> writes r)
  ∧ StronglySorted (λ a b, scope_leb a b = true) (writes r).
Proof.
  intros Hl. unfold execute_internal. destruct (compile payload) as [m|e]; [|done].
  intros (g & s & s' & f & _ & Hs & Hr & (H1 & H2 & ->)%canonicalize_Ok)%execute_module_Ok. simpl in *.
  apply (ready_paid _ _ _ _ Hl) in Hs.
  apply (run_guest_paid 1000 (operation_gas_limit l)) in Hr as (_ & _ & Hu & Hp); [|lia|done].
  rewrite (persisted_gas_perm _ (hs_writes s')) by apply sort_by_perm.
  split_and!; [lia|by rewrite sort_by_perm|by rewrite sort_by_perm|].
  apply sort_by_sorted; [apply scope_leb_total|apply scope_leb_trans].
Qed.

(** A gas error names the meter that ran out with its own numbers.  An
    operation-gas error reports the limit of the call and a use above it (and was
    raised although the run may also have been out of fuel); a fuel error reports the
    fuel limit, a use of at most that, and an operation meter still within its limit. *)
Theorem gas_errors_exact id payload st l meter u lim :
  execute_internal compile trap_text id payload st l = Err (GasExhausted meter u lim) →
  match meter with
  | Operation => lim = operation_gas_limit l ∧ lim < u
  | Fuel =>
      lim = fuel_limit l
      ∧ ∃ m g s s' fuel_left e, compile payload = Ok m ∧ wm_execute m = Ok g ∧ ready m st l = Some s
        ∧ run_guest g (fuel_limit l) s = (s', fuel_left, e) ∧ e ≠ Returned
        ∧ (e = OutOfFuel ∨ fuel_left = 0) ∧ u = saturating_sub lim fuel_left
        ∧ used (operation_gas s') ≤ operation_gas_limit l
  end.
Proof.
  unfold execute_internal. destruct (compile payload) as [m|e]; [|done].
  unfold execute_module. destruct (run_guest (wm_start m) _ _) as [[s0 f0] e0] eqn:H0.
  destruct e0; try done.
  destruct (_ <? _) eqn:Hb.
  { intros [= <- <- <-]. apply Z.ltb_lt in Hb. done. }
  destruct (charge_operation_gas s0 _) as [s1 [v|e]] eqn:Hc; [|done].
  assert (Hready : ready m st l = Some s1) by (unfold ready; by rewrite H0, Hc).
  destruct (wm_execute m) as [g|e] eqn:He; [|done].
  destruct (run_guest g (fuel_limit l) s1) as [[s2 f2] e2] eqn:Hr.
  destruct e2 as [| |e]; [by destruct (canonicalize _)|..];
    (destruct (_ <? used _) eqn:Hu; [intros [= <- <- <-]; by apply Z.ltb_lt in Hu|]);
    apply Z.ltb_ge in Hu.
  - intros [= <- <- <-]. split; [done|]. exists m, g, s1, s2, f2, OutOfFuel. repeat split; auto.
  - destruct (f2 =? 0) eqn:Hf; [|done]. apply Z.eqb_eq in Hf as ->.
    intros [= <- <- <-]. split; [done|]. exists m, g, s1, s2, 0, (Trapped e). repeat split; auto.
Qed.

(** Instantiation is not metered: a module's start function runs with the maximal
    fuel whatever the caller's fuel limit, so a start function of any length below
    2^64 instructions executes under a fuel limit of zero. *)
Theorem start_function_unmetered id payload m n st l :
  compile payload = Ok m → 0 ≤ n ≤ U64_MAX → 1000 ≤ operation_gas_limit l < U64_MAX →
  wm_start m = GBurn n GReturn → wm_execute m = Ok GReturn →
  execute_internal compile trap_text id payload st l = Ok (mkExecutionResult [] []).
Proof.
  intros Hc Hn Hg Hs He. unfold execute_internal. rewrite Hc. unfold execute_module. rewrite Hs, He.
  cbn [run_guest]. destruct (Z.ltb_spec U64_MAX n); [lia|]. simpl.
  destruct (Z.ltb_spec (operation_gas_limit l) 1000); [lia|].
  unfold charge_operation_gas, charge, apply_charge, saturating_add64. simpl.
  destruct (Z.leb_spec ((0 + 1000) `min` U64_MAX) (operation_gas_limit l)); [done|].
  unfold U64_MAX in *. lia.
Qed.

Lemma read_bytes_nil data : read_bytes (Some data) 0 0 = Some [].
Proof. unfold read_bytes. simpl. by destruct (Z.leb_spec (0 + 0) (Z.of_nat (length data))); [|lia]. Qed.

(** Reads of absent keys, one after the other. *)
Fixpoint probe (n : nat) (mem : Memory) : Guest :=
  match n with
  | O => GReturn
  | S n => GCall mem (GetState 0 0 0 0) (λ _ mem, probe n mem)
  end.

(** Looking up an absent key with [get_state] costs no operation gas, although the
    cost table charges a flat fee per [get_state] call: a contract makes any number of
    such calls on a budget that covers only its invocation ([get_state_len] on the
    same key is charged). *)
Theorem missing_read_is_free id probing measuring n data l :
  operation_gas_limit l = 1000 →
  compile probing = Ok (mkModule GReturn (Ok (probe n (Some data)))) →
  compile measuring = Ok (mkModule GReturn (Ok (GCall (Some data) (GetStateLen 0 0) (λ _ _, GReturn)))) →
  execute_internal compile trap_text id probing ∅ l = Ok (mkExecutionResult [] [])
  ∧ execute_internal compile trap_text id measuring ∅ l = Err (GasExhausted Operation 1050 1000).
Proof.
  intros Hl Hp Hm. unfold execute_internal. rewrite Hp, Hm. unfold execute_module. simpl.
  rewrite Hl. simpl. split.
  - assert (H : ∀ s f, hs_world s = ∅ → run_guest (probe n (Some data)) f s = (s, f, Returned)).
    { clear Hl Hp Hm. induction n as [|n IH]; intros s f Hs; [done|].
      cbn [probe run_guest host_call]. unfold host_get_state. rewrite read_bytes_nil, Hs, lookup_empty.
      by apply IH. }
    by rewrite H.
  - unfold host_get_state_len. by rewrite read_bytes_nil.
Qed.
End wasm_properties.
