(* ===== verification/Watcher.v ===== *)
(** The inventory watcher (glasschain-workflows: watcher.rs) and how the node feeds
    and restores it (glasschain-network: node.rs, after_block_commit and
    rebuild_runtime_state_from_chain).

    Triggers are visited in the iteration order of the trigger map.  The execution
    provider, base64 and the JSON of a snapshot are parameters; [now] is the second
    at which an order is built. *)

From S2P Require Import Prelude Types Contracts.

Record InventoryTrigger := mkTrigger {
  trigger_id : string;
  it_product_id : string;
  it_owner_id : string;
  reorder_threshold : Z;
  reorder_quantity : Z;
  it_seller_id : string;
  it_price_per_unit : Z;
  it_currency : string;
  it_active : bool;
  it_wasm_code_b64 : option string }.

Record WatcherStateSnapshot := mkSnapshot {
  sn_inventory : gmap string (gmap string Z);
  sn_fire_counts : gmap string Z }.

Record WatcherService := mkWatcher {
  triggers : gmap string InventoryTrigger;
  inventory : gmap string (gmap string Z);
  trigger_fire_counts : gmap string Z;
  w_executor : option ExecutionProvider }.

Definition WatcherService_new : WatcherService := mkWatcher ∅ ∅ ∅ None.

Definition watcher_set_executor (w : WatcherService) (x : ExecutionProvider) : WatcherService :=
  mkWatcher (triggers w) (inventory w) (trigger_fire_counts w) (Some x).

Definition with_triggers (w : WatcherService) (t : gmap string InventoryTrigger) : WatcherService :=
  mkWatcher t (inventory w) (trigger_fire_counts w) (w_executor w).

Definition add_trigger (w : WatcherService) (t : InventoryTrigger) : WatcherService :=
  with_triggers w (<[trigger_id t := t]> (triggers w)).

Definition set_active (b : bool) (t : InventoryTrigger) : InventoryTrigger :=
  mkTrigger (trigger_id t) (it_product_id t) (it_owner_id t) (reorder_threshold t)
    (reorder_quantity t) (it_seller_id t) (it_price_per_unit t) (it_currency t) b
    (it_wasm_code_b64 t).

Definition disable_trigger (w : WatcherService) (id : string) : WatcherService :=
  with_triggers w (alter (set_active false) id (triggers w)).
Definition enable_trigger (w : WatcherService) (id : string) : WatcherService :=
  with_triggers w (alter (set_active true) id (triggers w)).

Definition inventory_level (w : WatcherService) (product owner : string) : Z :=
  default 0%Z (inventory w !! product ≫= lookup owner).

Definition to_snapshot (w : WatcherService) : WatcherStateSnapshot :=
  mkSnapshot (inventory w) (trigger_fire_counts w).

Definition apply_snapshot (w : WatcherService) (s : WatcherStateSnapshot) : WatcherService :=
  mkWatcher (triggers w) (sn_inventory s) (sn_fire_counts s) (w_executor w).

(** The level after the update, and the map that holds it. *)
Definition apply_delta (w : WatcherService) (u : InventoryUpdate) : WatcherService * Z :=
  let owners := default ∅ (inventory w !! iu_product_id u) in
  let level := addi64 (default 0%Z (owners !! owner_id u)) (quantity_delta u) in
  (mkWatcher (triggers w) (<[iu_product_id u := <[owner_id u := level]> owners]> (inventory w))
     (trigger_fire_counts w) (w_executor w), level).

Definition should_fire (u : InventoryUpdate) (level : Z) (t : InventoryTrigger) : bool :=
  it_active t && (it_product_id t ==? iu_product_id u) && (it_owner_id t ==? owner_id u)
  && (level <=? reorder_threshold t)%Z.

Section watcher.
Context (base64_std : string → result string string).
(** [clock id]: the second at which the order [id] is built. *)
Context (clock : string → Z).
Context (snapshot_to_json : WatcherStateSnapshot → result string string)
        (snapshot_of_json : string → result string WatcherStateSnapshot).

Definition serialize_state (w : WatcherService) : result string string :=
  snapshot_to_json (to_snapshot w).

Definition restore_from_bytes (w : WatcherService) (data : string)
  : WatcherService * result string unit :=
  match snapshot_of_json data with
  | Ok s => (apply_snapshot w s, Ok tt)
  | Err e => (w, Err e)
  end.

Definition trigger_state (level : Z) (t : InventoryTrigger) : gmap string string :=
  <["inventory_level" := pretty level]>
  (<["threshold" := pretty (reorder_threshold t)]> {[ "product_id" := it_product_id t ]}).

(** A module without an executor passes. *)
Definition trigger_gate (x : option ExecutionProvider) (level : Z) (t : InventoryTrigger) : bool :=
  match it_wasm_code_b64 t, x with
  | Some wasm, Some x =>
      match gate_evaluate base64_std x InventoryGate (trigger_id t) wasm (Ok (trigger_state level t)) with
      | Approved => true
      | Denied _ => false
      end
  | _, _ => true
  end.

Definition order_id (t : InventoryTrigger) (u : InventoryUpdate) (count : Z) : string :=
  "watcher:" +:+ trigger_id t +:+ ":" +:+ iu_product_id u +:+ ":" +:+ owner_id u +:+ ":"
  +:+ pretty count.

Definition trigger_order (t : InventoryTrigger) (u : InventoryUpdate) (count : Z) : Transaction :=
  let id := order_id t u count in
  Transaction_with_id (clock id) id (KPurchaseOrder
    (mkPurchaseOrder (it_product_id t) (it_owner_id t) (it_seller_id t) (reorder_quantity t)
       (it_price_per_unit t) (it_currency t) (Some (trigger_id t)))).

(** One turn of the firing loop: the count goes up before the gate. *)
Definition fire (u : InventoryUpdate) (level : Z) (acc : WatcherService * list Transaction)
    (t : InventoryTrigger) : WatcherService * list Transaction :=
  let '(w, orders) := acc in
  let count := add64 (default 0%Z (trigger_fire_counts w !! trigger_id t)) 1 in
  let w := mkWatcher (triggers w) (inventory w) (<[trigger_id t := count]> (trigger_fire_counts w))
             (w_executor w) in
  if trigger_gate (w_executor w) level t then (w, orders ++ [trigger_order t u count])
  else (w, orders).

Definition firing_triggers (w : WatcherService) (u : InventoryUpdate) (level : Z)
  : list InventoryTrigger :=
  List.filter (should_fire u level) (map_to_list (triggers w)).*2.

Definition on_inventory_update (w : WatcherService) (u : InventoryUpdate)
  : WatcherService * list Transaction :=
  let '(w, level) := apply_delta w u in
  foldl (fire u level) (w, []) (firing_triggers w u level).

(** ** In the node *)

Definition block_updates (txs : list Transaction) : list InventoryUpdate :=
  omap (λ tx, match tx_kind tx with KInventoryUpdate u => Some u | _ => None end) txs.

Definition run_updates (w : WatcherService) (us : list InventoryUpdate)
  : WatcherService * list Transaction :=
  foldl (λ acc u, let '(w, o) := on_inventory_update acc.1 u in (w, acc.2 ++ o)) (w, []) us.

(** The watcher part of [after_block_commit]: the orders, and the snapshot that is
    then stored under the watcher key. *)
Definition commit_updates (w : WatcherService) (b : Block)
  : WatcherService * list Transaction * option string :=
  let '(w, orders) := run_updates w (block_updates (transactions b)) in
  (w, orders, match serialize_state w with Ok bytes => Some bytes | Err _ => None end).

(** The watcher part of [rebuild_runtime_state_from_chain]: a stored snapshot wins,
    otherwise the chain is replayed on an empty service. *)
Definition rebuild_watcher (stored : option string) (chain : list Block) (w : WatcherService)
  : WatcherService :=
  let replayed := (run_updates WatcherService_new
                     (block_updates (mjoin (transactions <$> chain)))).1 in
  match stored with
  | Some bytes =>
      match restore_from_bytes w bytes with
      | (w, Ok _) => w
      | (_, Err _) => replayed
      end
  | None => replayed
  end.

(** ** Levels *)

Definition deltas (p o : string) (us : list InventoryUpdate) : list Z :=
  omap (λ u, if (iu_product_id u ==? p) && (owner_id u ==? o) then Some (quantity_delta u)
             else None) us.

Definition count (w : WatcherService) (id : string) : Z := default 0%Z (trigger_fire_counts w !! id).

Definition keyed (w : WatcherService) : Prop :=
  ∀ k t, triggers w !! k = Some t → trigger_id t = k.

(** The firing loop touches only the fire counts. *)
Lemma fire_frame u level ts w o :
  let '(w', _) := foldl (fire u level) (w, o) ts in
  triggers w' = triggers w ∧ inventory w' = inventory w ∧ w_executor w' = w_executor w.
Proof.
  revert w o. induction ts as [|t ts IH]; intros w o; simpl; [done|].
  destruct (trigger_gate _ _ _); match goal with |- context [foldl _ (?w1, ?o1) ts] =>
    specialize (IH w1 o1) end; by destruct (foldl _ _ ts).
Qed.

Lemma apply_delta_level w u p o :
  inventory_level (apply_delta w u).1 p o
  = if (iu_product_id u ==? p) && (owner_id u ==? o)
    then addi64 (inventory_level w p o) (quantity_delta u) else inventory_level w p o.
Proof.
  unfold apply_delta, inventory_level. simpl.
  destruct (iu_product_id u ==? p) eqn:Hp; [apply str_eqb_eq in Hp as <- | apply str_eqb_neq in Hp];
    simpl; [|by rewrite lookup_insert_ne]. rewrite lookup_insert_eq. simpl.
  destruct (owner_id u ==? o) eqn:Ho; [apply str_eqb_eq in Ho as <- | apply str_eqb_neq in Ho].
  - rewrite lookup_insert_eq. simpl. by destruct (inventory w !! _).
  - rewrite lookup_insert_ne by done. by destruct (inventory w !! _); simpl; rewrite ?lookup_empty.
Qed.

Lemma on_inventory_update_level w u p o :
  inventory_level (on_inventory_update w u).1 p o
  = if (iu_product_id u ==? p) && (owner_id u ==? o)
    then addi64 (inventory_level w p o) (quantity_delta u) else inventory_level w p o.
Proof.
  rewrite <- apply_delta_level. unfold on_inventory_update.
  destruct (apply_delta w u) as [w1 level]. simpl.
  pose proof (fire_frame u level (firing_triggers w1 u level) w1 []) as H.
  destruct (foldl _ _ _) as [w2 o2]. destruct H as (_ & Hi & _). unfold inventory_level.
  simpl. by rewrite Hi.
Qed.

Lemma run_updates_acc us w o :
  foldl (λ acc u, let '(w, o) := on_inventory_update acc.1 u in (w, acc.2 ++ o)) (w, o) us
  = ((run_updates w us).1, o ++ (run_updates w us).2).
Proof.
  unfold run_updates. revert w o. induction us as [|u us IH]; intros w o; simpl.
  { by rewrite app_nil_r. }
  destruct (on_inventory_update w u) as [w1 o1]. rewrite IH, (IH w1 o1). simpl.
  by rewrite app_assoc.
Qed.

Lemma run_updates_cons w u us :
  (run_updates w (u :: us)).1 = (run_updates (on_inventory_update w u).1 us).1.
Proof.
  unfold run_updates at 1. simpl. destruct (on_inventory_update w u) as [w1 o1].
  by rewrite run_updates_acc.
Qed.

Lemma run_updates_level us w p o :
  inventory_level (run_updates w us).1 p o = foldl addi64 (inventory_level w p o) (deltas p o us).
Proof.
  revert w. induction us as [|u us IH]; intros w; [done|].
  rewrite run_updates_cons, IH, on_inventory_update_level. unfold deltas. simpl.
  by destruct (_ && _).
Qed.

(** A snapshot in storage overrides the chain: after adopting another chain the
    rebuilt levels are those of the stored snapshot, whatever inventory updates the
    adopted chain contains.  Without a snapshot the levels are the (wrapping) sums of
    the chain's updates, but the service is a new one: registered triggers and the
    gate executor are gone. *)
Theorem rebuild_watcher_levels stored chain w :
  (∀ bytes s, stored = Some bytes → snapshot_of_json bytes = Ok s →
     rebuild_watcher stored chain w = apply_snapshot w s)
  ∧ (stored = None →
     (∀ p o, inventory_level (rebuild_watcher stored chain w) p o
             = foldl addi64 0%Z (deltas p o (block_updates (mjoin (transactions <$> chain)))))
     ∧ triggers (rebuild_watcher stored chain w) = ∅
     ∧ w_executor (rebuild_watcher stored chain w) = None).
Proof.
  split.
  - intros bytes s -> Hs. unfold rebuild_watcher, restore_from_bytes. by rewrite Hs.
  - intros ->. simpl. split; [intros p o; apply run_updates_level|].
    assert (H : ∀ us w, triggers (run_updates w us).1 = triggers w
                        ∧ w_executor (run_updates w us).1 = w_executor w).
    { intros us. induction us as [|u us IH]; intros w'; [done|]. rewrite run_updates_cons.
      destruct (IH (on_inventory_update w' u).1) as [-> ->]. unfold on_inventory_update.
      destruct (apply_delta w' u) as [w1 level] eqn:Hd.
      pose proof (fire_frame u level (firing_triggers w1 u level) w1 []) as Hf.
      destruct (foldl _ _ _) as [w2 o2]. destruct Hf as (Ht & _ & Hx). simpl.
      unfold apply_delta in Hd. injection Hd as <- _. by rewrite Ht, Hx. }
    apply H.
Qed.

(** ** Orders *)

Definition fired_order (w : WatcherService) (u : InventoryUpdate) (level : Z) (t : InventoryTrigger)
  : option Transaction :=
  if trigger_gate (w_executor w) level t
  then Some (trigger_order t u (add64 (count w (trigger_id t)) 1)) else None.

Lemma fire_spec u level ts w o :
  NoDup (trigger_id <$> ts) →
  let '(w', o') := foldl (fire u level) (w, o) ts in
  o' = o ++ omap (fired_order w u level) ts
  ∧ ∀ id, count w' id = if decide (id ∈ trigger_id <$> ts) then add64 (count w id) 1 else count w id.
Proof.
  revert w o. induction ts as [|t ts IH]; intros w o Hnd.
  { cbn [foldl]. split; [by rewrite app_nil_r|]. intros id.
    rewrite decide_False; [done|]. apply not_elem_of_nil. }
  cbn [foldl]. unfold fire at 2.
  rewrite fmap_cons in Hnd. apply NoDup_cons in Hnd as [Ht Hnd].
  set (c := add64 (count w (trigger_id t)) 1). fold (count w (trigger_id t)). fold c.
  set (w1 := mkWatcher (triggers w) (inventory w) (<[trigger_id t := c]> (trigger_fire_counts w))
               (w_executor w)).
  assert (Hc1 : ∀ id, count w1 id = if decide (id = trigger_id t) then c else count w id).
  { intros id. unfold count, w1. simpl. destruct (decide _) as [->|?].
    - by rewrite lookup_insert_eq.
    - by rewrite lookup_insert_ne. }
  assert (Hext : ∀ l : list InventoryTrigger, trigger_id t ∉ trigger_id <$> l →
            omap (fired_order w1 u level) l = omap (fired_order w u level) l).
  { intros l. induction l as [|t' l IHl]; [done|]. rewrite fmap_cons.
    intros [Hne Hl]%not_elem_of_cons.
    assert (fired_order w1 u level t' = fired_order w u level t') as Ht'.
    { unfold fired_order. rewrite Hc1. by rewrite decide_False by congruence. }
    simpl. rewrite Ht'. destruct (fired_order w u level t'); [f_equal|]; by apply IHl. }
  specialize (Hext ts Ht).
  assert (Hcount : ∀ w', (∀ id, count w' id =
      if decide (id ∈ trigger_id <$> ts) then add64 (count w1 id) 1 else count w1 id) →
    ∀ id, count w' id = if decide (id ∈ trigger_id <$> t :: ts) then add64 (count w id) 1 else count w id).
  { intros w' Hw' id. rewrite Hw', Hc1. rewrite fmap_cons.
    destruct (decide (id = trigger_id t)) as [->|Hne].
    - rewrite decide_False by done. by rewrite decide_True by (by left).
    - destruct (decide (id ∈ trigger_id <$> ts)) as [Hin|Hin].
      + by rewrite decide_True by (by right).
      + rewrite decide_False; [done|]. by intros [?|?]%elem_of_cons. }
  change (omap (fired_order w u level) (t :: ts)) with
    (match fired_order w u level t with
     | Some y => y :: omap (fired_order w u level) ts
     | None => omap (fired_order w u level) ts
     end).
  change (fired_order w u level t) with
    (if trigger_gate (w_executor w) level t then Some (trigger_order t u c) else None).
  change (w_executor w1) with (w_executor w).
  destruct (trigger_gate (w_executor w) level t).
  - specialize (IH w1 (o ++ [trigger_order t u c]) Hnd).
    destruct (foldl (fire u level) (w1, o ++ [trigger_order t u c]) ts) as [w' o'].
    destruct IH as [-> Hw']. split; [|by apply Hcount]. by rewrite Hext, <- app_assoc.
  - specialize (IH w1 o Hnd). destruct (foldl (fire u level) (w1, o) ts) as [w' o'].
    destruct IH as [-> Hw']. split; [|by apply Hcount]. by rewrite Hext.
Qed.

Lemma firing_NoDup w u level : keyed w → NoDup (trigger_id <$> firing_triggers w u level).
Proof.
  intros Hk. unfold firing_triggers.
  assert (H : NoDup (trigger_id <$> (map_to_list (triggers w)).*2)).
  { assert (trigger_id <$> (map_to_list (triggers w)).*2 = (map_to_list (triggers w)).*1) as ->.
    { rewrite <- list_fmap_compose. apply list_fmap_ext. intros i [k t] Hi. simpl.
      apply Hk, elem_of_map_to_list. by eapply list_elem_of_lookup_2. }
    apply NoDup_fst_map_to_list. }
  revert H. generalize (map_to_list (triggers w)).*2. intros l.
  induction l as [|t l IH]; [done|]. rewrite fmap_cons. intros [Ht Hl]%NoDup_cons. simpl.
  destruct (should_fire u level t); [|by apply IH]. rewrite fmap_cons. apply NoDup_cons.
  split; [|by apply IH]. intros (t' & He & Hin)%list_elem_of_fmap. apply Ht, list_elem_of_fmap.
  exists t'. split; [done|]. apply list_elem_of_In in Hin. apply List.filter_In in Hin as [Hin _].
  by apply list_elem_of_In.
Qed.

Lemma firing_elem w u level t :
  t ∈ firing_triggers w u level ↔ should_fire u level t = true ∧ ∃ k, triggers w !! k = Some t.
Proof.
  unfold firing_triggers. rewrite list_elem_of_In, List.filter_In, <- list_elem_of_In,
    list_elem_of_fmap. split.
  - intros [([k t'] & -> & Hin) Hf]. apply elem_of_map_to_list in Hin. eauto.
  - intros [Hf [k Hk]]. split; [|done]. exists (k, t). split; [done|]. by apply elem_of_map_to_list.
Qed.

(** What one update does, in terms of the state before it. *)
Lemma on_inventory_update_spec w u :
  keyed w →
  let level := addi64 (inventory_level w (iu_product_id u) (owner_id u)) (quantity_delta u) in
  let ts := firing_triggers w u level in
  (on_inventory_update w u).2 = omap (fired_order w u level) ts
  ∧ triggers (on_inventory_update w u).1 = triggers w
  ∧ ∀ id, count (on_inventory_update w u).1 id
          = if decide (id ∈ trigger_id <$> ts) then add64 (count w id) 1 else count w id.
Proof.
  intros Hk level ts. unfold on_inventory_update.
  destruct (apply_delta w u) as [w1 l1] eqn:Hd.
  assert (l1 = level ∧ triggers w1 = triggers w ∧ w_executor w1 = w_executor w
          ∧ trigger_fire_counts w1 = trigger_fire_counts w) as (-> & Ht & Hx & Hc).
  { unfold apply_delta in Hd. injection Hd as <- <-. split_and!; try done. unfold level, inventory_level.
    by destruct (inventory w !! _); simpl; rewrite ?lookup_empty. }
  assert (firing_triggers w1 u level = ts) as -> by (unfold firing_triggers, ts; by rewrite Ht).
  pose proof (fire_spec u level ts w1 [] (firing_NoDup w u level Hk)) as Hs.
  pose proof (fire_frame u level ts w1 []) as Hf.
  destruct (foldl (fire u level) (w1, []) ts) as [w2 o2]. destruct Hs as [-> Hs], Hf as (Hf & _).
  assert (Hcount : ∀ id, count w1 id = count w id) by (intros id; unfold count; by rewrite Hc).
  simpl. split_and!; [|congruence|].
  - clearbody ts. clear -Hx Hcount. induction ts as [|t ts IH]; [done|].
    assert (fired_order w1 u level t = fired_order w u level t) as Ht.
    { unfold fired_order. by rewrite Hx, Hcount. }
    simpl. rewrite Ht. destruct (fired_order w u level t); [f_equal|]; exact IH.
  - intros id. by rewrite Hs, Hcount.
Qed.

(** An inventory update places exactly one order for each registered trigger
    that is active, watches the product and owner, has the new level at or below its
    threshold (boundary included) and whose gate, when an executor is attached,
    approves; the order carries the trigger's terms and the next count of the trigger,
    which goes up also when the gate denies. *)
Theorem watcher_orders_exact w u :
  keyed w →
  let level := addi64 (inventory_level w (iu_product_id u) (owner_id u)) (quantity_delta u) in
  let fires t := it_active t = true ∧ it_product_id t = iu_product_id u
                 ∧ it_owner_id t = owner_id u ∧ (level ≤ reorder_threshold t)%Z in
  let '(w', orders) := on_inventory_update w u in
  inventory_level w' (iu_product_id u) (owner_id u) = level
  ∧ (∀ tx, tx ∈ orders ↔
       ∃ id t, triggers w !! id = Some t ∧ fires t ∧ trigger_gate (w_executor w) level t = true
         ∧ tx = trigger_order t u (add64 (count w id) 1))
  ∧ (∀ id t, triggers w !! id = Some t → fires t → count w' id = add64 (count w id) 1).
Proof.
  intros Hk level fires. pose proof (on_inventory_update_spec w u Hk) as (Ho & _ & Hc).
  pose proof (on_inventory_update_level w u (iu_product_id u) (owner_id u)) as Hl.
  rewrite !str_eqb_refl in Hl. fold level in Ho, Hc. simpl in Hl.
  assert (Hfires : ∀ t, should_fire u level t = true ↔ fires t).
  { intros t. unfold should_fire, fires. rewrite !andb_true_iff, !str_eqb_eq, Z.leb_le. tauto. }
  destruct (on_inventory_update w u) as [w' orders]. simpl in *. split_and!; [done|..].
  - intros tx. rewrite Ho, list_elem_of_omap. split.
    + intros (t & [Hf [k Ht]]%firing_elem & Hord). unfold fired_order in Hord.
      destruct (trigger_gate _ _ t) eqn:Hg; [|done]. injection Hord as <-.
      rewrite (Hk k t Ht). exists k, t. split_and!; try done. by apply Hfires.
    + intros (id & t & Ht & Hf & Hg & ->). exists t. split.
      * apply firing_elem. split; [by apply Hfires | by eexists].
      * unfold fired_order. by rewrite Hg, (Hk id t Ht).
  - intros id t Ht Hf. rewrite Hc, decide_True; [done|]. apply list_elem_of_fmap. exists t.
    split; [by rewrite (Hk id t Ht)|]. apply firing_elem. split; [by apply Hfires | by eexists].
Qed.

(** ** Identifiers over a history *)

Inductive WatcherOp :=
| WUpdate (u : InventoryUpdate)
| WAdd (t : InventoryTrigger)
| WDisable (id : string)
| WEnable (id : string)
(** a restart: the stored snapshot on a service with re-registered triggers *)
| WRestore (ts : list InventoryTrigger).

Definition watcher_step (acc : WatcherService * list Transaction) (op : WatcherOp)
  : WatcherService * list Transaction :=
  let '(w, out) := acc in
  match op with
  | WUpdate u => let '(w', o) := on_inventory_update w u in (w', out ++ o)
  | WAdd t => (add_trigger w t, out)
  | WDisable id => (disable_trigger w id, out)
  | WEnable id => (enable_trigger w id, out)
  | WRestore ts =>
      (apply_snapshot (foldl add_trigger WatcherService_new ts) (to_snapshot w), out)
  end.

Definition colon : Ascii.ascii := Ascii.ascii_of_nat 58.
Definition plain (s : string) : Prop := no_char colon s = true.

(** Names without the separator. *)
Definition plain_op (op : WatcherOp) : Prop :=
  match op with
  | WUpdate u => plain (iu_product_id u) ∧ plain (owner_id u)
  | WAdd t => plain (trigger_id t)
  | WRestore ts => Forall (λ t, plain (trigger_id t)) ts
  | _ => True
  end.

Lemma order_id_inj t u c t' u' c' :
  plain (trigger_id t) → plain (trigger_id t') → plain (iu_product_id u) →
  plain (iu_product_id u') → plain (owner_id u) → plain (owner_id u') →
  order_id t u c = order_id t' u' c' → trigger_id t = trigger_id t' ∧ c = c'.
Proof.
  unfold order_id. intros Ht Ht' Hp Hp' Ho Ho' H. apply app_str_inj_l in H.
  apply (split_at_char colon) in H as [-> H]; [|done..].
  apply (split_at_char colon) in H as [_ H]; [|done..].
  apply (split_at_char colon) in H as [_ H]; [|done..].
  split; [done|]. by apply (inj pretty) in H.
Qed.

Lemma keyed_add w t : keyed w → keyed (add_trigger w t).
Proof. intros Hk k t'. simpl. intros [[<- <-]|[_ ?]]%lookup_insert_Some; [done|by apply Hk]. Qed.

Lemma keyed_alter w b id :
  keyed w → keyed (with_triggers w (alter (set_active b) id (triggers w))).
Proof.
  intros Hk k t. cbn [with_triggers triggers].
  intros [(-> & t0 & Ht & ->)|[_ Ht]]%lookup_alter_Some; [|by apply Hk]. by apply Hk in Ht.
Qed.

Lemma keyed_adds ts w : keyed w → keyed (foldl add_trigger w ts).
Proof.
  revert w. induction ts as [|t ts IH]; intros w Hk; [done|]. apply IH. by apply keyed_add.
Qed.

(** The triggers' names stay plain. *)
Definition plain_triggers (w : WatcherService) : Prop :=
  ∀ k t, triggers w !! k = Some t → plain (trigger_id t).

Lemma new_keyed : keyed WatcherService_new ∧ plain_triggers WatcherService_new.
Proof. split; intros k t Hk; simpl in Hk; by rewrite lookup_empty in Hk. Qed.

Lemma plain_adds ts w :
  plain_triggers w → Forall (λ t, plain (trigger_id t)) ts →
  plain_triggers (foldl add_trigger w ts).
Proof.
  intros Hw Hts. revert w Hw. induction Hts as [|t ts Ht _ IH]; intros w Hw; [done|]. apply IH.
  intros k t'. simpl. intros [[_ <-]|[_ ?]]%lookup_insert_Some; [done|by eapply Hw].
Qed.

Lemma plain_alter w b id :
  plain_triggers w → plain_triggers (with_triggers w (alter (set_active b) id (triggers w))).
Proof.
  intros Hw k t. cbn [with_triggers triggers].
  intros [(_ & t0 & Ht & ->)|[_ Ht]]%lookup_alter_Some; by apply Hw in Ht.
Qed.

(** An emitted order: trigger, update and count. *)
Definition Emitted : Type := InventoryTrigger * InventoryUpdate * Z.
Definition emitted_id (e : Emitted) : string := order_id e.1.1 e.1.2 e.2.
Definition emitted_key (e : Emitted) : string * Z := (trigger_id e.1.1, e.2).

Record emitted_wf (n : Z) (w : WatcherService) (out : list Transaction) (es : list Emitted) : Prop := {
  ew_keyed : keyed w;
  ew_plain : plain_triggers w;
  ew_counts : ∀ id, (0 ≤ count w id ≤ n)%Z;
  ew_ids : tx_id <$> out = emitted_id <$> es;
  ew_distinct : NoDup (emitted_key <$> es);
  ew_past : ∀ e, e ∈ es → plain (trigger_id e.1.1) ∧ plain (iu_product_id e.1.2)
    ∧ plain (owner_id e.1.2) ∧ (e.2 ≤ count w (trigger_id e.1.1))%Z }.

(** The orders of one update, as emitted triples. *)
Lemma update_emits w u :
  keyed w → (∀ id, 0 ≤ count w id < U64_MAX)%Z →
  ∃ es : list Emitted,
    tx_id <$> (on_inventory_update w u).2 = emitted_id <$> es
    ∧ NoDup (emitted_key <$> es)
    ∧ (∀ id, (count w id ≤ count (on_inventory_update w u).1 id ≤ count w id + 1)%Z)
    ∧ ∀ e, e ∈ es → (∃ k, triggers w !! k = Some e.1.1) ∧ e.1.2 = u
        ∧ e.2 = (count w (trigger_id e.1.1) + 1)%Z
        ∧ count (on_inventory_update w u).1 (trigger_id e.1.1) = e.2.
Proof.
  intros Hk Hb. pose proof (on_inventory_update_spec w u Hk) as (-> & _ & Hc).
  set (level := addi64 _ _) in *. set (ts := firing_triggers w u level) in *.
  assert (Hadd : ∀ id, add64 (count w id) 1 = (count w id + 1)%Z).
  { intros id. apply add64_small. specialize (Hb id). lia. }
  exists ((λ t, (t, u, (count w (trigger_id t) + 1)%Z))
            <$> List.filter (λ t, trigger_gate (w_executor w) level t) ts).
  pose proof (firing_NoDup w u level Hk) as Hnd. fold ts in Hnd. split_and!.
  - clearbody ts. clear -Hadd. induction ts as [|t ts IH]; [done|]. simpl.
    unfold fired_order at 1. destruct (trigger_gate _ _ t); [|exact IH].
    rewrite Hadd. rewrite !fmap_cons. f_equal. exact IH.
  - rewrite <- list_fmap_compose. clearbody ts. clear -Hnd.
    induction ts as [|t ts IH]; [constructor|]. rewrite fmap_cons in Hnd.
    apply NoDup_cons in Hnd as [Ht Hnd]. simpl. destruct (trigger_gate _ _ t); [|by apply IH].
    rewrite fmap_cons. apply NoDup_cons. split; [|by apply IH].
    intros (t' & He & Hin)%list_elem_of_fmap. simpl in He. injection He as He _.
    apply Ht. rewrite He. apply list_elem_of_fmap. exists t'. split; [done|].
    apply list_elem_of_In in Hin. apply List.filter_In in Hin as [Hin _]. by apply list_elem_of_In.
  - intros id. rewrite Hc. destruct (decide _); rewrite ?Hadd; lia.
  - intros e (t & -> & Hin)%list_elem_of_fmap. simpl.
    apply list_elem_of_In, List.filter_In in Hin as [Hin%list_elem_of_In _].
    split_and!; [|done|done|].
    + by apply firing_elem in Hin as [_ ?].
    + rewrite Hc, decide_True, Hadd; [done|]. apply list_elem_of_fmap. by exists t.
Qed.

Lemma watcher_step_wf n w out es op :
  (0 ≤ n < U64_MAX)%Z → plain_op op → emitted_wf n w out es →
  ∃ es', emitted_wf (n + 1) (watcher_step (w, out) op).1 (watcher_step (w, out) op).2 es'.
Proof.
  intros Hn Hop [Hk Hpl Hc Hi Hd Hp].
  assert (Hc' : ∀ id, (0 ≤ count w id ≤ n + 1)%Z) by (intros id; specialize (Hc id); lia).
  destruct op as [u|t|id|id|ts]; simpl in Hop |- *.
  - destruct (update_emits w u Hk) as (es1 & Hi1 & Hd1 & Hmono & He1).
    { intros id. specialize (Hc id). lia. }
    pose proof (on_inventory_update_spec w u Hk) as (_ & Ht & _).
    destruct (on_inventory_update w u) as [w' o]. simpl in *. exists (es ++ es1). split.
    + unfold keyed. by rewrite Ht.
    + unfold plain_triggers. by rewrite Ht.
    + intros id. specialize (Hc id). specialize (Hmono id). lia.
    + by rewrite !fmap_app, Hi, Hi1.
    + rewrite fmap_app. apply NoDup_app. split_and!; [done| |done].
      intros key (e & -> & Hin)%list_elem_of_fmap (e1 & Heq & Hin1)%list_elem_of_fmap.
      destruct (Hp e Hin) as (_ & _ & _ & Hle). destruct (He1 e1 Hin1) as (_ & _ & Hct & _).
      unfold emitted_key in Heq. injection Heq as Heq1 Heq2. rewrite Heq1 in Hle. lia.
    + intros e [Hin|Hin]%elem_of_app.
      * destruct (Hp e Hin) as (? & ? & ? & Hle). specialize (Hmono (trigger_id e.1.1)).
        split_and!; try done. lia.
      * destruct (He1 e Hin) as ([k Hkt] & -> & _ & Hct). destruct Hop.
        split_and!; try done; [by eapply Hpl | lia].
  - exists es. split; try done; [by apply keyed_add|].
    intros k t'. simpl. intros [[_ <-]|[_ ?]]%lookup_insert_Some; [done|by eapply Hpl].
  - exists es. split; try done; [by apply keyed_alter | by apply plain_alter].
  - exists es. split; try done; [by apply keyed_alter | by apply plain_alter].
  - exists es. split; try done.
    + apply (keyed_adds ts), new_keyed.
    + apply (plain_adds ts); [apply new_keyed | done].
Qed.

(** The orders that a watcher places over any history of updates, trigger
    changes and restarts that restore the stored snapshot have pairwise distinct
    transaction ids, when trigger, product and owner names do not contain the
    separator and there are fewer than 2^64 steps. *)
Theorem watcher_ids_unique ops :
  Forall plain_op ops → (Z.of_nat (length ops) < U64_MAX)%Z →
  NoDup (tx_id <$> (foldl watcher_step (WatcherService_new, []) ops).2).
Proof.
  intros Hops Hlen.
  assert (H : ∀ n w out es, (0 ≤ n)%Z → (n + Z.of_nat (length ops) < U64_MAX)%Z →
    emitted_wf n w out es → ∃ n' w' out' es',
      foldl watcher_step (w, out) ops = (w', out') ∧ emitted_wf n' w' out' es').
  { clear Hlen. induction Hops as [|op ops Hop _ IH]; intros n w out es H0 Hn Hwf.
    { by exists n, w, out, es. }
    simpl length in Hn. destruct (watcher_step_wf n w out es op) as [es' Hwf']; [lia|done|done|].
    cbn [foldl]. destruct (watcher_step (w, out) op) as [w' out'].
    apply (IH (n + 1)%Z w' out' es'); [lia|lia|done]. }
  destruct (H 0%Z WatcherService_new [] []) as (n' & w' & out' & es' & -> & Hwf); [lia|lia| |].
  { destruct new_keyed. split; [done|done| |done|apply NoDup_nil_2|by intros ? []%not_elem_of_nil].
    intros id. unfold count. simpl. rewrite lookup_empty. simpl. lia. }
  simpl. destruct Hwf as [_ _ _ -> Hd Hp].
  assert (Hinj : ∀ e e', e ∈ es' → e' ∈ es' → emitted_id e = emitted_id e' →
            emitted_key e = emitted_key e').
  { intros e e' He He' Heq. destruct (Hp e He) as (?&?&?&_), (Hp e' He') as (?&?&?&_).
    apply order_id_inj in Heq as [Ht Hc]; [|done..]. unfold emitted_key. by rewrite Ht, Hc. }
  clear -Hd Hinj. induction es' as [|e es IH]; [constructor|]. rewrite fmap_cons in *.
  apply NoDup_cons in Hd as [He Hd]. apply NoDup_cons. split.
  - intros (e' & Heq & Hin)%list_elem_of_fmap. apply He, list_elem_of_fmap. exists e'.
    split; [|done]. apply Hinj; [by left|by right|done].
  - apply IH; [done|]. intros ????. apply Hinj; by right.
Qed.
End watcher.
