(* ===== verification/Runtime.v ===== *)
(** The running node (glasschain-network: node.rs): admission of transactions, the
    whole of the commit hook, chain requests and answers, adoption and restart.

    A [FullNode] joins the consensus state of [Node] with the contract engine, the
    watcher, the peers and the storage of [Peers], and the projections of [Indexer].
    [after_commit] is the single point every committed block passes through;
    [receive_block], [receive_transaction] and [receive_chain] are branches of
    [process_message], [submit_transaction] is the local entry, and
    [rebuild_runtime_state_from_chain] and [start] are the restart.  Messages to
    send are returned with the connection they go to. *)

From S2P Require Import Prelude Types Asset WriteSet Chain Capability Policy Msp Ledger Storage Bft.
From S2P Require Import Rounds Validators Node Indexer Ocsp CertVerifier Channel Peers Outbound.
From S2P Require Import Contracts Watcher.

Local Open Scope Z_scope.

Inductive NodeEvent :=
| TransactionAccepted (tx : Transaction)
| BlockMined (index : Z) (hash : string) (certificate : QuorumCertificate)
| BlockReceived (index : Z) (hash : string) (certificate : QuorumCertificate)
| PrivatePayloadReceived (collection commitment : string)
| PeerConnected (addr : string)
| PeerDisconnected (addr : string)
| EquivocationDetected (height : Z) (public_key : string)
| ContractExecuted (contract_id : string) (quantity : Z)
| AutonomousTransactionGenerated (trigger_id transaction_id : string).

Section runtime.
Context `{E : Env} `{B : Bls} `{D : Ed25519Crate}.
Context (parse_value : string → result string Value) (base64_decode : string → option string).
Context (content_hash : list (string * string * string) → Z).
Context (base64_std : string → result string string) (json_offer : SupplyOffer → string).
(** The clock of a generated transaction, by its id. *)
Context (clock : string → Z).
Context (snapshot_to_json : WatcherStateSnapshot → result string string)
        (snapshot_of_json : string → result string WatcherStateSnapshot).
Context (tx_to_json : Transaction → result string string)
        (tx_of_json : string → result string Transaction)
        (block_json : Z → string → nat → string)
        (signed_to_json : SignedTransaction → result string string)
        (proof_of_json : string → result string EquivocationProof)
        (pin_of_json : string → result string StoredPeerPin).
(** The storage backend; [apply_block] is the trait method a backend overrides. *)
Context {S : Type} `{SP : StorageProvider S}.
Context (apply_block : S → Block → S * result CoreError unit).

Record FullNode := mkFull {
  fn_core : Node;
  fn_engine : ContractEngine;
  fn_watcher : WatcherService;
  fn_peers : PeerNode S;
  fn_identity : option Identity;
  fn_indexer : Index.InMemoryIndexer;
  fn_bus : EventBus.InMemoryEventBus;
  fn_provenance : Provenance.ProvenanceIndex;
  fn_flattener : Flattener.AnalyticalFlattener;
  fn_equivocations : list EquivocationProof;
  fn_events : list NodeEvent }.

(** [with_components] *)
Definition with_components (l : Ledger) (s : S) (identity : option Identity) : FullNode :=
  mkFull (mkNode l None [] None None None None ∅ None ∅) ContractEngine_new WatcherService_new
    (mkPeerNode PeerRegistry_new ∅ ∅ ∅ None s) identity Index.InMemoryIndexer_new
    (EventBus.InMemoryEventBus_new (Z.to_nat 4096)) Provenance.ProvenanceIndex_new [] [] [].

Definition fn_chain (n : FullNode) : list Block := chain (nd_ledger (fn_core n)).
Definition fn_storage (n : FullNode) : S := pn_storage (fn_peers n).

Definition with_core (n : FullNode) (c : Node) : FullNode :=
  mkFull c (fn_engine n) (fn_watcher n) (fn_peers n) (fn_identity n) (fn_indexer n) (fn_bus n)
    (fn_provenance n) (fn_flattener n) (fn_equivocations n) (fn_events n).
Definition with_watcher (n : FullNode) (w : WatcherService) : FullNode :=
  mkFull (fn_core n) (fn_engine n) w (fn_peers n) (fn_identity n) (fn_indexer n) (fn_bus n)
    (fn_provenance n) (fn_flattener n) (fn_equivocations n) (fn_events n).
Definition with_peers (n : FullNode) (p : PeerNode S) : FullNode :=
  mkFull (fn_core n) (fn_engine n) (fn_watcher n) p (fn_identity n) (fn_indexer n) (fn_bus n)
    (fn_provenance n) (fn_flattener n) (fn_equivocations n) (fn_events n).
Definition with_storage (n : FullNode) (s : S) : FullNode :=
  with_peers n (with_registry (fn_peers n) (pn_registry (fn_peers n)) s).
Definition with_ledger (n : FullNode) (l : Ledger) : FullNode :=
  with_core n (set_ledger (fn_core n) l).
Definition with_projections (n : FullNode) (x : Index.InMemoryIndexer) (b : EventBus.InMemoryEventBus)
    (p : Provenance.ProvenanceIndex) (f : Flattener.AnalyticalFlattener) : FullNode :=
  mkFull (fn_core n) (fn_engine n) (fn_watcher n) (fn_peers n) (fn_identity n) x b p f
    (fn_equivocations n) (fn_events n).
Definition with_equivocations (n : FullNode) (l : list EquivocationProof) : FullNode :=
  mkFull (fn_core n) (fn_engine n) (fn_watcher n) (fn_peers n) (fn_identity n) (fn_indexer n)
    (fn_bus n) (fn_provenance n) (fn_flattener n) l (fn_events n).
Definition emit (n : FullNode) (es : list NodeEvent) : FullNode :=
  mkFull (fn_core n) (fn_engine n) (fn_watcher n) (fn_peers n) (fn_identity n) (fn_indexer n)
    (fn_bus n) (fn_provenance n) (fn_flattener n) (fn_equivocations n) (fn_events n ++ es).

(** The definitions the commit path executes are those of the engine's contracts. *)
Definition set_contract_defs (c : Node) (m : gmap string SmartContractDef) : Node :=
  mkNode (nd_ledger c) (nd_history c) (nd_policies c) (nd_endorsement c) (nd_consensus c)
    (nd_validator_cache c) (nd_round c) (nd_world c) (nd_executor c) m.
Definition with_engine (n : FullNode) (e : ContractEngine) : FullNode :=
  mkFull (set_contract_defs (fn_core n) (c_definition <$> contracts e)) e (fn_watcher n) (fn_peers n)
    (fn_identity n) (fn_indexer n) (fn_bus n) (fn_provenance n) (fn_flattener n)
    (fn_equivocations n) (fn_events n).

(** ** The capability set at the tip *)

Definition active_set_at_tip (n : FullNode) : CapabilitySet :=
  let tip := Z.of_nat (length (fn_chain n) - 1) in
  match nd_history (fn_core n) with
  | Some h => effective_set h tip
  | None =>
      match capability_build_from_blocks (fn_chain n) with
      | Ok h => effective_set h tip
      | Err _ => genesis_set
      end
  end.

Definition fn_relay_targets (n : FullNode) : list N := relay_targets (fn_peers n) (active_set_at_tip n).

(** ** Transactions *)

(** The engine's reaction to a transaction: an offer is evaluated, a creation is
    handed to [create]. *)
Definition engine_react (create : ContractEngine → SmartContractDef → ContractEngine) (e : ContractEngine)
    (tx : Transaction) : ContractEngine * list Transaction :=
  match tx_kind tx with
  | KSupplyOffer o => evaluate_supply_offer base64_std json_offer clock e o (tx_id tx)
  | KContractCreation d => (create e d, [])
  | _ => (e, [])
  end.

Definition create_submitted (e : ContractEngine) (d : SmartContractDef) : ContractEngine :=
  (register_contract e d).1.
Definition create_received (e : ContractEngine) (d : SmartContractDef) : ContractEngine :=
  set_contracts e (load_from_ledger (contracts e) d).

Definition execution_events (generated : list Transaction) : list NodeEvent :=
  omap (λ tx, match tx_kind tx with
              | KContractExecution x => Some (ContractExecuted (ce_contract_id x) (ce_quantity x))
              | _ => None
              end) generated.

Definition add_generated (l : Ledger) (txs : list Transaction) : Ledger :=
  foldl (λ l tx, (add_transaction l tx).1) l txs.

(** The endorsement gate of [submit_transaction]. *)
Definition submission_gate (c : Node) (tx : Transaction) : Node * result CoreError unit :=
  match nd_endorsement c with
  | None => (c, Ok tt)
  | Some P =>
      let height := Z.of_nat (length (chain (nd_ledger c))) in
      match capability_effective_set c height with
      | (c, Err e) => (c, Err e)
      | (c, Ok set) =>
          (c, if Capability.is_active set ENDORSEMENT_CAPABILITY_ID
              then evaluate_transaction_endorsements (P := P) (nd_policies c) tx [] height
              else Ok tt)
      end
  end.

(** [submit_transaction]: the messages are broadcast to the relay targets. *)
Definition submit_transaction (n : FullNode) (tx : Transaction)
  : FullNode * result CoreError (list Message) :=
  match submission_gate (fn_core n) tx with
  | (c, Err e) => (with_core n c, Err e)
  | (c, Ok _) =>
      let n := with_core n c in
      match add_transaction (nd_ledger c) tx with
      | (l, Err e) => (with_ledger n l, Err e)
      | (l, Ok _) =>
          let n := with_ledger n l in
          let '(e, generated) := engine_react create_submitted (fn_engine n) tx in
          let n := with_engine n e in
          let n := with_ledger n (add_generated l generated) in
          let n := emit n (TransactionAccepted tx :: execution_events generated) in
          (n, Ok (MTransaction <$> tx :: generated))
      end
  end.

(** [Message::Transaction] from the connection registered at [stable]. *)
Definition may_propose (n : FullNode) (stable : option string) : bool :=
  match stable with
  | None => false
  | Some addr => negb (is_read_only (pn_registry (fn_peers n)) addr (active_set_at_tip n))
  end.

Definition relay (n : FullNode) (generated : list Transaction) : list (N * Message) :=
  tx ← generated; (λ c, (c, MTransaction tx)) <$> fn_relay_targets n.

Definition receive_transaction (n : FullNode) (stable : option string) (tx : Transaction)
  : FullNode * list (N * Message) :=
  if negb (may_propose n stable) then (n, []) else
  let '(e, generated) := engine_react create_received (fn_engine n) tx in
  let n := emit (with_engine n e) (execution_events generated) in
  let '(l, r) := add_transaction (nd_ledger (fn_core n)) tx in
  let n := if is_ok r then emit n [TransactionAccepted tx] else n in
  let n := with_ledger n (add_generated l generated) in
  (n, relay n generated).

(** ** The commit hook *)

Definition sign_transaction (i : Identity) (tx : Transaction) : SignedTransaction :=
  mkSigned tx (sign_bytes i (byte_list (json_tx tx))) (public_key_bytes i) (node_id i).

(** Autonomous orders are signed and stored; a failed write is logged. *)
Definition store_signed (i : Identity) (s : S) (order : Transaction) : S :=
  match signed_to_json (sign_transaction i order) with
  | Ok json => (put_state s ("signed_tx:" +:+ tx_id order) json).1
  | Err _ => s
  end.

Definition trigger_of (order : Transaction) : string :=
  match tx_kind order with
  | KPurchaseOrder po => default "watcher" (po_contract_id po)
  | _ => "watcher"
  end.

(** The orders go to the ledger; those it accepts are announced and broadcast. *)
Definition admit_order (acc : Ledger * list Transaction) (order : Transaction)
  : Ledger * list Transaction :=
  let '(l, r) := add_transaction acc.1 order in
  (l, if is_ok r then acc.2 ++ [order] else acc.2).

(** The analytics part: the index, the bus, custody and flat records. *)
Definition project_block (n : FullNode) (b : Block) : FullNode :=
  with_projections n
    (Index.index_block tx_to_json (fn_indexer n) b).1
    (EventBus.publish_block tx_to_json block_json (fn_bus n) b).1
    (Provenance.ingest_block (fn_provenance n) b)
    (Flattener.flatten_block tx_to_json tx_of_json (fn_flattener n) b).

(** The watcher part: its orders, their signatures and the snapshot. *)
Definition watch_block (n : FullNode) (b : Block) : FullNode * list Transaction :=
  let '(w, orders, snapshot) := commit_updates base64_std clock snapshot_to_json (fn_watcher n) b in
  let s := match fn_identity n with
           | Some i => foldl (store_signed i) (fn_storage n) orders
           | None => fn_storage n
           end in
  let s := match snapshot with
           | Some bytes => (put_state s "watcher:state" bytes).1
           | None => s
           end in
  (with_storage (with_watcher n w) s, orders).

(** [after_block_commit] *)
Definition after_commit (n : FullNode) (b : Block) : FullNode * list Transaction :=
  let '(s, applied) := apply_block (fn_storage n) b in
  let n := with_core n (after_block_commit (is_ok applied) (fn_core n) b) in
  let n := project_block (with_storage n s) b in
  let '(n, orders) := watch_block n b in
  let '(l, generated) := foldl admit_order (nd_ledger (fn_core n), []) orders in
  (emit (with_ledger n l)
     ((λ o, AutonomousTransactionGenerated (trigger_of o) (tx_id o)) <$> generated), generated).

(** ** Blocks *)

(** [Message::Block]: the gates of the sender, then [Node]'s admission and the hook. *)
Definition receive_block (now : Z) (conn : N) (n : FullNode) (stable : option string) (b : Block)
  : FullNode * list (N * Message) :=
  if negb (may_propose n stable) then (n, []) else
  let '(c, verdict) := admit_peer_block parse_value base64_decode content_hash now (fn_core n) b in
  let n := with_core n c in
  match verdict with
  | CatchUp => (n, [(conn, MRequestChainFrom (Z.of_nat (length (fn_chain n))))])
  | Reject => (n, [])
  | Admit =>
      match enforce_block_endorsements c b [] with
      | (c, Err _) => (with_core n c, [])
      | (c, Ok _) =>
          let n := with_ledger (with_core n c) (append_peer_block (nd_ledger c) b).1 in
          let '(n, generated) := after_commit n b in
          let n := emit n [BlockReceived (index b) (hash b) (cert_pow b)] in
          (n, relay n generated)
      end
  end.

(** The end of [mine_async]: the hook of a block this node committed. *)
Definition mined (n : FullNode) (note : CommitNotification) : FullNode * list Message :=
  let '(n, generated) := after_commit n (cn_block note) in
  (emit n [BlockMined (index (cn_block note)) (hash (cn_block note)) (cn_certificate note)],
   MBlock (cn_block note) :: (MTransaction <$> generated)).

(** ** Rebuilding from the chain *)

(** One write of [rebuild_world_state]: the cache, and the storage behind it. *)
Fixpoint reapply_writes (s : S) (w : gmap string string) (ws : list PersistentWrite)
  : S * result CoreError (gmap string string) :=
  match ws with
  | [] => (s, Ok w)
  | x :: ws =>
      match (match pw_op x with
             | WSet v => put_state s (state_key x) v
             | WDelete => delete_state s (state_key x)
             end) with
      | (s, Ok _) => reapply_writes s (apply_to_cache x w) ws
      | (s, Err e) => (s, Err e)
      end
  end.

(** The loop over [n] stored blocks from [i]; a missing block is skipped. *)
Fixpoint rebuild_blocks (s : S) (w : gmap string string) (i : Z) (n : nat)
  : S * result CoreError (gmap string string) :=
  match n with
  | O => (s, Ok w)
  | Datatypes.S n =>
      match get_block s i with
      | Err e => (s, Err e)
      | Ok None => rebuild_blocks s w (i + 1) n
      | Ok (Some b) =>
          match reapply_writes s w (write_set b) with
          | (s, Ok w) => rebuild_blocks s w (i + 1) n
          | (s, Err e) => (s, Err e)
          end
      end
  end.

Definition rebuild_world_state (s : S) : S * result CoreError (gmap string string) :=
  match latest_block_index s with
  | Err e => (s, Err e)
  | Ok None => (s, Ok ∅)
  | Ok (Some latest) => rebuild_blocks s ∅ 0 (Z.to_nat (latest + 1))
  end.

(** The histories of the core; one that does not rebuild is kept. *)
Definition rebuild_core (c : Node) (w : result CoreError (gmap string string)) : Node :=
  let c := match w with Ok w => set_world c w | Err _ => c end in
  let c := match policy_build_from_blocks (chain (nd_ledger c)) with
           | Ok p => set_policies c p
           | Err _ => c
           end in
  match capability_build_from_blocks (chain (nd_ledger c)) with
  | Ok h => set_cache c (Some h)
  | Err _ => c
  end.

Definition rebuild_runtime_state_from_chain (n : FullNode) : FullNode :=
  let '(s, w) := rebuild_world_state (fn_storage n) in
  let n := with_storage (with_core n (rebuild_core (fn_core n) w)) s in
  let n := with_projections n (fn_indexer n) (fn_bus n)
             (foldl Provenance.ingest_block Provenance.ProvenanceIndex_new (fn_chain n))
             (foldl (Flattener.flatten_block tx_to_json tx_of_json) [] (fn_chain n)) in
  let n := with_engine n (rebuild_from_chain (fn_chain n)) in
  let stored := match get_state s "watcher:state" with Ok o => o | Err _ => None end in
  with_watcher n (rebuild_watcher base64_std clock snapshot_of_json stored (fn_chain n) (fn_watcher n)).

(** ** Chain synchronisation *)

(** [Message::RequestChain] and [Message::RequestChainFrom]: the answers. *)
Definition answer_chain (n : FullNode) : Message := MChain 0 (fn_chain n).
Definition answer_chain_from (n : FullNode) (from_index : Z) : Message :=
  let from := Z.to_nat from_index in
  if (from <=? length (fn_chain n))%nat then MChain from_index (drop from (fn_chain n))
  else answer_chain n.

Definition put_blocks (s : S) (blocks : list Block) : S :=
  foldl (λ s b, (put_block s b).1) s blocks.

Definition adoption_events (blocks : list Block) : list NodeEvent :=
  omap (λ b, if (index b =? 0)%Z then None
             else Some (BlockReceived (index b) (hash b) (default (cert_pow b) (certificate b)))) blocks.

(** [Message::Chain] with a full chain. *)
Definition receive_full_chain (verifier_key : PrivateKey) (n : FullNode) (blocks : list Block) : FullNode :=
  let c := fn_core n in
  if negb (is_ok (enforce_chain_endorsements c blocks)) then n else
  if negb (is_ok (verify_chain_certificates parse_value base64_decode verifier_key blocks
                    (nd_consensus c))) then n else
  match try_replace_chain (nd_ledger c) blocks with
  | (l, false) => with_ledger n l
  | (l, true) =>
      let n := with_ledger n l in
      let n := with_storage n (put_blocks (fn_storage n) (fn_chain n)) in
      rebuild_runtime_state_from_chain (emit n (adoption_events (fn_chain n)))
  end.

(** A suffix is folded through the single-block handler. *)
Definition receive_suffix (now : Z) (conn : N) (n : FullNode) (stable : option string)
    (blocks : list Block) : FullNode * list (N * Message) :=
  foldl (λ acc b, let '(n, out) := receive_block now conn acc.1 stable b in (n, acc.2 ++ out))
    (n, []) blocks.

Definition receive_chain (verifier_key : PrivateKey) (now : Z) (conn : N) (n : FullNode)
    (stable : option string) (from_index : Z) (blocks : list Block) : FullNode * list (N * Message) :=
  if (from_index =? 0)%Z then (receive_full_chain verifier_key n blocks, [])
  else receive_suffix now conn n stable blocks.

(** ** Start *)

(** [load_equivocation_proofs]: unreadable entries are skipped. *)
Definition EQUIVOCATION_PREFIX : string := "equivocation:".

Definition load_equivocation_proofs (s : S) (known : list EquivocationProof) : list EquivocationProof :=
  match list_state_keys s EQUIVOCATION_PREFIX with
  | Err _ => known
  | Ok keys =>
      known ++ omap (λ key,
        match get_state s key with
        | Ok (Some raw) => match proof_of_json raw with Ok e => Some e | Err _ => None end
        | _ => None
        end) keys
  end.

(** Blocks of the ledger that storage lacks are applied; a read error ends the start. *)
Fixpoint persist_chain (s : S) (blocks : list Block) : S * result CoreError unit :=
  match blocks with
  | [] => (s, Ok tt)
  | b :: blocks =>
      match get_block s (index b) with
      | Err e => (s, Err e)
      | Ok (Some _) => persist_chain s blocks
      | Ok None => persist_chain (apply_block s b).1 blocks
      end
  end.

(** [start] up to the listener: rebuild, pins, evidence, persistence. *)
Definition start (n : FullNode) : FullNode * result CoreError unit :=
  let n := rebuild_runtime_state_from_chain n in
  let p := fn_peers n in
  let n := with_peers n (with_registry p (load_tofu_pins pin_of_json (pn_storage p) (pn_registry p))
                           (pn_storage p)) in
  let n := with_equivocations n (load_equivocation_proofs (fn_storage n) (fn_equivocations n)) in
  let '(s, r) := persist_chain (fn_storage n) (fn_chain n) in
  (with_storage n s, r).

(** ** Attaching providers *)

(** The budgets [compute_write_set] runs under. *)
Definition COMMIT_LIMITS : ExecutionLimits := mkExecutionLimits 100000 100000.

Definition set_execution_provider (n : FullNode) (x : ExecutionProvider) : FullNode :=
  let n := with_engine n (set_executor (fn_engine n) x) in
  let n := with_watcher n (watcher_set_executor (fn_watcher n) x) in
  let c := fn_core n in
  with_core n (mkNode (nd_ledger c) (nd_history c) (nd_policies c) (nd_endorsement c) (nd_consensus c)
    (nd_validator_cache c) (nd_round c) (nd_world c) (Some (λ id wasm st, x id wasm st COMMIT_LIMITS))
    (nd_contracts c)).

Definition set_endorsement_provider (n : FullNode) (P : EndorsementProvider) : FullNode :=
  let c := fn_core n in
  with_core n (mkNode (nd_ledger c) (nd_history c) (nd_policies c) (Some P) (nd_consensus c)
    (nd_validator_cache c) (nd_round c) (nd_world c) (nd_executor c) (nd_contracts c)).

Definition set_bft_consensus (n : FullNode) (p : BftConsensusProvider) : FullNode :=
  let c := fn_core n in
  with_core n (mkNode (nd_ledger c) (nd_history c) (nd_policies c) (nd_endorsement c) (Some p)
    (nd_validator_cache c) (nd_round c) (nd_world c) (nd_executor c) (nd_contracts c)).

(** ** The rebuilt world state *)

Context `{L : !StorageLaws S} `{K : !BlockLaws S apply_block}.

(** The effect of a chain's committed writes on any state. *)
Definition replay_writes (w : gmap string string) (c : list Block) : gmap string string :=
  foldl (λ st b, apply_writes (write_set b) st) w c.

Lemma reapply_writes_spec s w ws : ∃ s',
  reapply_writes s w ws = (s', Ok (apply_writes ws w))
  ∧ stored s' = stored s ∧ world s' = apply_writes ws (world s).
Proof.
  revert s w. induction ws as [|x ws IH]; intros s w; cbn [reapply_writes]; [by exists s|].
  destruct (pw_op x) as [v|] eqn:Hop.
  - destruct (put_state_law s (state_key x) v) as (s1 & Hp & Hw).
    pose proof (put_state_stored s (state_key x) v) as Hs. rewrite Hp in *.
    destruct (IH s1 (apply_to_cache x w)) as (s2 & H1 & H2 & H3). exists s2. cbn in Hs.
    rewrite H1, H2, H3, Hs, Hw. split_and!; [done|done|]. cbn. unfold apply_to_cache. by rewrite Hop.
  - destruct (delete_state_law s (state_key x)) as (s1 & Hp & Hw).
    pose proof (delete_state_stored s (state_key x)) as Hs. rewrite Hp in *.
    destruct (IH s1 (apply_to_cache x w)) as (s2 & H1 & H2 & H3). exists s2. cbn in Hs.
    rewrite H1, H2, H3, Hs, Hw. split_and!; [done|done|]. cbn. unfold apply_to_cache. by rewrite Hop.
Qed.

Lemma rebuild_blocks_spec c s w i :
  (∀ j, (j < length c)%nat → stored s !! (i + Z.of_nat j) = c !! j) → ∃ s',
  rebuild_blocks s w i (length c) = (s', Ok (replay_writes w c))
  ∧ stored s' = stored s ∧ world s' = replay_writes (world s) c.
Proof.
  revert s w i. induction c as [|b c IH]; intros s w i Hc; cbn [length rebuild_blocks]; [by exists s|].
  rewrite get_block_law. pose proof (Hc 0%nat ltac:(cbn; lia)) as H0. rewrite Z.add_0_r in H0.
  rewrite H0. cbn [lookup list_lookup].
  destruct (reapply_writes_spec s w (write_set b)) as (s1 & H1 & H2 & H3). rewrite H1.
  destruct (IH s1 (apply_writes (write_set b) w) (i + 1)) as (s2 & I1 & I2 & I3).
  { intros j Hj. rewrite H2. specialize (Hc (Datatypes.S j) ltac:(cbn; lia)).
    replace (i + 1 + Z.of_nat j) with (i + Z.of_nat (Datatypes.S j)) by lia. done. }
  exists s2. rewrite I1, I2, I3, H2, H3. done.
Qed.

Lemma rebuild_world_state_spec s c :
  holds_blocks (stored s) c → ∃ s',
  rebuild_world_state s = (s', Ok (world_of c))
  ∧ stored s' = stored s ∧ world s' = replay_writes (world s) c.
Proof.
  intros Hh. unfold rebuild_world_state. rewrite latest_block_index_law, (holds_blocks_max _ _ Hh).
  destruct c as [|b c]; [by exists s|]. destruct Hh as [Hb _].
  replace (Z.to_nat (Z.of_nat (length (b :: c)) - 1 + 1)) with (length (b :: c)) by (cbn; lia).
  apply rebuild_blocks_spec. intros j Hj. rewrite Hb, Z.add_0_l.
  destruct (Z.leb_spec 0 (Z.of_nat j)); [by rewrite Nat2Z.id|lia].
Qed.

(** The keys a chain writes. *)
Definition touched (c : list Block) (k : string) : Prop :=
  ∃ b w, b ∈ c ∧ w ∈ write_set b ∧ state_key w = k.

Lemma writes_world_lookup ws (k : string) : ∀ st st' : gmap string string,
  st !! k = st' !! k ∨ (∃ w, w ∈ ws ∧ state_key w = k) →
  apply_writes ws st !! k = apply_writes ws st' !! k.
Proof.
  unfold apply_writes. induction ws as [|x ws IH]; intros st st' H.
  { destruct H as [H|(w & Hw & _)]; [done|]. by apply elem_of_nil in Hw. }
  cbn [foldl]. apply IH. destruct (decide (state_key x = k)) as [<-|Hne].
  - left. unfold apply_to_cache. destruct (pw_op x); by rewrite ?lookup_insert_eq, ?lookup_delete_eq.
  - destruct H as [H|(w & Hw & Hk)].
    + left. unfold apply_to_cache. destruct (pw_op x); by rewrite ?lookup_insert_ne, ?lookup_delete_ne.
    + right. apply elem_of_cons in Hw as [->|Hw]; [done|eauto].
Qed.

Lemma replay_writes_lookup c k st st' :
  st !! k = st' !! k ∨ touched c k → replay_writes st c !! k = replay_writes st' c !! k.
Proof.
  unfold replay_writes. revert st st'. induction c as [|b c IH]; intros st st' H.
  { destruct H as [H|(b & w & Hb & _)]; [done|]. by apply elem_of_nil in Hb. }
  cbn [foldl]. apply IH. destruct H as [H|(b' & w & Hb & Hw & Hk)].
  - left. apply writes_world_lookup. by left.
  - apply elem_of_cons in Hb as [->|Hb]; [|right; by exists b', w].
    left. apply writes_world_lookup. right. eauto.
Qed.

Lemma replay_writes_untouched c k st : ¬ touched c k → replay_writes st c !! k = st !! k.
Proof.
  unfold replay_writes. induction c as [|b c IH] using rev_ind; intros H; [done|].
  rewrite foldl_snoc. rewrite <- IH; [|intros (b' & w & Hb & Hw & Hk); apply H; exists b', w; set_solver].
  assert (∀ w, w ∈ write_set b → state_key w ≠ k) as Hb.
  { intros w Hw Hk. apply H. exists b, w. set_solver. }
  generalize (foldl (λ st b, apply_writes (write_set b) st) st c). unfold apply_writes. clear -Hb.
  induction (write_set b) as [|x ws IHw]; intros m; [done|]. cbn [foldl].
  rewrite IHw by set_solver. unfold apply_to_cache. specialize (Hb x ltac:(left)).
  destruct (pw_op x); by rewrite ?lookup_insert_ne, ?lookup_delete_ne.
Qed.

(** ** The projections of a running node *)

(** [n] holds the projections of the chain [c]: the stored blocks and the committed
    state behind them, the state cache, custody and flat records; and the definitions
    the commit path runs are the engine's. *)
Record projects (c : list Block) (n : FullNode) : Prop := {
  pr_blocks : holds_blocks (stored (fn_storage n)) c;
  pr_durable : ∀ k, touched c k → world (fn_storage n) !! k = world_of c !! k;
  pr_world : nd_world (fn_core n) = world_of c;
  pr_provenance : fn_provenance n = foldl Provenance.ingest_block Provenance.ProvenanceIndex_new c;
  pr_flattener : fn_flattener n = foldl (Flattener.flatten_block tx_to_json tx_of_json) [] c;
  pr_contracts : nd_contracts (fn_core n) = c_definition <$> contracts (fn_engine n) }.

(** ... of its own chain, which starts with a block that hashes to itself. *)
Definition current (n : FullNode) : Prop :=
  projects (fn_chain n) n ∧ ∃ g, head (fn_chain n) = Some g ∧ is_valid g = true.

Lemma touched_ws c k : touched c k → starts_with "ws:" k = true.
Proof. intros (b & w & _ & _ & <-). apply starts_with_app. Qed.

Lemma touched_snoc c b k :
  touched (c ++ [b]) k ↔ touched c k ∨ ∃ w, w ∈ write_set b ∧ state_key w = k.
Proof.
  split.
  - intros (b' & w & [Hb|Hb]%elem_of_app & Hw & Hk); [left; by exists b', w|].
    apply list_elem_of_singleton in Hb as ->. right. eauto.
  - intros [(b' & w & Hb & Hw & Hk)|(w & Hw & Hk)]; [exists b', w | exists b, w]; set_solver.
Qed.

(** Stores that agree on the blocks and on committed state. *)
Definition same_committed (s s' : S) : Prop :=
  stored s' = stored s ∧ ∀ k, starts_with "ws:" k = true → world s' !! k = world s !! k.

#[local] Instance same_committed_preorder : PreOrder same_committed.
Proof.
  split; [by intros s|]. intros s1 s2 s3 [H1 H2] [H3 H4]. split; [congruence|].
  intros k Hk. rewrite H4 by done. auto.
Qed.

Lemma put_other s key v : starts_with "ws:" key = false → same_committed s (put_state s key v).1.
Proof.
  intros Hk. split; [apply put_state_stored|]. destruct (put_state_law s key v) as (s' & -> & Hw).
  intros k Hk'. cbn. rewrite Hw, lookup_insert_ne; [done|]. intros ->. congruence.
Qed.

Lemma store_signed_committed i orders s : same_committed s (foldl (store_signed i) s orders).
Proof.
  revert s. induction orders as [|o orders IH]; intros s; [done|]. cbn [foldl].
  etrans; [|apply IH]. unfold store_signed. destruct (signed_to_json _); [by apply put_other | done].
Qed.

(** ** The ledger's chain is not touched by admission *)

Lemma add_transaction_chain l tx : chain (add_transaction l tx).1 = chain l.
Proof.
  unfold add_transaction. destruct (is_empty _); [done|].
  assert (∀ l, chain (fold_capability l).1 = chain l) as Hf.
  { intros l0. unfold fold_capability. by repeat case_match. }
  assert (∀ l, chain (fold_committed_ids l) = chain l) as Hi.
  { intros l0. unfold fold_committed_ids. by repeat case_match. }
  specialize (Hf l). destruct (fold_capability l) as [l1 [[]|e]]; [|done].
  destruct (check_admission _ _ _); [|done]. cbn in Hf. rewrite <- Hf, <- (Hi l1).
  by repeat case_match.
Qed.

Lemma add_generated_chain l txs : chain (add_generated l txs) = chain l.
Proof.
  unfold add_generated. revert l. induction txs as [|tx txs IH]; intros l; [done|]. cbn [foldl].
  by rewrite IH, add_transaction_chain.
Qed.

Lemma admit_order_chain orders l acc : chain (foldl admit_order (l, acc) orders).1 = chain l.
Proof.
  revert l acc. induction orders as [|o orders IH]; intros l acc; [done|]. cbn [foldl].
  unfold admit_order at 2. cbn [fst snd]. pose proof (add_transaction_chain l o) as Hc.
  destruct (add_transaction l o) as [l' r]. by rewrite IH.
Qed.

(** Changing the pending pool, the caches or the events keeps the projections. *)
Lemma projects_with_ledger c n l : projects c (with_ledger n l) ↔ projects c n.
Proof. split; intros [? ? ? ? ? ?]; split; done. Qed.

Lemma projects_emit c n es : projects c (emit n es) ↔ projects c n.
Proof. split; intros [? ? ? ? ? ?]; split; done. Qed.

Lemma projects_with_core c n k :
  nd_world k = nd_world (fn_core n) → nd_contracts k = nd_contracts (fn_core n) →
  projects c n → projects c (with_core n k).
Proof. intros Hw Hc [? ? ? ? ? ?]. split; cbn; by rewrite ?Hw, ?Hc. Qed.

Lemma projects_with_engine c n e : projects c n → projects c (with_engine n e).
Proof. intros [? ? ? ? ? ?]. by split. Qed.

Lemma watch_block_projects c n b : projects c n → projects c (watch_block n b).1.
Proof.
  intros [H1 H2 H3 H4 H5 H6]. unfold watch_block.
  destruct (commit_updates _ _ _ _ _) as [[w orders] snapshot].
  assert (∀ s, same_committed (fn_storage n) s → projects c (with_storage (with_watcher n w) s)) as Hs.
  { intros s [Hst Hw]. split; cbn; try done; [by rewrite Hst|].
    intros k Hk. rewrite Hw by (by eapply touched_ws). auto. }
  apply Hs. etrans; [|destruct snapshot; [by apply put_other | done]].
  destruct (fn_identity n); [apply store_signed_committed | done].
Qed.

Lemma watch_block_chain n b : fn_chain (watch_block n b).1 = fn_chain n.
Proof. unfold watch_block. by destruct (commit_updates _ _ _ _ _) as [[w orders] snapshot]. Qed.

(** ** The commit hook extends the projections *)

Lemma after_block_commit_state applied c b :
  let c' := after_block_commit applied c b in
  nd_world c' = (if applied then apply_writes (write_set b) (nd_world c) else nd_world c)
  ∧ nd_contracts c' = nd_contracts c ∧ nd_ledger c' = nd_ledger c.
Proof.
  cbv zeta. split; [|split; [|by apply after_block_commit_ledger]]; unfold after_block_commit;
    destruct applied, (existsb _ _); try destruct (policy_build_from_blocks _); done.
Qed.

Lemma after_commit_chain n b : fn_chain (after_commit n b).1 = fn_chain n.
Proof.
  unfold after_commit. destruct (apply_block _ b) as [s applied].
  set (n1 := project_block _ b). pose proof (watch_block_chain n1 b) as Hw.
  destruct (watch_block n1 b) as [n2 orders]. cbn in Hw.
  pose proof (admit_order_chain orders (nd_ledger (fn_core n2)) []) as Ha.
  destruct (foldl admit_order _ orders) as [l generated]. cbn in *.
  unfold fn_chain in *. cbn. rewrite Ha, Hw. unfold n1. cbn.
  by rewrite after_block_commit_ledger.
Qed.

Lemma after_commit_projects c n b :
  projects c n → index b = Z.of_nat (length c) → validate_tip_chain b (last c) = Ok tt →
  projects (c ++ [b]) (after_commit n b).1.
Proof.
  intros [H1 H2 H3 H4 H5 H6] Hidx Hv. unfold after_commit.
  destruct (apply_block_law _ _ _ H1 Hv) as (s & -> & Hst & Hw). cbn [is_ok].
  destruct (after_block_commit_state true (fn_core n) b) as (Hworld & Hcon & _).
  set (n1 := project_block _ b).
  assert (projects (c ++ [b]) n1) as Hp.
  { split; unfold n1; cbn; unfold world_of in *;
      rewrite ?foldl_snoc, ?H4, ?H5, ?Hcon, ?Hworld, ?H3; try done.
    - rewrite Hst. by apply holds_blocks_push.
    - intros k Hk. rewrite Hw. apply writes_world_lookup. apply touched_snoc in Hk as [Hk|Hk]; auto. }
  pose proof (watch_block_projects _ n1 b Hp) as Hp2. destruct (watch_block n1 b) as [n2 orders].
  destruct (foldl admit_order _ orders) as [l generated]. cbn in *.
  by apply projects_emit, projects_with_ledger.
Qed.

(** ** Adoption *)

Lemma put_blocks_stored blocks s : ∀ i,
  (∀ k b, blocks !! k = Some b → index b = i + Z.of_nat k) → 0 ≤ i →
  (∀ j, 0 ≤ j < i ∨ i + Z.of_nat (length blocks) ≤ j → stored (put_blocks s blocks) !! j = stored s !! j)
  ∧ (∀ k, (k < length blocks)%nat → stored (put_blocks s blocks) !! (i + Z.of_nat k) = blocks !! k)
  ∧ (∀ j, j < 0 → stored (put_blocks s blocks) !! j = stored s !! j)
  ∧ world (put_blocks s blocks) = world s.
Proof.
  revert s. induction blocks as [|b blocks IH]; intros s i Hi Hpos; [cbn; split_and!; [done|lia|done|done]|].
  unfold put_blocks. cbn [foldl]. fold (put_blocks (put_block s b).1 blocks).
  destruct (put_block_law s b) as (s1 & -> & Hst & Hw). cbn [fst].
  pose proof (Hi 0%nat b eq_refl) as H0.
  destruct (IH s1 (i + 1)) as (I1 & I2 & I3 & I4);
    [intros k x Hk; rewrite (Hi (Datatypes.S k) x Hk); lia | lia |].
  cbn [length]. split_and!.
  - intros j Hj. rewrite I1 by lia. rewrite Hst, lookup_insert_ne; [done|lia].
  - intros [|k] Hk.
    + rewrite I1 by lia. rewrite Hst. replace (i + Z.of_nat 0) with (index b) by lia.
      by rewrite lookup_insert_eq.
    + replace (i + Z.of_nat (Datatypes.S k)) with (i + 1 + Z.of_nat k) by lia. apply I2. lia.
  - intros j Hj. rewrite I3 by lia. rewrite Hst, lookup_insert_ne; [done|lia].
  - by rewrite I4.
Qed.

(** A longer chain overwrites every stored block. *)
Lemma put_blocks_holds s c blocks :
  holds_blocks (stored s) c → (length c ≤ length blocks)%nat →
  (∀ k b, blocks !! k = Some b → index b = Z.of_nat k) →
  holds_blocks (stored (put_blocks s blocks)) blocks ∧ world (put_blocks s blocks) = world s.
Proof.
  intros [Hb _] Hlen Hi. destruct (put_blocks_stored blocks s 0) as (P1 & P2 & P3 & P4);
    [intros k b Hk; rewrite (Hi k b Hk); lia | lia |].
  split; [|done]. split; [|done]. intros i. destruct (Z.leb_spec 0 i) as [Hpos|Hneg].
  - destruct (Z.ltb_spec i (Z.of_nat (length blocks))).
    + replace i with (0 + Z.of_nat (Z.to_nat i)) at 1 by lia. apply P2. lia.
    + rewrite P1 by lia. rewrite Hb. destruct (Z.leb_spec 0 i); [|lia].
      rewrite !lookup_ge_None_2 by lia. done.
  - rewrite P3 by lia. rewrite Hb. by destruct (Z.leb_spec 0 i); [lia|].
Qed.

Lemma rebuild_core_state c w :
  nd_ledger (rebuild_core c w) = nd_ledger c
  ∧ nd_world (rebuild_core c w) = match w with Ok w => w | Err _ => nd_world c end.
Proof.
  unfold rebuild_core. destruct w; cbn; destruct (policy_build_from_blocks _);
    cbn; destruct (capability_build_from_blocks _); done.
Qed.

(** The rebuild restores every projection of whatever chain storage holds. *)
Lemma rebuild_projects n :
  holds_blocks (stored (fn_storage n)) (fn_chain n) →
  projects (fn_chain n) (rebuild_runtime_state_from_chain n)
  ∧ fn_chain (rebuild_runtime_state_from_chain n) = fn_chain n
  ∧ fn_engine (rebuild_runtime_state_from_chain n) = rebuild_from_chain (fn_chain n).
Proof.
  intros Hh. unfold rebuild_runtime_state_from_chain.
  destruct (rebuild_world_state_spec _ _ Hh) as (s & -> & Hst & Hw).
  destruct (rebuild_core_state (fn_core n) (Ok (world_of (fn_chain n)))) as [Hl Hworld].
  set (k := rebuild_core _ _) in *. clearbody k.
  unfold fn_chain in *. cbn in *. rewrite Hl. split_and!; [|done|done].
  split; cbn; try done.
  - by rewrite Hst.
  - intros key Hk. rewrite Hw. apply replay_writes_lookup. by right.
Qed.

(** ** Every handler keeps the projections current *)

(** The state the gates may touch: caches only. *)
Definition same_state (c c' : Node) : Prop :=
  nd_ledger c' = nd_ledger c ∧ nd_world c' = nd_world c ∧ nd_contracts c' = nd_contracts c.

Lemma effective_set_state c h : same_state c (capability_effective_set c h).1.
Proof.
  unfold capability_effective_set. destruct (nd_history c); [done|].
  by destruct (capability_build_from_blocks _).
Qed.

Lemma admit_peer_block_state now c b :
  same_state c (admit_peer_block parse_value base64_decode content_hash now c b).1.
Proof.
  unfold admit_peer_block, consensus_valid. destruct (negb _); [done|].
  set (c1 := match nd_history c with Some _ => c | None => _ end).
  assert (same_state c c1) as Hs.
  { unfold c1. destruct (nd_history c); [done|]. by destruct (capability_build_from_blocks _). }
  destruct (negb _); [done|]. destruct (last _); [|done]. destruct (negb _); [done|].
  destruct (certificate b); [|done]. destruct (_ && _); [|done].
  by destruct (derive_validator_provider _ _ _ _ _ _).
Qed.

Lemma admit_peer_block_index now c b c' :
  admit_peer_block parse_value base64_decode content_hash now c b = (c', Admit) →
  index b = Z.of_nat (length (chain (nd_ledger c))).
Proof.
  unfold admit_peer_block. destruct (negb _); [done|].
  set (c1 := match nd_history c with Some _ => c | None => _ end).
  destruct (Z.eqb_spec (index b) (Z.of_nat (length (chain (nd_ledger c))))); [done|].
  cbn [negb]. by destruct (_ <? _).
Qed.

Lemma enforce_block_state c b per_tx : same_state c (enforce_block_endorsements c b per_tx).1.
Proof.
  unfold enforce_block_endorsements. destruct (nd_endorsement c); [|done].
  pose proof (effective_set_state c (index b)) as Hs.
  destruct (capability_effective_set c (index b)) as [c1 [set|]]; [|done]. by destruct (negb _).
Qed.

Lemma submission_gate_state c tx : same_state c (submission_gate c tx).1.
Proof.
  unfold submission_gate. destruct (nd_endorsement c); [|done].
  pose proof (effective_set_state c (Z.of_nat (length (chain (nd_ledger c))))) as Hs.
  by destruct (capability_effective_set c _) as [c1 [set|]].
Qed.

Lemma current_same_state n c : same_state (fn_core n) c → current n → current (with_core n c).
Proof.
  intros (Hl & Hw & Hc) [Hp Hg]. unfold current, fn_chain. cbn. rewrite Hl.
  split; [by apply projects_with_core | done].
Qed.

(** A step that keeps the chain keeps the node current when it keeps the projections. *)
Lemma current_keep n n' :
  fn_chain n' = fn_chain n → (∀ c, projects c n → projects c n') → current n → current n'.
Proof. intros Hc Hp [H1 H2]. unfold current. rewrite Hc. auto. Qed.

Lemma submit_transaction_current n tx : current n → current (submit_transaction n tx).1.
Proof.
  intros Hn. unfold submit_transaction. pose proof (submission_gate_state (fn_core n) tx) as Hs.
  destruct (submission_gate (fn_core n) tx) as [c [[]|]]; [|by apply current_same_state].
  apply (current_same_state n c) in Hn; [|done].
  pose proof (add_transaction_chain (nd_ledger c) tx) as Hl.
  destruct (add_transaction (nd_ledger c) tx) as [l [[]|]]; cbn in Hl.
  - destruct (engine_react _ _ _) as [e generated]. revert Hn. apply current_keep.
    + unfold fn_chain. cbn. by rewrite add_generated_chain.
    + intros c' Hp. by apply projects_emit, projects_with_ledger, projects_with_engine, projects_with_ledger.
  - revert Hn. apply current_keep; [done|]. intros c' Hp. by apply projects_with_ledger.
Qed.

Lemma receive_transaction_current n stable tx :
  current n → current (receive_transaction n stable tx).1.
Proof.
  intros Hn. unfold receive_transaction. destruct (negb _); [done|].
  destruct (engine_react _ _ _) as [e generated].
  set (n1 := emit (with_engine n e) _). pose proof (add_transaction_chain (nd_ledger (fn_core n1)) tx) as Hl.
  destruct (add_transaction _ tx) as [l r]. cbn in Hl. revert Hn. apply current_keep.
  - unfold fn_chain. destruct (is_ok r); cbn; by rewrite add_generated_chain.
  - intros c Hp. apply projects_with_ledger.
    assert (projects c n1) by (by apply projects_emit, projects_with_engine).
    destruct (is_ok r); [by apply projects_emit | done].
Qed.

(** A block appended to the chain that links to the tip. *)
Lemma append_current n l b :
  current n → chain l = fn_chain n ++ [b] → index b = Z.of_nat (length (fn_chain n)) →
  (∃ tip, last (fn_chain n) = Some tip ∧ chains_to b tip = Ok tt) →
  current (after_commit (with_ledger n l) b).1.
Proof.
  intros [Hp Hg] Hl Hi (tip & Htip & Hct). unfold current. rewrite after_commit_chain.
  assert (fn_chain (with_ledger n l) = fn_chain n ++ [b]) as -> by done. split.
  - apply after_commit_projects; [by apply projects_with_ledger | done |]. rewrite Htip.
    apply chains_to_Ok in Hct as (Hh & Hix & _). unfold validate_tip_chain. by rewrite Hh, Hix, Z.eqb_refl, str_eqb_refl.
  - destruct Hg as (g & Hg & Hv). exists g. by destruct (fn_chain n).
Qed.

Lemma receive_block_cases now conn n stable b :
  (∃ c out, receive_block now conn n stable b = (with_core n c, out) ∧ same_state (fn_core n) c)
  ∨ (∃ c l out, same_state (fn_core n) c ∧ chain l = fn_chain n ++ [b]
      ∧ index b = Z.of_nat (length (fn_chain n))
      ∧ (∃ tip, last (fn_chain n) = Some tip ∧ chains_to b tip = Ok tt)
      ∧ receive_block now conn n stable b =
          (emit (after_commit (with_ledger (with_core n c) l) b).1
             [BlockReceived (index b) (hash b) (cert_pow b)], out)).
Proof.
  unfold receive_block. destruct (negb _); [left; exists (fn_core n), []; by destruct n|].
  pose proof (admit_peer_block_state now (fn_core n) b) as Hs.
  destruct (admit_peer_block _ _ _ _ _ b) as [c v] eqn:Had. cbn in Hs.
  destruct v; [left; eauto..|].
  pose proof (admit_peer_block_index _ _ _ _ Had) as Hi.
  apply admit_peer_block_inv in Had as (_ & _ & _ & _ & (tip & Htip & Hct) & _).
  pose proof (enforce_block_state c b []) as Hs2.
  destruct (enforce_block_endorsements c b []) as [c2 [[]|]]; cbn in Hs2.
  - assert (same_state (fn_core n) c2) as Hs3.
    { destruct Hs as (? & ? & ?), Hs2 as (? & ? & ?). split_and!; congruence. }
    right. exists c2, (append_peer_block (nd_ledger c2) b).1.
    destruct Hs3 as (Hl & Hs3).
    change (with_core (with_core n c) c2) with (with_core n c2).
    destruct (after_commit _ b) as [m generated].
    eexists. split; [done|]. split; [|split; [done|]; split; [eauto|]].
    + unfold append_peer_block. rewrite Hl, Htip, Hct. done.
    + done.
  - left. exists c2, []. split; [done|]. destruct Hs as (? & ? & ?), Hs2 as (? & ? & ?). split_and!; congruence.
Qed.

Lemma receive_block_current now conn n stable b :
  current n → current (receive_block now conn n stable b).1.
Proof.
  intros Hn. destruct (receive_block_cases now conn n stable b)
    as [(c & out & -> & Hs)|(c & l & out & Hs & Hl & Hi & Hct & ->)]; cbn [fst].
  - by apply current_same_state.
  - apply (current_same_state n c Hs) in Hn. destruct Hs as [Hsl _].
    assert (fn_chain (with_core n c) = fn_chain n) as Hc by (unfold fn_chain; cbn; by rewrite Hsl).
    rewrite <- Hc in *. pose proof (append_current (with_core n c) l b Hn Hl Hi Hct) as Hcur.
    revert Hcur. apply current_keep; [done|]. intros ? ?. by apply projects_emit.
Qed.

Lemma receive_suffix_app now conn n stable bs1 bs2 :
  receive_suffix now conn n stable (bs1 ++ bs2) =
  let '(n1, out1) := receive_suffix now conn n stable bs1 in
  let '(n2, out2) := receive_suffix now conn n1 stable bs2 in (n2, out1 ++ out2).
Proof.
  unfold receive_suffix. rewrite foldl_app.
  destruct (foldl _ (n, []) bs1) as [n1 out1]. revert n1 out1. induction bs2 as [|b bs IH]; intros n1 out1.
  { cbn. by rewrite app_nil_r. }
  cbn [foldl fst snd]. destruct (receive_block now conn n1 stable b) as [n2 out2].
  rewrite IH. cbn. rewrite (IH n2 out2). destruct (foldl _ (n2, []) bs) as [n3 out3].
  by rewrite app_assoc.
Qed.

Lemma receive_suffix_current now conn n stable blocks :
  current n → current (receive_suffix now conn n stable blocks).1.
Proof.
  induction blocks as [|b blocks IH] using rev_ind; intros Hn; [done|]. rewrite receive_suffix_app.
  specialize (IH Hn). destruct (receive_suffix _ _ n _ blocks) as [n1 out1]. cbn.
  pose proof (receive_block_current now conn n1 stable b IH) as Hc.
  by destruct (receive_block now conn n1 stable b).
Qed.

(** The positions of an adopted candidate. *)
Lemma candidate_positions l g cand l' :
  try_replace_chain l cand = (l', true) → head (chain l) = Some g → is_valid g = true → index g = 0 →
  no_collision [g] (opt_list (head cand)) → Z.of_nat (length cand) ≤ U64_MAX →
  (∀ k b, cand !! k = Some b → index b = Z.of_nat k)
  ∧ (length (chain l) ≤ length cand)%nat ∧ chain l' = cand
  ∧ ∃ cg, head cand = Some cg ∧ is_valid cg = true.
Proof.
  intros (Hlen & Hgen & Hcand & Hcg & ->)%try_replace_true Hg Hv Hi Hnc Hmax.
  destruct cand as [|cg rest]; [cbn in *; lia|]. specialize (Hcand cg rest eq_refl).
  apply check_candidate_Ok in Hcand as (Hl & _).
  assert (is_valid cg = true) as Hcv by (unfold check_genesis in Hcg; by destruct (is_valid cg)).
  assert (index cg = 0) as H0.
  { assert (header g = header cg) as Hh.
    { apply Hnc; [by left | by left |]. specialize (Hgen g cg Hg eq_refl). unfold is_valid in *.
      bool_hyps. congruence. }
    unfold header in Hh. congruence. }
  split_and!; [|lia|done|by exists cg]. intros k b. apply linked_index; [|done|cbn in Hmax; lia].
  apply (each_link_linked (check_link (difficulty l))); [|done].
  intros x q. unfold check_link. by destruct (chains_to x q) as [[]|].
Qed.

Lemma receive_full_chain_current vk n blocks :
  current n → Z.of_nat (length blocks) ≤ U64_MAX →
  no_collision (opt_list (head (fn_chain n))) (opt_list (head blocks)) →
  current (receive_full_chain vk n blocks).
Proof.
  intros Hn Hmax Hnc. unfold receive_full_chain. destruct (negb _); [done|]. destruct (negb _); [done|].
  destruct (try_replace_chain _ blocks) as [l [|]] eqn:Hr.
  - destruct Hn as [Hp (g & Hg & Hv)]. rewrite Hg in Hnc.
    assert (index g = 0) as Hi.
    { destruct Hp as [[_ Hidx] _ _ _ _ _]. destruct (fn_chain n); [done|]. injection Hg as ->.
      by apply (Hidx 0%nat). }
    destruct (candidate_positions _ _ _ _ Hr Hg Hv Hi Hnc Hmax) as (Hpos & Hlen & Hl & Hcg).
    set (n1 := emit _ _). assert (fn_chain n1 = blocks) as Hc1 by (unfold n1, fn_chain; done).
    destruct (put_blocks_holds (fn_storage n) (fn_chain n) blocks (pr_blocks _ _ Hp) Hlen Hpos) as [Hh _].
    assert (holds_blocks (stored (fn_storage n1)) (fn_chain n1)) as Hh1.
    { rewrite Hc1. unfold n1, fn_chain. cbn. by rewrite Hl. }
    destruct (rebuild_projects n1 Hh1) as (Hpr & Hc & _). rewrite <- Hc in Hpr. split; [done|].
    rewrite Hc, Hc1. done.
  - assert (l = nd_ledger (fn_core n)) as -> by (revert Hr; unfold try_replace_chain; repeat case_match; by intros [= <-]).
    revert Hn. apply current_keep; [done|]. intros c. by rewrite projects_with_ledger.
Qed.

Lemma commit_mined_chain l b prev l' :
  commit_mined_block l b prev = (l', Ok true) → chain l' = chain l ++ [b].
Proof.
  unfold commit_mined_block. destruct (last _); [|done]. destruct (negb _); [done|].
  assert (chain (fold_capability l).1 = chain l) as Hf by (unfold fold_capability; by repeat case_match).
  destruct (fold_capability l) as [l1 [[]|]]; [|done]. cbn in Hf. rewrite <- Hf.
  destruct (capability_history l1); [|done]. destruct (capability_validate_block _ b) as [h' [[]|]]; [|done].
  destruct (policy_build_from_blocks _); [|done]. destruct (policy_validate_block _ b); [|done].
  cbn. destruct (committed_ids l1); by intros [= <-].
Qed.

(** ** Start, and every run after it *)

Lemma persist_chain_present s blocks :
  (∀ b, b ∈ blocks → is_Some (stored s !! index b)) → persist_chain s blocks = (s, Ok tt).
Proof.
  induction blocks as [|b blocks IH]; intros H; [done|]. cbn [persist_chain]. rewrite get_block_law.
  destruct (H b) as [x ->]; [by left|]. apply IH. intros x' Hx. apply H. by right.
Qed.

(** A store that already holds the chain of the ledger, or an empty store under a fresh
    ledger. *)
Definition bootable (n : FullNode) : Prop :=
  (∃ g, head (fn_chain n) = Some g ∧ is_valid g = true)
  ∧ (holds_blocks (stored (fn_storage n)) (fn_chain n)
     ∨ ∃ g, fn_chain n = [g] ∧ index g = 0 ∧ write_set g = [] ∧ stored (fn_storage n) = ∅).

Lemma projects_restart c n (p : PeerNode S) l :
  pn_storage p = fn_storage n → projects c n → projects c (with_equivocations (with_peers n p) l).
Proof. intros Hp [H1 H2 H3 H4 H5 H6]. split; unfold fn_storage in *; cbn; rewrite ?Hp; assumption. Qed.

Lemma start_current n : bootable n → current (start n).1 ∧ (start n).2 = Ok tt ∧ fn_chain (start n).1 = fn_chain n.
Proof.
  intros [Hg [Hh|(g & Hc & Hi & Hws & Hst)]]; unfold start.
  - destruct (rebuild_projects n Hh) as (Hp & Hc & _). set (n1 := rebuild_runtime_state_from_chain n) in *.
    set (n2 := with_equivocations _ _).
    assert (projects (fn_chain n) n2) as Hp2 by (unfold n2; by apply projects_restart).
    assert (fn_chain n2 = fn_chain n) as Hc2 by done.
    rewrite (persist_chain_present (fn_storage n2) (fn_chain n2)).
    + rewrite <- Hc2 in Hg, Hp2. split; [|by rewrite <- Hc2].
      split; [|done]. destruct Hp2 as [? ? ? ? ? ?]. by split.
    + rewrite Hc2. intros b Hb. apply list_elem_of_lookup in Hb as [k Hk].
      destruct Hp2 as [[Hb Hidx] _ _ _ _ _]. rewrite (Hidx k b Hk), Hb.
      destruct (Z.leb_spec 0 (Z.of_nat k)); [|lia]. rewrite Nat2Z.id. eauto.
  - assert (rebuild_world_state (fn_storage n) = (fn_storage n, Ok ∅)) as Hr.
    { unfold rebuild_world_state. rewrite latest_block_index_law, Hst. done. }
    unfold rebuild_runtime_state_from_chain. rewrite Hr.
    destruct (rebuild_core_state (fn_core n) (Ok ∅)) as [Hl Hworld].
    set (k := rebuild_core _ _) in *. clearbody k.
    set (n2 := with_equivocations _ _).
    assert (fn_chain n2 = [g]) as Hc2 by (unfold n2, fn_chain in *; cbn; by rewrite Hl).
    assert (fn_storage n2 = fn_storage n) as Hs2 by done.
    rewrite Hc2, Hs2. cbn [persist_chain]. rewrite get_block_law, Hst, lookup_empty.
    destruct (apply_block_law (fn_storage n) [] g) as (s' & -> & Hst' & Hw').
    { rewrite Hst. split; [intros i; by destruct (0 <=? i)|done]. }
    { cbn. by rewrite Hi. }
    cbn. split; [|split; [done|]; by rewrite Hc]. unfold current.
    assert (fn_chain (with_storage n2 s') = [g]) as -> by done. rewrite Hc in Hg. split; [|done].
    unfold fn_chain in Hc, Hc2. split; cbn.
    + rewrite Hst', Hst. apply (holds_blocks_push ∅ [] g); [|done].
      split; [intros i; rewrite lookup_empty; by destruct (0 <=? i)|done].
    + intros key (b & w & Hb & Hw & _). apply list_elem_of_singleton in Hb as ->. rewrite Hws in Hw.
      by apply elem_of_nil in Hw.
    + rewrite Hworld. unfold world_of. cbn. by rewrite Hws.
    + unfold fn_chain. cbn. by rewrite Hl, Hc.
    + unfold fn_chain. cbn. by rewrite Hl, Hc.
    + done.
Qed.

(** What may happen to a running node.  A mined block links to the tip it was built on;
    a received chain has a length a vector can have, and its genesis does not collide
    with the local one. *)
Inductive node_step (n : FullNode) : FullNode → Prop :=
| step_submit tx : node_step n (submit_transaction n tx).1
| step_transaction stable tx : node_step n (receive_transaction n stable tx).1
| step_block now conn stable b : node_step n (receive_block now conn n stable b).1
| step_chain vk now conn stable from blocks :
    Z.of_nat (length blocks) ≤ U64_MAX →
    no_collision (opt_list (head (fn_chain n))) (opt_list (head blocks)) →
    node_step n (receive_chain vk now conn n stable from blocks).1
| step_mined note tip prev l :
    commit_mined_block (nd_ledger (fn_core n)) (cn_block note) prev = (l, Ok true) →
    last (fn_chain n) = Some tip → chains_to (cn_block note) tip = Ok tt →
    Z.of_nat (length (fn_chain n)) ≤ U64_MAX →
    node_step n (mined (with_ledger n l) note).1.

Lemma node_step_current n n' : current n → node_step n n' → current n'.
Proof.
  intros Hn Hs. destruct Hs as [tx|stable tx|now conn stable b|vk now conn stable from blocks Hmax Hnc|note tip prev l Hc Htip Hct Hmax].
  - by apply submit_transaction_current.
  - by apply receive_transaction_current.
  - by apply receive_block_current.
  - unfold receive_chain. destruct (from =? 0); [by apply receive_full_chain_current|].
    by apply receive_suffix_current.
  - unfold mined. pose proof (append_current n l (cn_block note) Hn) as Hap.
    destruct (after_commit _ _) as [m generated]. cbn in *.
    apply (current_keep m); [done|intros ? ?; by apply projects_emit|]. apply Hap.
    + by apply commit_mined_chain in Hc.
    + destruct Hn as [[[_ Hidx] _ _ _ _ _] _]. apply chains_to_Ok in Hct as (_ & Hi & _).
      rewrite last_lookup in Htip. pose proof (lookup_lt_Some _ _ _ Htip).
      rewrite Hi, (Hidx _ _ Htip), add64_small; lia.
    + eauto.
Qed.

(** ** The engine's executor *)

Definition ungated (n : FullNode) : Prop := executor (fn_engine n) = None.

Lemma engine_react_ungated create e tx :
  (∀ e d, executor (create e d) = executor e) → executor (engine_react create e tx).1 = executor e.
Proof. intros H. unfold engine_react. destruct (tx_kind tx); try done. apply H. Qed.

Lemma after_commit_engine n b : fn_engine (after_commit n b).1 = fn_engine n.
Proof.
  unfold after_commit, watch_block. destruct (apply_block _ b) as [s r].
  destruct (commit_updates _ _ _ _ b) as [[w orders] snap]. by destruct (foldl admit_order _ orders).
Qed.

Lemma receive_block_engine now conn n stable b : fn_engine (receive_block now conn n stable b).1 = fn_engine n.
Proof.
  unfold receive_block. destruct (negb (may_propose n stable)); [done|].
  destruct (admit_peer_block _ _ _ _ _ _) as [c [| |]]; try done.
  destruct (enforce_block_endorsements c b []) as [c' [u|]]; [|done].
  pose proof (after_commit_engine (with_ledger (with_core (with_core n c) c') (append_peer_block (nd_ledger c') b).1) b) as H.
  by destruct (after_commit _ b).
Qed.

(** No step of a running node attaches an executor to the engine. *)
Lemma node_step_ungated n n' : ungated n → node_step n n' → ungated n'.
Proof.
  unfold ungated.
  intros Hn Hs. destruct Hs as [tx|stable tx|now conn stable b|vk now conn stable from blocks _ _|note tip prev l _ _ _ _].
  - unfold submit_transaction. destruct (submission_gate _ _) as [c [u|]]; [|done].
    destruct (add_transaction _ _) as [l [u'|]]; [|done]. cbn [fn_engine with_ledger with_core].
    pose proof (engine_react_ungated create_submitted (fn_engine n) tx) as H.
    destruct (engine_react _ _ _) as [e g]. cbn in *. rewrite H; [done|].
    intros e' d. unfold create_submitted, register_contract. by destruct (contracts e' !! _).
  - unfold receive_transaction. destruct (negb (may_propose n stable)); [done|].
    pose proof (engine_react_ungated create_received (fn_engine n) tx) as H.
    destruct (engine_react _ _ _) as [e g]. cbn in *. destruct (add_transaction _ _) as [l r].
    destruct (is_ok r); cbn; by rewrite H.
  - by rewrite receive_block_engine.
  - unfold receive_chain. destruct (from =? 0); cbn.
    + unfold receive_full_chain. destruct (negb _); [done|]. destruct (negb _); [done|].
      destruct (try_replace_chain _ blocks) as [l []]; [|done].
      unfold rebuild_runtime_state_from_chain. by destruct (rebuild_world_state _).
    + unfold receive_suffix. generalize (@nil (N * Message)).
      revert n Hn. induction blocks as [|b blocks IH]; intros n Hn out; [done|]. cbn [foldl fst snd].
      pose proof (receive_block_engine now conn n stable b) as Hb.
      destruct (receive_block _ _ _ _ _) as [n' o]. cbn in *. apply IH. by rewrite Hb.
  - unfold mined. pose proof (after_commit_engine (with_ledger n l) (cn_block note)) as H.
    destruct (after_commit _ _) as [m g]. cbn in *. by rewrite H.
Qed.

(** From a start over a store that holds the ledger's chain (or an empty store under a
    fresh ledger), after any sequence of submissions, peer transactions, peer blocks,
    received suffixes, adopted chains and mined blocks, every projection is the one of the
    node's own chain: storage holds exactly its blocks and its committed state, the cached
    world state is the replay of its write sets, and custody and flat records are those of
    its blocks in order; in particular what was kept incrementally is what a rebuild from
    the chain gives. *)
Theorem projections_always_current n0 n :
  bootable n0 → rtc node_step (start n0).1 n →
  projects (fn_chain n) n
  ∧ projects (fn_chain n) (rebuild_runtime_state_from_chain n).
Proof.
  intros Hb Hrun. destruct (start_current n0 Hb) as (Hcur & _ & _).
  assert (current n) as [Hp _].
  { revert Hcur. induction Hrun as [|n1 n2 n3 Hs _ IH]; [done|]. intros Hcur. apply IH.
    by eapply node_step_current. }
  split; [done|]. by destruct (rebuild_projects n (pr_blocks _ _ Hp)) as (? & _ & _).
Qed.

(** ** Catching up *)

Lemma add_transaction_difficulty l tx : difficulty (add_transaction l tx).1 = difficulty l.
Proof.
  unfold add_transaction. destruct (is_empty _); [done|].
  assert (difficulty (fold_capability l).1 = difficulty l) as Hf
    by (unfold fold_capability; by repeat case_match).
  assert (∀ l, difficulty (fold_committed_ids l) = difficulty l) as Hi.
  { intros l0. unfold fold_committed_ids. by repeat case_match. }
  destruct (fold_capability l) as [l1 [[]|e]]; [|done].
  destruct (check_admission _ _ _); [|done]. cbn in Hf. rewrite <- Hf, <- (Hi l1). by repeat case_match.
Qed.

Lemma admit_order_difficulty orders l acc :
  difficulty (foldl admit_order (l, acc) orders).1 = difficulty l.
Proof.
  revert l acc. induction orders as [|o orders IH]; intros l acc; [done|]. cbn [foldl].
  unfold admit_order at 2. cbn [fst snd]. pose proof (add_transaction_difficulty l o) as Hc.
  destruct (add_transaction l o) as [l' r]. by rewrite IH.
Qed.

(** The hook leaves the core as [Node] has it, up to the pool, and the registry alone. *)
Lemma after_commit_core n b : ∃ applied l,
  fn_core (after_commit n b).1 = set_ledger (after_block_commit applied (fn_core n) b) l
  ∧ chain l = fn_chain n ∧ difficulty l = difficulty (nd_ledger (fn_core n))
  ∧ pn_registry (fn_peers (after_commit n b).1) = pn_registry (fn_peers n).
Proof.
  pose proof (after_commit_chain n b) as Hch. unfold after_commit in *.
  destruct (apply_block _ b) as [s r]. exists (is_ok r). unfold watch_block in *.
  destruct (commit_updates _ _ _ _ _) as [[w orders] snapshot].
  set (n1 := with_storage (with_watcher _ w) _) in *.
  pose proof (admit_order_difficulty orders (nd_ledger (fn_core n1)) []) as Hd.
  destruct (foldl admit_order _ orders) as [l generated]. exists l. unfold fn_chain in *. cbn in *.
  split; [done|]. split; [done|]. split; [|done]. rewrite Hd. by rewrite after_block_commit_ledger.
Qed.

(** Folding the activations alone gives the history the block's validation gives. *)
Lemma activations_fold set idx txs h h' :
  capability_txs set idx h txs = (h', Ok tt) →
  fold_result (λ h a, apply_activation h a idx)
    (omap (λ tx, match tx_kind tx with KCapabilityActivation a => Some a | _ => None end) txs) h = Ok h'.
Proof.
  revert h. induction txs as [|tx txs IH]; intros h; cbn [capability_txs]; [by intros [= ->]|].
  csimpl. destruct (tx_kind tx); try apply IH.
  - destruct (validate_record_under _ _); [apply IH | done].
  - cbn [fold_result]. destruct (apply_activation h _ idx); [apply IH | done].
Qed.

(** A node that follows [c] at difficulty [d], with the registry [r] and the endorsement
    provider [e], if any. *)
Record follows (c : list Block) (d : nat) (r : PeerRegistry) (e : option EndorsementProvider)
    (n : FullNode) : Prop := {
  fo_chain : fn_chain n = c;
  fo_history : ∃ h, nd_history (fn_core n) = Some h ∧ capability_build_from_blocks c = Ok h;
  fo_endorsement : nd_endorsement (fn_core n) = e;
  fo_difficulty : difficulty (nd_ledger (fn_core n)) = d;
  fo_registry : pn_registry (fn_peers n) = r }.

(** What the next block of a proof-of-work chain satisfies. *)
Record pow_next (now : Z) (d : nat) (c : list Block) (b : Block) : Prop := {
  pn_linked : ∃ tip, last c = Some tip ∧ chains_to b tip = Ok tt;
  pn_index : index b = Z.of_nat (length c);
  pn_timely : timestamp_within_future_window (index b) (timestamp b) now = true;
  pn_pow : has_valid_pow b d = true;
  pn_certificate : match certificate b with Some q => is_degenerate q = true | None => True end }.

(** No endorsement is asked for at the height of [c]'s next block. *)
Definition unendorsed (e : option EndorsementProvider) (c : list Block) : Prop :=
  e = None ∨ ∀ h, capability_build_from_blocks c = Ok h →
    Capability.is_active (effective_set h (Z.of_nat (length c))) ENDORSEMENT_CAPABILITY_ID = false.

Lemma follow_block now conn addr c d r e n b h' :
  follows c d r e n → unendorsed e c → pow_next now d c b → capability_build_from_blocks (c ++ [b]) = Ok h' →
  (∀ h, capability_build_from_blocks c = Ok h →
        is_read_only r addr (effective_set h (Z.of_nat (length c - 1))) = false) →
  follows (c ++ [b]) d r e (receive_block now conn n (Some addr) b).1.
Proof.
  intros [F1 (h & F2 & F2') F3 F4 F5] Hun [(tip & Htip & Hct) P2 P3 P4 P5] Hb Hro.
  unfold capability_build_from_blocks in Hb, F2'. rewrite fold_result_snoc, F2' in Hb. cbn in Hb.
  pose proof (capability_fold_block_Ok _ _ _ Hb) as Hval.
  unfold receive_block, may_propose, active_set_at_tip. rewrite F2, F5, F1, (Hro h F2'). cbn [negb].
  unfold admit_peer_block. unfold fn_chain in F1. rewrite F2, P3. cbn [negb].
  rewrite F1, P2, Z.eqb_refl, Htip, Hct, F2. cbn [negb is_ok default from_option id].
  rewrite Hval. cbn [is_ok snd].
  assert (∀ active, consensus_valid parse_value base64_decode content_hash active (fn_core n) b
                    = (fn_core n, true)) as Hcv.
  { intros active. unfold consensus_valid. rewrite F4, P4. destruct (certificate b); [|done].
    by rewrite P5, andb_false_r. }
  rewrite Hcv. cbn [andb].
  assert (enforce_block_endorsements (fn_core n) b [] = (fn_core n, Ok tt)) as ->.
  { unfold enforce_block_endorsements, capability_effective_set. rewrite F3, F2.
    destruct Hun as [->|Hun]; [done|]. rewrite P2, (Hun h F2'). by destruct e. }
  unfold append_peer_block. rewrite F1, Htip, Hct. cbn [is_ok negb fst].
  set (l := push_block _ b). set (n1 := with_ledger _ l).
  destruct (after_commit_core n1 b) as (applied & l2 & C1 & C2 & C3 & C4).
  destruct (after_commit n1 b) as [n2 generated]. cbn [fst] in *.
  assert (chain l2 = c ++ [b]) as Hl2 by (rewrite C2; unfold n1, fn_chain, l; cbn; by rewrite F1).
  split; unfold fn_chain; cbn.
  - by rewrite C1.
  - exists h'. rewrite C1. cbn. split; [|unfold capability_build_from_blocks; by rewrite fold_result_snoc, F2'].
    unfold after_block_commit. unfold n1. cbn. rewrite F2.
    unfold capability_validate_block in Hval. apply activations_fold in Hval.
    unfold activations. rewrite Hval. by destruct applied, (existsb _ _); try destruct (policy_build_from_blocks _).
  - rewrite C1. cbn. unfold after_block_commit, n1. cbn.
    by destruct applied, (existsb _ _); try destruct (policy_build_from_blocks _).
  - rewrite C1. cbn. rewrite C3. unfold n1, l. cbn. done.
  - rewrite C4. done.
Qed.

(** A proof-of-work chain another node may serve. *)
Record pow_chain (now : Z) (d k : nat) (c : list Block) : Prop := {
  pc_linked : linked c;
  pc_genesis : ∀ g, head c = Some g → index g = 0;
  pc_length : Z.of_nat (length c) ≤ U64_MAX;
  pc_suffix : ∀ i b, (k ≤ i)%nat → c !! i = Some b →
    timestamp_within_future_window (index b) (timestamp b) now = true ∧ has_valid_pow b d = true
    ∧ match certificate b with Some q => is_degenerate q = true | None => True end;
  pc_history : ∃ h, capability_build_from_blocks c = Ok h }.

Lemma linked_lookup c i p b :
  linked c → c !! i = Some p → c !! Datatypes.S i = Some b → chains_to b p = Ok tt.
Proof.
  revert i. induction c as [|x [|y c] IH]; intros i Hl Hp Hb; [done|done|].
  destruct Hl as [Hxy Hl]. destruct i as [|i]; [|by apply (IH i)].
  cbn in Hp, Hb. by injection Hp as <-; injection Hb as <-.
Qed.

Lemma pow_chain_next now d k c i b :
  pow_chain now d k c → (k ≤ i)%nat → (0 < i)%nat → c !! i = Some b → pow_next now d (take i c) b.
Proof.
  intros [C1 C2 C3 C4 _] Hk Hi Hb. destruct (C4 i b Hk Hb) as (T1 & T2 & T3).
  pose proof (lookup_lt_Some _ _ _ Hb) as Hlt.
  destruct (lookup_lt_is_Some_2 c (i - 1)) as [p Hp]; [lia|].
  split; [|rewrite length_take, Nat.min_l by lia|done|done|done].
  - exists p. rewrite last_lookup, length_take, Nat.min_l by lia.
    replace (Nat.pred i) with (i - 1)%nat by lia. rewrite lookup_take_lt by lia. split; [done|].
    apply (linked_lookup c (i - 1)); [done|done|]. by replace (Datatypes.S (i - 1)) with i by lia.
  - destruct c as [|g c]; [done|]. apply (linked_index c g); [done|by apply C2|cbn in *; lia|done].
Qed.

Lemma capability_build_prefix c i h :
  capability_build_from_blocks c = Ok h → ∃ h', capability_build_from_blocks (take i c) = Ok h'.
Proof.
  intros Hh. rewrite <- (take_drop i c) in Hh. unfold capability_build_from_blocks in *.
  rewrite fold_result_app in Hh. destruct (fold_result _ (take i c) _); [eauto|done].
Qed.

Lemma follow_suffix now conn addr d r e k c n :
  pow_chain now d k c → (0 < k)%nat → follows (take k c) d r e n →
  (∀ i, (k ≤ i)%nat → unendorsed e (take i c)) →
  (∀ i h, (k ≤ i)%nat → capability_build_from_blocks (take i c) = Ok h →
          is_read_only r addr (effective_set h (Z.of_nat (i - 1))) = false) →
  ∀ m, (k + m ≤ length c)%nat →
    follows (take (k + m) c) d r e (receive_suffix now conn n (Some addr) (take m (drop k c))).1.
Proof.
  intros Hc Hk Hf Hun Hro. induction m as [|m IH]; intros Hm; [by rewrite Nat.add_0_r|].
  destruct (lookup_lt_is_Some_2 c (k + m)) as [b Hb]; [lia|].
  rewrite (take_S_r (drop k c) m b) by (by rewrite lookup_drop). rewrite receive_suffix_app.
  specialize (IH ltac:(lia)). destruct (receive_suffix _ _ n _ (take m _)) as [n1 out1].
  unfold receive_suffix. cbn [foldl fst snd]. rewrite Nat.add_succ_r, (take_S_r c (k + m) b Hb).
  destruct (pc_history _ _ _ _ Hc) as [h Hh].
  destruct (capability_build_prefix c (Datatypes.S (k + m)) h Hh) as [h' Hh'].
  rewrite (take_S_r c (k + m) b Hb) in Hh'.
  assert (length (take (k + m) c) = (k + m)%nat) as Hlen by (rewrite length_take; lia).
  pose proof (follow_block now conn addr (take (k + m) c) d r e n1 b h') as Hstep.
  destruct (receive_block now conn n1 (Some addr) b) as [n2 out2]. cbn.
  apply Hstep; [done|apply Hun; lia| |done|].
  - eapply pow_chain_next; [done|lia|lia|done].
  - intros h0 Hh0. rewrite Hlen. apply Hro; [lia|done].
Qed.

(** A block beyond the next height fills a cold capability cache and asks its sender for
    the blocks from the node's own height on. *)
Lemma ahead_block_asks now conn addr c d r n b h :
  fn_chain n = c → c ≠ [] → capability_build_from_blocks c = Ok h →
  (nd_history (fn_core n) = None ∨ nd_history (fn_core n) = Some h) →
  difficulty (nd_ledger (fn_core n)) = d → pn_registry (fn_peers n) = r →
  is_read_only r addr (effective_set h (Z.of_nat (length c - 1))) = false →
  timestamp_within_future_window (index b) (timestamp b) now = true → Z.of_nat (length c) < index b →
  let '(n', out) := receive_block now conn n (Some addr) b in
  out = [(conn, MRequestChainFrom (Z.of_nat (length c)))]
  ∧ follows c d r (nd_endorsement (fn_core n)) n'.
Proof.
  intros Hc Hne Hh Hcache Hd Hr Hro Hts Hix. unfold receive_block, may_propose, active_set_at_tip.
  rewrite Hr, Hc, Hh.
  assert (is_read_only r addr match nd_history (fn_core n) with
    | Some h0 => effective_set h0 (Z.of_nat (length c - 1)) | None => effective_set h (Z.of_nat (length c - 1)) end
    = false) as -> by (by destruct Hcache as [->| ->]). cbn [negb].
  unfold admit_peer_block. rewrite Hts. cbn [negb]. unfold fn_chain in Hc. rewrite Hc, Hh.
  destruct (Z.eqb_spec (index b) (Z.of_nat (length c))); [lia|]. cbn [negb].
  destruct (Z.ltb_spec (Z.of_nat (length c)) (index b)); [|lia].
  destruct Hcache as [Hn|Hn]; rewrite Hn; cbn; unfold fn_chain; cbn; rewrite Hc; (split; [done|]);
    (split; [done|exists h; done|done|done|done]).
Qed.

(** C14: height-bounded catch-up works.  A node holds the first [k] blocks of a peer's valid
    proof-of-work chain, with its capability cache cold or that of these blocks; it has no
    endorsement provider, or endorsement is not active at the heights it misses; and the
    peer may propose at every one of them.  When the peer sends it any timely block beyond
    its next height, it appends nothing and asks that connection for the blocks from
    height [k] on; the peer answers with exactly the missing suffix; and folding the answer
    through the single-block handler leaves the node on the peer's whole chain.  (The request
    made after a Hello is the same, except that a node that holds only its genesis block
    asks for the whole chain.) *)
Theorem suffix_catches_up now conn addr vk d r k (a n : FullNode) b :
  pow_chain now d k (fn_chain a) → (0 < k ≤ length (fn_chain a))%nat →
  fn_chain n = take k (fn_chain a) →
  (∀ h, nd_history (fn_core n) = Some h → capability_build_from_blocks (take k (fn_chain a)) = Ok h) →
  difficulty (nd_ledger (fn_core n)) = d → pn_registry (fn_peers n) = r →
  (∀ i, (k ≤ i)%nat → unendorsed (nd_endorsement (fn_core n)) (take i (fn_chain a))) →
  (∀ i h, (k ≤ i)%nat → capability_build_from_blocks (take i (fn_chain a)) = Ok h →
          is_read_only r addr (effective_set h (Z.of_nat (i - 1))) = false) →
  timestamp_within_future_window (index b) (timestamp b) now = true → Z.of_nat k < index b →
  let '(n1, out) := receive_block now conn n (Some addr) b in
  fn_chain n1 = fn_chain n
  ∧ out = [(conn, MRequestChainFrom (Z.of_nat k))]
  ∧ answer_chain_from a (Z.of_nat k) = MChain (Z.of_nat k) (drop k (fn_chain a))
  ∧ fn_chain (receive_chain vk now conn n1 (Some addr) (Z.of_nat k) (drop k (fn_chain a))).1 = fn_chain a.
Proof.
  intros Hc [Hk Hle] Hn Hcache Hd Hr Hun Hro Hts Hix.
  destruct (pc_history _ _ _ _ Hc) as [ha Hha]. destruct (capability_build_prefix _ k _ Hha) as [h Hh].
  assert (length (take k (fn_chain a)) = k) as Hlen by (rewrite length_take; lia).
  pose proof (ahead_block_asks now conn addr (take k (fn_chain a)) d r n b h Hn) as Hask.
  rewrite Hlen in Hask. destruct (receive_block now conn n (Some addr) b) as [n1 out].
  destruct Hask as [-> Hf]; try done.
  - intros H0. by rewrite H0 in Hlen; cbn in Hlen; lia.
  - destruct (nd_history (fn_core n)) as [h0|]; [|by left]. right. rewrite (Hcache h0 eq_refl) in Hh. congruence.
  - by apply Hro.
  - split; [by rewrite (fo_chain _ _ _ _ _ Hf)|]. split; [done|]. split.
    + unfold answer_chain_from. rewrite Nat2Z.id. by apply Nat.leb_le in Hle as ->.
    + unfold receive_chain. destruct (Z.eqb_spec (Z.of_nat k) 0); [lia|].
      destruct (follow_suffix now conn addr d r _ k _ n1 Hc Hk Hf Hun Hro (length (fn_chain a) - k)) as [Hfin _ _ _ _]; [lia|].
      rewrite (firstn_all2 (n := length (fn_chain a) - k)) in Hfin by (rewrite length_drop; lia).
      rewrite Hfin. apply firstn_all2. lia.
Qed.

(** ** Adoption is the one of [Node] *)

(** The full-chain branch is [adopt_chain] on the state that storage yields once the new
    blocks are stored, with the contracts replayed from the adopted chain. *)
Lemma receive_full_chain_adopts vk n blocks :
  let w := (rebuild_world_state (put_blocks (fn_storage n) blocks)).2 in
  let '(c, adopted) := adopt_chain parse_value base64_decode vk w (fn_core n) blocks in
  fn_core (receive_full_chain vk n blocks) =
    (if adopted then set_contract_defs c (c_definition <$> contracts (rebuild_from_chain blocks)) else c).
Proof.
  cbv zeta. unfold adopt_chain, receive_full_chain. destruct (negb _); [done|]. destruct (negb _); [done|].
  destruct (try_replace_chain _ blocks) as [l [|]] eqn:Hr; [|done].
  apply try_replace_true in Hr as (_ & _ & _ & _ & ->). unfold rebuild_runtime_state_from_chain, fn_chain.
  cbn -[policy_build_from_blocks capability_build_from_blocks rebuild_core].
  destruct (rebuild_world_state _) as [s w]. unfold rebuild_core.
  cbn -[policy_build_from_blocks capability_build_from_blocks].
  destruct w, (policy_build_from_blocks blocks) eqn:Hp, (capability_build_from_blocks blocks) eqn:Hc;
    cbn -[policy_build_from_blocks capability_build_from_blocks]; rewrite Hp;
    cbn -[policy_build_from_blocks capability_build_from_blocks]; rewrite Hc; done.
Qed.

(** ** Where the handlers differ from what they promise *)

Lemma policy_build_poisoned c rest e :
  policy_build_from_blocks c = Err e → ∃ e', policy_build_from_blocks (c ++ rest) = Err e'.
Proof. unfold policy_build_from_blocks. rewrite fold_result_app. intros ->. eauto. Qed.

Lemma poisoned_chain_never_commits l e b prev :
  policy_build_from_blocks (chain l) = Err e → (commit_mined_block l b prev).2 ≠ Ok true.
Proof.
  intros He. unfold commit_mined_block. destruct (last _); [|done]. destruct (negb _); [done|].
  assert (chain (fold_capability l).1 = chain l) as Hf by (unfold fold_capability; by repeat case_match).
  destruct (fold_capability l) as [l1 [[]|]]; [|done]. cbn in Hf.
  destruct (capability_history l1); [|done]. destruct (capability_validate_block _ b) as [h' [[]|]]; [|done].
  rewrite <- Hf in He. cbn -[policy_build_from_blocks]. by rewrite He.
Qed.

(** One peer block with an invalid policy update stops a node from mining for good.  A node
    without an endorsement provider does not validate policy updates of peer blocks, so a
    block that only proof of work qualifies is appended; from then on, whatever is
    appended after it, no mined block is ever committed, because the commit rebuilds the
    policy history from the chain. *)
Theorem invalid_policy_block_halts_mining now conn addr c d r n b h' e :
  follows c d r None n → pow_next now d c b → capability_build_from_blocks (c ++ [b]) = Ok h' →
  (∀ h, capability_build_from_blocks c = Ok h →
        is_read_only r addr (effective_set h (Z.of_nat (length c - 1))) = false) →
  policy_build_from_blocks (c ++ [b]) = Err e →
  let n' := (receive_block now conn n (Some addr) b).1 in
  fn_chain n' = c ++ [b]
  ∧ ∀ l rest mined_block prev, chain l = fn_chain n' ++ rest →
      (commit_mined_block l mined_block prev).2 ≠ Ok true.
Proof.
  intros Hf Hn Hb Hro He. cbv zeta.
  destruct (follow_block now conn addr c d r None n b h' Hf (or_introl eq_refl) Hn Hb Hro) as [Hc _ _ _ _].
  split; [done|]. intros l rest b' prev Hl. rewrite Hc in Hl.
  destruct (policy_build_poisoned _ rest e He) as [e' He']. rewrite <- Hl in He'.
  by eapply poisoned_chain_never_commits.
Qed.

(** Peer transactions skip the endorsement evaluation: what a submission refuses,
    leaving the pool as it was, is queued when a peer sends it. *)
Theorem peer_transaction_skips_endorsement n P h tx addr e :
  nd_endorsement (fn_core n) = Some P → nd_history (fn_core n) = Some h →
  Capability.is_active (effective_set h (Z.of_nat (length (fn_chain n)))) ENDORSEMENT_CAPABILITY_ID = true →
  evaluate_transaction_endorsements (P := P) (nd_policies (fn_core n)) tx []
    (Z.of_nat (length (fn_chain n))) = Err e →
  may_propose n (Some addr) = true →
  (match tx_kind tx with KSupplyOffer _ | KContractCreation _ => False | _ => True end) →
  (submit_transaction n tx).2 = Err e
  ∧ nd_ledger (fn_core (submit_transaction n tx).1) = nd_ledger (fn_core n)
  ∧ nd_ledger (fn_core (receive_transaction n (Some addr) tx).1) = (add_transaction (nd_ledger (fn_core n)) tx).1.
Proof.
  intros HP Hh Hact He Hmay Hk. unfold submit_transaction, submission_gate, capability_effective_set.
  unfold fn_chain in *. rewrite HP, Hh, Hact, He. split; [done|]. split; [done|].
  unfold receive_transaction. rewrite Hmay. cbn [negb].
  assert (engine_react create_received (fn_engine n) tx = (fn_engine n, [])) as ->
    by (unfold engine_react; by destruct (tx_kind tx)).
  cbn. by destruct (add_transaction _ tx) as [l []].
Qed.

(** A received offer is evaluated, and its quantity booked, whether or not the ledger
    takes the transaction. *)
Lemma received_offer_always_booked n addr tx o :
  may_propose n (Some addr) = true → tx_kind tx = KSupplyOffer o →
  fn_engine (receive_transaction n (Some addr) tx).1
    = (evaluate_supply_offer base64_std json_offer clock (fn_engine n) o (tx_id tx)).1.
Proof.
  intros Hmay Hk. unfold receive_transaction, engine_react. rewrite Hmay, Hk. cbn [negb].
  destruct (evaluate_supply_offer _ _ _ _ _ _) as [e generated].
  cbn. by destruct (add_transaction _ tx) as [l []].
Qed.

End runtime.
