(* ===== verification/PeerLoop.v ===== *)
(** The peer loop (glasschain-network: node.rs, [process_message] and [handle_peer]).

    A [LiveNode] joins the running node of [Runtime] with what only the peer handlers
    use: its own ids and staple, the collections with the expiry index of the transient
    store, the vote journal and the leader's vote channel.  [process_message] is the whole
    dispatch of one received message, and [net_event] what happens on any of the node's
    connections: it opens, a message arrives, its stream fails.  Handlers run one at a
    time; what they queue on connections and hand to the dialler is returned. *)

From S2P Require Import Prelude Types WriteSet Chain Capability Msp Ledger Storage Bft Rounds Validators Node.
From S2P Require Import Indexer Ocsp CertVerifier Channel Transient Peers Outbound Private Wire Contracts Watcher Runtime.

Local Open Scope Z_scope.

(** What [handle_peer] keeps of a connection. *)
Record ConnTask := mkTask {
  ct_addr : string;
  ct_observed : string;
  ct_binding : option string;
  ct_stable : option string }.

Section peer_loop.
Context `{E : Env} `{B : Bls} `{D : Ed25519Crate} `{X : X509} `{P : Pki} `{C : OcspCrates}.
Context (parse_value : string → result string Value) (base64_decode : string → option string).
Context (content_hash : list (string * string * string) → Z).
Context (base64_std : string → result string string) (base64_encode : string → string).
Context (json_offer : SupplyOffer → string) (clock : string → Z).
Context (snapshot_to_json : WatcherStateSnapshot → result string string)
        (snapshot_of_json : string → result string WatcherStateSnapshot).
Context (tx_to_json : Transaction → result string string)
        (tx_of_json : string → result string Transaction)
        (block_json : Z → string → nat → string)
        (signed_to_json : SignedTransaction → result string string)
        (proof_to_json : EquivocationProof → result string string)
        (pin_to_json : StoredPeerPin → string)
        (envelope_to_json : PayloadEnvelope → string)
        (envelope_of_json : string → result CoreError PayloadEnvelope).
Context {S : Type} `{SP : StorageProvider S}.
Context (apply_block : S → Block → S * result CoreError unit).
(** The key of the verification-only provider of [verify_chain_certificates]. *)
Context (verifier_key : PrivateKey).

Record LiveNode := mkLive {
  lv_node : FullNode (S := S);
  lv_node_id : string;
  lv_listen_addr : string;
  lv_fingerprint : string;
  lv_staple : option string;
  lv_index : gmap string Z;
  lv_collections : list Channel;
  lv_receipts : VoteReceipts;
  lv_vote_tx : option (list BftVote) }.

Definition with_node (n : LiveNode) (f : FullNode (S := S)) : LiveNode :=
  mkLive f (lv_node_id n) (lv_listen_addr n) (lv_fingerprint n) (lv_staple n) (lv_index n)
    (lv_collections n) (lv_receipts n) (lv_vote_tx n).

Definition with_votes (n : LiveNode) (seen : VoteReceipts) (tx : option (list BftVote)) : LiveNode :=
  mkLive (lv_node n) (lv_node_id n) (lv_listen_addr n) (lv_fingerprint n) (lv_staple n) (lv_index n)
    (lv_collections n) seen tx.

(** The [PeerContext] of a connection. *)
Definition context_of (n : LiveNode) (t : ConnTask) : PeerContext :=
  mkContext (lv_node_id n) (lv_listen_addr n) (lv_fingerprint n) (ct_binding t).

(** The part of the node the private handlers read, with the given registered addresses. *)
Definition priv_view (n : LiveNode) (conns : gmap N string) : PrivNode S :=
  let f := lv_node n in
  mkPriv (fn_peers f) (lv_index n) (lv_collections n) (fn_identity f) (lv_node_id n)
    (nd_history (fn_core f)) (fn_chain f) conns.

(** What those handlers may have changed. *)
Definition with_private (n : LiveNode) (p : PrivNode S) : LiveNode :=
  let f := lv_node n in
  mkLive (Runtime.with_peers (with_core f (set_cache (fn_core f) (pv_cache p))) (pv_peers p)) (lv_node_id n) (lv_listen_addr n) (lv_fingerprint n)
    (lv_staple n) (pv_index p) (lv_collections n) (lv_receipts n) (lv_vote_tx n).

Definition own_conn (conn : N) (t : ConnTask) : gmap N string :=
  match ct_stable t with Some a => {[conn := a]} | None => ∅ end.

(** ** Round messages *)

(** [derive_validator_provider] on the node's state. *)
Definition derive (c : Node) : Node * option BftConsensusProvider :=
  let '(cache, p) := derive_validator_provider parse_value base64_decode content_hash (nd_validator_cache c)
                       (nd_consensus c) (nd_world c) in
  (set_validator_cache c cache, p).

Definition validator_of (c : Node) (p : option BftConsensusProvider) : Validator :=
  mkValidatorState (nd_round c) (nd_history c) (chain (nd_ledger c)) p.

Definition round_answer (n : LiveNode) (conn : N) (c : Node) (answer : Validator * option BftVote)
  : LiveNode * list (N * Message) :=
  (with_node n (with_core (lv_node n) (set_node_round c (bft_round answer.1))),
   option_list ((λ v, (conn, MVote v)) <$> answer.2)).

(** [handle_proposal]; the set is derived only for a valid candidate. *)
Definition on_proposal (n : LiveNode) (conn : N) (b : Block) (round : Z) : LiveNode * list (N * Message) :=
  let c := fn_core (lv_node n) in
  let s := validator_of c None in
  let '(c, p) := if candidate_valid s (proposal_round s b round) b then derive c else (c, None) in
  round_answer n conn c (handle_proposal (validator_of c p) b round).

(** [handle_precommit]; the set is derived only for the current height and round. *)
Definition on_precommit (n : LiveNode) (conn : N) (b : Block) (round : Z) (q : QuorumCertificate)
  : LiveNode * list (N * Message) :=
  let c := fn_core (lv_node n) in
  let current := match nd_round c with
                 | Some r => (br_height r =? index b) && (br_round r =? round)
                 | None => false
                 end in
  let '(c, p) := if current then derive c else (c, None) in
  round_answer n conn c (handle_precommit (validator_of c p) b round q).

(** [persist_equivocation_proof]: a proof that cannot be encoded or stored is only logged. *)
Definition store_proof (s : S) (e : EquivocationProof) : S :=
  match proof_to_json e with
  | Ok raw => (put_state s (equivocation_key e) raw).1
  | Err _ => s
  end.

(** [handle_vote] *)
Definition on_vote (n : LiveNode) (v : BftVote) : LiveNode :=
  let f := lv_node n in
  let '(c, p) := derive (fn_core f) in
  let f := with_core f c in
  let st := handle_vote false p (mkVoteState (lv_receipts n) (fn_equivocations f) ∅ (lv_vote_tx n)) v in
  let detected := drop (length (fn_equivocations f)) (equivocations st) in
  let f := with_equivocations f (equivocations st) in
  let f := with_storage f (foldl store_proof (fn_storage f) detected) in
  let f := emit f ((λ e, EquivocationDetected (eq_height e) (eq_public_key e)) <$> detected) in
  with_votes (with_node n f) (bft_receipts st) (bft_vote_tx st).

(** ** The dispatch *)

Definition request_message (r : ChainRequest) : Message :=
  match r with RequestChain => MRequestChain | RequestChainFrom i => MRequestChainFrom i end.

Definition private_message (m : PrivateMsg) : Message :=
  match m with
  | PrivatePayload coll com payload => MPrivatePayload coll com payload
  | RequestPrivatePayload coll com => MRequestPrivatePayload coll com
  end.

Definition on_hello (now : Z) (n : LiveNode) (conn : N) (t : ConnTask) (h : HelloMsg)
  : LiveNode * MessageEffect * list (N * Message) :=
  let f := lv_node n in
  let '(p, eff, request) := process_hello base64_std pin_to_json now (context_of n t) conn (ct_observed t)
                              (Z.of_nat (length (fn_chain f))) (fn_peers f) h in
  let f := Runtime.with_peers f p in
  let f := if disconnect eff then f else emit f [PeerConnected (h_listen_addr h)] in
  (with_node n f, eff, option_list ((λ r, (conn, request_message r)) <$> request)).

Definition on_payload (now : Z) (n : LiveNode) (conn : N) (t : ConnTask) (coll com payload : string) : LiveNode :=
  let '(p, stored) := process_private_payload envelope_to_json now (priv_view n (own_conn conn t)) conn coll com
                        payload in
  let n := with_private n p in
  if stored then with_node n (emit (lv_node n) [PrivatePayloadReceived coll com]) else n.

(** [process_message]: the node, the effect on the connection, what is queued on
    connections, and the addresses handed to the dialler. *)
Definition process_message (now : Z) (n : LiveNode) (conn : N) (t : ConnTask) (m : Message)
  : LiveNode * MessageEffect * list (N * Message) * list string :=
  let f := lv_node n in
  let quiet (r : FullNode (S := S) * list (N * Message)) := (with_node n r.1, effect_default, r.2, []) in
  match m with
  | MHello h => (on_hello now n conn t h, [])
  | MTransaction tx => quiet (receive_transaction base64_std json_offer clock f (ct_stable t) tx)
  | MBlock b =>
      quiet (receive_block parse_value base64_decode content_hash base64_std clock snapshot_to_json tx_to_json
               tx_of_json block_json signed_to_json apply_block now conn f (ct_stable t) b)
  | MChain from blocks =>
      quiet (receive_chain parse_value base64_decode content_hash base64_std clock snapshot_to_json
               snapshot_of_json tx_to_json tx_of_json block_json signed_to_json apply_block verifier_key now
               conn f (ct_stable t) from blocks)
  | MRequestChain => quiet (f, [(conn, answer_chain f)])
  | MRequestChainFrom from => quiet (f, [(conn, answer_chain_from f from)])
  | MRequestPeers => quiet (f, [(conn, MPeers (peers_reply (fn_peers f) (default (ct_addr t) (ct_stable t))))])
  | MPeers addrs =>
      let '(p, new) := learn_peers (fn_peers f) addrs in
      (with_node n (Runtime.with_peers f p), effect_default, [], new)
  | MPrivatePayload coll com payload => (on_payload now n conn t coll com payload, effect_default, [], [])
  | MRequestPrivatePayload coll com =>
      let '(p, out) := process_request envelope_of_json now (priv_view n (own_conn conn t)) conn coll com in
      (with_private n p, effect_default, (λ cm, (cm.1, private_message cm.2)) <$> out, [])
  | MProposal b round => let '(n, out) := on_proposal n conn b round in (n, effect_default, out, [])
  | MPrecommit b round q => let '(n, out) := on_precommit n conn b round q in (n, effect_default, out, [])
  | MVote v => (on_vote n v, effect_default, [], [])
  | MGoodbye _ => quiet (f, [])
  end.

(** ** The connections *)

Record Net := mkNet { nt_node : LiveNode; nt_tasks : gmap N ConnTask }.

(** What [handle_peer] sends first, on an empty queue that accepts it. *)
Definition first_message (n : LiveNode) (t : ConnTask) : Message :=
  let f := lv_node n in
  MHello (build_local_hello base64_encode (context_of n t) (Z.of_nat (length (fn_chain f))) (fn_identity f)
            (lv_staple n)).

Definition no_effects (w : Net) : Net * list (N * Message) * list (string * Z) := (w, [], []).

Definition open_conn (w : Net) (conn : N) (addr observed : string) (binding : option string)
  : Net * list (N * Message) * list (string * Z) :=
  match nt_tasks w !! conn with
  | Some _ => no_effects w
  | None =>
      let t := mkTask addr observed binding None in
      (mkNet (nt_node w) (<[conn := t]> (nt_tasks w)), [(conn, first_message (nt_node w) t)], [])
  end.

(** The end of [handle_peer]: a registered address is forgotten and dialled again after
    the returned number of seconds. *)
Definition close_conn (w : Net) (conn : N) : Net * list (N * Message) * list (string * Z) :=
  match nt_tasks w !! conn with
  | None => no_effects w
  | Some t =>
      let f := lv_node (nt_node w) in
      let '(p, redial) := match ct_stable t with
                          | Some a => let '(p, delay) := peer_disconnected (fn_peers f) a in (p, [(a, delay)])
                          | None => (fn_peers f, [])
                          end in
      let f := emit (Runtime.with_peers f p) [PeerDisconnected (default (ct_addr t) (ct_stable t))] in
      (mkNet (with_node (nt_node w) f) (delete conn (nt_tasks w)), [], redial)
  end.

Definition set_stable (t : ConnTask) (a : option string) : ConnTask :=
  mkTask (ct_addr t) (ct_observed t) (ct_binding t) (match a with Some a => Some a | None => ct_stable t end).

(** One turn of the read loop; a message that ends the connection takes its clean-up along. *)
Definition read_turn (now : Z) (w : Net) (conn : N) (r : result NetworkError Message)
  : Net * list (N * Message) * list (string * Z) :=
  match nt_tasks w !! conn, r with
  | None, _ => no_effects w
  | Some _, Err _ => close_conn w conn
  | Some t, Ok m =>
      let '(n, eff, out, dials) := process_message now (nt_node w) conn t m in
      let w := mkNet n (<[conn := set_stable t (stable_addr eff)]> (nt_tasks w)) in
      if disconnect eff then let '(w, _, redial) := close_conn w conn in (w, out, redial)
      else (w, out, (λ a, (a, 0)) <$> dials)
  end.

Inductive NetEvent :=
| Opened (conn : N) (addr observed : string) (binding : option string)
| Read (now : Z) (conn : N) (r : result NetworkError Message).

Definition net_event (w : Net) (e : NetEvent) : Net * list (N * Message) * list (string * Z) :=
  match e with
  | Opened conn addr observed binding => open_conn w conn addr observed binding
  | Read now conn r => read_turn now w conn r
  end.

(** The private entry points of the node, over the addresses its connections registered. *)
Definition net_view (w : Net) : PrivNode S := priv_view (nt_node w) (omap ct_stable (nt_tasks w)).

Inductive PrivateOp :=
| SubmitPrivate (now : Z) (coll payload : string)
| Disseminate (now : Z) (ws : list PersistentWrite)
| Reconcile (now : Z) (coll : string).

Definition private_op (w : Net) (op : PrivateOp) : Net * list (N * Message) :=
  let '(p, out) := match op with
    | SubmitPrivate now coll payload =>
        let '(p, _, out) := submit_private_payload envelope_to_json now (net_view w) coll payload in (p, out)
    | Disseminate now ws => disseminate_private_writes envelope_to_json now (net_view w) ws
    | Reconcile now coll =>
        let '(p, _, out) := reconcile_private_payloads envelope_of_json now (net_view w) coll in (p, out)
    end in
  (mkNet (with_private (nt_node w) p) (nt_tasks w), (λ cm, (cm.1, private_message cm.2)) <$> out).

(** ** Projections under any traffic *)

Context `{L : !StorageLaws S} `{K : !BlockLaws S apply_block}.
#[local] Existing Instances same_committed_preorder same_sessions_preorder.
Notation same_committed := (Runtime.same_committed apply_block).

Notation current := (Runtime.current tx_to_json tx_of_json apply_block).
Notation node_step := (Runtime.node_step parse_value base64_decode content_hash base64_std json_offer clock
  snapshot_to_json snapshot_of_json tx_to_json tx_of_json block_json signed_to_json apply_block).












(** A received chain has a length a vector can have, and its genesis does not collide with
    the local one. *)
Definition message_ok (n : LiveNode) (m : Message) : Prop :=
  match m with
  | MChain _ blocks => Z.of_nat (length blocks) ≤ U64_MAX
      ∧ no_collision (Policy.opt_list (head (fn_chain (lv_node n)))) (Policy.opt_list (head blocks))
  | _ => True
  end.










(** The accepted Hellos: an event adds at most the one it carries. *)
Definition net_log (w : Net) (log : list Session) (e : NetEvent) : list Session :=
  match e with
  | Read now conn (Ok (MHello h)) =>
      match nt_tasks w !! conn with
      | Some t => if disconnect (on_hello now (nt_node w) conn t h).1.2 then log
                  else mkSession now (context_of (nt_node w) t) conn h :: log
      | None => log
      end
  | _ => log
  end.

(** A step of a node on the network: an event on one of its connections, a step of its own
    ([Runtime.node_step]: a submission, a mined block), or a private entry point. *)
Inductive live_step : Net * list Session → Net * list Session → Prop :=
| live_peer w log e : match e with Read _ _ (Ok m) => message_ok (nt_node w) m | _ => True end →
    live_step (w, log) ((net_event w e).1.1, net_log w log e)
| live_local w log f : node_step (lv_node (nt_node w)) f →
    live_step (w, log) (mkNet (with_node (nt_node w) f) (nt_tasks w), log)
| live_private w log op : live_step (w, log) ((private_op w op).1, log).



(** [start] over the storage's own codecs. *)
Context (proof_of_json : string → result string EquivocationProof)
        (pin_of_json : string → result string StoredPeerPin).
Notation start := (Runtime.start base64_std clock snapshot_of_json tx_to_json tx_of_json proof_of_json pin_of_json
  apply_block).

(** A node just started on the network: its state is what [start] made of some bootable
    node, no connection is open and no peer is registered. *)
Definition fresh_net (w : Net) : Prop :=
  (∃ n0, bootable apply_block n0 ∧ lv_node (nt_node w) = (start n0).1)
  ∧ nt_tasks w = ∅ ∧ peer_senders (fn_peers (lv_node (nt_node w))) = ∅.


(** ** Sessions under any traffic *)

(** What consensus traffic leaves alone of the peers: all but the storage. *)
Definition same_peers (f f' : FullNode (S := S)) : Prop :=
  (∃ s, fn_peers f' = with_registry (fn_peers f) (pn_registry (fn_peers f)) s) ∧ fn_identity f' = fn_identity f.

#[local] Instance same_peers_preorder : PreOrder same_peers.
Proof.
  split.
  - intros f. split; [|done]. exists (pn_storage (fn_peers f)). by destruct (fn_peers f).
  - intros f g h [[s Hs] Hi] [[s' Hs'] Hi']. split; [|congruence]. exists s'. by rewrite Hs', Hs.
Qed.

Lemma same_peers_core f c : same_peers f (with_core f c).
Proof. split; [|done]. exists (pn_storage (fn_peers f)). cbn. by destruct (fn_peers f). Qed.

Lemma same_peers_storage f s : same_peers f (with_storage f s).
Proof. split; [|done]. by exists s. Qed.

Lemma same_peers_engine f e : same_peers f (with_engine f e).
Proof. split; [|done]. exists (pn_storage (fn_peers f)). cbn. by destruct (fn_peers f). Qed.

Lemma same_peers_emit f es : same_peers f (emit f es).
Proof. split; [|done]. exists (pn_storage (fn_peers f)). cbn. by destruct (fn_peers f). Qed.

Notation after_commit := (Runtime.after_commit base64_std clock snapshot_to_json tx_to_json tx_of_json block_json
  signed_to_json apply_block).
Notation receive_block := (Runtime.receive_block parse_value base64_decode content_hash base64_std clock
  snapshot_to_json tx_to_json tx_of_json block_json signed_to_json apply_block).

Lemma after_commit_peers f b : same_peers f (after_commit f b).1.
Proof.
  unfold Runtime.after_commit, watch_block. destruct (apply_block _ b) as [s r].
  destruct (commit_updates _ _ _ _ b) as [[w orders] snap].
  set (s1 := match snap with Some _ => _ | None => _ end). clearbody s1.
  destruct (foldl admit_order _ orders) as [l g]. split; [|done]. by exists s1.
Qed.

Lemma receive_block_peers now conn f stable b : same_peers f (receive_block now conn f stable b).1.
Proof.
  destruct (receive_block_cases parse_value base64_decode content_hash base64_std clock snapshot_to_json tx_to_json
    tx_of_json block_json signed_to_json apply_block now conn f stable b)
    as [(c & out & -> & _)|(c & l & out & _ & _ & _ & _ & ->)]; [apply same_peers_core|].
  etrans; [|apply same_peers_emit]. etrans; [|apply after_commit_peers].
  etrans; [|apply same_peers_core]. apply same_peers_core.
Qed.

Lemma receive_transaction_peers f stable tx :
  same_peers f (receive_transaction base64_std json_offer clock f stable tx).1.
Proof.
  unfold receive_transaction. destruct (negb _); [done|]. destruct (engine_react _ _ _ _ _ _) as [e g].
  destruct (add_transaction _ tx) as [l r]. etrans; [apply (same_peers_engine f e)|].
  etrans; [apply same_peers_emit|]. destruct (is_ok r); [etrans; [apply same_peers_emit|]|]; apply same_peers_core.
Qed.

Lemma rebuild_peers f :
  same_peers f (rebuild_runtime_state_from_chain base64_std clock snapshot_of_json tx_to_json tx_of_json f).
Proof.
  unfold rebuild_runtime_state_from_chain. destruct (rebuild_world_state _) as [s r]. split; [|done]. by exists s.
Qed.

Lemma receive_chain_peers vk now conn f stable from blocks :
  same_peers f (receive_chain parse_value base64_decode content_hash base64_std clock snapshot_to_json
    snapshot_of_json tx_to_json tx_of_json block_json signed_to_json apply_block vk now conn f stable
    from blocks).1.
Proof.
  unfold receive_chain. destruct (from =? 0); cbn [fst].
  - unfold receive_full_chain. do 2 (destruct (negb _); [done|]).
    destruct (try_replace_chain _ blocks) as [l []]; [|apply same_peers_core].
    etrans; [|apply rebuild_peers]. etrans; [|apply same_peers_emit]. etrans; [|apply same_peers_storage].
    apply same_peers_core.
  - unfold receive_suffix. generalize (@nil (N * Message)). revert f.
    induction blocks as [|b bs IH]; intros f out; [done|]. cbn [foldl fst snd].
    pose proof (receive_block_peers now conn f stable b) as Hb.
    destruct (Runtime.receive_block _ _ _ _ _ _ _ _ _ _ _ _ _ _ _ _) as [f' o]. etrans; [exact Hb|]. apply IH.
Qed.

Lemma submit_transaction_peers f tx : same_peers f (submit_transaction base64_std json_offer clock f tx).1.
Proof.
  unfold submit_transaction. destruct (submission_gate _ tx) as [c [u|]]; [|apply same_peers_core].
  destruct (add_transaction _ tx) as [l [u'|]]; [|etrans; apply same_peers_core].
  destruct (engine_react _ _ _ _ _ _) as [e g]. etrans; [|apply same_peers_emit]. etrans; [|apply same_peers_core].
  etrans; [|apply same_peers_engine]. etrans; apply same_peers_core.
Qed.

Lemma node_step_peers f f' : node_step f f' → same_peers f f'.
Proof.
  intros [tx|stable tx|now conn stable b|vk now conn stable from blocks Hl Hnc|note tip prev l Hc Ht Hct Hl].
  - apply submit_transaction_peers.
  - apply receive_transaction_peers.
  - apply receive_block_peers.
  - apply receive_chain_peers.
  - unfold mined. pose proof (after_commit_peers (with_ledger f l) (cn_block note)) as Ha.
    destruct (Runtime.after_commit _ _ _ _ _ _ _ _ _ _) as [m g]. etrans; [|apply same_peers_emit].
    etrans; [|exact Ha]. apply same_peers_core.
Qed.

(** The connection state of the private handlers under a change of the running node. *)
Lemma same_peers_view n f conns :
  same_peers (lv_node n) f → same_sessions (priv_view n conns) (priv_view (with_node n f) conns).
Proof. intros [[s Hp] Hi]. unfold same_sessions, priv_view. cbn. by rewrite Hp, Hi. Qed.

Lemma with_private_view n conns p conns' :
  same_sessions (priv_view n conns) p → same_sessions (priv_view n conns') (priv_view (with_private n p) conns').
Proof. intros (Hr & Hs & Hv & _ & _ & _ & _). by split_and!. Qed.

Lemma on_vote_peers n v : same_peers (lv_node n) (lv_node (on_vote n v)).
Proof.
  unfold on_vote. destruct (derive _) as [c p]. cbn [lv_node with_votes with_node].
  etrans; [|apply same_peers_emit]. etrans; [|apply same_peers_storage].
  etrans; [apply (same_peers_core _ c)|]. split; [|done].
  exists (pn_storage (fn_peers (lv_node n))). cbn. by destruct (fn_peers (lv_node n)).
Qed.

Lemma round_answer_peers n conn c a : same_peers (lv_node n) (lv_node (round_answer n conn c a).1).
Proof. apply same_peers_core. Qed.

(** A message other than a Hello keeps the sessions, and no connection is ended by it. *)
Lemma message_sessions now n conn t m conns :
  (∀ h, m ≠ MHello h) →
  same_sessions (priv_view n conns) (priv_view (process_message now n conn t m).1.1.1 conns)
  ∧ (process_message now n conn t m).1.1.2 = effect_default.
Proof.
  intros Hm. destruct m as [h|tx|b|b r|v|b r q|coll com p|coll com| |from|from bs| |addrs|reason];
    cbn [process_message fst snd]; try (split; [|done]).
  - by destruct (Hm h).
  - apply same_peers_view, receive_transaction_peers.
  - apply same_peers_view, receive_block_peers.
  - unfold on_proposal. match goal with |- context [if ?x then derive ?y else ?z] => destruct (if x then derive y else z) as [c pr] end.
    split; [|done]. apply (same_peers_view n (lv_node (round_answer n conn c _).1)), round_answer_peers.
  - assert (priv_view (on_vote n v) conns = priv_view (with_node n (lv_node (on_vote n v))) conns) as ->.
    { unfold on_vote. by destruct (derive _) as [c p]. }
    apply same_peers_view, on_vote_peers.
  - unfold on_precommit. match goal with |- context [if ?x then derive ?y else ?z] => destruct (if x then derive y else z) as [c pr] end.
    split; [|done]. apply (same_peers_view n (lv_node (round_answer n conn c _).1)), round_answer_peers.
  - unfold on_payload. pose proof (receive_same envelope_to_json now (priv_view n (own_conn conn t)) conn coll com p) as Hs.
    destruct (process_private_payload _ _ _ _ _ _ _) as [v stored].
    pose proof (with_private_view n _ v conns Hs) as Hv. destruct stored; [|done].
    etrans; [exact Hv|]. apply same_peers_view, same_peers_emit.
  - pose proof (request_same envelope_of_json now (priv_view n (own_conn conn t)) conn coll com) as Hs.
    destruct (process_request _ _ _ _ _ _) as [v out]. split; [|done]. by apply (with_private_view n (own_conn conn t) v conns).
  - done.
  - done.
  - apply same_peers_view, receive_chain_peers.
  - done.
  - unfold learn_peers. destruct (foldl _ _ _) as [known new]. split; [|done]. by split_and!.
  - done.
Qed.

Notation sessions_wf := (Private.sessions_wf base64_std).

Lemma set_stable_none t : set_stable t None = t.
Proof. by destruct t. Qed.

(** The end of a connection is the end the private handlers know. *)
Lemma close_view w conn t :
  nt_tasks w !! conn = Some t → same_sessions (end_conn (net_view w) conn) (net_view (close_conn w conn).1.1).
Proof.
  intros Ht. unfold close_conn, end_conn. rewrite Ht.
  assert (pv_conns (net_view w) !! conn = ct_stable t) as Hc by (unfold net_view; cbn; by rewrite lookup_omap, Ht).
  rewrite Hc. destruct (ct_stable t) as [a|]; unfold net_view; cbn [nt_node nt_tasks fst].
  - unfold same_sessions. cbn. by rewrite omap_delete.
  - unfold same_sessions. cbn. split_and!; try done. rewrite omap_delete. apply delete_id. exact Hc.
Qed.

Lemma event_sessions w log e :
  sessions_wf (net_view w) log → sessions_wf (net_view (net_event w e).1.1) (net_log w log e).
Proof.
  intros Hwf. destruct e as [conn addr observed binding|now conn r]; cbn [net_event net_log].
  { unfold open_conn. destruct (nt_tasks w !! conn) eqn:Ht; [done|]. eapply sessions_wf_same; [|exact Hwf].
    unfold same_sessions, net_view. cbn. split_and!; try done.
    rewrite omap_insert_None by done. by rewrite delete_id by (by rewrite lookup_omap, Ht). }
  unfold read_turn. destruct (nt_tasks w !! conn) as [t|] eqn:Ht; [|by destruct r as [[]|]].
  destruct r as [m|e].
  2:{ eapply sessions_wf_same; [by eapply close_view|]. by apply end_conn_wf. }
  destruct (match m with MHello h => Some h | _ => None end) as [h|] eqn:Hm.
  - assert (m = MHello h) as -> by (by destruct m; simplify_eq).
    pose proof (hello_event_wf base64_std pin_to_json now (context_of (nt_node w) t) conn (ct_observed t) (net_view w) h) as Hh.
    unfold hello_event in Hh. cbn [process_message fst snd] in *. unfold on_hello.
    change (pv_peers (net_view w)) with (fn_peers (lv_node (nt_node w))) in Hh.
    change (pv_chain (net_view w)) with (fn_chain (lv_node (nt_node w))) in Hh.
    destruct (process_hello _ _ _ _ _ _ _ _ _) as [[p eff] req] eqn:Hp.
    apply process_hello_cases in Hp as [(_ & -> & _)|[-> _]]; cbn [disconnect stable_addr effect_disconnect fst snd] in *.
    + rewrite set_stable_none, insert_id by done. specialize (Hh _ false log eq_refl Hwf).
      set (w1 := mkNet _ _). pose proof (close_view w1 conn t Ht) as Hc.
      destruct (close_conn w1 conn) as [[w2 o] d]. eapply sessions_wf_same; [exact Hc|]. exact Hh.
    + specialize (Hh _ true log eq_refl Hwf). eapply sessions_wf_same; [|exact Hh].
      unfold same_sessions, net_view. cbn. split_and!; try done. by rewrite (omap_insert_Some _ _ _ _ (h_listen_addr h)).
  - destruct (message_sessions now (nt_node w) conn t m (omap ct_stable (nt_tasks w))) as [Hs He]; [by intros h ->|].
    destruct (process_message _ _ _ _ _) as [[[n eff] out] dials]. cbn in He, Hs. subst eff.
    cbn [disconnect effect_default stable_addr]. rewrite set_stable_none, insert_id by done.
    destruct m; try (eapply sessions_wf_same; [exact Hs|exact Hwf]). done.
Qed.

Lemma private_op_sessions w op : same_sessions (net_view w) (net_view (private_op w op).1).
Proof.
  unfold private_op. destruct op as [now coll payload|now ws|now coll].
  - pose proof (submit_same envelope_to_json now (net_view w) coll payload) as Hs.
    destruct (submit_private_payload _ _ _ _ _) as [[p r] out]. by eapply with_private_view.
  - pose proof (disseminate_same envelope_to_json now (net_view w) ws) as Hs.
    destruct (disseminate_private_writes _ _ _ _) as [p out]. by eapply with_private_view.
  - pose proof (reconcile_same envelope_of_json now (net_view w) coll) as Hs.
    destruct (reconcile_private_payloads _ _ _ _) as [[p r] out]. by eapply with_private_view.
Qed.

Lemma live_step_sessions x y : sessions_wf (net_view x.1) x.2 → live_step x y → sessions_wf (net_view y.1) y.2.
Proof.
  intros Hwf Hs. destruct Hs as [w log e Hok|w log f Hf|w log op]; cbn [fst snd] in *.
  - by apply event_sessions.
  - eapply sessions_wf_same; [|exact Hwf]. by apply same_peers_view, node_step_peers.
  - eapply sessions_wf_same; [|exact Hwf]. apply private_op_sessions.
Qed.

(** ** Cleartext *)

Definition carries_cleartext (m : Message) : bool := match m with MPrivatePayload _ _ _ => true | _ => false end.
Definition no_cleartext (out : list (N * Message)) : Prop := Forall (λ cm, carries_cleartext cm.2 = false) out.

Lemma relay_no_cleartext (f : FullNode (S := S)) txs : no_cleartext (relay f txs).
Proof.
  apply Forall_forall. intros cm (tx & (c & -> & _)%list_elem_of_fmap & _)%list_elem_of_bind. done.
Qed.

Lemma receive_block_no_cleartext now conn f stable b : no_cleartext (receive_block now conn f stable b).2.
Proof.
  unfold Runtime.receive_block. destruct (negb _); [constructor|].
  destruct (admit_peer_block _ _ _ _ _ _) as [c []]; [constructor|by repeat constructor|].
  destruct (enforce_block_endorsements c b []) as [c' [u|]]; [|constructor].
  destruct (Runtime.after_commit _ _ _ _ _ _ _ _ _ _) as [m g]. apply relay_no_cleartext.
Qed.

Lemma message_no_cleartext now n conn t m :
  (∀ coll com, m ≠ MRequestPrivatePayload coll com) → no_cleartext (process_message now n conn t m).1.2.
Proof.
  intros Hm. destruct m as [h|tx|b|b r|v|b r q|coll com p|coll com| |from|from bs| |addrs|reason];
    cbn [process_message fst snd]; try (by repeat constructor).
  - unfold on_hello. destruct (process_hello _ _ _ _ _ _ _ _ _) as [[p eff] [[]|]]; by repeat constructor.
  - unfold receive_transaction. destruct (negb _); [constructor|]. destruct (engine_react _ _ _ _ _ _) as [e g].
    destruct (add_transaction _ tx) as [l r]. destruct (is_ok r); apply relay_no_cleartext.
  - apply receive_block_no_cleartext.
  - unfold on_proposal. match goal with |- context [if ?x then derive ?y else ?z] => destruct (if x then derive y else z) as [c pr] end.
    cbn. destruct (handle_proposal _ b r).2; by repeat constructor.
  - unfold on_precommit. match goal with |- context [if ?x then derive ?y else ?z] => destruct (if x then derive y else z) as [c pr] end.
    cbn. destruct (handle_precommit _ b r q).2; by repeat constructor.
  - by destruct (Hm coll com).
  - unfold answer_chain_from. destruct (_ <=? _)%nat; by repeat constructor.
  - unfold receive_chain. destruct (from =? 0); [constructor|]. unfold receive_suffix. clear Hm.
    assert (no_cleartext []) as H0 by constructor. revert H0. generalize (@nil (N * Message)) (lv_node n).
    induction bs as [|b bs IH]; intros out f H0; [done|]. cbn [foldl fst snd].
    pose proof (receive_block_no_cleartext now conn f (ct_stable t) b) as Hb.
    destruct (Runtime.receive_block _ _ _ _ _ _ _ _ _ _ _ _ _ _ _ _) as [f' o]. apply IH. by apply Forall_app.
  - unfold learn_peers. destruct (foldl _ _ _) as [known new]. constructor.
Qed.

(** The connection's registered address, and the accepted Hello of this run that proved the
    address to be an organization of the collection. *)
Definition proven_address (w : Net) (log : list Session) (conn : N) (coll : string) : Prop :=
  ∃ t a e, nt_tasks w !! conn = Some t ∧ ct_stable t = Some a ∧ e ∈ log ∧ h_listen_addr (se_hello e) = a
    ∧ hello_org_verified base64_std (se_now e) (se_ctx e) (cert_verifier (fn_peers (lv_node (nt_node w)))) (se_hello e)
      = true
    ∧ is_collection_member (net_view w) coll (h_org (se_hello e)) = true.

Lemma request_answered now w log conn t coll com conn' m :
  sessions_wf (net_view w) log → nt_tasks w !! conn = Some t →
  (conn', m) ∈ (process_message now (nt_node w) conn t (MRequestPrivatePayload coll com)).1.2 →
  conn' = conn ∧ (∃ payload, m = MPrivatePayload coll com payload) ∧ proven_address w log conn coll
  ∧ is_collection_member (net_view w) coll (own_org (net_view w)) = true.
Proof.
  intros [_ Hwf] Ht. cbn [process_message]. set (v := priv_view (nt_node w) (own_conn conn t)).
  unfold process_request. destruct (pv_conns v !! conn) as [a|] eqn:Hc; [|by intros ?%elem_of_nil].
  assert (ct_stable t = Some a) as Ha.
  { unfold v, own_conn in Hc. cbn in Hc. destruct (ct_stable t) as [x|]; [|by rewrite lookup_empty in Hc].
    by rewrite lookup_singleton_eq in Hc. }
  destruct (private_peer_trusted v a coll) eqn:Htr; [|by intros ?%elem_of_nil].
  destruct (is_collection_member v coll (own_org v)) eqn:Hown; [|by intros ?%elem_of_nil]. cbn [negb orb].
  apply (trusted_inv base64_std pin_of_json envelope_of_json) in Htr as (p & Hp & Hv & Hm).
  destruct (transient_get _ _ _ _ _) as [st [[payload|]|]]; [|by intros ?%elem_of_nil..].
  intros [= -> ->]%list_elem_of_singleton. split; [done|]. split; [by eexists|]. split; [|exact Hown].
  destruct (Hwf conn a) as (e & He & Hea & p' & Hp' & Ho & Hv').
  { unfold net_view. cbn. by rewrite lookup_omap, Ht. }
  exists t, a, e. split_and!; try done.
  - etrans; [symmetry; exact Hv'|]. rewrite Hea in Hp'. cbn in Hp, Hp'. congruence.
  - rewrite <- Ho. rewrite Hea in Hp'. cbn in Hp, Hp'. assert (p' = p) as -> by congruence. exact Hm.
Qed.

(** C15: Private cleartext leaves a node in two ways only, whatever it has been through since it
    started.  A delivery of its own goes to connections whose own Hello proved, by
    certificate and by a possession proof bound to the session, an organization of the
    collection, and travels under its SHA-256.  And of all messages a peer can send only a
    request for that payload is answered with cleartext, only on its own connection, and
    only if some Hello of this run proved the address that connection registered to be an
    organization of the collection, and this node's organization is one too. *)
Theorem cleartext_stays_inside w0 w log :
  fresh_net w0 → rtc live_step (w0, []) (w, log) →
  (∀ op conn coll com payload, (conn, MPrivatePayload coll com payload) ∈ (private_op w op).2 →
     com = sha256 payload ∧ proven_member base64_std (net_view w) log conn coll)
  ∧ (∀ e conn coll com payload, (conn, MPrivatePayload coll com payload) ∈ (net_event w e).1.2 →
     (∃ now, e = Read now conn (Ok (MRequestPrivatePayload coll com)))
     ∧ proven_address w log conn coll ∧ is_collection_member (net_view w) coll (own_org (net_view w)) = true).
Proof.
  intros (_ & Ht0 & Hs0) Hrun. assert (Hwf : sessions_wf (net_view w) log).
  { change (sessions_wf (net_view (w, log).1) (w, log).2).
    assert (H0 : sessions_wf (net_view (w0, @nil Session).1) (w0, @nil Session).2).
    { apply fresh_wf. split; [exact Hs0|]. cbn. by rewrite Ht0, omap_empty. }
    revert H0. induction Hrun as [|x y z Hs _ IH]; [done|]. intros Hx. apply IH. by eapply live_step_sessions. }
  split.
  - intros op conn coll com payload Hin.
    assert (Ho : ∃ m, private_message m = MPrivatePayload coll com payload ∧ well_addressed base64_std (net_view w) log (conn, m)).
    { unfold private_op in Hin. destruct op as [now c p|now ws|now c].
      - pose proof (λ cm, submit_addressed base64_std pin_of_json envelope_to_json envelope_of_json now (net_view w) log c p cm Hwf) as Ha.
        destruct (submit_private_payload _ _ _ _ _) as [[v r] out]. apply list_elem_of_fmap in Hin as ([x m] & [= -> Hm] & Hx).
        exists m. split; [done|]. by apply Ha.
      - pose proof (λ cm, disseminate_addressed base64_std pin_of_json envelope_to_json envelope_of_json now (net_view w) log ws cm Hwf) as Ha.
        destruct (disseminate_private_writes _ _ _ _) as [v out]. apply list_elem_of_fmap in Hin as ([x m] & [= -> Hm] & Hx).
        exists m. split; [done|]. by apply Ha.
      - pose proof (λ cm, reconcile_addressed base64_std pin_of_json envelope_of_json now (net_view w) log c cm Hwf) as Ha.
        destruct (reconcile_private_payloads _ _ _ _) as [[v r] out]. apply list_elem_of_fmap in Hin as ([x m] & [= -> Hm] & Hx).
        exists m. split; [done|]. by apply Ha. }
    destruct Ho as ([coll' com' p'|] & [= -> -> ->] & Hw). exact Hw.
  - intros e conn coll com payload Hin. destruct e as [c addr observed binding|now c r]; cbn [net_event] in Hin.
    { unfold open_conn in Hin. destruct (nt_tasks w !! c); [by apply elem_of_nil in Hin|].
      by apply list_elem_of_singleton in Hin. }
    unfold read_turn in Hin. destruct (nt_tasks w !! c) as [t|] eqn:Ht; [|by destruct r; apply elem_of_nil in Hin].
    destruct r as [m|err].
    2:{ unfold close_conn in Hin. rewrite Ht in Hin. destruct (ct_stable t); by apply elem_of_nil in Hin. }
    assert (Hm : (conn, MPrivatePayload coll com payload) ∈ (process_message now (nt_node w) c t m).1.2).
    { destruct (process_message _ _ _ _ _) as [[[n eff] out] dials]. cbn. destruct (disconnect eff); [|done].
      by destruct (close_conn _ c) as [[w1 o] d]. }
    clear Hin. destruct (match m with MRequestPrivatePayload a b => Some (a, b) | _ => None end) as [[a b]|] eqn:Hr.
    + assert (m = MRequestPrivatePayload a b) as -> by (by destruct m; simplify_eq).
      destruct (request_answered _ _ log _ _ _ _ _ _ Hwf Ht Hm) as (-> & (p & [= -> -> ->]) & Hp & Hown).
      split_and!; [by eexists|done|done].
    + assert (no_cleartext (process_message now (nt_node w) c t m).1.2) as Hn
        by (apply message_no_cleartext; by intros x y ->).
      unfold no_cleartext in Hn; rewrite Forall_forall in Hn. by specialize (Hn _ Hm).
Qed.

(** ** Before the Hello, and after a second one *)

Lemma with_node_id n : with_node n (lv_node n) = n.
Proof. by destruct n. Qed.

Lemma with_private_id n conns : with_private n (priv_view n conns) = n.
Proof. destruct n as [[[] ? ? ? ? ? ? ? ? ? ?] ? ? ? ? ? ? ? ?]. done. Qed.

Lemma receive_block_unregistered now conn f b : receive_block now conn f None b = (f, []).
Proof. done. Qed.

Lemma receive_suffix_unregistered now conn (f : FullNode (S := S)) blocks :
  receive_suffix parse_value base64_decode content_hash base64_std clock snapshot_to_json tx_to_json tx_of_json
    block_json signed_to_json apply_block now conn f None blocks = (f, []).
Proof.
  unfold receive_suffix. induction blocks as [|b blocks IH]; [done|]. cbn [foldl fst snd].
  by rewrite receive_block_unregistered.
Qed.

(** What a connection can do before its Hello.  Transactions, blocks, suffixes, payloads and
    payload requests have no effect at all.  Everything else (whole chains, proposals,
    precommits, votes, peer addresses, chain requests) is handled exactly as if the
    connection were authenticated. *)
Theorem reach_before_hello now n conn t m :
  ct_stable t = None →
  match m with
  | MHello _ | MRequestPeers => True
  | MTransaction _ | MBlock _ | MPrivatePayload _ _ _ | MRequestPrivatePayload _ _ =>
      process_message now n conn t m = (n, effect_default, [], [])
  | MChain from _ =>
      if from =? 0 then ∀ a, process_message now n conn t m = process_message now n conn (set_stable t (Some a)) m
      else process_message now n conn t m = (n, effect_default, [], [])
  | _ => ∀ a, process_message now n conn t m = process_message now n conn (set_stable t (Some a)) m
  end.
Proof.
  intros Ht. destruct m as [h|tx|b|b r|v|b r q|coll com p|coll com| |from|from bs| |addrs|reason]; try done;
    cbn [process_message].
  - unfold receive_transaction. rewrite Ht. cbn. by rewrite with_node_id.
  - rewrite Ht, receive_block_unregistered. cbn. by rewrite with_node_id.
  - unfold on_payload, own_conn. rewrite Ht. unfold process_private_payload. cbn [pv_conns priv_view]; rewrite lookup_empty.
    destruct (negb _); by rewrite with_private_id.
  - unfold own_conn. rewrite Ht. unfold process_request. cbn [pv_conns priv_view]. rewrite lookup_empty. by rewrite with_private_id.
  - unfold receive_chain. destruct (from =? 0); [done|]. rewrite Ht, receive_suffix_unregistered. cbn.
    by rewrite with_node_id.
Qed.

(** So a connection that never authenticated replaces the chain of a node whenever its
    candidate passes the gates of the chain itself. *)
Lemma unauthenticated_chain_adopted now n conn addr observed binding blocks l :
  let c := fn_core (lv_node n) in
  enforce_chain_endorsements c blocks = Ok tt →
  verify_chain_certificates parse_value base64_decode verifier_key blocks (nd_consensus c) = Ok tt →
  try_replace_chain (nd_ledger c) blocks = (l, true) →
  fn_chain (lv_node (process_message now n conn (mkTask addr observed binding None) (MChain 0 blocks)).1.1.1) = chain l.
Proof.
  cbv zeta. intros He Hv Hr. cbn [process_message fst snd lv_node with_node]. unfold receive_chain. cbn [Z.eqb fst].
  unfold receive_full_chain. rewrite He, Hv, Hr. cbn [is_ok negb]. unfold rebuild_runtime_state_from_chain.
  destruct (rebuild_world_state _) as [s r]. unfold fn_chain. cbn. by destruct (rebuild_core_state (set_ledger (fn_core (lv_node n)) l) r) as [-> _].
Qed.

Lemma hello_read now w conn t h a :
  nt_tasks w !! conn = Some t → (on_hello now (nt_node w) conn t h).1.2 = mkEffect (Some a) false →
  let w' := (read_turn now w conn (Ok (MHello h))).1.1 in
  a = h_listen_addr h ∧ nt_tasks w' !! conn = Some (set_stable t (Some a))
  ∧ peer_senders (fn_peers (lv_node (nt_node w'))) = <[a := conn]> (peer_senders (fn_peers (lv_node (nt_node w))))
  ∧ known_peers (fn_peers (lv_node (nt_node w'))) = {[a]} ∪ known_peers (fn_peers (lv_node (nt_node w))).
Proof.
  intros Ht Heff. unfold read_turn. rewrite Ht. cbn [process_message]. unfold on_hello in *.
  destruct (process_hello _ _ _ _ _ _ _ _ _) as [[p eff] req] eqn:Hp. cbn [fst snd] in Heff. subst eff.
  apply process_hello_cases in Hp as [(_ & ? & _)|[Heff Hac]]; [done|]. injection Heff as ->.
  cbn. rewrite lookup_insert_eq. by rewrite (ac_senders _ _ _ _ _ _ _ _ _ Hac), (ac_known _ _ _ _ _ _ _ _ _ Hac).
Qed.

(** A second accepted Hello on a connection, under another address, leaves the first address
    behind for good: when the connection ends only the second is forgotten and redialled,
    while the first stays a known peer whose sender is a connection that is gone. *)
Theorem second_hello_strands_first_address now1 now2 now3 w conn t h1 h2 a1 a2 err :
  nt_tasks w !! conn = Some t → a1 ≠ a2 →
  (on_hello now1 (nt_node w) conn t h1).1.2 = mkEffect (Some a1) false →
  let w1 := (read_turn now1 w conn (Ok (MHello h1))).1.1 in
  (on_hello now2 (nt_node w1) conn (set_stable t (Some a1)) h2).1.2 = mkEffect (Some a2) false →
  let w2 := (read_turn now2 w1 conn (Ok (MHello h2))).1.1 in
  let '(w3, _, redial) := read_turn now3 w2 conn (Err err) in
  let p := fn_peers (lv_node (nt_node w3)) in
  nt_tasks w3 !! conn = None ∧ peer_senders p !! a1 = Some conn ∧ a1 ∈ known_peers p
  ∧ peer_senders p !! a2 = None ∧ redial.*1 = [a2].
Proof.
  intros Ht Hne H1. cbv zeta. destruct (hello_read now1 w conn t h1 a1 Ht H1) as (_ & Ht1 & Hs1 & Hk1).
  set (w1 := (read_turn now1 w conn (Ok (MHello h1))).1.1) in *. clearbody w1. intros H2.
  destruct (hello_read now2 w1 conn _ h2 a2 Ht1 H2) as (_ & Ht2 & Hs2 & Hk2).
  set (w2 := (read_turn now2 w1 conn (Ok (MHello h2))).1.1) in *. clearbody w2.
  unfold read_turn, close_conn. rewrite Ht2. cbn.
  rewrite lookup_delete_eq, Hs2, Hs1, Hk2, Hk1, !lookup_delete_ne, lookup_insert_ne, lookup_insert_eq, lookup_delete_eq by done.
  split_and!; try done. set_solver.
Qed.
End peer_loop.
