(* ===== verification/Repl.v ===== *)
(** The node binary (glasschain-node: main.rs): the price parser, the interactive command
    line, and the command-line flags.

    The theorems: prices are exact to the cent and refuse what does not fit, every command
    reads back from its printed form, the parser answers every line with a command or one
    of its messages, and the flag scan takes pairs from the front, so that a flag without a
    value shifts what follows it. *)

From S2P Require Import Prelude Types Asset Text.
Import TrustScore.

Local Open Scope Z_scope.

(** ** Prices *)

Definition dot : Ascii.ascii := Ascii.ascii_of_nat 46.

Definition parse_price (s : string) : option Z :=
  let s := trim s in
  if is_empty s || starts_with "-" s then None else
  let '(whole, frac) := match split_once dot s with Some wf => wf | None => (s, "") end in
  if is_empty whole || negb (all_digits whole) then None else
  if negb (all_digits frac) || (2 <? slen frac)%nat then None else
  units ← parse_u64 whole;
  frac_units ← match slen frac with
               | 0%nat => Some 0
               | 1%nat => (λ d, d * 10) <$> parse_u64 frac
               | 2%nat => parse_u64 frac
               | _ => None
               end;
  total ← checked_mul64 units 100;
  checked_add64 total frac_units.

(** ** Commands *)

Inductive ReplCommand :=
| Help
| Supply (seller product_id product_name : string) (qty price lead_days : Z) (currency : string)
| Order (buyer seller product : string) (qty price : Z) (currency : string)
| ContractCmd (contract_id buyer product : string) (max_price min_qty max_qty max_lead : Z)
    (currency : string)
| Inventory (owner product : string) (delta : Z) (reason : string)
| AssetCmd (originator product_name : string) (gtin batch expiry serial : option string) (qty : Z)
    (event_type : string)
| ChainCmd
| Pending
| PeersCmd
| ContractsCmd
| ReloadTrustStore (path : string)
| Quit.

Definition usage_supply : string :=
  "Usage: supply <seller> <product_id> <product_name> <qty> <price> <lead_days> <currency>".
Definition usage_order : string :=
  "Usage: order <buyer> <seller> <product> <qty> <price> <currency>".
Definition usage_contract : string :=
  "Usage: contract <contract_id> <buyer> <product> <max_price> <min_qty> <max_qty> <max_lead> <currency>".
Definition usage_inventory : string := "Usage: inventory <owner> <product> <delta> <reason>".
Definition usage_asset : string :=
  "Usage: asset <originator> <product_name> <gtin> <batch> <expiry> <serial> <qty> <event_type>".
Definition usage_reload : string := "Usage: reload-trust-store <PATH>".

(** The closure [opt] of the asset arm. *)
Definition opt_field (s : string) : option string := if s ==? "-" then None else Some s.

(** The arms, on the words after the command; too few words are the usage error. *)
Definition parse_supply (args : list string) : result string ReplCommand :=
  match args with
  | seller :: product_id :: product_name :: qty :: price :: lead :: currency :: _ =>
      let? qty := ok_or (parse_u64 qty) "Invalid quantity" in
      let? price := ok_or (parse_price price) "Invalid price (use decimal like 12.50)" in
      let? lead := ok_or (parse_u32 lead) "Invalid lead_days" in
      Ok (Supply seller product_id product_name qty price lead currency)
  | _ => Err usage_supply
  end.

Definition parse_order (args : list string) : result string ReplCommand :=
  match args with
  | buyer :: seller :: product :: qty :: price :: currency :: _ =>
      let? qty := ok_or (parse_u64 qty) "Invalid quantity" in
      let? price := ok_or (parse_price price) "Invalid price" in
      Ok (Order buyer seller product qty price currency)
  | _ => Err usage_order
  end.

Definition parse_contract (args : list string) : result string ReplCommand :=
  match args with
  | contract_id :: buyer :: product :: max_price :: min_qty :: max_qty :: max_lead :: currency :: _ =>
      let? max_price := ok_or (parse_price max_price) "Invalid max_price" in
      let? min_qty := ok_or (parse_u64 min_qty) "Invalid min_qty" in
      let? max_qty := ok_or (parse_u64 max_qty) "Invalid max_qty" in
      let? max_lead := ok_or (parse_u32 max_lead) "Invalid max_lead" in
      Ok (ContractCmd contract_id buyer product max_price min_qty max_qty max_lead currency)
  | _ => Err usage_contract
  end.

Definition parse_inventory (args : list string) : result string ReplCommand :=
  match args with
  | owner :: product :: delta :: r :: rest =>
      let? delta := ok_or (parse_i64 delta) "Invalid delta" in
      Ok (Inventory owner product delta (join " " (r :: rest)))
  | _ => Err usage_inventory
  end.

Definition parse_asset (args : list string) : result string ReplCommand :=
  match args with
  | originator :: product_name :: gtin :: batch :: expiry :: serial :: qty :: event_type :: _ =>
      let? qty := ok_or (parse_u64 qty) "Invalid qty" in
      Ok (AssetCmd originator product_name (opt_field gtin) (opt_field batch) (opt_field expiry)
            (opt_field serial) qty event_type)
  | _ => Err usage_asset
  end.

Definition parse_reload (args : list string) : result string ReplCommand :=
  match args with [path] => Ok (ReloadTrustStore path) | _ => Err usage_reload end.

Definition parse_words (cmd : string) (args : list string) : result string ReplCommand :=
  if (cmd ==? "help") || (cmd ==? "?") then Ok Help else
  if cmd ==? "supply" then parse_supply args else
  if cmd ==? "order" then parse_order args else
  if cmd ==? "contract" then parse_contract args else
  if cmd ==? "inventory" then parse_inventory args else
  if cmd ==? "asset" then parse_asset args else
  if cmd ==? "chain" then Ok ChainCmd else
  if cmd ==? "pending" then Ok Pending else
  if cmd ==? "peers" then Ok PeersCmd else
  if cmd ==? "contracts" then Ok ContractsCmd else
  if cmd ==? "reload-trust-store" then parse_reload args else
  if (cmd ==? "quit") || (cmd ==? "exit") then Ok Quit else
  Err ("Unknown command: " +:+ debug_str cmd +:+ ". Type 'help' for usage.").

Definition parse_command (l : string) : result string (option ReplCommand) :=
  match split_whitespace l with
  | [] => Ok None
  | cmd :: args => let? c := parse_words cmd args in Ok (Some c)
  end.

(** ** Flags *)

Record CliArgs := mkCliArgs {
  node_id : string;
  listen_addr : string;
  seed_peers : list string;
  difficulty : Z;
  storage_path : option string;
  org_name : option string;
  identity_node_id : option string;
  trust_store : option string;
  identity_file : option string;
  rpc_addr : option string }.

Definition defaults : CliArgs :=
  mkCliArgs "node-1" "0.0.0.0:8000" [] 2 None None None None None None.

(** One flag and its value. *)
Definition set_flag (a : CliArgs) (flag value : string) : CliArgs :=
  let '(mkCliArgs id la sp d st org idn ts idf rpc) := a in
  if flag ==? "--id" then mkCliArgs value la sp d st org idn ts idf rpc else
  if flag ==? "--listen" then mkCliArgs id value sp d st org idn ts idf rpc else
  if flag ==? "--peer" then mkCliArgs id la (sp ++ [value]) d st org idn ts idf rpc else
  if flag ==? "--difficulty" then
    mkCliArgs id la sp (default 2 (parse_u64 value)) st org idn ts idf rpc else
  if flag ==? "--storage-path" then mkCliArgs id la sp d (Some value) org idn ts idf rpc else
  if flag ==? "--org" then mkCliArgs id la sp d st (Some value) idn ts idf rpc else
  if flag ==? "--identity-node-id" then mkCliArgs id la sp d st org (Some value) ts idf rpc else
  if flag ==? "--trust-store" then mkCliArgs id la sp d st org idn (Some value) idf rpc else
  if flag ==? "--identity-file" then mkCliArgs id la sp d st org idn ts (Some value) rpc else
  if flag ==? "--rpc-addr" then mkCliArgs id la sp d st org idn ts idf (Some value) else a.

Fixpoint scan_args (a : CliArgs) (args : list string) : CliArgs :=
  match args with
  | flag :: value :: rest => scan_args (set_flag a flag value) rest
  | _ => a
  end.

(** The program name is skipped. *)
Definition parse_args (args : list string) : CliArgs := scan_args defaults (tail args).

(** [main] looks for help before it parses. *)
Definition wants_help (args : list string) : bool :=
  existsb (λ a, (a ==? "--help") || (a ==? "-h")) args.

(** ** Prices are exact *)

Lemma trim_printable s : forallb printable (bytes s) = true → trim s = s.
Proof.
  intros H. unfold trim. rewrite <- (of_bytes_bytes s) at 2. f_equal.
  assert (trim_start_go 0 (bytes s) = bytes s) as ->.
  { destruct (bytes s) as [|a l]; [done|]. cbn in H. apply andb_prop in H as [Ha _].
    cbn [trim_start_go]. by rewrite printable_white. }
  induction (bytes s) as [|a l IH]; [done|]. cbn in H. apply andb_prop in H as [Ha Hl].
  cbn [trim_end_go]. rewrite printable_white by done. cbn. f_equal. by apply IH.
Qed.

Lemma split_once_at c a b : no_char c a = true → split_once c (a +:+ String c b) = Some (a, b).
Proof.
  induction a as [|x a IH]; cbn [no_char]; intros H.
  - change ("" +:+ String c b) with (String c b). cbn [split_once]. by rewrite Ascii.eqb_refl.
  - apply andb_prop in H as [Hx Ha]. rewrite app_str_cons. cbn [split_once].
    apply negb_true_iff in Hx. by rewrite Hx, IH.
Qed.

Lemma split_once_none c a : no_char c a = true → split_once c a = None.
Proof.
  induction a as [|x a IH]; cbn [no_char]; intros H; [done|].
  apply andb_prop in H as [Hx Ha]. cbn [split_once]. apply negb_true_iff in Hx. by rewrite Hx, IH.
Qed.

Lemma split_once_Some c s w f : split_once c s = Some (w, f) → s = w +:+ String c f.
Proof.
  revert w. induction s as [|x s IH]; intros w; cbn [split_once]; [done|].
  destruct (Ascii.eqb x c) eqn:Hx.
  - intros [= <- <-]. by apply Ascii.eqb_eq in Hx as ->.
  - destruct (split_once c s) as [[w' f']|]; [|done]. intros [= <- <-]. rewrite app_str_cons.
    by rewrite (IH w' eq_refl).
Qed.

Lemma digits_no_char c s : all_digits s = true → digit c = None → no_char c s = true.
Proof.
  intros H Hc. unfold all_digits in H. induction s as [|a s IH]; [done|]. cbn in *.
  apply andb_prop in H as [Ha Hs]. rewrite IH by done. destruct (Ascii.eqb a c) eqn:He; [|done].
  apply Ascii.eqb_eq in He as ->. by rewrite Hc in Ha.
Qed.

(** A price text: whole digits, or whole digits, a point and at most two digits. *)
Record price_shape (t whole frac : string) : Prop := {
  sh_whole : whole ≠ "" ∧ all_digits whole = true;
  sh_frac : all_digits frac = true ∧ (slen frac ≤ 2)%nat;
  sh_text : (t = whole ∧ frac = "") ∨ t = whole +:+ String dot frac }.

(** The fraction in cents. *)
Definition cents (frac : string) : option Z :=
  match slen frac with
  | 0%nat => Some 0
  | 1%nat => (λ d, d * 10) <$> parse_u64 frac
  | _ => parse_u64 frac
  end.

Lemma parse_unsigned_bounds max l v : 0 ≤ max → parse_unsigned max l = Some v → 0 ≤ v ≤ max.
Proof.
  intros Hm. assert (∀ l acc v, 0 ≤ acc ≤ max → digits_value max acc l = Some v → 0 ≤ v ≤ max) as Hd.
  { clear l v. induction l as [|a l IH]; intros acc v Ha; cbn; [by intros [= <-]|].
    unfold digit. destruct ((48 <=? _) && _) eqn:Hdig; [|done].
    destruct (Z.leb_spec (acc * 10 + (Z.of_nat (Ascii.nat_of_ascii a) - 48)) max); [|done].
    apply IH. apply andb_prop in Hdig as [H1 H2]. lia. }
  unfold parse_unsigned. destruct l as [|a l]; [done|]. destruct (Ascii.eqb a plus); [|apply Hd; lia].
  destruct l; [done|]. apply Hd. lia.
Qed.

Lemma cents_bounds frac c : all_digits frac = true → (slen frac ≤ 2)%nat → cents frac = Some c → 0 ≤ c < 100.
Proof.
  intros Hd Hl. unfold cents, parse_u64, slen in *.
  assert (∀ a, is_some (digit a) = true → ∃ d, digit a = Some d ∧ 0 ≤ d ≤ 9) as Hdig.
  { intros a. unfold digit. destruct ((48 <=? _) && _) eqn:H; [|done]. intros _.
    apply andb_prop in H as [H1 H2]. eexists. split; [done|]. lia. }
  assert (∀ a, is_some (digit a) = true → Ascii.eqb a plus = false) as Hplus.
  { intros a Ha. destruct (Ascii.eqb a plus) eqn:He; [|done]. by apply Ascii.eqb_eq in He as ->. }
  unfold all_digits in Hd. destruct frac as [|a [|b [|]]]; cbn in *; [by intros [= <-]| | |lia].
  - apply andb_prop in Hd as [Ha _]. rewrite Hplus by done. cbn.
    destruct (Hdig a Ha) as (d & -> & ?). destruct (0 * 10 + d <=? _); [|done]. intros [= <-]. lia.
  - apply andb_prop in Hd as [Ha Hb]. apply andb_prop in Hb as [Hb _]. rewrite Hplus by done. cbn.
    destruct (Hdig a Ha) as (d & -> & ?), (Hdig b Hb) as (d' & -> & ?).
    destruct (0 * 10 + d <=? _); [|done]. destruct (_ <=? U64_MAX); [|done]. intros [= <-]. lia.
Qed.

Lemma price_shape_split t w f :
  price_shape t w f →
  match split_once dot t with Some wf => wf | None => (t, "") end = (w, f)
  ∧ is_empty t || starts_with "-" t = false.
Proof.
  intros [[Hw Hd] [Hf _] Ht]. assert (no_char dot w = true) as Hdot by (by apply digits_no_char).
  assert (is_empty t || starts_with "-" t = false) as He.
  { destruct w as [|a w]; [done|]. assert (∃ r, t = String a r) as [r ->].
    { destruct Ht as [[-> _]| ->]; [by eexists|]. rewrite app_str_cons. by eexists. }
    unfold starts_with. cbn [is_empty orb String.prefix].
    destruct (Ascii.ascii_dec _ a) as [<-|]; [|done]. unfold all_digits in Hd. by cbn in Hd. }
  split; [|done]. destruct Ht as [[-> ->]| ->]; [by rewrite split_once_none | by rewrite split_once_at].
Qed.

(** A price is read exactly: the parser returns [v] for a text iff, after trimming, it is one
    or more digits with an optional point and at most two digits, and [v] is that amount
    in hundredths, which fits the 64-bit unsigned range; everything else (signs, more than
    two decimals, a missing whole part, an overflow) is refused. *)
Theorem parse_price_exact s v :
  parse_price s = Some v ↔
  ∃ whole frac units c, price_shape (trim s) whole frac ∧ parse_u64 whole = Some units
    ∧ cents frac = Some c ∧ v = 100 * units + c ∧ in_u64 v.
Proof.
  assert (∀ units, parse_u64 units = None ∨ ∃ u, parse_u64 units = Some u ∧ 0 ≤ u ≤ U64_MAX) as Hu.
  { intros x. destruct (parse_u64 x) as [u|] eqn:Hx; [right|by left]. exists u. split; [done|].
    by eapply parse_unsigned_bounds. }
  unfold parse_price. set (t := trim s). split.
  - destruct (is_empty t || starts_with "-" t); [done|].
    destruct (match split_once dot t with Some wf => wf | None => (t, "") end) as [w f] eqn:Hsp.
    destruct (is_empty w || negb (all_digits w)) eqn:H1; [done|]. apply orb_false_elim in H1 as [Hw Hd].
    destruct (negb (all_digits f) || (2 <? slen f)%nat) eqn:H2; [done|]. apply orb_false_elim in H2 as [Hf Hl].
    apply negb_false_iff in Hd, Hf. apply Nat.ltb_ge in Hl. apply is_empty_false in Hw.
    destruct (parse_u64 w) as [u|] eqn:Hpu; [|done]. cbn [mbind option_bind].
    assert (price_shape t w f) as Hs.
    { split; [done|done|]. destruct (split_once dot t) as [[w' f']|] eqn:Hso.
      - injection Hsp as -> ->. right. by apply split_once_Some.
      - injection Hsp as <- <-. by left. }
    assert (match slen f with 0%nat => Some 0 | 1%nat => (λ d, d * 10) <$> parse_u64 f
            | 2%nat => parse_u64 f | _ => None end = cents f) as ->.
    { unfold cents. destruct (slen f) as [|[|[|]]]; [done..|lia]. }
    destruct (cents f) as [c|] eqn:Hc; [|done]. cbn [mbind option_bind].
    unfold checked_mul64, checked_add64. destruct (Z.leb_spec (u * 100) U64_MAX); [|done]. cbn [mbind option_bind].
    destruct (Z.leb_spec (u * 100 + c) U64_MAX); [|done]. intros [= <-].
    exists w, f, u, c. destruct (Hu w) as [|(u' & Hu' & ?)]; [congruence|].
    assert (u' = u) as -> by congruence. pose proof (cents_bounds f c Hf Hl Hc).
    split_and!; [done..|lia|unfold in_u64; lia].
  - intros (w & f & u & c & Hs & Hw & Hc & -> & Hv). destruct (price_shape_split _ _ _ Hs) as [Hsp He].
    rewrite He, Hsp. destruct Hs as [[Hne Hd] [Hf Hl] _]. rewrite Hd, Hf. apply is_empty_false in Hne.
    rewrite Hne. cbn [negb orb]. apply Nat.ltb_ge in Hl as Hl'. rewrite Hl', Hw. cbn [mbind option_bind].
    pose proof (cents_bounds f c Hf Hl Hc). destruct (Hu w) as [|(u' & Hu' & ?)]; [congruence|].
    assert (u' = u) as -> by congruence. unfold in_u64 in Hv. unfold checked_mul64, checked_add64.
    assert (match slen f with 0%nat => Some 0 | 1%nat => (λ d, d * 10) <$> parse_u64 f
            | 2%nat => parse_u64 f | _ => None end = Some c) as ->.
    { rewrite <- Hc. unfold cents. destruct (slen f) as [|[|[|]]]; [done..|lia]. }
    cbn [mbind option_bind].
    destruct (Z.leb_spec (u * 100) U64_MAX); [|lia]. cbn [mbind option_bind].
    destruct (Z.leb_spec (u * 100 + c) U64_MAX); [|lia]. f_equal. lia.
Qed.

(** ** Commands read back *)

(** The amount in the form the usage text shows. *)
Definition print_price (v : Z) : string :=
  pretty (v / 100) +:+ "." +:+ pretty (v mod 100 / 10) +:+ pretty (v mod 10).

Lemma pretty_digit d : 0 ≤ d < 10 → ∃ a, pretty d = String a "" ∧ digit a = Some d.
Proof.
  intros Hd. assert (d = 0 ∨ d = 1 ∨ d = 2 ∨ d = 3 ∨ d = 4 ∨ d = 5 ∨ d = 6 ∨ d = 7 ∨ d = 8 ∨ d = 9) as H by lia.
  repeat destruct H as [->|H]; try rewrite H; by eexists.
Qed.

Lemma cents_two_digits m :
  0 ≤ m < 100 → let frac := pretty (m / 10) +:+ pretty (m mod 10) in
  all_digits frac = true ∧ slen frac = 2%nat ∧ cents frac = Some m.
Proof.
  intros Hm. cbv zeta.
  assert (0 ≤ m / 10 < 10 ∧ 0 ≤ m mod 10 < 10 ∧ m = 10 * (m / 10) + m mod 10) as (H1 & H2 & H3)
    by (Z.to_euclidean_division_equations; lia).
  destruct (pretty_digit (m / 10) H1) as (a & -> & Ha), (pretty_digit (m mod 10) H2) as (b & -> & Hb).
  rewrite app_str_cons. change ("" +:+ String b "") with (String b "").
  unfold all_digits, cents, parse_u64, parse_unsigned, slen. cbn. rewrite Ha, Hb. split; [done|]. split; [done|].
  destruct (Ascii.eqb a plus) eqn:He; [by apply Ascii.eqb_eq in He as ->|].
  assert ((0 * 10 + m / 10 <=? U64_MAX) = true) as Hl1 by (apply Z.leb_le; unfold U64_MAX; lia).
  assert (((0 * 10 + m / 10) * 10 + m mod 10 <=? U64_MAX) = true) as Hl2 by (apply Z.leb_le; unfold U64_MAX; lia).
  cbn in Hl1, Hl2. rewrite Hl1, Hl2. f_equal. lia.
Qed.

Lemma print_price_printable v : 0 ≤ v → word (print_price v).
Proof.
  intros Hv. unfold print_price.
  assert (0 ≤ v / 100 ∧ 0 ≤ v mod 100 / 10 ∧ 0 ≤ v mod 10) as (H1 & H2 & H3)
    by (Z.to_euclidean_division_equations; lia).
  destruct (pretty_word _ H1) as [Hne P1], (pretty_word _ H2) as [_ P2], (pretty_word _ H3) as [_ P3]. split.
  - destruct (pretty (v / 100)); [done|]. by rewrite app_str_cons.
  - rewrite !bytes_app, !forallb_app, P1, P2, P3. done.
Qed.

Lemma parse_print_price v : in_u64 v → parse_price (print_price v) = Some v.
Proof.
  intros Hv. unfold in_u64 in Hv. destruct (print_price_printable v) as [_ Hp]; [lia|].
  apply parse_price_exact. rewrite (trim_printable _ Hp).
  assert (0 ≤ v / 100 ≤ U64_MAX ∧ 0 ≤ v mod 100 < 100 ∧ v = 100 * (v / 100) + v mod 100
    ∧ (v mod 100) mod 10 = v mod 10) as (H1 & H2 & H3 & H4)
    by (unfold U64_MAX in *; Z.to_euclidean_division_equations; lia).
  destruct (cents_two_digits (v mod 100) H2) as (F1 & F2 & F3). rewrite H4 in *.
  destruct (pretty_digits (v / 100)) as [D1 D2]; [lia|].
  exists (pretty (v / 100)), (pretty (v mod 100 / 10) +:+ pretty (v mod 10)), (v / 100), (v mod 100).
  split; [|split; [by apply parse_u64_pretty|]; split; [done|]; split; [done|unfold in_u64; lia]].
  split; [done|split; [done|lia]|]. right. done.
Qed.

Lemma parse_i64_pretty z : in_i64 z → parse_i64 (pretty z) = Some z.
Proof.
  intros Hz. unfold in_i64 in Hz. destruct (Z.le_gt_cases 0 z) as [Hp|Hn].
  - destruct (pretty_digits z Hp) as [Hd Hne]. unfold parse_i64. unfold all_digits in Hd.
    destruct (bytes (pretty z)) as [|a l] eqn:Hb; [by destruct (pretty z)|].
    destruct (Ascii.eqb a dash) eqn:Ha; [by apply Ascii.eqb_eq in Ha as ->|].
    rewrite <- Hb. apply parse_unsigned_pretty. lia.
  - destruct z as [|z|z]; [lia|lia|]. change (pretty (Z.neg z)) with ("-" +:+ pretty (N.pos z)).
    unfold parse_i64. rewrite bytes_app. cbn [app bytes].
    change (Ascii.eqb _ dash) with true. cbn iota.
    pose proof (parse_unsigned_pretty (I64_MAX + 1) (Z.pos z)
      ltac:(unfold I64_MIN, I64_MAX in *; lia)) as Hq.
    change (pretty (Z.pos z)) with (pretty (N.pos z)) in Hq. unfold parse_unsigned in Hq.
    destruct (pretty_digits (Z.pos z)) as [Hd _]; [lia|]. unfold all_digits in Hd.
    change (pretty (Z.pos z)) with (pretty (N.pos z)) in Hd.
    destruct (bytes (pretty (N.pos z))) as [|a l]; [done|].
    destruct (Ascii.eqb a plus) eqn:Ha; [by apply Ascii.eqb_eq in Ha as ->|]. by rewrite Hq.
Qed.

(** The words of a command as a user types it. *)
Definition opt_text (o : option string) : string := default "-" o.

Definition command_words (c : ReplCommand) : list string :=
  match c with
  | Help => ["help"]
  | Supply s pid pn q p l cur =>
      ["supply"; s; pid; pn; pretty q; print_price p; pretty l; cur]
  | Order b s pr q p cur => ["order"; b; s; pr; pretty q; print_price p; cur]
  | ContractCmd id b pr mp mn mx ml cur =>
      ["contract"; id; b; pr; print_price mp; pretty mn; pretty mx; pretty ml; cur]
  | Inventory o p d r => ["inventory"; o; p; pretty d] ++ split_whitespace r
  | AssetCmd o pn g b e s q ev =>
      ["asset"; o; pn; opt_text g; opt_text b; opt_text e; opt_text s; pretty q; ev]
  | ChainCmd => ["chain"]
  | Pending => ["pending"]
  | PeersCmd => ["peers"]
  | ContractsCmd => ["contracts"]
  | ReloadTrustStore p => ["reload-trust-store"; p]
  | Quit => ["quit"]
  end.

Definition render (c : ReplCommand) : string := line (command_words c).

Definition opt_word (o : option string) : Prop :=
  match o with Some s => word s ∧ s ≠ "-" | None => True end.

(** Commands whose fields are single printable words and whose numbers have their types. *)
Definition typable (c : ReplCommand) : Prop :=
  match c with
  | Supply s pid pn q p l cur =>
      Forall word [s; pid; pn; cur] ∧ in_u64 q ∧ in_u64 p ∧ 0 ≤ l ≤ U32_MAX
  | Order b s pr q p cur => Forall word [b; s; pr; cur] ∧ in_u64 q ∧ in_u64 p
  | ContractCmd id b pr mp mn mx ml cur =>
      Forall word [id; b; pr; cur] ∧ in_u64 mp ∧ in_u64 mn ∧ in_u64 mx ∧ 0 ≤ ml ≤ U32_MAX
  | Inventory o p d r =>
      Forall word [o; p] ∧ in_i64 d ∧ ∃ ws, ws ≠ [] ∧ Forall word ws ∧ r = line ws
  | AssetCmd o pn g b e s q ev =>
      Forall word [o; pn; ev] ∧ Forall opt_word [g; b; e; s] ∧ in_u64 q
  | ReloadTrustStore p => word p
  | _ => True
  end.

Lemma opt_field_text o : opt_word o → opt_field (opt_text o) = o.
Proof.
  destruct o as [s|]; [|done]. intros [_ Hs]. unfold opt_field, opt_text. cbn.
  apply str_eqb_neq in Hs. by rewrite Hs.
Qed.

Lemma opt_text_word o : opt_word o → word (opt_text o).
Proof. destruct o as [s|]; [by intros [Hs _]|]. intros _. by split. Qed.

Lemma pretty_word_i64 (z : Z) : word (pretty z).
Proof.
  destruct (Z.le_gt_cases 0 z) as [H|H]; [by apply pretty_word|]. destruct z as [|z|z]; [lia|lia|].
  change (pretty (Z.neg z)) with ("-" +:+ pretty (N.pos z)).
  destruct (pretty_word (Z.pos z)) as [Hne Hp]; [lia|].
  split; [by rewrite app_str_cons|]. rewrite bytes_app, forallb_app. by rewrite andb_true_iff.
Qed.

Lemma command_words_words c : typable c → Forall word (command_words c).
Proof.
  assert (∀ q, in_u64 q → word (print_price q)) as Hp by (intros q Hq; apply print_price_printable; unfold in_u64 in Hq; lia).
  assert (word "supply" ∧ word "order" ∧ word "contract" ∧ word "inventory" ∧ word "asset" ∧ word "reload-trust-store")
    as (W1 & W2 & W3 & W4 & W5 & W6) by (by split_and!).
  pose proof pretty_word_i64 as Hw.
  destruct c; cbn [typable command_words]; intros H;
    try (apply Forall_singleton; by split); rewrite ?Forall_app, ?Forall_cons in *.
  - destruct H as ((? & ? & ? & ? & _) & ? & ? & ?). split_and!; auto.
  - destruct H as ((? & ? & ? & ? & _) & ? & ?). split_and!; auto.
  - destruct H as ((? & ? & ? & ? & _) & ? & ? & ? & ?). split_and!; auto.
  - destruct H as ((? & ? & _) & _ & ws & _ & Hws & ->). rewrite split_line by done. split_and!; auto.
  - destruct H as ((? & ? & ? & _) & (? & ? & ? & ? & _) & _). split_and!; auto using opt_text_word.
  - split_and!; auto.
Qed.

Lemma parse_command_render c : typable c → parse_command (render c) = Ok (Some c).
Proof.
  intros Hc. unfold parse_command, render. rewrite (split_line _ (command_words_words c Hc)).
  assert (parse_words "supply" = parse_supply ∧ parse_words "order" = parse_order
    ∧ parse_words "contract" = parse_contract ∧ parse_words "inventory" = parse_inventory
    ∧ parse_words "asset" = parse_asset) as (E1 & E2 & E3 & E4 & E5) by done.
  destruct c; cbn [command_words typable app] in *; try done;
    rewrite ?E1, ?E2, ?E3, ?E4, ?E5.
  - destruct Hc as (_ & ? & ? & ?). cbn [parse_supply].
    by rewrite parse_u64_pretty, parse_print_price, parse_u32_pretty.
  - destruct Hc as (_ & ? & ?). cbn [parse_order]. by rewrite parse_u64_pretty, parse_print_price.
  - destruct Hc as (_ & ? & ? & ? & ?). cbn [parse_contract].
    by rewrite !parse_u64_pretty, parse_print_price, parse_u32_pretty.
  - destruct Hc as (_ & ? & ws & Hne & Hws & ->). rewrite split_line by done.
    destruct ws as [|w ws]; [done|]. cbn [parse_inventory]. by rewrite parse_i64_pretty.
  - destruct Hc as (_ & Ho & ?). rewrite !Forall_cons in Ho. destruct Ho as (? & ? & ? & ? & _).
    cbn [parse_asset]. rewrite parse_u64_pretty by done. cbn [ok_or]. by rewrite !opt_field_text.
Qed.

(** Every command reads back: a command whose fields are printable words and whose numbers
    are in the ranges of their types is what the parser returns for the line a user types
    for it, prices included. *)
Theorem parse_render c : typable c → parse_command (render c) = Ok (Some c).
Proof. apply parse_command_render. Qed.

(** ** Flags are pairs *)

Definition KNOWN_FLAGS : list string :=
  ["--id"; "--listen"; "--peer"; "--difficulty"; "--storage-path"; "--org"; "--identity-node-id";
   "--trust-store"; "--identity-file"; "--rpc-addr"].

Lemma unknown_flag_ignored a flag value : flag ∉ KNOWN_FLAGS → set_flag a flag value = a.
Proof.
  unfold KNOWN_FLAGS. intros H. rewrite !not_elem_of_cons in H.
  destruct H as (H1 & H2 & H3 & H4 & H5 & H6 & H7 & H8 & H9 & H10 & _).
  destruct a. unfold set_flag.
  apply str_eqb_neq in H1, H2, H3, H4, H5, H6, H7, H8, H9, H10.
  by rewrite H1, H2, H3, H4, H5, H6, H7, H8, H9, H10.
Qed.

(** A switch without a value takes the next flag as its value: the documented forward
    compatibility drops a known flag that follows an unknown one. *)
Theorem unknown_switch_swallows_flag a switch flag rest :
  switch ∉ KNOWN_FLAGS → scan_args a (switch :: flag :: rest) = scan_args a rest.
Proof. intros H. cbn [scan_args]. by rewrite unknown_flag_ignored. Qed.

(** The arguments of a list of pairs. *)
Definition flag_args (pairs : list (string * string)) : list string :=
  pairs ≫= λ fv, [fv.1; fv.2].

Lemma parse_args_pairs prog pairs trailing :
  (length trailing ≤ 1)%nat →
  parse_args (prog :: flag_args pairs ++ trailing) = foldl (λ a fv, set_flag a fv.1 fv.2) defaults pairs.
Proof.
  intros Ht. unfold parse_args. cbn [tail]. generalize defaults. unfold flag_args.
  induction pairs as [|[f v] pairs IH]; intros a; csimpl; [|apply IH].
  by destruct trailing as [|x [|]]; [..|cbn in Ht; lia].
Qed.
