(* ===== verification/Boot.v ===== *)
(** Starting the node binary and running its commands (glasschain-node: main.rs).

    [load_or_create_identity_file] and [build_trust_store_verifier] read and write files,
    which are a map and a directory oracle here; [boot] is [main] up to the command loop;
    [execute_repl_command] runs a parsed command on the running node.  The theorems: the
    identity file gives the same authority and member back at the next start, a trust store
    is loaded whole or not at all and never without an organization, the administration
    gate exists exactly with a verifier, a command submits exactly the transaction it
    describes, and a booted node runs contracts without the approval gate, since the start
    replaces the engine that the executor was attached to. *)

From S2P Require Import Prelude Types Asset Text Chain Capability Policy Msp Ledger Storage Bft Rounds.
From S2P Require Import Validators Node Ocsp CertVerifier Custody Auth Indexer Channel Peers Outbound.
From S2P Require Import Contracts Watcher Runtime Repl.

Local Open Scope Z_scope.

(** ** The identity file (ADR-018) *)

(** Files by path; [io] is the error of an operation on a path, if it fails. *)
Notation Files := (gmap string string).

Section identity_file.
Context `{E : Env} `{P : Pki} `{O : OcspCrates} `{C : CaCrates}.
Context (read_fails write_fails : string → option string).

(** [ca_key] and [seed] are the fresh randomness of a first start. *)
Definition load_or_create_identity_file (ca_key : list Z) (seed : string) (fs : Files)
    (path org_name identity_name : string)
  : Files * result string (Organization * KeyIdentity * bool) :=
  match fs !! path with
  | Some json =>
      (fs,
       let? json := match read_fails path with
                    | Some e => Err ("cannot read identity file `" +:+ path +:+ "`: " +:+ e)
                    | None => Ok json
                    end in
       let? organization := map_err (λ e, "identity file `" +:+ path +:+ "` is corrupt: "
                              +:+ identity_error_text e) (import_json json) in
       let? member := ok_or (get_member organization identity_name)
         ("identity file `" +:+ path +:+ "` holds organization `" +:+ Custody.org_name organization
          +:+ "` but no member `" +:+ identity_name +:+ "`; fix --identity-node-id or re-provision") in
       guard? Custody.org_name organization ==? org_name else
         ("--org '" +:+ org_name +:+ "' does not match the identity file's organization '"
          +:+ Custody.org_name organization +:+ "'") in
       Ok (organization, member, false))
  | None =>
      match Organization_new ca_key org_name with
      | Err e => (fs, Err ("cannot create organization `" +:+ org_name +:+ "`: " +:+ identity_error_text e))
      | Ok organization =>
          match issue_identity seed organization identity_name with
          | (_, Err e) =>
              (fs, Err ("cannot issue identity `" +:+ identity_name +:+ "`: " +:+ identity_error_text e))
          | (organization, Ok identity) =>
              match export_json organization with
              | Err e => (fs, Err ("cannot serialize identity material: " +:+ identity_error_text e))
              | Ok json =>
                  match write_fails path with
                  | Some e => (fs, Err ("cannot write identity file `" +:+ path +:+ "`: " +:+ e))
                  | None => (<[path := json]> fs, Ok (organization, identity, true))
                  end
              end
          end
      end
  end.

(** C23: the identity file makes the identity durable: when a first start creates it, every
    later start with the same organization and member name loads the same authority (root
    key, certificate, serials and members) and the same member key and certificate, and
    leaves the file alone; a start under another organization is refused. *)
Theorem identity_survives_restart (L : custody_laws) ca_key ca_key' seed seed' fs fs' path org name o i :
  Forall is_byte ca_key → slen seed = 32%nat → read_fails path = None →
  load_or_create_identity_file ca_key seed fs path org name = (fs', Ok (o, i, true)) →
  load_or_create_identity_file ca_key' seed' fs' path org name = (fs', Ok (o, i, false))
  ∧ ∀ org', org' ≠ org → ∃ e, load_or_create_identity_file ca_key' seed' fs' path org' name = (fs', Err e).
Proof.
  intros Hk Hseed Hrd. unfold load_or_create_identity_file at 1. destruct (fs !! path) as [json|] eqn:Hp.
  { rewrite Hrd. cbn. destruct (import_json json) as [o'|]; [|done]. cbn. destruct (get_member o' name); [|done].
    cbn. destruct (Custody.org_name o' ==? org); done. }
  destruct (Organization_new ca_key org) as [o0|] eqn:Hnew; [|done].
  destruct (issue_identity seed o0 name) as [o1 [i1|]] eqn:Hiss; [|done].
  destruct (export_json o1) as [json|] eqn:Hex; [|done].
  destruct (write_fails path); [done|]. intros [= <- <- <-].
  pose proof (Organization_new_custody L _ _ _ Hk Hnew) as Hw0.
  pose proof (ca_step_custody L o0 (CIssue seed name None) Hseed Hw0) as Hw.
  assert (o1 = ca_step o0 (CIssue seed name None)) as Ho.
  { unfold issue_identity in Hiss. cbn [ca_step]. by rewrite Hiss. }
  rewrite <- Ho in Hw. destruct (restore_snapshot L o1 Hw) as (s & Hs & Hr).
  assert (revoked o0 = [] ∧ Custody.org_name o0 = org) as [Hrev Hname].
  { unfold Organization_new in Hnew. destruct (self_signed _ _) as [[pem der]|]; [|done]. cbn in Hnew.
    destruct (cert_of_der der); [|done]. by injection Hnew as <-. }
  assert (whole_seconds o1 = o1 ∧ Custody.org_name o1 = org ∧ org_members o1 !! name = Some i1) as (Hws & Hn1 & Hm).
  { unfold issue_identity, issue_identity_with_role in Hiss. cbn in Hiss.
    destruct (let? member_key := _ in _) as [cert|]; [|done]. injection Hiss as <- <-.
    unfold whole_seconds. cbn. rewrite Hrev. split; [done|]. split; [done|]. by rewrite lookup_insert_eq. }
  assert (import_json json = Ok o1) as Himp.
  { unfold export_json in Hex. rewrite Hs in Hex. cbn in Hex. destruct (cl_json L s) as (j & Hj & Hj').
    rewrite Hj in Hex. cbn in Hex. injection Hex as <-. unfold import_json. rewrite Hj'. cbn. by rewrite Hr, Hws. }
  assert (∀ org', load_or_create_identity_file ca_key' seed' (<[path := json]> fs) path org' name
    = (<[path := json]> fs, guard? Custody.org_name o1 ==? org' else
         ("--org '" +:+ org' +:+ "' does not match the identity file's organization '"
          +:+ Custody.org_name o1 +:+ "'") in Ok (o1, i1, false))) as Hload.
  { intros org'. unfold load_or_create_identity_file. rewrite lookup_insert_eq, Hrd. cbn. rewrite Himp. cbn.
    unfold get_member. by rewrite Hm. }
  split.
  - rewrite Hload, Hn1, str_eqb_refl. done.
  - intros org' Hne. rewrite Hload, Hn1. destruct (org ==? org') eqn:He; [apply str_eqb_eq in He; congruence|].
    by eexists.
Qed.
End identity_file.

(** ** The trust store (ADR-011, ADR-013) *)

(** [Path::extension] and [Path::file_stem] of a file name. *)
Fixpoint rsplit_dot (s : string) : option (string * string) :=
  match s with
  | EmptyString => None
  | String a s' =>
      match rsplit_dot s' with
      | Some (w, x) => Some (String a w, x)
      | None => if Ascii.eqb a dot then Some (EmptyString, s') else None
      end
  end.
Definition extension (name : string) : option string :=
  match rsplit_dot name with
  | Some (stem, ext) => if is_empty stem then None else Some ext
  | None => None
  end.
Definition file_stem (name : string) : string :=
  match rsplit_dot name with
  | Some (stem, _) => if is_empty stem then name else stem
  | None => name
  end.

(** What [std::fs::metadata] and [read_dir] say of a path: directory entries come in
    some order, and an entry that cannot be read is dropped. *)
Inductive PathKind :=
| IsDir (entries : result string (list string))
| IsFile.

Section trust_store.
Context `{P : Pki} `{C : OcspCrates}.
Context (cert_error_text : CertVerificationError → string).
(** The PEM blocks of a file, by name: certificates and CRLs. *)
Context (cert_blocks crl_blocks : string → result string (list (result string (list Z)))).

Definition load_anchor (v : CertChainVerifier) (file : string) : CertChainVerifier * result string unit :=
  let '(v, r) := add_federation_root_file v (file_stem file) file (cert_blocks file) in
  (v, map_err cert_error_text r).
Definition load_crl (v : CertChainVerifier) (file : string) : CertChainVerifier * result string unit :=
  let '(v, r) := add_crl_file v file (crl_blocks file) in
  (v, map_err cert_error_text r).

Definition has_extension (file ext : string) : bool :=
  match extension file with Some e => e ==? ext | None => false end.

Fixpoint load_files (v : CertChainVerifier) (added : nat) (files : list string)
  : result string (CertChainVerifier * nat) :=
  match files with
  | [] => Ok (v, added)
  | file :: files =>
      match (if has_extension file "crl" then load_crl v file else load_anchor v file) with
      | (_, Err e) => Err ("cannot load trust anchor from `" +:+ file +:+ "`: " +:+ e)
      | (v, Ok _) => load_files v (added + 1) files
      end
  end.

(** The files of a directory that the store reads, in the order it reads them. *)
Definition store_files (entries : list string) : list string :=
  sort_by String.leb (List.filter (λ f, has_extension f "pem" || has_extension f "crl") entries).

Definition build_trust_store_verifier (org root_pem path : string) (kind : result string PathKind)
  : result string (CertChainVerifier * nat * nat) :=
  let? verifier := map_err (λ e, "cannot build certificate verifier for `" +:+ org +:+ "`: "
                     +:+ cert_error_text e) (from_pem org root_pem) in
  match kind with
  | Ok (IsDir entries) =>
      let? entries := map_err (λ e, "cannot read trust store directory `" +:+ path +:+ "`: " +:+ e) entries in
      let? va := load_files verifier 0 (store_files entries) in
      Ok (va.1, va.2, crl_count va.1)
  | Ok IsFile =>
      match load_anchor verifier path with
      | (_, Err e) => Err e
      | (v, Ok _) => Ok (v, 1%nat, crl_count v)
      end
  | Err e => Err ("cannot load trust store at `" +:+ path +:+ "`: " +:+ e)
  end.

(** Loading never changes whom the verifier belongs to. *)
Lemma add_root_blocks_own v label n blocks v' r :
  add_root_blocks v label n blocks = (v', r) →
  root_cert_der v' = root_cert_der v ∧ cv_org_name v' = cv_org_name v ∧ crls v' = crls v.
Proof.
  revert v n. induction blocks as [|[der|e] blocks IH]; intros v n; cbn; [by intros [= <- _]| |by intros [= <- _]].
  unfold add_anchor. destruct (cert_of_der der) as [p|]; cbn; [|by intros [= <- _]].
  intros H. apply IH in H. by destruct (bytes_eqb _ _).
Qed.

Lemma add_crl_blocks_own v n blocks v' r :
  add_crl_blocks v n blocks = (v', r) →
  root_cert_der v' = root_cert_der v ∧ cv_org_name v' = cv_org_name v
  ∧ federation_anchors v' = federation_anchors v ∧ intermediates v' = intermediates v.
Proof.
  revert v n. induction blocks as [|[der|e] blocks IH]; intros v n; cbn; [by intros [= <- _]| |by intros [= <- _]].
  destruct (webpki_crl der); [|by intros [= <- _]]. intros H. by apply IH in H.
Qed.

(** Every file read contributed at least one block, and all of them parsed. *)
Definition file_loaded (file : string) : Prop :=
  let blocks := if has_extension file "crl" then crl_blocks file else cert_blocks file in
  ∃ ders, blocks = Ok (Ok <$> ders) ∧ ders ≠ [].

Lemma add_root_blocks_Ok v label n blocks v' m :
  add_root_blocks v label n blocks = (v', Ok m) → ∃ ders, blocks = Ok <$> ders ∧ m = (n + N.of_nat (length ders))%N.
Proof.
  revert v n. induction blocks as [|[der|e] blocks IH]; intros v n; cbn; [| |done].
  { intros [= _ <-]. exists []. split; [done|]. cbn. lia. }
  destruct (add_anchor _ _ _); [|done]. intros (ders & -> & ->)%IH. exists (der :: ders). split; [done|]. cbn. lia.
Qed.

Lemma add_crl_blocks_Ok v n blocks v' m :
  add_crl_blocks v n blocks = (v', Ok m) → ∃ ders, blocks = Ok <$> ders ∧ m = (n + N.of_nat (length ders))%N.
Proof.
  revert v n. induction blocks as [|[der|e] blocks IH]; intros v n; cbn; [| |done].
  { intros [= _ <-]. exists []. split; [done|]. cbn. lia. }
  destruct (webpki_crl der); [|done]. intros (ders & -> & ->)%IH. exists (der :: ders). split; [done|]. cbn. lia.
Qed.

Lemma load_one_Ok v file v' :
  (if has_extension file "crl" then load_crl v file else load_anchor v file) = (v', Ok tt) →
  file_loaded file ∧ root_cert_der v' = root_cert_der v ∧ cv_org_name v' = cv_org_name v.
Proof.
  unfold file_loaded. destruct (has_extension file "crl").
  - unfold load_crl, add_crl_file. destruct (crl_blocks file) as [blocks|]; [|done].
    destruct (add_crl_blocks v 0 blocks) as [v1 [m|]] eqn:Ha; [|done].
    destruct (m =? 0)%N eqn:Hm; [done|]. intros [= <-].
    pose proof (add_crl_blocks_own _ _ _ _ _ Ha) as (H1 & H2 & _).
    apply add_crl_blocks_Ok in Ha as (ders & -> & ->). split; [|done].
    exists ders. split; [done|]. intros ->. done.
  - unfold load_anchor, add_federation_root_file. destruct (cert_blocks file) as [blocks|]; [|done].
    destruct (add_root_blocks v _ 0 blocks) as [v1 [m|]] eqn:Ha; [|done].
    destruct (m =? 0)%N eqn:Hm; [done|]. intros [= <-].
    pose proof (add_root_blocks_own _ _ _ _ _ _ Ha) as (H1 & H2 & _).
    apply add_root_blocks_Ok in Ha as (ders & -> & ->). split; [|done].
    exists ders. split; [done|]. intros ->. done.
Qed.

Lemma load_files_Ok files : ∀ v0 n v n', load_files v0 n files = Ok (v, n') →
  n' = (n + length files)%nat ∧ Forall file_loaded files
  ∧ root_cert_der v = root_cert_der v0 ∧ cv_org_name v = cv_org_name v0.
Proof.
  induction files as [|f files IH]; intros v0 n v n'; cbn [load_files].
  - intros [= <- <-]. cbn. split_and!; [lia|constructor|done|done].
  - destruct (if has_extension f "crl" then _ else _) as [v1 [[]|]] eqn:Ho; [|done].
    apply load_one_Ok in Ho as (L1 & L2 & L3). intros (I1 & I2 & I3 & I4)%IH. cbn.
    split_and!; [lia|by constructor|congruence|congruence].
Qed.

Lemma from_pem_own org root_pem v :
  from_pem org root_pem = Ok v → cv_org_name v = org ∧ cert_of_pem root_pem = Ok (root_cert_der v).
Proof.
  unfold from_pem, from_der. destruct (cert_of_pem root_pem); [|done]. cbn.
  destruct (cert_of_der _); [|done]. by intros [= <-].
Qed.

(** Whatever the store, the verifier speaks for the node's own organization and root. *)
Lemma trust_store_own org root_pem path kind v added crls :
  build_trust_store_verifier org root_pem path kind = Ok (v, added, crls) →
  cv_org_name v = org ∧ cert_of_pem root_pem = Ok (root_cert_der v).
Proof.
  unfold build_trust_store_verifier. destruct (from_pem org root_pem) as [v0|] eqn:Hf; [|done]. cbn.
  apply from_pem_own in Hf as [H1 H2]. destruct kind as [[[entries|]|]|]; cbn; try done.
  - destruct (load_files v0 0 _) as [[v1 n1]|] eqn:Hlf; [|done]. cbn. intros [= <- _ _].
    apply load_files_Ok in Hlf as (_ & _ & L3 & L4). by rewrite L3, L4.
  - destruct (load_anchor v0 path) as [v1 [u|]] eqn:Ha; [|done]. intros [= <- _ _].
    unfold load_anchor, add_federation_root_file in Ha. destruct (cert_blocks path) as [blocks|]; [|by injection Ha as <- _].
    destruct (add_root_blocks v0 _ 0 blocks) as [v2 [m|]] eqn:Hb; apply add_root_blocks_own in Hb as (L1 & L2 & _);
      [destruct (m =? 0)%N|]; injection Ha as <- _; by rewrite L1, L2.
Qed.

(** A directory store that loads was read whole: every PEM and CRL file in it parsed and
    contributed, and the verifier still speaks for the node's own organization and root. *)
Theorem trust_store_loaded_whole org root_pem path entries v added crls :
  build_trust_store_verifier org root_pem path (Ok (IsDir (Ok entries))) = Ok (v, added, crls) →
  added = length (store_files entries) ∧ Forall file_loaded (store_files entries)
  ∧ cv_org_name v = org ∧ cert_of_pem root_pem = Ok (root_cert_der v) ∧ crls = crl_count v.
Proof.
  intros H. pose proof (trust_store_own _ _ _ _ _ _ _ H) as [H1 H2]. revert H.
  unfold build_trust_store_verifier. destruct (from_pem org root_pem) as [v0|]; [|done]. cbn.
  destruct (load_files v0 0 _) as [[v1 n1]|] eqn:Hlf; [|done]. cbn. intros [= <- <- <-].
  apply load_files_Ok in Hlf as (-> & L2 & _). by split_and!.
Qed.
End trust_store.

(** ** Starting (main) *)

Section boot.
Context `{E : Env} `{B : Bls} `{D : Ed25519Crate} `{X : X509} `{P : Pki} `{O : OcspCrates} `{C : CaCrates}.
Context (parse_value : string → result string Value) (base64_decode : string → option string).
Context (content_hash : list (string * string * string) → Z).
Context (base64_std : string → result string string) (json_offer : SupplyOffer → string).
Context (tx_clock : string → Z).
Context (snapshot_of_json : string → result string WatcherStateSnapshot).
Context (tx_to_json : Transaction → result string string)
        (tx_of_json : string → result string Transaction)
        (proof_of_json : string → result string EquivocationProof)
        (pin_of_json : string → result string StoredPeerPin).
Context {S : Type} `{SP : StorageProvider S}.
Context (apply_block : S → Block → S * result CoreError unit).
(** Files, the trust store and the storage backends. *)
Context (read_fails write_fails : string → option string).
Context (cert_error_text : CertVerificationError → string).
Context (cert_blocks crl_blocks : string → result string (list (result string (list Z)))).
Context (metadata : string → result string PathKind).
Context (memory : S) (open_storage : string → result string S).
(** [WasmExecutionProvider::new()] and [parse::<SocketAddr>()] *)
Context (wasm : result string ExecutionProvider) (socket_addr : string → result string unit).
(** Binding the peer listener. *)
Context (bind : string → result string unit).

(** The identity section: authority, member and staple. *)
Definition boot_identity (ca_key : list Z) (seed : string) (fs : Files) (a : CliArgs)
  : Files * result string (option (Organization * KeyIdentity)) :=
  match Repl.org_name a with
  | None => (fs, Ok None)
  | Some org =>
      let name := default (Repl.node_id a) (identity_node_id a) in
      match identity_file a with
      | None =>
          (fs,
           let? o := map_err (λ e, "Failed to create organization `" +:+ org +:+ "`: "
                       +:+ identity_error_text e) (Organization_new ca_key org) in
           let '(o, r) := issue_identity seed o name in
           let? i := map_err (λ e, "Failed to issue identity `" +:+ name +:+ "` from organization `"
                       +:+ org +:+ "`: " +:+ identity_error_text e) r in
           Ok (Some (o, i)))
      | Some file =>
          let '(fs, r) := load_or_create_identity_file read_fails write_fails ca_key seed fs file org name in
          (fs, let? oic := r in Ok (Some oic.1))
      end
  end.

(** The staple of the member's own certificate; a failure is logged, and [None] outside
    is the panic on a long serial. *)
Definition boot_staple (now : Z) (a : CliArgs) (id : option (Organization * KeyIdentity))
  : option (option (list Z)) :=
  match id with
  | Some (o, _) =>
      match ocsp_response_der now o (default (Repl.node_id a) (identity_node_id a)) with
      | Some (Ok staple) => Some (Some staple)
      | Some (Err _) => Some None
      | None => None
      end
  | None => Some None
  end.

(** The four constructors of [Node]; [None] is a genesis search that ran out of fuel. *)
Definition boot_node (verifier_key : PrivateKey) (fuel : nat) (clock : nat → Z) (a : CliArgs)
    (identity : option Identity) : option (result string FullNode) :=
  let d := Z.to_nat (difficulty a) in
  match storage_path a with
  | None => l ← Ledger_new fuel clock d; Some (Ok (with_components l memory identity))
  | Some path =>
      match open_storage path with
      | Err e => Some (Err ("Failed to open storage at " +:+ path +:+ ": " +:+ e))
      | Ok s =>
          l ← restore_ledger parse_value base64_decode verifier_key fuel clock d s;
          Some (Ok (with_components l s identity))
      end
  end.

Definition set_cert_verifier (n : FullNode (S := S)) (v : CertChainVerifier) : FullNode :=
  let p := fn_peers n in
  with_peers n (mkPeerNode (pn_registry p) (known_peers p) (peer_senders p) (reconnect_attempts p)
                  (Some v) (pn_storage p)).

(** The provider that knows this node's own key. *)
Definition own_provider (org : string) (i : KeyIdentity) : EndorsementProvider :=
  msp_evaluate (register ∅ (ki_public_key i) org).

(** The trust-store section: the verifier to install, if any. *)
Definition boot_verifier (a : CliArgs) (org_root_pem : option string) : result string (option CertChainVerifier) :=
  match Repl.org_name a, org_root_pem, trust_store a with
  | Some org, Some root_pem, Some path =>
      let? vfc := build_trust_store_verifier cert_error_text cert_blocks crl_blocks org root_pem path
                    (metadata path) in
      Ok (Some vfc.1.1)
  | Some _, Some _, None => Ok None
  | None, _, Some _ => Err "--trust-store requires --org: there is no organization Root CA to verify against"
  | _, _, _ => Ok None
  end.

Record Booted := mkBooted {
  bt_node : FullNode (S := S);
  bt_staple : option (list Z);
  bt_org : option string;
  bt_root_pem : option string;
  bt_gate : option AdminGate;
  bt_rpc : bool }.

Definition opt_apply {A} (f : FullNode → A → FullNode) (n : FullNode (S := S)) (o : option A) : FullNode :=
  match o with Some a => f n a | None => n end.

(** [main] up to the command loop; [Err] is an exit with that message, [None] a panic or a
    genesis search that ran out of fuel. *)
Definition boot (now : Z) (ca_key : list Z) (seed : string) (verifier_key : PrivateKey) (fuel : nat)
    (clock : nat → Z) (fs : Files) (a : CliArgs) : option (Files * result string Booted) :=
  match boot_identity ca_key seed fs a with
  | (fs, Err e) => Some (fs, Err e)
  | (fs, Ok id) =>
      let root_pem := (λ oi, root_ca_cert_pem oi.1) <$> id in
      staple ← boot_staple now a id;
      rn ← boot_node verifier_key fuel clock a ((λ oi, key_identity oi.2) <$> id);
      Some (fs,
        let? n := rn in
        let n := match wasm with Ok x => set_execution_provider n x | Err _ => n end in
        let n := match Repl.org_name a, id with
                 | Some org, Some oi => set_endorsement_provider n (own_provider org oi.2)
                 | _, _ => n
                 end in
        let? v := boot_verifier a root_pem in
        let n := opt_apply set_cert_verifier n v in
        match start base64_std tx_clock snapshot_of_json tx_to_json tx_of_json proof_of_json pin_of_json
                apply_block n with
        | (_, Err e) => Err ("Failed to start node: core error: " +:+ display_error e)
        | (n, Ok _) =>
            let? _ := map_err (λ e, "Failed to start node: I/O error: " +:+ e) (bind (listen_addr a)) in
            Ok (mkBooted n staple (Repl.org_name a) root_pem (AdminGate_new <$> v)
                  (match rpc_addr a with Some addr => is_ok (socket_addr addr) | None => false end))
        end)
  end.

(** ** Running commands *)

(** A line on standard output or standard error. *)
Inductive Line := Stdout (text : string) | Stderr (text : string).

(** [{:>4}] *)
Definition pad4 (s : string) : string := of_bytes (replicate (4 - slen s) space) +:+ s.

Record ContractSummary := mkSummary {
  cm_id : string; cm_buyer_id : string; cm_product_id : string; cm_status : string;
  cm_quantity_purchased : Z; cm_max_quantity : Z }.

Definition status_text (s : ContractStatus) : string :=
  match s with
  | Active => "Active" | Paused => "Paused" | Fulfilled => "Fulfilled" | Cancelled => "Cancelled"
  end.

(** In the iteration order of the contract map. *)
Definition contract_summaries (n : FullNode (S := S)) : list ContractSummary :=
  (λ kc : string * Contract,
     let c := kc.2 in
     mkSummary (contract_id c) (scd_buyer_id (c_definition c)) (scd_product_id (c_definition c))
       (status_text (c_status c)) (quantity_purchased c) (max_quantity (conditions c)))
    <$> map_to_list (contracts (fn_engine n)).

(** The asset an [asset] command registers. *)
Definition command_asset (originator product_name : string) (gtin batch expiry serial : option string)
    (qty : Z) : TraceableAsset :=
  mkTraceableAsset gtin batch expiry serial None None product_name originator None None qty.

(** The transaction a command asks for, with what is printed before and after it. *)
Definition command_kind (c : ReplCommand) : option (TransactionKind * list string * string) :=
  match c with
  | Supply seller pid pname qty price lead cur =>
      Some (KSupplyOffer (mkSupplyOffer pid pname seller qty price lead cur), [], "Supply offer submitted.")
  | Order buyer seller product qty price cur =>
      Some (KPurchaseOrder (mkPurchaseOrder product buyer seller qty price cur None), [],
            "Purchase order submitted.")
  | ContractCmd id buyer product max_price min_qty max_qty max_lead cur =>
      Some (KContractCreation (mkSmartContractDef id buyer product
              (mkPurchaseConditions max_price min_qty max_qty max_lead None cur true) None), [],
            "Smart contract created.")
  | Inventory owner product delta reason =>
      Some (KInventoryUpdate (mkInventoryUpdate product owner delta reason), [],
            "Inventory update submitted.")
  | AssetCmd originator pname g batch expiry serial qty ev =>
      let asset := command_asset originator pname g batch expiry serial qty in
      let score := TrustScore.compute asset in
      Some (KAssetRegistration (mkTraceableAssetRegistration asset ev originator None),
            ["Metadata Trust Score: " +:+ TrustScore.display score +:+ " (fee multiplier: "
             +:+ pretty (TrustScore.fee_multiplier score) +:+ "%)"],
            "Asset registration submitted.")
  | _ => None
  end.

Definition chain_lines (n : FullNode (S := S)) : list string :=
  ("Chain length: " +:+ pretty (length (fn_chain n)) +:+ " blocks")
  :: ((λ b, "  [" +:+ pad4 (pretty (index b)) +:+ "] " +:+ String.substring 0 12 (hash b) +:+ " | txns="
            +:+ pretty (length (transactions b)) +:+ " | prev=" +:+ String.substring 0 8 (previous_hash b)
            +:+ "…") <$> fn_chain n).

Definition pending_lines (n : FullNode (S := S)) : list string :=
  let pending := pending_transactions (nd_ledger (fn_core n)) in
  ("Pending transactions: " +:+ pretty (length pending))
  :: ((λ tx, "  " +:+ tx_id tx +:+ " [" +:+ Index.kind_name tx +:+ "]") <$> pending).

Definition peers_lines (n : FullNode (S := S)) : list string :=
  match elements (known_peers (fn_peers n)) with
  | [] => ["No connected peers."]
  | peers => ("Known peers (" +:+ pretty (length peers) +:+ "):") :: ((λ p, "  " +:+ p) <$> peers)
  end.

Definition contracts_lines (n : FullNode (S := S)) : list string :=
  match contract_summaries n with
  | [] => ["No contracts registered."]
  | summaries =>
      ("Contracts (" +:+ pretty (length summaries) +:+ "):")
      :: ((λ s, "  [" +:+ cm_id s +:+ "] buyer=" +:+ cm_buyer_id s +:+ " product=" +:+ cm_product_id s
                +:+ " status=" +:+ cm_status s +:+ " purchased=" +:+ pretty (cm_quantity_purchased s)
                +:+ "/" +:+ pretty (cm_max_quantity s)) <$> summaries)
  end.

(** What the commands act on: the node and the gate the server shares. *)
Record Console := mkConsole { co_node : FullNode (S := S); co_gate : option AdminGate }.

Definition submit_command (now : Z) (id : string) (st : Console) (kind : TransactionKind)
    (done_text : string) : Console * Line :=
  match submit_transaction base64_std json_offer tx_clock (co_node st) (Transaction_with_id now id kind) with
  | (n, Ok _) => (mkConsole n (co_gate st), Stdout done_text)
  | (n, Err e) => (mkConsole n (co_gate st), Stderr ("Error: core error: " +:+ display_error e))
  end.

Definition reload_trust_store (org root_pem : option string) (st : Console) (path : string) : Console * Line :=
  match org, root_pem with
  | Some org, Some root_pem =>
      match build_trust_store_verifier cert_error_text cert_blocks crl_blocks org root_pem path
              (metadata path) with
      | Ok (v, files, crls) =>
          (mkConsole (set_cert_verifier (co_node st) v) ((λ g, update_verifier g v) <$> co_gate st),
           Stdout ("Trust store reloaded from " +:+ path +:+ ": " +:+ pretty files +:+ " file(s), "
             +:+ pretty crls +:+ " CRL(s) — the next Hello verifies against it."))
      | Err e => (st, Stderr ("Error: " +:+ e))
      end
  | _, _ =>
      (st, Stderr "reload-trust-store requires --org (there is no own Root CA to verify against)")
  end.

(** [execute_repl_command]; the flag says whether the loop goes on.  [id] and [now] are
    the fresh identifier and the clock of [Transaction::new]. *)
Definition execute_repl_command (usage : list string) (now : Z) (id : string) (org root_pem : option string)
    (st : Console) (c : ReplCommand) : Console * list Line * bool :=
  match command_kind c with
  | Some (kind, before, done_text) =>
      let '(st, l) := submit_command now id st kind done_text in (st, (Stdout <$> before) ++ [l], true)
  | None =>
      match c with
      | ChainCmd => (st, Stdout <$> chain_lines (co_node st), true)
      | Pending => (st, Stdout <$> pending_lines (co_node st), true)
      | PeersCmd => (st, Stdout <$> peers_lines (co_node st), true)
      | ContractsCmd => (st, Stdout <$> contracts_lines (co_node st), true)
      | ReloadTrustStore path => let '(st, l) := reload_trust_store org root_pem st path in (st, [l], true)
      | Quit => (st, [Stdout "Shutting down."], false)
      | _ => (st, Stdout <$> usage, true)
      end
  end.

(** The loop of [main] over the lines that are typed, each with the clock and the
    identifier a transaction made from it would get; it ends at [quit] or with the input. *)
Fixpoint repl (usage : list string) (org root_pem : option string) (st : Console)
    (typed : list (Z * string * string)) : Console * list Line :=
  match typed with
  | [] => (st, [])
  | (now, id, text) :: typed =>
      match parse_command text with
      | Err msg => let '(st, out) := repl usage org root_pem st typed in (st, Stderr msg :: out)
      | Ok None => repl usage org root_pem st typed
      | Ok (Some c) =>
          let '(st, out, continue) := execute_repl_command usage now id org root_pem st c in
          if continue then let '(st, rest) := repl usage org root_pem st typed in (st, out ++ rest)
          else (st, out)
      end
  end.

(** ** The running configuration *)

(** What starting keeps: the certificate verifier and the endorsement provider; the
    engine is a new one. *)
Lemma start_keeps n :
  let n' := (start base64_std tx_clock snapshot_of_json tx_to_json tx_of_json proof_of_json pin_of_json
               apply_block n).1 in
  cert_verifier (fn_peers n') = cert_verifier (fn_peers n)
  ∧ nd_endorsement (fn_core n') = nd_endorsement (fn_core n)
  ∧ nd_executor (fn_core n') = nd_executor (fn_core n)
  ∧ fn_engine n' = rebuild_from_chain (fn_chain n).
Proof.
  unfold start, rebuild_runtime_state_from_chain.
  destruct (rebuild_world_state (fn_storage n)) as [s w].
  assert (∀ c w, nd_ledger (rebuild_core c w) = nd_ledger c ∧ nd_endorsement (rebuild_core c w) = nd_endorsement c
    ∧ nd_executor (rebuild_core c w) = nd_executor c) as Hr.
  { clear. intros c w. unfold rebuild_core. destruct w; cbn -[policy_build_from_blocks capability_build_from_blocks];
      destruct (policy_build_from_blocks _), (capability_build_from_blocks _); done. }
  destruct (Hr (fn_core n) w) as (H1 & H2 & H3). set (c := rebuild_core _ _) in *. clearbody c.
  set (m := with_equivocations _ _). destruct (persist_chain _ _ _) as [s' r]. cbn. unfold fn_chain.
  by rewrite <- H1.
Qed.

(** The verifier is this organization's own. *)
Definition own_verifier (org root_pem : option string) (v : CertChainVerifier) : Prop :=
  org = Some (cv_org_name v) ∧ ∃ pem, root_pem = Some pem ∧ cert_of_pem pem = Ok (root_cert_der v).

(** The gate and the peer path verify against one and the same verifier. *)
Definition in_step (org root_pem : option string) (st : Console) : Prop :=
  (∀ g, co_gate st = Some g → cert_verifier (fn_peers (co_node st)) = Some (ag_verifier g))
  ∧ ∀ v, cert_verifier (fn_peers (co_node st)) = Some v → own_verifier org root_pem v.

Lemma boot_verifier_own a root_pem v :
  boot_verifier a root_pem = Ok v →
  (is_some v = is_some (trust_store a) ∨ root_pem = None ∧ v = None)
  ∧ (is_some (trust_store a) = true → is_some (Repl.org_name a) = true)
  ∧ ∀ x, v = Some x → own_verifier (Repl.org_name a) root_pem x.
Proof.
  unfold boot_verifier. destruct (Repl.org_name a) as [org|], root_pem as [pem|], (trust_store a) as [path|]; try done;
    try (by intros [= <-]; split_and!; [auto|done|done]).
  destruct (build_trust_store_verifier _ _ _ org pem path (metadata path)) as [[[x f] k]|] eqn:Hb; [|done]. cbn.
  intros [= <-]. split_and!; [by left|done|]. intros y [= <-]. apply trust_store_own in Hb as [H1 H2].
  split; [by rewrite H1|eauto].
Qed.

Lemma boot_identity_org ca_key seed fs a fs' id :
  boot_identity ca_key seed fs a = (fs', Ok id) → is_some id = is_some (Repl.org_name a).
Proof.
  unfold boot_identity. destruct (Repl.org_name a) as [org|]; [|by intros [= _ <-]].
  destruct (identity_file a) as [file|].
  - destruct (load_or_create_identity_file _ _ _ _ _ _ _ _) as [fs1 [oic|]]; [|done]. by intros [= _ <-].
  - destruct (Organization_new ca_key org) as [o|]; cbn [map_err]; [|done].
    match goal with |- context [issue_identity seed o ?x] => destruct (issue_identity seed o x) as [o' [i|]] end;
      cbn; [|done]. by intros [= _ <-].
Qed.

Lemma boot_node_fresh vk fuel clock a i n :
  boot_node vk fuel clock a i = Some (Ok n) →
  cert_verifier (fn_peers n) = None ∧ nd_endorsement (fn_core n) = None ∧ nd_executor (fn_core n) = None.
Proof.
  unfold boot_node. destruct (storage_path a) as [path|].
  - destruct (open_storage path); [|done]. destruct (restore_ledger _ _ _ _ _ _ _); cbn; [|done]. by intros [= <-].
  - destruct (Ledger_new _ _ _); cbn; [|done]. by intros [= <-].
Qed.

(** The configuration a start ends with. *)
Record configured (a : CliArgs) (b : Booted) : Prop := {
  cf_gate_store : is_some (bt_gate b) = is_some (trust_store a);
  cf_store_org : is_some (trust_store a) = true → is_some (Repl.org_name a) = true;
  cf_gate_verifier : bt_gate b = AdminGate_new <$> cert_verifier (fn_peers (bt_node b));
  cf_in_step : in_step (bt_org b) (bt_root_pem b) (mkConsole (bt_node b) (bt_gate b));
  cf_endorsement : is_some (nd_endorsement (fn_core (bt_node b))) = is_some (Repl.org_name a);
  cf_executor : is_some (nd_executor (fn_core (bt_node b))) = is_ok wasm;
  cf_engine : executor (fn_engine (bt_node b)) = None }.

Lemma boot_configured now ca_key seed vk fuel clock fs a fs' b :
  boot now ca_key seed vk fuel clock fs a = Some (fs', Ok b) →
  configured a b.
Proof.
  unfold boot. destruct (boot_identity ca_key seed fs a) as [fs1 [id|]] eqn:Hid; [|done].
  apply boot_identity_org in Hid. destruct (boot_staple now a id) as [staple|]; [|done]. cbn [mbind option_bind].
  destruct (boot_node _ _ _ _ _) as [[n0|]|] eqn:Hn; cbn [mbind option_bind]; try done.
  apply boot_node_fresh in Hn as (N1 & N2 & N3).
  destruct (boot_verifier a _) as [v|] eqn:Hv; [|done]. apply boot_verifier_own in Hv as (V1 & V2 & V3).
  set (n1 := match wasm with Ok x => _ | Err _ => n0 end).
  assert (cert_verifier (fn_peers n1) = None ∧ nd_endorsement (fn_core n1) = None
    ∧ is_some (nd_executor (fn_core n1)) = is_ok wasm) as (M1 & M2 & M3).
  { unfold n1. destruct wasm; [done|]. by rewrite N3. }
  clearbody n1. set (n2 := match Repl.org_name a with Some org => _ | None => n1 end).
  assert (cert_verifier (fn_peers n2) = None ∧ is_some (nd_endorsement (fn_core n2)) = is_some (Repl.org_name a)
    ∧ is_some (nd_executor (fn_core n2)) = is_ok wasm) as (K1 & K2 & K3).
  { unfold n2. destruct (Repl.org_name a), id; cbn in *; try done. by rewrite M2. }
  clearbody n2. set (n3 := opt_apply _ _ _).
  assert (cert_verifier (fn_peers n3) = v ∧ fn_core n3 = fn_core n2) as [J1 J2] by (unfold n3; by destruct v).
  pose proof (start_keeps n3) as Hst. destruct (start _ _ _ _ _ _ _ _ n3) as [n4 [u|]]; [|done].
  destruct Hst as (S1 & S2 & S3 & S4). destruct (bind (listen_addr a)); [|done]. intros [= _ <-]. cbn in *. split; cbn; rewrite ?S1, ?S2, ?S3, ?S4, ?J1, ?J2.
  - destruct V1 as [<-|[Hnone ->]]; [by destruct v|]. destruct id; [done|]. cbn.
    destruct (trust_store a); [|done]. specialize (V2 eq_refl). by rewrite <- Hid in V2.
  - done.
  - done.
  - split; cbn.
    + intros g. rewrite S1, J1. destruct v; [|done]. by intros [= <-].
    + intros x. rewrite S1, J1. apply V3.
  - done.
  - done.
  - done.
Qed.

(** The configuration a start ends with.  The admin gate exists exactly when a trust store
    was given, which needs an organization, and holds the verifier that the peer path uses;
    that verifier is for the node's own organization and root; endorsement evaluation is
    attached exactly when there is an organization; the executor is attached for commits
    exactly when the sandbox came up, but the engine that matches offers has none. *)
Theorem boot_configuration now ca_key seed vk fuel clock fs a fs' b :
  boot now ca_key seed vk fuel clock fs a = Some (fs', Ok b) → configured a b.
Proof. apply boot_configured. Qed.

Lemma submit_keeps (n : FullNode (S := S)) tx :
  let n' := (submit_transaction base64_std json_offer tx_clock n tx).1 in
  fn_peers n' = fn_peers n ∧ (executor (fn_engine n) = None → executor (fn_engine n') = None).
Proof.
  unfold submit_transaction. destruct (submission_gate (fn_core n) tx) as [c [u|]]; [|done].
  destruct (add_transaction _ _) as [l [u'|]]; [|done].
  unfold engine_react. cbn. destruct (tx_kind tx) as [o| |d| | | | | |]; try done.
  unfold create_submitted, register_contract. cbn. by destruct (contracts (fn_engine n) !! _).
Qed.

(** Every command keeps the gate and the peer path in step. *)
Lemma execute_in_step usage now id org root st c :
  in_step org root st → in_step org root (execute_repl_command usage now id org root st c).1.1.
Proof.
  intros Hi. unfold execute_repl_command. destruct (command_kind c) as [[[kind before] text]|].
  - unfold submit_command. pose proof (submit_keeps (co_node st) (Transaction_with_id now id kind)) as [Hk _].
    destruct (submit_transaction _ _ _ _ _) as [n [|]]; cbn in *; destruct Hi as [I1 I2];
      by split; cbn; rewrite Hk.
  - destruct c; try done. unfold reload_trust_store. destruct org as [org|], root as [root|]; try done.
    destruct (build_trust_store_verifier _ _ _ org root path _) as [[[v f] k]|] eqn:Hb; [|done].
    apply trust_store_own in Hb as [H1 H2]. cbn. split; cbn.
    + intros g. destruct (co_gate st); [|done]. by intros [= <-].
    + intros x [= <-]. split; [by rewrite H1|eauto].
Qed.

(** C22: operators and peers are always judged by the same trust store.  From a start on, after
    any lines typed at the console (reloads of the trust store included, failed ones too),
    the admin gate, if there is one, authorizes against the very verifier that peers are
    verified with, and that verifier still speaks for the node's own organization and root
    certificate. *)
Theorem admin_gate_follows_trust_store usage now ca_key seed vk fuel clock fs a fs' b typed :
  boot now ca_key seed vk fuel clock fs a = Some (fs', Ok b) →
  in_step (bt_org b) (bt_root_pem b)
    (repl usage (bt_org b) (bt_root_pem b) (mkConsole (bt_node b) (bt_gate b)) typed).1.
Proof.
  intros Hi%boot_configured%cf_in_step. revert Hi. generalize (mkConsole (bt_node b) (bt_gate b)).
  induction typed as [|[[t id] text] typed IH]; intros st Hi; [done|]. cbn [repl].
  destruct (parse_command text) as [[c|]|msg].
  - pose proof (execute_in_step usage t id (bt_org b) (bt_root_pem b) st c Hi) as He.
    destruct (execute_repl_command _ _ _ _ _ _ _) as [[st' out] []]; cbn in He; [|done].
    specialize (IH st' He). by destruct (repl _ _ _ st' typed).
  - by apply IH.
  - specialize (IH st Hi). by destruct (repl _ _ _ st typed).
Qed.

(** A typed command does what it says.  A line that describes a transaction (as printed from
    its fields) submits exactly that transaction to the node under the fresh identifier and
    the clock, and reports the node's verdict; nothing else of the console changes. *)
Theorem typed_command_submits usage now id org root st c kind before text :
  typable c → command_kind c = Some (kind, before, text) →
  let '(n, r) := submit_transaction base64_std json_offer tx_clock (co_node st) (Transaction_with_id now id kind) in
  repl usage org root st [(now, id, render c)]
  = (mkConsole n (co_gate st),
     (Stdout <$> before) ++ [match r with Ok _ => Stdout text
                             | Err e => Stderr ("Error: core error: " +:+ display_error e) end]).
Proof.
  intros Ht Hk. cbn [repl]. rewrite parse_command_render by done. unfold execute_repl_command. rewrite Hk.
  unfold submit_command. destruct (submit_transaction _ _ _ _ _) as [n [u|e]]; by rewrite app_nil_r.
Qed.

Context (snapshot_to_json : WatcherStateSnapshot → result string string)
        (block_json : Z → string → nat → string)
        (signed_to_json : SignedTransaction → result string string).

(** Contracts of a started node are never gated.  [main] attaches the executor before it
    starts the node, and the start replaces the engine by one rebuilt from the chain, which
    has none; no later step attaches one.  So at every moment after a start, an active
    contract with room left that matches an offer orders on it, whatever its WASM module
    would have said, although the documentation has the module evaluated first. *)
Theorem booted_contracts_never_gated now ca_key seed vk fuel clock fs a fs' b n :
  boot now ca_key seed vk fuel clock fs a = Some (fs', Ok b) →
  rtc (node_step parse_value base64_decode content_hash base64_std json_offer tx_clock snapshot_to_json
         snapshot_of_json tx_to_json tx_of_json block_json signed_to_json apply_block) (bt_node b) n →
  executor (fn_engine n) = None
  ∧ ∀ o oid id c, contracts (fn_engine n) !! id = Some c → c_status c = Active → offer_matches c o = true →
      auto_execute (conditions c) = true → quantity_purchased c < max_quantity (conditions c) →
      ∃ plan, prepare_purchase tx_clock c o oid = Some plan
      ∧ plan_order plan ∈ (evaluate_supply_offer base64_std json_offer tx_clock (fn_engine n) o oid).2.
Proof.
  intros Hb%boot_configured%cf_engine Hrun.
  assert (executor (fn_engine n) = None) as Hx.
  { induction Hrun as [|n1 n2 n3 Hs _ IH]; [done|]. apply IH. by eapply node_step_ungated. }
  split; [done|]. intros o oid id c Hc Ha Hm Hax Hlt. by eapply ungated_order.
Qed.

End boot.
