(* ===== verification/Server.v ===== *)
(** The gRPC server (glasschain-rpc: server.rs; glasschain-network: node.rs, the
    channel administration, verify_endorsement and the read accessors).

    A [ServerState] is the shared node with its collections and the optional admin
    gate; [handle] is one call, [serve] the call behind the optional interceptor,
    [stream_blocks] the task of a block subscription.  JSON renderings are
    parameters.  The theorems: the collections are what the authorized
    administrators made of them and nothing else, a history query answers exactly
    the committed registrations of the asset it names, an endorsement is approved
    exactly when every policy layer is satisfied, and a subscription delivers every
    block from its start. *)

From S2P Require Import Prelude Types Asset Text Chain Capability Policy Msp Ledger Storage Bft Rounds.
From S2P Require Import Validators Node Ocsp CertVerifier Custody Auth Indexer Channel Peers Outbound.
From S2P Require Import Contracts Watcher Runtime.

Local Open Scope Z_scope.

(** ** Messages (the generated protobuf types) *)

Record TransactionProto := mkTxProto {
  tp_id : string; tp_timestamp : Z; tp_kind : string; tp_payload_json : string }.

Record BlockResponse := mkBlockResponse {
  br_index : Z; br_hash : string; br_previous_hash : string; br_timestamp : Z; br_nonce : Z;
  br_transactions : list TransactionProto }.

Record EventResponse := mkEventResponse {
  evr_timestamp : Z; evr_event_type : string; evr_payload_json : string }.

Record SubmitResponse := mkSubmitResponse {
  sr_accepted : bool; sr_transaction_id : string; sr_error : string }.

Record LineageResponse := mkLineageResponse {
  lr_asset_id : string;
  lr_custody_chain : list Provenance.CustodyEvent;
  lr_is_complete : bool;
  lr_trust_score_avg : Z * nat;
  lr_total_records : Z }.

Record EndorsementResponse := mkEndorsementResponse {
  ver_approved : bool; ver_proposal_id : string; ver_endorser_count : Z;
  ver_rejection_reason : string }.

Inductive RpcRequest :=
| GetBlock (idx : Z)
| SubmitTransaction (transaction_json signed_transaction_json : string)
| GetChainStatus
| QueryAssetHistory (q_gtin q_serial : string)
| GetVerifiableLineage (asset_id : string)
| GetNodeStatus
| GetPeers
| CreateChannel (name : string) (member_ids : list string) (description : string) (retention_secs : Z)
| AddChannelMember (name member_id : string)
| RemoveChannelMember (name member_id : string)
| ExchangeCertificate (org_name root_ca_cert_pem node_id : string)
| VerifyEndorsement (proposal_json : string).

Inductive RpcResponse :=
| RBlock (r : BlockResponse)
| RSubmit (r : SubmitResponse)
| RChainStatus (chain_length : Z) (tip_hash : string) (pending_transactions : Z)
| RHistory (transactions : list TransactionProto)
| RLineage (r : LineageResponse)
| RNodeStatus (node_id listen_addr version : string) (chain_length peer_count : Z)
| RPeers (peer_addresses : list string)
| RCreated (created : bool)
| RAdded (added : bool)
| RRemoved (removed : bool)
| RCertificate (accepted : bool) (node_cert_pem error : string)
| REndorsement (r : EndorsementResponse).

(** [s.ends_with(p)] *)
Fixpoint ends_with (p s : string) : bool :=
  (s ==? p) || match s with EmptyString => false | String _ s => ends_with p s end.

(** ** The node's channel administration (node.rs) *)

Definition find_collection (cs : list Channel) (name : string) : option Channel :=
  List.find (λ c, cc_name (ch_config c) ==? name) cs.

(** [Err] is [UnknownCollection] with the name. *)
Definition admin_create_channel (cs : list Channel) (config : ChannelConfig)
  : list Channel * result string unit :=
  match find_collection cs (cc_name config) with
  | Some _ => (cs, Err (cc_name config))
  | None => (cs ++ [Channel_new config], Ok tt)
  end.

(** [iter_mut().find(..)]: the first collection of that name is changed in place. *)
Fixpoint update_collection {A} (cs : list Channel) (name : string) (f : Channel → Channel * A)
  : list Channel * result string A :=
  match cs with
  | [] => ([], Err name)
  | c :: cs =>
      if cc_name (ch_config c) ==? name then let '(c, a) := f c in (c :: cs, Ok a)
      else let '(cs, r) := update_collection cs name f in (c :: cs, r)
  end.

Definition admin_channel_add_member (cs : list Channel) (name member_id : string)
  : list Channel * result string unit :=
  update_collection cs name (λ c, (add_member c member_id, tt)).

Definition admin_channel_remove_member (cs : list Channel) (name member_id : string)
  : list Channel * result string bool :=
  update_collection cs name (λ c, remove_member c member_id).

Definition collection_names (cs : list Channel) : list string := (λ c, cc_name (ch_config c)) <$> cs.

Section server.
Context `{E : Env} `{B : Bls} `{D : Ed25519Crate} `{P : Pki} `{O : OcspCrates} `{C : CaCrates}.
Context (base64_std : string → result string string) (json_offer : SupplyOffer → string).
Context (clock : string → Z).
Context (tx_to_json : Transaction → result string string)
        (tx_of_json : string → result string Transaction)
        (signed_of_json : string → result string SignedTransaction)
        (proposal_of_json : string → result string EndorsementRequest)
        (custody_to_json : Provenance.CustodyEvent → result string string)
        (certificate_value : QuorumCertificate → Value)
        (json_text : Value → string).
(** The parameters of the gate's [authorize]. *)
Context (to_str : string → option string).
Context (base64_decode : string → option (list Z)).
Context (cert_error_text : CertVerificationError → string).
Context {S : Type}.

Record ServerState := mkServer {
  sv_node : FullNode (S := S);
  sv_collections : list Channel;
  sv_node_id : string;
  sv_listen_addr : string;
  sv_admin : option AdminGate }.

Definition set_node (st : ServerState) (n : FullNode) : ServerState :=
  mkServer n (sv_collections st) (sv_node_id st) (sv_listen_addr st) (sv_admin st).
Definition set_collections (st : ServerState) (cs : list Channel) : ServerState :=
  mkServer (sv_node st) cs (sv_node_id st) (sv_listen_addr st) (sv_admin st).

(** ** Responses *)

Definition unwrap_json (r : result string string) : string := match r with Ok s => s | Err _ => "" end.

Definition build_transaction_protos (b : Block) : list TransactionProto :=
  (λ tx, mkTxProto (tx_id tx) (tx_timestamp tx) (Index.kind_name tx) (unwrap_json (tx_to_json tx)))
    <$> transactions b.

Definition block_to_get_response (b : Block) : BlockResponse :=
  mkBlockResponse (index b) (hash b) (previous_hash b) (timestamp b) (nonce b)
    (build_transaction_protos b).
Definition block_to_stream_response (b : Block) : BlockResponse :=
  mkBlockResponse (index b) (hash b) (previous_hash b) (timestamp b) (nonce b)
    (build_transaction_protos b).

Definition json_object (fields : list (string * Value)) : string := json_text (VObject (list_to_map fields)).
Definition number (z : Z) : Value := VNumber (PosInt z).

Definition event_to_response (now_unix : Z) (e : NodeEvent) : EventResponse :=
  match e with
  | TransactionAccepted t =>
      mkEventResponse now_unix "transaction_accepted" (json_object [("transaction_id", VString (tx_id t))])
  | PrivatePayloadReceived collection commitment =>
      mkEventResponse now_unix "private_payload_received"
        (json_object [("collection", VString collection); ("commitment", VString commitment)])
  | BlockMined idx h qc =>
      mkEventResponse now_unix "block_mined"
        (json_object [("block_index", number idx); ("block_hash", VString h);
                      ("certificate", certificate_value qc)])
  | BlockReceived idx h qc =>
      mkEventResponse now_unix "block_received"
        (json_object [("block_index", number idx); ("block_hash", VString h);
                      ("certificate", certificate_value qc)])
  | EquivocationDetected height pk =>
      mkEventResponse now_unix "equivocation_detected"
        (json_object [("height", number height); ("public_key", VString pk)])
  | PeerConnected addr =>
      mkEventResponse now_unix "peer_connected" (json_object [("address", VString addr)])
  | PeerDisconnected addr =>
      mkEventResponse now_unix "peer_disconnected" (json_object [("address", VString addr)])
  | ContractExecuted id quantity =>
      mkEventResponse now_unix "contract_executed"
        (json_object [("contract_id", VString id); ("quantity", number quantity)])
  | AutonomousTransactionGenerated trigger id =>
      mkEventResponse now_unix "autonomous_tx_generated"
        (json_object [("trigger_id", VString trigger); ("transaction_id", VString id)])
  end.

(** ** LedgerService *)

Definition get_block (st : ServerState) (idx : Z) : result Status BlockResponse :=
  match fn_chain (sv_node st) !! Z.to_nat idx with
  | Some b => Ok (block_to_get_response b)
  | None => Err (Auth.NotFound ("block " +:+ pretty idx +:+ " not found"))
  end.

(** [NetworkError] of an admission, as text. *)
Definition network_error_text (e : CoreError) : string := "core error: " +:+ display_error e.

(** The submission both paths end in. *)
Definition forward (st : ServerState) (tx : Transaction) : ServerState * SubmitResponse :=
  match submit_transaction base64_std json_offer clock (sv_node st) tx with
  | (n, Ok _) => (set_node st n, mkSubmitResponse true (tx_id tx) "")
  | (n, Err e) => (set_node st n, mkSubmitResponse false (tx_id tx) (network_error_text e))
  end.

Definition rpc_submit_transaction (st : ServerState) (transaction_json signed_json : string)
  : ServerState * SubmitResponse :=
  if negb (is_empty signed_json) then
    match signed_of_json signed_json with
    | Err e => (st, mkSubmitResponse false "" ("invalid signed_transaction_json: " +:+ e))
    | Ok signed =>
        match signed_verify signed with
        | Err e => (st, mkSubmitResponse false "" ("signature verification failed: " +:+ identity_error_text e))
        | Ok _ => forward st (signed_tx signed)
        end
    end
  else
    match tx_of_json transaction_json with
    | Err e => (st, mkSubmitResponse false "" e)
    | Ok tx => forward st tx
    end.

Definition get_chain_status (st : ServerState) : RpcResponse :=
  let l := nd_ledger (fn_core (sv_node st)) in
  RChainStatus (Z.of_nat (length (chain l))) (from_option hash "" (last (chain l)))
    (Z.of_nat (length (pending_transactions l))).

(** The match of one asset id of the custody index. *)
Definition gtin_match (q_gtin asset_id : string) : bool :=
  if is_empty q_gtin then true else
  match strip_prefix ("GTIN:" +:+ q_gtin) asset_id with
  | Some rest => is_empty rest || starts_with ":" rest
  | None => false
  end.
Definition serial_match (q_serial asset_id : string) : bool :=
  (if is_empty q_serial then true else ends_with (":SN:" +:+ q_serial) asset_id)
  || (if is_empty q_serial then false else asset_id ==? "SN:" +:+ q_serial).

Definition custody_proto (e : Provenance.CustodyEvent) : TransactionProto :=
  mkTxProto (Provenance.ce_transaction_id e) (Provenance.ce_timestamp e) "AssetRegistration"
    (unwrap_json (custody_to_json e)).

Definition matching_assets (st : ServerState) (q_gtin q_serial : string) : list string :=
  List.filter (λ id, gtin_match q_gtin id && serial_match q_serial id)
    (sort_by String.leb (Provenance.tracked_assets (fn_provenance (sv_node st)))).

Definition query_asset_history (st : ServerState) (q_gtin q_serial : string) : list TransactionProto :=
  id ← matching_assets st q_gtin q_serial;
  custody_proto <$> Provenance.get_custody_chain (fn_provenance (sv_node st)) id.

Definition get_verifiable_lineage (st : ServerState) (asset_id : string) : result Status LineageResponse :=
  guard? negb (is_empty asset_id) else InvalidArgument "asset_id must not be empty" in
  let l := Flattener.lineage_build asset_id (fn_provenance (sv_node st)) (fn_flattener (sv_node st)) in
  Ok (mkLineageResponse asset_id (Flattener.vl_custody_chain l) (Flattener.vl_is_complete l)
        (Flattener.vl_trust_score_avg l)
        (Z.min (Z.of_nat (length (Flattener.vl_flat_records l))) U32_MAX)).

(** ** NodeService *)

Definition admin_gate_unavailable : Status :=
  PermissionDenied ("admin operations require a configured certificate verifier "
    +:+ "(start the node with --org and --trust-store)").

(** The two guards every channel operation begins with. *)
Definition admin_only (now : Z) (st : ServerState) (md : gmap string string) : result Status string :=
  match sv_admin st with
  | None => Err admin_gate_unavailable
  | Some gate => authorize to_str base64_decode cert_error_text now gate md
  end.

Definition get_node_status (st : ServerState) : RpcResponse :=
  RNodeStatus (sv_node_id st) (sv_listen_addr st) "glasschain/1"
    (Z.of_nat (length (fn_chain (sv_node st))))
    (Z.of_nat (size (known_peers (fn_peers (sv_node st))))).

Definition get_peers (st : ServerState) : list string :=
  elements (known_peers (fn_peers (sv_node st))).

Definition not_configured (name : string) : Status :=
  Auth.NotFound ("collection `" +:+ name +:+ "` is not configured").

Definition create_channel (now : Z) (st : ServerState) (md : gmap string string) (name : string)
    (member_ids : list string) (description : string) (retention_secs : Z)
  : ServerState * result Status bool :=
  match admin_only now st md with
  | Err e => (st, Err e)
  | Ok _ =>
      if is_empty (trim name) then (st, Err (InvalidArgument "collection name must not be empty")) else
      let retention := if retention_secs =? 0 then default_retention_secs else retention_secs in
      match admin_create_channel (sv_collections st)
              (mkChannelConfig name member_ids description None retention) with
      | (cs, Err name) => (set_collections st cs, Err (Auth.AlreadyExists ("collection `" +:+ name +:+ "` already exists")))
      | (cs, Ok _) => (set_collections st cs, Ok true)
      end
  end.

Definition add_channel_member (now : Z) (st : ServerState) (md : gmap string string) (name member_id : string)
  : ServerState * result Status bool :=
  match admin_only now st md with
  | Err e => (st, Err e)
  | Ok _ =>
      match admin_channel_add_member (sv_collections st) name member_id with
      | (cs, Err name) => (set_collections st cs, Err (not_configured name))
      | (cs, Ok _) => (set_collections st cs, Ok true)
      end
  end.

Definition remove_channel_member (now : Z) (st : ServerState) (md : gmap string string)
    (name member_id : string) : ServerState * result Status bool :=
  match admin_only now st md with
  | Err e => (st, Err e)
  | Ok _ =>
      match admin_channel_remove_member (sv_collections st) name member_id with
      | (cs, Err name) => (set_collections st cs, Err (not_configured name))
      | (cs, Ok removed) => (set_collections st cs, Ok removed)
      end
  end.

(** ** IdentityService *)

(** The certificate is acknowledged; nothing is stored. *)
Definition exchange_certificate (org_name root_ca_cert_pem : string) : result Status RpcResponse :=
  guard? negb (is_empty org_name || is_empty root_ca_cert_pem) else
    InvalidArgument "org_name and root_ca_cert_pem are required" in
  Ok (RCertificate true "" "").

(** [Node::verify_endorsement] *)
Definition node_verify_endorsement (n : FullNode (S := S)) (req : EndorsementRequest)
  : result CoreError (list EndorsementEvaluation) :=
  match nd_endorsement (fn_core n) with
  | None => Err (InvalidTransaction "no endorsement provider configured on this node")
  | Some P =>
      let policies := policies_for (nd_policies (fn_core n)) (st_channel (er_target req))
                        (st_contract (er_target req)) in
      let next_height := Z.of_nat (length (fn_chain n)) in
      try_map (λ policy, provider_evaluate (EndorsementProvider := P) policy req next_height)
        (applicable policies (er_target req))
  end.

(** The first unsatisfied layer, with its position. *)
Fixpoint first_unsatisfied (i : nat) (evs : list EndorsementEvaluation) : option (nat * EndorsementEvaluation) :=
  match evs with
  | [] => None
  | e :: evs => if satisfied e then first_unsatisfied (i + 1) evs else Some (i, e)
  end.

Definition verify_endorsement (st : ServerState) (proposal_json : string) : result Status EndorsementResponse :=
  guard? negb (is_empty proposal_json) else InvalidArgument "proposal_json must not be empty" in
  let? proposal := map_err (λ e, InvalidArgument ("invalid endorsement request JSON: " +:+ e))
                     (proposal_of_json proposal_json) in
  let proposal_id := sha256 (er_payload proposal) in
  Ok (match node_verify_endorsement (sv_node st) proposal with
      | Ok evs =>
          let endorser_count := foldr Nat.max 0%nat ((λ e, length (distinct_principals e)) <$> evs) in
          let '(approved, rejection_reason) :=
            match first_unsatisfied 0 evs with
            | None => (true, "")
            | Some (layer, e) =>
                (false, "policy layer " +:+ pretty layer +:+ " of " +:+ pretty (length evs)
                        +:+ " unsatisfied (required " +:+ pretty (required e) +:+ ")")
            end in
          mkEndorsementResponse approved proposal_id (Z.min (Z.of_nat endorser_count) U32_MAX) rejection_reason
      | Err e => mkEndorsementResponse false proposal_id 0 (network_error_text e)
      end).

(** ** Dispatch and interceptor *)

Definition keep {A} (st : ServerState) (f : A → RpcResponse) (r : result Status A)
  : ServerState * result Status RpcResponse :=
  (st, match r with Ok a => Ok (f a) | Err e => Err e end).

Definition handle (now : Z) (st : ServerState) (md : gmap string string) (req : RpcRequest)
  : ServerState * result Status RpcResponse :=
  match req with
  | GetBlock idx => keep st RBlock (get_block st idx)
  | SubmitTransaction tj sj => let '(st, r) := rpc_submit_transaction st tj sj in keep st RSubmit (Ok r)
  | GetChainStatus => (st, Ok (get_chain_status st))
  | QueryAssetHistory g s => keep st RHistory (Ok (query_asset_history st g s))
  | GetVerifiableLineage id => keep st RLineage (get_verifiable_lineage st id)
  | GetNodeStatus => (st, Ok (get_node_status st))
  | GetPeers => keep st RPeers (Ok (get_peers st))
  | CreateChannel name ids desc ret =>
      let '(st, r) := create_channel now st md name ids desc ret in keep st RCreated r
  | AddChannelMember name m => let '(st, r) := add_channel_member now st md name m in keep st RAdded r
  | RemoveChannelMember name m => let '(st, r) := remove_channel_member now st md name m in keep st RRemoved r
  | ExchangeCertificate org pem _ => (st, exchange_certificate org pem)
  | VerifyEndorsement j => keep st REndorsement (verify_endorsement st j)
  end.

(** [serve_listener]: every service sits behind the interceptor when there is one. *)
Definition serve (now : Z) (auth : option MspAuthInterceptor) (st : ServerState)
    (md : gmap string string) (req : RpcRequest) : ServerState * result Status RpcResponse :=
  match auth with
  | Some m =>
      match verify_request to_str now m md with
      | Err e => (st, Err e)
      | Ok _ => handle now st md req
      end
  | None => handle now st md req
  end.

(** ** Streams *)

(** What [event_rx.recv()] returns. *)
Inductive Recv := REvent (e : NodeEvent) | RLagged (skipped : Z) | RClosed.

Definition block_event_index (e : NodeEvent) : option Z :=
  match e with
  | BlockMined idx _ _ | BlockReceived idx _ _ => Some idx
  | _ => None
  end.

(** One turn of the loop of [stream_blocks]: the block to send, read from the chain of
    that moment; [None] ends the stream. *)
Definition stream_turn (start : Z) (r : Recv) (c : list Block) : option (list BlockResponse) :=
  match r with
  | REvent e =>
      Some (match block_event_index e with
            | Some idx =>
                if start <=? idx then block_to_stream_response <$> opt_list (c !! Z.to_nat idx) else []
            | None => []
            end)
  | RLagged _ => Some []
  | RClosed => None
  end.

Fixpoint stream_live (start : Z) (turns : list (Recv * list Block)) : list BlockResponse :=
  match turns with
  | [] => []
  | (r, c) :: turns =>
      match stream_turn start r c with
      | Some out => out ++ stream_live start turns
      | None => []
      end
  end.

(** [stream_blocks]: the existing blocks, then the live ones; the client takes [taken]
    messages before it hangs up, after which the task ends. *)
Definition stream_blocks (start : Z) (existing : list Block) (turns : list (Recv * list Block))
    (taken : nat) : list BlockResponse :=
  take taken ((block_to_stream_response <$> drop (Z.to_nat start) existing) ++ stream_live start turns).

Fixpoint subscribe_to_events (turns : list (Recv * Z)) : list EventResponse :=
  match turns with
  | [] => []
  | (REvent e, now) :: turns => event_to_response now e :: subscribe_to_events turns
  | (RLagged _, _) :: turns => subscribe_to_events turns
  | (RClosed, _) :: _ => []
  end.

(** ** Channel administration *)

(** What a collection is to its users: its members, by name. *)
Notation ChannelView := (gmap string (gset string)).

Definition channel_view (cs : list Channel) : ChannelView :=
  list_to_map ((λ c, (cc_name (ch_config c), list_to_set (members c))) <$> cs).

Definition regulators : gset string := list_to_set DEFAULT_REGULATOR_ORGS.

(** The specification of one administration request. *)
Definition view_step (v : ChannelView) (req : RpcRequest) : ChannelView :=
  match req with
  | CreateChannel name ids _ _ =>
      if is_empty (trim name) then v else
      match v !! name with Some _ => v | None => <[name := list_to_set ids ∪ regulators]> v end
  | AddChannelMember name m => alter (λ ms, {[m]} ∪ ms) name v
  | RemoveChannelMember name m => if bool_decide (m ∈ regulators) then v else alter (λ ms, ms ∖ {[m]}) name v
  | _ => v
  end.

Record Call := mkCall { call_now : Z; call_md : gmap string string; call_req : RpcRequest }.

Definition run_calls (auth : option MspAuthInterceptor) (st : ServerState) (calls : list Call) : ServerState :=
  foldl (λ st c, (serve (call_now c) auth st (call_md c) (call_req c)).1) st calls.

(** The calls an administrator may make on this server. *)
Definition granted (auth : option MspAuthInterceptor) (st : ServerState) (c : Call) : bool :=
  (match auth with Some m => is_ok (verify_request to_str (call_now c) m (call_md c)) | None => true end)
  && is_ok (admin_only (call_now c) st (call_md c)).

Lemma view_cons c cs :
  channel_view (c :: cs) = <[cc_name (ch_config c) := list_to_set (members c)]> (channel_view cs).
Proof. done. Qed.

Lemma view_lookup_None cs name :
  channel_view cs !! name = None ↔ find_collection cs name = None.
Proof.
  induction cs as [|c cs IH]; [done|]. rewrite view_cons. unfold find_collection. cbn [List.find].
  destruct (cc_name (ch_config c) ==? name) eqn:Hn.
  - apply str_eqb_eq in Hn as ->. rewrite lookup_insert_eq. done.
  - apply str_eqb_neq in Hn. by rewrite lookup_insert_ne by done.
Qed.

Lemma view_snoc cs c :
  channel_view cs !! cc_name (ch_config c) = None →
  channel_view (cs ++ [c]) = <[cc_name (ch_config c) := list_to_set (members c)]> (channel_view cs).
Proof.
  induction cs as [|d cs IH]; [done|]. cbn [app]. rewrite !view_cons. intros [H1 H2]%lookup_insert_None.
  rewrite IH by done. by apply insert_insert_ne.
Qed.

Lemma view_update {A} cs name (f : Channel → Channel * A) (g : gset string → gset string) :
  (∀ c, cc_name (ch_config (f c).1) = cc_name (ch_config c)) →
  (∀ c, list_to_set (members (f c).1) = g (list_to_set (members c))) →
  channel_view (update_collection cs name f).1 = alter g name (channel_view cs).
Proof.
  intros Hn Hm. induction cs as [|c cs IH]; cbn [update_collection].
  { unfold channel_view. cbn. by rewrite alter_empty. }
  destruct (cc_name (ch_config c) ==? name) eqn:He.
  - apply str_eqb_eq in He. specialize (Hn c). specialize (Hm c).
    destruct (f c) as [c' a] eqn:Hf. cbn [fst] in *. rewrite !view_cons.
    by rewrite Hm, Hn, He, alter_insert_eq.
  - apply str_eqb_neq in He. destruct (update_collection cs name f) as [cs' r]. cbn [fst] in *. rewrite !view_cons.
    by rewrite IH, alter_insert_ne by done.
Qed.

Lemma view_create cs config :
  channel_view (admin_create_channel cs config).1
  = match channel_view cs !! cc_name config with
    | Some _ => channel_view cs
    | None => <[cc_name config := list_to_set (cc_member_ids config) ∪ regulators]> (channel_view cs)
    end.
Proof.
  unfold admin_create_channel.
  destruct (find_collection cs (cc_name config)) eqn:Hf.
  - destruct (channel_view cs !! cc_name config) eqn:Hv; [done|]. apply view_lookup_None in Hv. congruence.
  - apply view_lookup_None in Hf. rewrite Hf. cbn [fst].
    change (cc_name config) with (cc_name (ch_config (Channel_new config))) in Hf.
    rewrite view_snoc by done. cbn [Channel_new ch_config members]. f_equal. apply set_eq. intros x.
    unfold regulators. rewrite elem_of_union, !elem_of_list_to_set, dedup_elem, sort_by_perm. apply elem_of_app.
Qed.

Lemma view_add cs name m :
  channel_view (admin_channel_add_member cs name m).1 = alter (λ ms, {[m]} ∪ ms) name (channel_view cs).
Proof.
  apply view_update; intros c; cbn.
  - by case_bool_decide.
  - apply set_eq. intros x. rewrite elem_of_union, elem_of_singleton, !elem_of_list_to_set.
    pose proof (is_member_elem c m). destruct (is_member c m).
    + split; [by right|]. by intros [->|]; [tauto|].
    + rewrite elem_of_app, list_elem_of_singleton. tauto.
Qed.

Lemma view_remove cs name m :
  channel_view (admin_channel_remove_member cs name m).1
  = if bool_decide (m ∈ regulators) then channel_view cs else alter (λ ms, ms ∖ {[m]}) name (channel_view cs).
Proof.
  unfold admin_channel_remove_member, remove_member.
  rewrite (bool_decide_ext (m ∈ regulators) (m ∈ DEFAULT_REGULATOR_ORGS)) by (by apply elem_of_list_to_set).
  case_bool_decide as Hm.
  - rewrite (view_update _ _ _ id); [by apply alter_id|done..].
  - apply view_update; intros c; [done|]. cbn.
    apply set_eq. intros x. rewrite elem_of_difference, elem_of_singleton, !elem_of_list_to_set.
    apply retain_not_elem.
Qed.

(** Only submissions change the node, and no call changes the gate. *)
Lemma handle_channels now st md req :
  channel_view (sv_collections (handle now st md req).1)
  = (if is_ok (admin_only now st md) then view_step (channel_view (sv_collections st)) req
     else channel_view (sv_collections st))
  ∧ sv_admin (handle now st md req).1 = sv_admin st.
Proof.
  destruct req; cbn [handle keep fst view_step]; try (by destruct (is_ok _)).
  - unfold rpc_submit_transaction, forward.
    assert (∀ tx, let r := submit_transaction base64_std json_offer clock (sv_node st) tx in
      ∀ st', (st' = match r with (n, Ok _) => (set_node st n, mkSubmitResponse true (tx_id tx) "")
                     | (n, Err e) => (set_node st n, mkSubmitResponse false (tx_id tx) (network_error_text e)) end) →
      sv_collections st'.1 = sv_collections st ∧ sv_admin st'.1 = sv_admin st) as Hf.
    { intros tx r st' ->. by destruct r as [n [|]]. }
    assert (∀ st' : ServerState * SubmitResponse, sv_collections st'.1 = sv_collections st ∧ sv_admin st'.1 = sv_admin st →
      channel_view (sv_collections (let '(st, r) := st' in keep st RSubmit (Ok r)).1)
      = (if is_ok (admin_only now st md) then channel_view (sv_collections st) else channel_view (sv_collections st))
      ∧ sv_admin (let '(st, r) := st' in keep st RSubmit (Ok r)).1 = sv_admin st) as Hk.
    { intros [st' r] [H1 H2]. cbn in *. rewrite H1. by destruct (is_ok _). }
    apply Hk. destruct (negb (is_empty _)).
    + destruct (signed_of_json _); [|done]. destruct (signed_verify _); [|done]. by eapply Hf.
    + destruct (tx_of_json _); [|done]. by eapply Hf.
  - unfold create_channel. destruct (admin_only now st md); [|done]. cbn [is_ok].
    destruct (is_empty (trim name)); [done|].
    rewrite <- (view_create _ (mkChannelConfig name member_ids description None
       (if retention_secs =? 0 then default_retention_secs else retention_secs))).
    by destruct (admin_create_channel _ _) as [cs [|]].
  - unfold add_channel_member. destruct (admin_only now st md); [|done]. cbn [is_ok].
    rewrite <- view_add. by destruct (admin_channel_add_member _ _ _) as [cs [|]].
  - unfold remove_channel_member. destruct (admin_only now st md); [|done]. cbn [is_ok].
    rewrite <- view_remove. by destruct (admin_channel_remove_member _ _ _) as [cs [|]].
Qed.

(** What an authorized channel operation is answered, in terms of the same view. *)
Definition view_reply (v : ChannelView) (req : RpcRequest) : result Status RpcResponse :=
  match req with
  | CreateChannel name _ _ _ =>
      if is_empty (trim name) then Err (InvalidArgument "collection name must not be empty") else
      match v !! name with
      | Some _ => Err (Auth.AlreadyExists ("collection `" +:+ name +:+ "` already exists"))
      | None => Ok (RCreated true)
      end
  | AddChannelMember name _ =>
      match v !! name with Some _ => Ok (RAdded true) | None => Err (not_configured name) end
  | RemoveChannelMember name m =>
      match v !! name with
      | Some ms => Ok (RRemoved (bool_decide (m ∉ regulators ∧ m ∈ ms)))
      | None => Err (not_configured name)
      end
  | _ => Err (Internal "not a channel operation")
  end.

Definition is_channel_op (req : RpcRequest) : bool :=
  match req with CreateChannel _ _ _ _ | AddChannelMember _ _ | RemoveChannelMember _ _ => true | _ => false end.

Lemma view_lookup cs name :
  channel_view cs !! name = (λ c, list_to_set (members c)) <$> find_collection cs name.
Proof.
  induction cs as [|c cs IH]; [done|]. rewrite view_cons. unfold find_collection in *. cbn [List.find].
  destruct (cc_name (ch_config c) ==? name) eqn:Hn.
  - apply str_eqb_eq in Hn as ->. by rewrite lookup_insert_eq.
  - apply str_eqb_neq in Hn. by rewrite lookup_insert_ne.
Qed.

Lemma update_collection_reply {A} cs name (f : Channel → Channel * A) :
  (update_collection cs name f).2
  = match find_collection cs name with Some c => Ok (f c).2 | None => Err name end.
Proof.
  induction cs as [|c cs IH]; [done|]. unfold find_collection in *. cbn [update_collection List.find].
  destruct (cc_name (ch_config c) ==? name); [by destruct (f c)|].
  by destruct (update_collection cs name f).
Qed.

Lemma handle_reply now st md req :
  is_channel_op req = true → is_ok (admin_only now st md) = true →
  (handle now st md req).2 = view_reply (channel_view (sv_collections st)) req.
Proof.
  intros Hop Hok. destruct req; try done; cbn [handle view_reply]; rewrite view_lookup;
    unfold create_channel, add_channel_member, remove_channel_member;
    (destruct (admin_only now st md); [|done]).
  - destruct (is_empty _); [done|]. unfold admin_create_channel. cbn [cc_name].
    by destruct (find_collection _ name).
  - unfold admin_channel_add_member. pose proof (update_collection_reply (sv_collections st) name
      (λ c, (add_member c member_id, tt))) as H. destruct (update_collection _ _ _) as [cs r].
    cbn [snd] in H. rewrite H. by destruct (find_collection _ name).
  - unfold admin_channel_remove_member. pose proof (update_collection_reply (sv_collections st) name
      (λ c, remove_member c member_id)) as H. destruct (update_collection _ _ _) as [cs r].
    cbn [snd] in H. rewrite H. destruct (find_collection _ name) as [c|]; [|done].
    cbn [fmap option_fmap option_map keep snd]. f_equal. f_equal. unfold remove_member.
    pose proof (is_member_elem c member_id) as Hm. unfold regulators.
    case_bool_decide as Hr; cbn [snd]; case_bool_decide as Hb; rewrite !elem_of_list_to_set in Hb;
      destruct (is_member c member_id); naive_solver.
Qed.

(** C20: channel administration is fail-closed.  Over any sequence of calls to the server, with
    or without the interceptor, the collections and their members are exactly what the
    calls with an authorized administrator certificate made of them, in order: every
    other call, and every call to a server without an admin gate, leaves them alone. *)
Theorem channels_follow_granted_calls auth st calls :
  channel_view (sv_collections (run_calls auth st calls))
  = foldl view_step (channel_view (sv_collections st)) (call_req <$> List.filter (granted auth st) calls)
  ∧ (sv_admin st = None → channel_view (sv_collections (run_calls auth st calls)) = channel_view (sv_collections st)).
Proof.
  assert (∀ auth calls st, channel_view (sv_collections (run_calls auth st calls))
    = foldl view_step (channel_view (sv_collections st)) (call_req <$> List.filter (granted auth st) calls)) as H.
  { clear. intros auth calls. induction calls as [|c calls IH]; intros st; [done|].
    change (run_calls auth st (c :: calls)) with
      (run_calls auth (serve (call_now c) auth st (call_md c) (call_req c)).1 calls).
    rewrite IH. cbn [List.filter].
    assert (channel_view (sv_collections (serve (call_now c) auth st (call_md c) (call_req c)).1)
        = (if granted auth st c then view_step (channel_view (sv_collections st)) (call_req c)
           else channel_view (sv_collections st))
      ∧ sv_admin (serve (call_now c) auth st (call_md c) (call_req c)).1 = sv_admin st) as [Hv Ha].
    { unfold serve, granted. destruct auth as [m|]; [|apply handle_channels].
      destruct (verify_request _ _ _ _); [apply handle_channels|done]. }
    rewrite Hv. assert (∀ st', sv_admin st' = sv_admin st → List.filter (granted auth st') calls
      = List.filter (granted auth st) calls) as Hg.
    { intros st' He. apply List.filter_ext. intros d. unfold granted, admin_only. by rewrite He. }
    rewrite (Hg _ Ha). by destruct (granted auth st c). }
  split; [apply H|]. intros Hn. rewrite H.
  replace (List.filter (granted auth st) calls) with (@nil Call); [done|].
  induction calls as [|c calls IH]; [done|]. cbn [List.filter]. unfold granted at 1, admin_only. rewrite Hn.
  cbn [is_ok]. by rewrite andb_false_r.
Qed.

(** ** Asset history *)

Import Provenance.

Notation colonless s := (no_char colon s = true).

Definition opt_colonless (o : option string) : Prop := ∀ s, o = Some s → colonless s.

Record plain_asset (a : TraceableAsset) : Prop := {
  pa_gtin : opt_colonless (gtin a);
  pa_serial : opt_colonless (serial_number a);
  pa_batch : opt_colonless (batch_number a);
  pa_product : colonless (product_name a) }.

(** The asset a query asks for: an empty field asks for any. *)
Definition asset_match (q_gtin q_serial : string) (a : TraceableAsset) : bool :=
  (is_empty q_gtin || bool_decide (gtin a = Some q_gtin))
  && (is_empty q_serial || bool_decide (serial_number a = Some q_serial)).

Lemma ends_with_app p s : ends_with p s = true ↔ ∃ w, s = w +:+ p.
Proof.
  induction s as [|a s IH]; cbn [ends_with]; rewrite orb_true_iff, str_eqb_eq.
  - split; [intros [<-|]; [by exists ""|done]|]. intros ([|] & H); [by left|done].
  - rewrite IH. split.
    + intros [<-|(w & ->)]; [by exists ""|]. by exists (String a w).
    + intros ([|b w] & H); [by left|]. right. rewrite app_str_cons in H. injection H as -> ->. by exists w.
Qed.

Lemma no_char_app c a b : no_char c (a +:+ b) = no_char c a && no_char c b.
Proof.
  induction a as [|x a IH]; [done|]. rewrite app_str_cons. cbn [no_char]. by rewrite IH, andb_assoc.
Qed.

(** The last separator splits a string in one way. *)
Lemma rsplit_at_char c a1 a2 b1 b2 :
  no_char c b1 = true → no_char c b2 = true →
  a1 +:+ String c b1 = a2 +:+ String c b2 → a1 = a2 ∧ b1 = b2.
Proof.
  intros H1 H2. revert a2. induction a1 as [|x a1 IH]; intros [|y a2] H.
  - by injection H.
  - rewrite app_str_cons in H. injection H as -> ->. by rewrite no_char_app, andb_comm in H1; cbn in H1;
      rewrite Ascii.eqb_refl in H1.
  - rewrite app_str_cons in H. injection H as -> <-. by rewrite no_char_app, andb_comm in H2; cbn in H2;
      rewrite Ascii.eqb_refl in H2.
  - rewrite !app_str_cons in H. injection H as -> H. apply IH in H as [-> ->]. done.
Qed.

Lemma gtin_match_extract q id :
  is_empty q = false → colonless q → gtin_match q id = true ↔ Flattener.extract_gtin id = Some q.
Proof.
  intros Hq Hc. unfold gtin_match, Flattener.extract_gtin. rewrite Hq. split.
  - destruct (strip_prefix _ id) as [rest|] eqn:Hs; [|done]. apply strip_prefix_Some in Hs as ->.
    rewrite app_str_assoc, strip_prefix_app. cbn. intros [Hr|Hr]%orb_true_iff.
    + apply is_empty_true in Hr as ->. rewrite app_str_nil_r. f_equal. by apply until_none.
    + rewrite starts_with_strip in Hr. destruct (strip_prefix ":" rest) eqn:Hs; [|done].
      apply strip_prefix_Some in Hs as ->. f_equal. by apply until_colon.
  - destruct (strip_prefix "GTIN:" id) as [s|] eqn:Hs; [|done]. apply strip_prefix_Some in Hs as ->.
    cbn. intros [= <-].
    assert (∃ rest, s = Flattener.until colon s +:+ rest ∧ (rest = "" ∨ ∃ r, rest = String colon r)) as (rest & Hs & Hr).
    { clear. induction s as [|a s IH]; [exists ""; split; [done|by left]|]. cbn.
      destruct (Ascii.eqb a colon) eqn:Ha.
      - apply Ascii.eqb_eq in Ha as ->. exists (String colon s). split; [done|]. right. by exists s.
      - destruct IH as (rest & H & H'). exists rest. split; [|done]. rewrite app_str_cons. by rewrite <- H. }
    rewrite Hs at 2. rewrite <- app_str_assoc, strip_prefix_app. destruct Hr as [->|[r ->]]; [done|].
    by rewrite starts_with_strip.
Qed.

Lemma ends_with_serial q a b :
  colonless q → colonless b →
  ends_with (":SN:" +:+ q) (a +:+ String colon b) = true ↔ b = q ∧ ∃ w, a = w +:+ ":SN".
Proof.
  intros Hq Hb. rewrite ends_with_app.
  change (":SN:" +:+ q) with (":SN" +:+ String colon q). split.
  - intros [w H]. rewrite <- app_str_assoc in H. apply rsplit_at_char in H as [-> ->]; eauto.
  - intros (-> & w & ->). exists w. by rewrite app_str_assoc.
Qed.

Lemma no_serial_head a : colonless a → ¬ ∃ w, a = w +:+ ":SN".
Proof. intros H [w ->]. rewrite no_char_app in H. by rewrite andb_comm in H. Qed.

Lemma serial_match_asset q a :
  is_empty q = false → colonless q → plain_asset a →
  serial_match q (asset_id_for a) = true ↔ serial_number a = Some q.
Proof.
  intros Hq Hc [Pg Ps Pb Pp]. unfold serial_match. rewrite Hq, orb_true_iff.
  unfold asset_id_for. destruct (gtin a) as [g|].
  - destruct (serial_number a) as [sn|].
    + change (":SN:" +:+ sn) with (":SN" +:+ String colon sn).
      rewrite <- !app_str_assoc, ends_with_serial by (done || by apply Ps). split.
      * by intros [[-> _]|].
      * intros [= ->]. left. split; [done|]. by eexists.
    + destruct (batch_number a) as [bn|].
      * change (":BATCH:" +:+ bn) with (":BATCH" +:+ String colon bn).
        rewrite <- !app_str_assoc, ends_with_serial by (done || by apply Pb).
        split; [|done]. intros [[_ [w Hw]]|]; [|done].
        change ":BATCH" with (String colon "BATCH") in Hw. change ":SN" with (String colon "SN") in Hw.
        by apply rsplit_at_char in Hw as [_ Hw].
      * change ("GTIN:" +:+ g) with ("GTIN" +:+ String colon g).
        rewrite ends_with_serial by (done || by apply Pg). split; [|done].
        intros [[_ Hw]|]; [by apply no_serial_head in Hw|done].
  - destruct (serial_number a) as [sn|].
    + rewrite str_eqb_eq. change ("SN:" +:+ sn) with ("SN" +:+ String colon sn) at 1.
      rewrite ends_with_serial by (done || by apply Ps). split.
      * intros [[_ Hw]|H]; [by apply no_serial_head in Hw|]. f_equal. by injection H.
      * intros [= ->]. by right.
    + change ("PRODUCT:" +:+ product_name a) with ("PRODUCT" +:+ String colon (product_name a)).
      rewrite ends_with_serial by done. split; [|done]. intros [[_ Hw]|]; [by apply no_serial_head in Hw|done].
Qed.

Lemma asset_match_id q_gtin q_serial a :
  colonless q_gtin → colonless q_serial → plain_asset a →
  gtin_match q_gtin (asset_id_for a) && serial_match q_serial (asset_id_for a)
  = asset_match q_gtin q_serial a.
Proof.
  intros Hg Hs Ha. unfold asset_match. f_equal.
  - destruct (is_empty q_gtin) eqn:He; [unfold gtin_match; by rewrite He|]. apply eq_iff_eq_true. cbn [orb].
    rewrite gtin_match_extract, bool_decide_eq_true by done.
    destruct (gtin a) as [g|] eqn:Hga; [by rewrite (extract_gtin_asset a g Hga) by (by apply (pa_gtin a))|].
    by rewrite extract_gtin_None.
  - destruct (is_empty q_serial) eqn:He; [unfold serial_match; by rewrite He|]. apply eq_iff_eq_true. cbn [orb].
    by rewrite serial_match_asset, bool_decide_eq_true.
Qed.

(** Gathering by distinct keys permutes the elements with those keys. *)
Lemma gather_perm {A} (f : A → string) (ids : list string) (l : list A) :
  NoDup ids →
  (id ← ids; List.filter (λ x, f x ==? id) l) ≡ₚ List.filter (λ x, bool_decide (f x ∈ ids)) l.
Proof using Type.
  induction 1 as [|id ids Hid _ IH]; [by induction l|]. csimpl. rewrite IH. clear IH.
  induction l as [|x l IH]; [done|]. cbn [List.filter]. destruct (f x ==? id) eqn:Hx.
  - apply str_eqb_eq in Hx. rewrite (bool_decide_eq_false_2 (f x ∈ ids)) by (by rewrite Hx).
    rewrite bool_decide_eq_true_2 by (rewrite Hx; by left). cbn. by rewrite IH.
  - apply str_eqb_neq in Hx. rewrite (bool_decide_ext (f x ∈ id :: ids) (f x ∈ ids)).
    2: { rewrite elem_of_cons. split; [intros [He|He]; [by destruct Hx|done]|by right]. }
    case_bool_decide; [|done]. rewrite <- Permutation_middle. by rewrite IH.
Qed.

(** The history query answers for the committed chain.  While the custody index is the
    chain's (it always is), the answer to a query by GTIN and serial number (an empty field asks
    for any) is the custody events of exactly the committed registrations whose asset
    carries that GTIN and that serial number, each once, provided no identifier holds
    the separator ':'; in particular a short GTIN never matches a longer one. *)
Theorem asset_history_exact st q_gtin q_serial :
  fn_provenance (sv_node st) = foldl ingest_block ProvenanceIndex_new (fn_chain (sv_node st)) →
  (∀ x, x ∈ registrations (fn_chain (sv_node st)) → plain_asset (tar_asset x.2)) →
  colonless q_gtin → colonless q_serial →
  query_asset_history st q_gtin q_serial
  ≡ₚ (λ x, custody_proto (event_of x))
       <$> List.filter (λ x, asset_match q_gtin q_serial (tar_asset x.2))
             (registrations (fn_chain (sv_node st))).
Proof.
  intros Hp Hplain Hg Hs. set (rs := registrations _) in *.
  assert (∀ id, get_custody_chain (fn_provenance (sv_node st)) id
    = event_of <$> List.filter (λ x, asset_id_for (tar_asset x.2) ==? id) rs) as Hc.
  { intros id. rewrite Hp, custody_chain_of_chain. fold rs. clear.
    induction rs as [|x rs IH]; [done|]. csimpl. destruct (asset_id_for _ ==? id); csimpl; by rewrite IH. }
  set (ids := matching_assets st q_gtin q_serial).
  assert (query_asset_history st q_gtin q_serial
    = (λ x, custody_proto (event_of x)) <$> (id ← ids; List.filter (λ x, asset_id_for (tar_asset x.2) ==? id) rs)) as ->.
  { unfold query_asset_history. fold ids. clear -Hc. induction ids as [|id ids IH]; [done|]. csimpl.
    by rewrite fmap_app, IH, Hc, <- list_fmap_compose. }
  assert (NoDup ids) as Hnd.
  { unfold ids, matching_assets. apply NoDup_ListNoDup, List.NoDup_filter, NoDup_ListNoDup.
    rewrite sort_by_perm. apply NoDup_fst_map_to_list. }
  rewrite (gather_perm (λ x, asset_id_for (tar_asset x.2)) ids rs Hnd). f_equiv.
  apply Permutation_refl'. apply filter_ext_in. intros x Hx%list_elem_of_In.
  rewrite <- asset_match_id by (by auto). apply eq_iff_eq_true. rewrite bool_decide_eq_true.
  unfold ids, matching_assets. rewrite list_elem_of_In, List.filter_In, <- list_elem_of_In, sort_by_perm.
  split; [by intros [_ H]|]. intros H. split; [|done]. unfold tracked_assets.
  assert (get_custody_chain (fn_provenance (sv_node st)) (asset_id_for (tar_asset x.2)) ≠ []) as Hne.
  { rewrite Hc. intros Hn. apply fmap_nil_inv in Hn.
    assert (x ∈ List.filter (λ y, asset_id_for (tar_asset y.2) ==? asset_id_for (tar_asset x.2)) rs) as Hin.
    { apply list_elem_of_In, List.filter_In. split; [by apply list_elem_of_In|]. apply str_eqb_refl. }
    rewrite Hn in Hin. by apply elem_of_nil in Hin. }
  unfold get_custody_chain in Hne. destruct (fn_provenance (sv_node st) !! _) as [l|] eqn:Hl; [|done].
  apply list_elem_of_fmap. exists (asset_id_for (tar_asset x.2), l). split; [done|]. by apply elem_of_map_to_list.
Qed.

(** ** Endorsements *)

Lemma first_unsatisfied_None i evs : first_unsatisfied i evs = None ↔ ∀ e, e ∈ evs → satisfied e = true.
Proof.
  revert i. induction evs as [|e evs IH]; intros i; cbn.
  { split; [|done]. by intros _ e He%elem_of_nil. }
  destruct (satisfied e) eqn:He.
  - rewrite IH. split; [intros H x [->|Hx]%elem_of_cons; auto|]. intros H x Hx. apply H. by right.
  - split; [done|]. intros H. specialize (H e ltac:(by left)). congruence.
Qed.

Lemma try_map_Ok {X Y Er} (f : X → result Er Y) l bs :
  try_map f l = Ok bs ↔ Forall2 (λ a b, f a = Ok b) l bs.
Proof.
  revert bs. induction l as [|a l IH]; intros bs; cbn [try_map].
  - split; [intros [= <-]; constructor|]. intros H. by inversion H.
  - split.
    + destruct (f a) as [b|] eqn:Ha; [|done]. destruct (try_map f l) as [bs'|] eqn:Hl; [|done].
      intros [= <-]. constructor; [done|]. by apply IH.
    + intros H. inversion H as [|? b ? bs' Ha Hl]; subst. rewrite Ha. apply IH in Hl. by rewrite Hl.
Qed.

(** The signers of a request satisfy a policy as the provider counts them. *)
Definition layer_satisfied (P : EndorsementProvider) (req : EndorsementRequest) (height : Z)
    (policy : PolicyExpression) : Prop :=
  ∃ ev, P policy req height = Ok ev ∧ satisfied ev = true.

(** An endorsement is approved exactly when every policy layer of its target, at the next
    height and under the policies committed so far, is evaluated without error and
    satisfied by the signers the provider counts; a node without a provider approves
    nothing. *)
Theorem endorsement_approved_exactly st json req r :
  is_empty json = false → proposal_of_json json = Ok req → verify_endorsement st json = Ok r →
  ver_approved r = true ↔
  ∃ P, nd_endorsement (fn_core (sv_node st)) = Some P
  ∧ ∀ policy, policy ∈ applicable (policies_for (nd_policies (fn_core (sv_node st)))
                  (st_channel (er_target req)) (st_contract (er_target req))) (er_target req) →
      layer_satisfied P req (Z.of_nat (length (fn_chain (sv_node st)))) policy.
Proof.
  intros He Hj. unfold verify_endorsement. rewrite He, Hj. cbn [negb map_err].
  unfold node_verify_endorsement. destruct (nd_endorsement _) as [prov|].
  2: { intros [= <-]. cbn. split; [done|]. by intros (? & ? & _). }
  set (layers := applicable _ _). set (h := Z.of_nat _).
  destruct (try_map _ layers) as [evs|e] eqn:Ht; intros [= <-]; cbn [ver_approved].
  - apply try_map_Ok in Ht.
    transitivity (∀ e, e ∈ evs → satisfied e = true).
    { rewrite <- (first_unsatisfied_None 0). by destruct (first_unsatisfied 0 evs) as [[? ?]|]. }
    split.
    + intros Hall. exists prov. split; [done|]. intros policy [i Hi]%list_elem_of_lookup.
      destruct (Forall2_lookup_l _ _ _ _ _ Ht Hi) as (ev & Hev & Hp). exists ev. split; [done|].
      apply Hall. by eapply list_elem_of_lookup_2.
    + intros (P' & [= <-] & Hall) ev [i Hi]%list_elem_of_lookup.
      destruct (Forall2_lookup_r _ _ _ _ _ Ht Hi) as (policy & Hpol & Hp).
      destruct (Hall policy) as (ev' & Hp' & Hs); [by eapply list_elem_of_lookup_2|].
      unfold provider_evaluate in Hp. congruence.
  - split; [done|]. intros (P' & [= <-] & Hall). exfalso.
    assert (∃ evs, try_map (λ policy, provider_evaluate (EndorsementProvider := prov) policy req h) layers = Ok evs)
      as [evs Hevs]; [|congruence].
    clear Ht. induction layers as [|p layers IH]; [by exists []|]. cbn [try_map].
    destruct (Hall p ltac:(by left)) as (ev & Hev & _). unfold provider_evaluate at 1. rewrite Hev.
    destruct IH as [evs ->]; [intros q Hq; apply Hall; by right|]. by eexists.
Qed.

(** ** Submission *)

(** A refused submission leaves the chain, the pool and the contract engine alone. *)
Lemma refused_submission_frame (n : FullNode (S := S)) tx n' e :
  submit_transaction base64_std json_offer clock n tx = (n', Err e) →
  fn_chain n' = fn_chain n
  ∧ pending_transactions (nd_ledger (fn_core n')) = pending_transactions (nd_ledger (fn_core n))
  ∧ fn_engine n' = fn_engine n.
Proof.
  unfold submit_transaction. assert (nd_ledger (submission_gate (fn_core n) tx).1 = nd_ledger (fn_core n)) as Hg.
  { unfold submission_gate, capability_effective_set. destruct (nd_endorsement _); [|done].
    destruct (nd_history _); [done|]. by destruct (capability_build_from_blocks _). }
  destruct (submission_gate (fn_core n) tx) as [c [u|e1]]; cbn [fst] in Hg.
  2:{ intros [= <- _]. unfold fn_chain. cbn. by rewrite Hg. }
  pose proof (add_transaction_indexed (nd_ledger c) tx) as Ha.
  destruct (add_transaction (nd_ledger c) tx) as [l [[]|e1]].
  { by destruct (engine_react _ _ _ _ _ _). }
  intros [= <- _]. destruct Ha as [Hc Hp]. unfold fn_chain. cbn. by rewrite Hc, Hp, Hg.
Qed.

(** One clause on one branch of the submission: false on both sides, or witnessed. *)
Ltac submission_case :=
  first [done
    | split; [done|intros H; repeat match goal with H : ∃ _, _ |- _ => destruct H | H : _ ∧ _ |- _ => destruct H end;
                   congruence]
    | split; [intros _; eauto 10|done]
    | naive_solver congruence].

(** C31: a signed submission reaches the node only with a valid signature: the server answers
    [accepted] exactly when the envelope parses, its signature verifies under the
    signer's key and the node's admission accepts the transaction, and exactly then the
    error is empty.  Otherwise the error begins with a text that says which of the three
    failed, each text in exactly its own case.  An envelope that does not parse or does
    not verify leaves the server as it was and is answered without an id; one that
    admission refuses leaves the chain, the pool and the contract engine as they were and is
    answered with its id and the admission error. *)
Theorem signed_submission_exact st tj sj :
  is_empty sj = false →
  let '(st', r) := rpc_submit_transaction st tj sj in
  (sr_accepted r = true ↔
   ∃ s n out, signed_of_json sj = Ok s ∧ signed_verify s = Ok tt
     ∧ submit_transaction base64_std json_offer clock (sv_node st) (signed_tx s) = (n, Ok out)
     ∧ st' = set_node st n ∧ sr_transaction_id r = tx_id (signed_tx s))
  ∧ (sr_accepted r = true ↔ sr_error r = "")
  ∧ (starts_with "invalid signed_transaction_json: " (sr_error r) = true ↔ ∃ e, signed_of_json sj = Err e)
  ∧ (starts_with "signature verification failed: " (sr_error r) = true ↔
     ∃ s e, signed_of_json sj = Ok s ∧ signed_verify s = Err e)
  ∧ (starts_with "core error: " (sr_error r) = true ↔
     ∃ s n e, signed_of_json sj = Ok s ∧ signed_verify s = Ok tt
       ∧ submit_transaction base64_std json_offer clock (sv_node st) (signed_tx s) = (n, Err e)
       ∧ sr_error r = network_error_text e ∧ sr_transaction_id r = tx_id (signed_tx s))
  ∧ ((∀ s, signed_of_json sj = Ok s → signed_verify s ≠ Ok tt) → st' = st ∧ sr_transaction_id r = "")
  ∧ (sr_accepted r = false →
     fn_chain (sv_node st') = fn_chain (sv_node st)
     ∧ pending_transactions (nd_ledger (fn_core (sv_node st')))
       = pending_transactions (nd_ledger (fn_core (sv_node st)))
     ∧ fn_engine (sv_node st') = fn_engine (sv_node st)).
Proof.
  clear to_str proposal_of_json base64_decode. intros He. unfold rpc_submit_transaction. rewrite He. cbn [negb].
  destruct (signed_of_json sj) as [s|e]; cbn [sr_accepted sr_error sr_transaction_id].
  2: { rewrite starts_with_app. split_and!; submission_case. }
  destruct (signed_verify s) as [[]|e] eqn:Hv; cbn [sr_accepted sr_error sr_transaction_id].
  2: { rewrite starts_with_app. split_and!; submission_case. }
  unfold forward. destruct (submit_transaction _ _ _ _ _) as [n [out|e]] eqn:Hs;
    cbn [sr_accepted sr_error sr_transaction_id]; [split_and!; submission_case|].
  apply refused_submission_frame in Hs as Hf. unfold network_error_text. rewrite starts_with_app.
  split_and!; submission_case.
Qed.

(** ** Block streams *)

(** The subscription loses nothing when it never lags: [events] are the block indexes
    from the moment of subscription, read from chains that hold them. *)
Record live_turns (final : list Block) (turns : list (Recv * list Block)) (from upto : Z) : Prop := {
  lt_no_gap : ∀ r c, (r, c) ∈ turns → ∃ e, r = REvent e;
  lt_events : omap (λ rc, match rc.1 with REvent e => block_event_index e | _ => None end) turns
              = seqZ from (upto - from);
  lt_chain : ∀ e c i, (REvent e, c) ∈ turns → block_event_index e = Some i → c !! Z.to_nat i = final !! Z.to_nat i }.

Lemma stream_live_indexes (final : list Block) start turns : ∀ l,
  (∀ r c, (r, c) ∈ turns → ∃ e, r = REvent e) →
  omap (λ rc, match rc.1 with REvent e => block_event_index e | _ => None end) turns = l →
  (∀ e c i, (REvent e, c) ∈ turns → block_event_index e = Some i → c !! Z.to_nat i = final !! Z.to_nat i) →
  stream_live start turns
  = i ← l; if start <=? i then block_to_stream_response <$> opt_list (final !! Z.to_nat i) else [].
Proof.
  induction turns as [|[r c] turns IH]; intros l Hr Hl Hc; [by rewrite <- Hl|].
  destruct (Hr r c ltac:(by left)) as [e ->]. cbn [stream_live stream_turn]. csimpl in Hl.
  specialize (IH _ ltac:(intros ? ? ?; eapply Hr; by right) eq_refl ltac:(intros ? ? ? ?; eapply Hc; by right)).
  destruct (block_event_index e) as [i|] eqn:Hi; rewrite <- Hl; csimpl; [|done].
  rewrite IH. by rewrite (Hc e c i ltac:(by left) Hi).
Qed.

Lemma stream_live_length start turns : (length (stream_live start turns) ≤ length turns)%nat.
Proof.
  induction turns as [|[r c] turns IH]; [done|]. cbn [stream_live]. destruct r as [e| |]; cbn; [|lia|lia].
  rewrite length_app, <- Nat.add_1_l. apply Nat.add_le_mono; [|done].
  destruct (block_event_index e); [|cbn; lia]. destruct (start <=? z); [|cbn; lia].
  rewrite length_fmap. destruct (c !! _); cbn; lia.
Qed.

Lemma live_suffix start (final : list Block) k : ∀ from,
  0 ≤ start → 0 ≤ from → from + Z.of_nat k = Z.of_nat (length final) →
  (i ← seqZ from (Z.of_nat k); if start <=? i then block_to_stream_response <$> opt_list (final !! Z.to_nat i) else [])
  = block_to_stream_response <$> drop (Z.to_nat (Z.max start from)) final.
Proof.
  induction k as [|k IH]; intros from Hs Hf Hk.
  - rewrite drop_ge by lia. done.
  - rewrite seqZ_cons by lia. csimpl. rewrite Nat2Z.inj_succ, Z.pred_succ, <- Z.add_1_r, IH by lia.
    destruct (Z.leb_spec start from).
    + rewrite !Z.max_r by lia. rewrite Z2Nat.inj_add, Nat.add_1_r by lia.
      destruct (lookup_lt_is_Some_2 final (Z.to_nat from)) as [b Hb]; [lia|].
      rewrite Hb, (drop_S _ _ _ Hb). done.
    + by rewrite !Z.max_l by lia.
Qed.

(** A block subscription delivers every block.  When the client keeps reading and the event
    channel does not lag, and the chain only grows from the moment of subscription (length
    [from]) through the first read (length [mid]) to the whole of [final], the stream is
    exactly: the blocks from [start] up to [mid], then the blocks from the subscription on
    with index at least [start].  Every block from [start] on is delivered, in order, and
    the blocks committed between the subscription and the first read are delivered twice. *)
Theorem stream_delivers_all start from mid final turns taken :
  0 ≤ start → 0 ≤ from ≤ mid → mid ≤ Z.of_nat (length final) →
  live_turns final turns from (Z.of_nat (length final)) →
  (length final + length turns ≤ taken)%nat →
  stream_blocks start (take (Z.to_nat mid) final) turns taken
  = (block_to_stream_response <$> drop (Z.to_nat start) (take (Z.to_nat mid) final))
    ++ (block_to_stream_response <$> drop (Z.to_nat (Z.max start from)) final)
  ∧ ∀ i b, (Z.to_nat start ≤ i)%nat → final !! i = Some b →
      block_to_stream_response b ∈ stream_blocks start (take (Z.to_nat mid) final) turns taken.
Proof.
  intros Hs Hf Hm [H1 H2 H3] Ht.
  assert (stream_blocks start (take (Z.to_nat mid) final) turns taken
    = (block_to_stream_response <$> drop (Z.to_nat start) (take (Z.to_nat mid) final))
      ++ (block_to_stream_response <$> drop (Z.to_nat (Z.max start from)) final)) as ->.
  { unfold stream_blocks. pose proof (stream_live_length start turns). rewrite take_ge.
    2: { rewrite length_app, length_fmap, length_drop, length_take. lia. }
    f_equal. rewrite (stream_live_indexes final start turns _ H1 H2 H3).
    replace (Z.of_nat (length final) - from) with (Z.of_nat (length final - Z.to_nat from)) by lia.
    apply live_suffix; lia. }
  split; [done|]. intros i b Hi Hb. rewrite <- fmap_app. apply list_elem_of_fmap_2, elem_of_app.
  destruct (decide (i < Z.to_nat mid)%nat) as [Hlt|Hge]; [left|right]; apply list_elem_of_lookup.
  - exists (i - Z.to_nat start)%nat. rewrite lookup_drop, lookup_take_lt by lia. by replace (_ + _)%nat with i by lia.
  - exists (i - Z.to_nat (Z.max start from))%nat. rewrite lookup_drop. by replace (_ + _)%nat with i by lia.
Qed.

End server.
