(* ===== verification/Specs.v ===== *)
(** The specifications the code carries, and that the model meets them.

    The crates annotate their decision kernels with Verus contracts ([spec] functions over
    mathematical integers and sequences, and [proof] functions about them).  One Module per
    source file translates the spec functions, and the theorems show what the annotations
    claim, for the definitions the rest of the development uses: glasschain-core bft.rs,
    consensus.rs, pin.rs, rounds.rs and asset.rs, glasschain-identity msp_policy.rs,
    channel.rs and payload_gate.rs, glasschain-vm gas.rs.  The last Module states the
    bounded model-checking harnesses of the two proofs.rs for inputs of every length. *)

From S2P Require Import Prelude Types Asset Canonical Chain Bft Rounds Msp Channel Peers Ocsp Gas.

Local Open Scope Z_scope.

(** ** Quorums and signer bitmaps (bft.rs) *)

Module BftSpec.

Definition spec_quorum_threshold (validator_count : Z) : Z :=
  (if validator_count * 2 <=? USIZE_MAX then validator_count * 2 else USIZE_MAX) / 3 + 1.

Definition spec_bitmap_len (validator_count : Z) : Z := (validator_count + 7) / 8.
Definition spec_bitmap_byte (index : Z) : Z := index / 8.
(** [1u8 << (index % 8)] *)
Definition spec_bitmap_mask (index : Z) : Z := Z.shiftl 1 (index mod 8) mod 256.

Definition spec_bit_set (byte bit : Z) : bool := negb (Z.land byte (Z.shiftl 1 bit mod 256) =? 0).

(** The recursion is on [count]. *)
Fixpoint spec_byte_bits (byte base : Z) (count : nat) : list Z :=
  match count with
  | O => []
  | S c => spec_byte_bits byte base c ++ (if spec_bit_set byte (Z.of_nat c) then [base + Z.of_nat c] else [])
  end.

(** The recursion takes the last byte off: it is structural on the reversed bitmap. *)
Fixpoint spec_expand_reversed (rev_bitmap : list Z) : list Z :=
  match rev_bitmap with
  | [] => []
  | last :: rest => spec_expand_reversed rest ++ spec_byte_bits last (Z.of_nat (length rest) * 8) 8
  end.
Definition spec_expand_signers (bitmap : list Z) : list Z := spec_expand_reversed (reverse bitmap).

(** A bitmap scanned up to bit [bit] of byte [byte]. *)
Definition spec_expand_partial (bitmap : list Z) (byte bit : nat) : list Z :=
  spec_expand_signers (take byte bitmap)
  ++ spec_byte_bits (default 0 (bitmap !! byte)) (Z.of_nat byte * 8) bit.

Definition spec_matches (signers : list nat) (model : list Z) : Prop :=
  length signers = length model
  ∧ ∀ i, (i < length signers)%nat → Z.of_nat <$> signers !! i = model !! i.

Definition spec_signers_in_range (signers : list nat) (validator_count : nat) : Prop :=
  ∀ i s, signers !! i = Some s → (s < validator_count)%nat.

(** The equation of the Verus definition. *)
Lemma spec_expand_snoc bm b :
  spec_expand_signers (bm ++ [b]) = spec_expand_signers bm ++ spec_byte_bits b (Z.of_nat (length bm) * 8) 8.
Proof. unfold spec_expand_signers. rewrite reverse_snoc. cbn. by rewrite length_reverse. Qed.

Lemma spec_matches_map signers model : spec_matches signers model ↔ Z.of_nat <$> signers = model.
Proof.
  split.
  - intros [Hl H]. apply list_eq. intros i. rewrite list_lookup_fmap.
    destruct (decide (i < length signers)%nat) as [Hi|Hi]; [by apply H|].
    rewrite !(proj2 (lookup_ge_None _ _)) by lia. done.
  - intros <-. split; [by rewrite length_fmap|]. intros i _. by rewrite list_lookup_fmap.
Qed.

Lemma spec_bit_set_mask byte bit : (bit < 8)%nat →
  spec_bit_set byte (Z.of_nat bit) = negb (Z.land byte (Z.shiftl 1 (Z.of_nat bit)) =? 0).
Proof.
  intros H. unfold spec_bit_set. rewrite (Z.mod_small (Z.shiftl _ _)); [done|].
  rewrite Z.shiftl_1_l. split; [lia|]. change 256 with (2 ^ 8). apply Z.pow_lt_mono_r; lia.
Qed.

Lemma byte_bits_spec base byte n : (n ≤ 8)%nat →
  Z.of_nat <$> List.filter (λ i, negb (Z.land byte (Z.shiftl 1 (Z.of_nat (i - base))) =? 0)) (seq base n)
  = spec_byte_bits byte (Z.of_nat base) n.
Proof.
  induction n as [|n IH]; intros Hn; [done|].
  rewrite seq_S, List.filter_app, fmap_app, IH by lia. cbn [spec_byte_bits List.filter].
  replace (base + n - base)%nat with n by lia. rewrite spec_bit_set_mask by lia.
  f_equal. destruct (negb _); [|done]. cbn. f_equal. lia.
Qed.

Lemma expand_from_app base bm bm' :
  expand_from base (bm ++ bm') = expand_from base bm ++ expand_from (base + 8 * length bm) bm'.
Proof.
  revert base. induction bm as [|b bm IH]; intros base; cbn; [by rewrite Nat.add_0_r|].
  rewrite IH, app_assoc. do 2 f_equal. lia.
Qed.

Lemma expand_signers_spec bm : Z.of_nat <$> expand_signers bm = spec_expand_signers bm.
Proof.
  induction bm as [|b bm IH] using rev_ind; [done|].
  unfold expand_signers in *. rewrite expand_from_app, fmap_app, IH, spec_expand_snoc. f_equal.
  cbn [expand_from]. rewrite app_nil_r. unfold byte_bits. rewrite byte_bits_spec by lia. f_equal. lia.
Qed.

Lemma signers_in_range_contract signers n : signers_in_range signers n = true ↔ spec_signers_in_range signers n.
Proof.
  unfold spec_signers_in_range. induction signers as [|s l IH]; cbn [signers_in_range].
  - split; [|done]. intros _ i s. by rewrite lookup_nil.
  - destruct (n <=? s)%nat eqn:Hs; bool_hyps.
    + split; [done|]. intros H. specialize (H 0%nat s eq_refl). lia.
    + rewrite IH. split; intros H.
      * intros [|i] x Hx; cbn in Hx; [by simplify_eq | by eapply H].
      * intros i x Hx. by apply (H (S i)).
Qed.

Lemma quorum_threshold_spec n : 0 ≤ n → quorum_threshold n = spec_quorum_threshold n.
Proof.
  intros H. unfold quorum_threshold, spec_quorum_threshold, saturating_mul_usize. destruct (n * 2 <=? USIZE_MAX) eqn:Hn; bool_hyps.
  - by rewrite Z.min_l by lia.
  - by rewrite Z.min_r by lia.
Qed.

(** The contracts of the quorum arithmetic: the threshold is the spec's, positive, within
    the set, and a reached quorum is more than two thirds of it. *)
Theorem quorum_contract n signers :
  0 ≤ n ≤ USIZE_MAX / 2 →
  quorum_threshold n = spec_quorum_threshold n ∧ 1 ≤ quorum_threshold n
  ∧ (0 < n → quorum_threshold n ≤ n)
  ∧ (meets_quorum signers n = true ↔ spec_quorum_threshold n ≤ signers)
  ∧ (meets_quorum signers n = true → n * 2 < signers * 3).
Proof.
  intros Hn. assert (quorum_threshold n = spec_quorum_threshold n) as E by (apply quorum_threshold_spec; lia).
  unfold meets_quorum. rewrite E, Z.leb_le. unfold spec_quorum_threshold.
  pose proof (Z.mul_div_le USIZE_MAX 2 eq_refl). rewrite (proj2 (Z.leb_le _ _)) by lia.
  split_and!; Z.to_euclidean_division_equations; lia.
Qed.

Lemma bitmap_len_contract n : Z.of_nat (bitmap_len n) = spec_bitmap_len (Z.of_nat n).
Proof.
  destruct (bitmap_len_spec n) as [H1 H2]. unfold spec_bitmap_len.
  Z.to_euclidean_division_equations; lia.
Qed.

Lemma bitmap_byte_contract i : Z.of_nat (bitmap_byte i) = spec_bitmap_byte (Z.of_nat i).
Proof. unfold bitmap_byte, spec_bitmap_byte. by rewrite Nat2Z.inj_div. Qed.

Lemma bitmap_mask_contract i :
  bitmap_mask i = spec_bitmap_mask (Z.of_nat i) ∧ bitmap_mask i ≠ 0.
Proof.
  unfold bitmap_mask, spec_bitmap_mask. rewrite Nat2Z.inj_mod. change (Z.of_nat 8) with 8.
  pose proof (Z.mod_pos_bound (Z.of_nat i) 8 eq_refl). rewrite Z.shiftl_1_l.
  assert (2 ^ (Z.of_nat i mod 8) < 256) by (change 256 with (2 ^ 8); apply Z.pow_lt_mono_r; lia).
  pose proof (Z.pow_pos_nonneg 2 (Z.of_nat i mod 8) eq_refl ltac:(lia)).
  rewrite (Z.mod_small (2 ^ _)) by lia. split; [done|lia].
Qed.

Lemma expand_partial bm byte b bit : bm !! byte = Some b → (bit ≤ 8)%nat →
  Z.of_nat <$> (expand_signers (take byte bm)
    ++ List.filter (λ i, negb (Z.land b (Z.shiftl 1 (Z.of_nat (i - byte * 8))) =? 0)) (seq (byte * 8) bit))
  = spec_expand_partial bm byte bit.
Proof.
  intros Hb Hbit. unfold spec_expand_partial. rewrite Hb, fmap_app, expand_signers_spec, byte_bits_spec by done.
  cbn [default]. do 2 f_equal. lia.
Qed.

(** C29: The signer expansion is the sequence of the code's own specification, for every
    bitmap; at every point of the scan (byte [byte], bit [bit]) what has been collected is
    the specification's partial expansion; and the range check accepts exactly the
    signers the specification calls in range.  The bits are read through masks that are
    the specification's and never zero, at a byte that lies inside the bitmap. *)
Theorem signer_expansion_meets_spec bm :
  spec_matches (expand_signers bm) (spec_expand_signers bm)
  ∧ (∀ byte b bit, bm !! byte = Some b → (bit ≤ 8)%nat →
       Z.of_nat <$> (expand_signers (take byte bm) ++ List.filter
         (λ i, negb (Z.land b (Z.shiftl 1 (Z.of_nat (i - byte * 8))) =? 0)) (seq (byte * 8) bit))
       = spec_expand_partial bm byte bit)
  ∧ (∀ n, signers_in_range (expand_signers bm) n = true ↔ spec_signers_in_range (expand_signers bm) n)
  ∧ (∀ i n, (i < n)%nat → spec_bitmap_byte (Z.of_nat i) < spec_bitmap_len (Z.of_nat n)
       ∧ bitmap_mask i = spec_bitmap_mask (Z.of_nat i) ∧ bitmap_mask i ≠ 0).
Proof.
  split_and!.
  - apply spec_matches_map, expand_signers_spec.
  - intros. by apply expand_partial.
  - intros n. apply signers_in_range_contract.
  - intros i n Hi. split; [|apply bitmap_mask_contract].
    unfold spec_bitmap_byte, spec_bitmap_len.
    Z.to_euclidean_division_equations; lia.
Qed.

End BftSpec.

(** ** Certificate admission (consensus.rs) *)

Module ConsensusSpec.

Definition spec_decide (block_index : Z) (block_hash : string) (cert_index : Z) (cert_hash : string)
    (degenerate has_aggregate bls_algorithm : bool) : CertDecision :=
  if bool_decide (cert_index ≠ block_index) then IndexMismatch
  else if bool_decide (cert_hash ≠ block_hash) then HashMismatch
  else if degenerate then Accepted
  else if negb has_aggregate then MissingAggregate
  else if negb bls_algorithm then WrongAlgorithm
  else Accepted.

Lemma cert_decide_contract bi bh ci ch d a l : decide_cert bi bh ci ch d a l = spec_decide bi bh ci ch d a l.
Proof.
  unfold decide_cert, spec_decide, str_eqb. destruct (Z.eqb_spec ci bi); repeat case_bool_decide; naive_solver.
Qed.

Lemma acceptance_iff bi bh ci ch d a l :
  spec_decide bi bh ci ch d a l = Accepted ↔ ci = bi ∧ ch = bh ∧ (d = true ∨ a = true ∧ l = true).
Proof.
  unfold spec_decide. repeat case_bool_decide; destruct d, a, l; naive_solver.
Qed.

(** A certificate passes [QuorumCertificate::validate] exactly when it names the block and
    is either the proof-of-work form or carries a non-empty BLS aggregate. *)
Theorem validate_accepts_iff c b :
  cert_validate c b = Ok tt ↔
  qc_block_index c = index b ∧ qc_block_hash c = hash b
  ∧ (is_degenerate c = true ∨ aggregate_signature c ≠ "" ∧ qc_algorithm c = Bls12381).
Proof.
  unfold cert_validate. rewrite cert_decide_contract.
  transitivity (spec_decide (index b) (hash b) (qc_block_index c) (qc_block_hash c) (is_degenerate c)
    (negb (is_empty (aggregate_signature c))) (bool_decide (qc_algorithm c = Bls12381)) = Accepted).
  { destruct (spec_decide _ _ _ _ _ _ _); done. }
  rewrite acceptance_iff, negb_true_iff, bool_decide_eq_true. destruct (aggregate_signature c); naive_solver.
Qed.

End ConsensusSpec.

(** ** Pins (pin.rs) *)

Module PinSpec.

Definition spec_decide (existing : option PinState) (poisoned : bool) (claim : IdentityClaim)
    (rotation_proof : RotationProof) : PinDecision :=
  if poisoned then PinRejected Poisoned
  else match existing with
       | None => PinNew
       | Some pinned =>
           if bool_decide (ps_node_id pinned ≠ ic_node_id claim) then PinRejected NodeIdChanged
           else if bool_decide (ps_org pinned ≠ ic_org claim) then PinRejected OrgChanged
           else if bool_decide (ps_cert_fingerprint pinned = ic_cert_fingerprint claim) then PinKnown
           else match ps_public_key pinned with
                | None => PinRejected NoPinnedKey
                | Some _ =>
                    match rotation_proof with
                    | Missing => PinRejected MissingProof
                    | Invalid => PinRejected InvalidProof
                    | Valid => PinRotated
                    end
                end
       end.

Lemma pin_decide_contract e p c r : decide_pin e p c r = spec_decide e p c r.
Proof.
  unfold decide_pin, spec_decide, str_eqb. destruct p; [done|]. destruct e as [pin|]; [|done].
  repeat case_bool_decide; try done; destruct (ps_public_key pin); naive_solver.
Qed.

Lemma poisoned_always_rejects e c r : spec_decide e true c r = PinRejected Poisoned.
Proof. done. Qed.

(** The four [proof] functions of pin.rs, for the decision the node takes: what each
    verdict says about the pin, the claim and the presented proof. *)
Theorem pin_decision_meaning pin claim r :
  (decide_pin (Some pin) false claim r = PinKnown → ps_cert_fingerprint pin = ic_cert_fingerprint claim)
  ∧ (decide_pin (Some pin) false claim r = PinRotated →
       r = Valid ∧ ps_cert_fingerprint pin ≠ ic_cert_fingerprint claim
       ∧ ps_node_id pin = ic_node_id claim ∧ ps_org pin = ic_org claim ∧ is_Some (ps_public_key pin))
  ∧ (ps_node_id pin = ic_node_id claim → ps_org pin = ic_org claim →
     ps_cert_fingerprint pin ≠ ic_cert_fingerprint claim → is_Some (ps_public_key pin) →
       (r = Valid ↔ decide_pin (Some pin) false claim r = PinRotated)
       ∧ (r ≠ Valid → ∃ why, decide_pin (Some pin) false claim r = PinRejected why)).
Proof.
  rewrite pin_decide_contract. unfold spec_decide.
  repeat case_bool_decide; destruct (ps_public_key pin), r; cbn; split_and!; try done; intros;
    split_and?; unfold is_Some in *; naive_solver.
Qed.

End PinSpec.

(** ** Rounds (rounds.rs) *)

Module RoundsSpec.

Definition spec_slot_modulus (validator_count : nat) : Z :=
  if (validator_count =? 0)%nat then 1 else Z.of_nat validator_count.
Definition spec_proposer_slot (height round : Z) (validator_count : nat) : Z :=
  (height mod spec_slot_modulus validator_count + round mod spec_slot_modulus validator_count)
    mod spec_slot_modulus validator_count.
Definition spec_receipt_action (existing same_hash : bool) : ReceiptAction :=
  match existing, same_hash with
  | false, _ => Insert | true, true => Duplicate | true, false => Equivocation
  end.
Definition spec_should_retain (receipt_height retire_below : Z) : bool := bool_decide (retire_below ≤ receipt_height).

Lemma receipt_action_contract e s : receipt_action e s = spec_receipt_action e s.
Proof. by destruct e, s. Qed.

Lemma should_retain_contract h b : should_retain h b = spec_should_retain h b.
Proof. unfold should_retain, spec_should_retain. apply eq_true_iff_eq. by rewrite Z.leb_le, bool_decide_eq_true. Qed.

(** The proposer rotates: slot [height + round] modulo the set, in range, and the next
    round's proposer is the next validator. *)
Theorem proposer_rotation height round n :
  0 ≤ height → 0 ≤ round → (0 < n)%nat →
  proposer_slot height round n = spec_proposer_slot height round n
  ∧ proposer_slot height round n = (height + round) mod Z.of_nat n
  ∧ 0 ≤ proposer_slot height round n < Z.of_nat n
  ∧ proposer_slot height (round + 1) n = (proposer_slot height round n + 1) mod Z.of_nat n.
Proof.
  intros Hh Hr Hn. unfold proposer_slot, spec_proposer_slot, spec_slot_modulus.
  rewrite (proj2 (Nat.eqb_neq _ _)), Nat.max_l by lia. rewrite <- !Zplus_mod, Zplus_mod_idemp_l.
  split_and!; [done..| | |f_equal; lia]; apply Z.mod_pos_bound; lia.
Qed.

(** An equivocation is reported exactly for a second vote of one context with another
    hash. *)
Lemma equivocation_iff_conflicting e s : receipt_action e s = Equivocation ↔ e = true ∧ s = false.
Proof. destruct e, s; naive_solver. Qed.

End RoundsSpec.

(** ** Authorization windows (msp_policy.rs) *)

Module MspSpec.

Definition spec_height_outcome (valid_from : Z) (revoked_at : option Z) (height : Z) : HeightOutcome :=
  if (height <? valid_from) then NotYetValid
  else match revoked_at with
       | Some revoked => if (height >=? revoked) then Revoked revoked else Authorized
       | None => Authorized
       end.

Lemma height_outcome_contract v r h : height_outcome v r h = spec_height_outcome v r h.
Proof.
  unfold height_outcome, spec_height_outcome. destruct r; [|done]. by rewrite Z.geb_leb.
Qed.

(** A principal is authorized exactly inside its committed window, and a height at which it
    is revoked is followed only by such heights. *)
Theorem window_exact v r h :
  (height_outcome v r h = Authorized ↔ v ≤ h ∧ ∀ x, r = Some x → h < x)
  ∧ (h < v → height_outcome v r h = NotYetValid)
  ∧ (∀ x later, height_outcome v r h = Revoked x → h ≤ later → height_outcome v r later = Revoked x).
Proof.
  unfold height_outcome. destruct (h <? v) eqn:Hv; bool_hyps.
  - split_and!; [split; [done|lia]|done|done].
  - destruct r as [x|].
    + destruct (x <=? h) eqn:Hx; bool_hyps; split_and!; try done; try lia.
      * split; [done|]. intros [_ H]. specialize (H x eq_refl). lia.
      * intros y later [= <-] Hl. by rewrite (proj2 (Z.ltb_ge _ _)), (proj2 (Z.leb_le _ _)) by lia.
      * split; [|done]. intros _. split; [lia|]. intros ? [= <-]. lia.
    + split_and!; [|lia|done]. split; [|done]. intros _. split; [lia|done].
Qed.

End MspSpec.

(** ** Membership and the payload gate (channel.rs, payload_gate.rs) *)

Module ChannelSpec.

Definition spec_contains_str (ms : list string) (node_id : string) : Prop := ∃ i, ms !! i = Some node_id.
Definition spec_private_payload_allowed (verifier_present org_verified org_is_member : bool) : bool :=
  verifier_present && org_verified && org_is_member.

Lemma contains_str_contract ms x : contains_str ms x = true ↔ spec_contains_str ms x.
Proof.
  unfold spec_contains_str. rewrite <- list_elem_of_lookup. induction ms as [|m ms IH]; cbn [contains_str].
  - by rewrite elem_of_nil.
  - rewrite elem_of_cons, <- IH. unfold str_eqb. case_bool_decide; naive_solver.
Qed.

Lemma missing_condition_denies v o m :
  v = false ∨ o = false ∨ m = false → private_payload_allowed v o m = false.
Proof. destruct v, o, m; naive_solver. Qed.

End ChannelSpec.

(** ** Gas and trust arithmetic (gas.rs, asset.rs) *)

Module ArithmeticSpec.

(** The contracts of the gas kernel: exact below the width, saturated above it. *)
Theorem gas_contracts flat per_byte count used amount limit :
  0 ≤ flat → 0 ≤ per_byte → 0 ≤ count → 0 ≤ used → 0 ≤ amount →
  state_cost flat per_byte count = (if per_byte * count + flat <=? U64_MAX then per_byte * count + flat else U64_MAX)
  ∧ (apply_charge used amount limit).1 = (if used + amount <=? U64_MAX then used + amount else U64_MAX)
  ∧ ((apply_charge used amount limit).2 = true ↔ (apply_charge used amount limit).1 ≤ limit).
Proof.
  intros. unfold state_cost, apply_charge, saturating_add64, saturating_mul64. cbn.
  split_and!; [| |by rewrite Z.leb_le].
  - assert (0 ≤ per_byte * count) by nia. destruct (per_byte * count + flat <=? U64_MAX) eqn:Hc; bool_hyps; lia.
  - destruct (used + amount <=? U64_MAX) eqn:Hc; bool_hyps; lia.
Qed.

(** The contract of the scoring kernel. *)
Lemma trust_score_contract c0 c1 c2 c3 b0 b1 :
  let w (f : bool) (n : Z) := if f then n else 0 in
  let s := TrustScore.trust_score_value (c0, c1, c2, c3) (b0, b1) in
  s = w c0 20 + w c1 20 + w c2 20 + w c3 20 + w b0 10 + w b1 10 ∧ 0 ≤ s ≤ 100
  ∧ (TrustScore.is_standard_score s = true ↔ 80 ≤ s).
Proof. destruct c0, c1, c2, c3, b0, b1; vm_compute; naive_solver. Qed.

End ArithmeticSpec.

(** ** The model-checking harnesses (proofs.rs of core and identity), without their bounds *)

Module Harness.
Import TrustScore.

Definition is_digit (d : Z) : Prop := 0 ≤ d ≤ 9.
Definition digit_char (d : Z) : Ascii.ascii := Ascii.ascii_of_nat (48 + Z.to_nat d).

(** The date a harness shapes from eight digits. *)
Definition shaped (y1 y2 y3 y4 m1 m2 d1 d2 : Z) : string :=
  of_bytes [digit_char y1; digit_char y2; digit_char y3; digit_char y4; dash;
            digit_char m1; digit_char m2; dash; digit_char d1; digit_char d2].

Lemma digit_char_cases (P : Z → Prop) d :
  is_digit d → P 0 → P 1 → P 2 → P 3 → P 4 → P 5 → P 6 → P 7 → P 8 → P 9 → P d.
Proof.
  intros Hd. intros. assert (d = 0 ∨ d = 1 ∨ d = 2 ∨ d = 3 ∨ d = 4 ∨ d = 5 ∨ d = 6 ∨ d = 7 ∨ d = 8 ∨ d = 9) as H'
    by (unfold is_digit in Hd; lia).
  by repeat destruct H' as [->|H']; try (rewrite H').
Qed.

Lemma digit_of_char d : is_digit d → digit (digit_char d) = Some d ∧ Ascii.eqb (digit_char d) plus = false.
Proof.
  intros Hd. apply (digit_char_cases (λ d, digit (digit_char d) = Some d ∧ Ascii.eqb (digit_char d) plus = false) d Hd);
    split; reflexivity.
Qed.

Lemma digits_value_cons max acc d l : is_digit d → acc * 10 + d ≤ max →
  digits_value max acc (digit_char d :: l) = digits_value max (acc * 10 + d) l.
Proof.
  intros Hd Hm. cbn [digits_value]. destruct (digit_of_char d Hd) as [-> _]. by rewrite (proj2 (Z.leb_le _ _)).
Qed.

Lemma parse_digits max d l : is_digit d →
  parse_unsigned max (digit_char d :: l) = digits_value max 0 (digit_char d :: l).
Proof. intros Hd. unfold parse_unsigned. by destruct (digit_of_char d Hd) as [_ ->]. Qed.

Lemma parse_two a b : is_digit a → is_digit b → parse_unsigned U8_MAX [digit_char a; digit_char b] = Some (a * 10 + b).
Proof.
  intros Ha Hb. unfold is_digit in *.
  rewrite parse_digits, !digits_value_cons; try done; unfold U8_MAX; lia.
Qed.

Lemma parse_four a b c d : is_digit a → is_digit b → is_digit c → is_digit d →
  parse_unsigned U16_MAX [digit_char a; digit_char b; digit_char c; digit_char d]
  = Some (a * 1000 + b * 100 + c * 10 + d).
Proof.
  intros Ha Hb Hc Hd. unfold is_digit in *.
  rewrite parse_digits, !digits_value_cons; try done; unfold U16_MAX; try lia.
  cbn [digits_value]. f_equal. lia.
Qed.

(** [iso8601_check_is_total_and_bounded]: on every date of digits and dashes the check is
    the range test of its three numbers; and [trust_score_expiry_contribution]: the date is
    worth twenty points exactly then. *)
Theorem iso8601_check_exact y1 y2 y3 y4 m1 m2 d1 d2 :
  Forall is_digit [y1; y2; y3; y4; m1; m2; d1; d2] →
  let date := shaped y1 y2 y3 y4 m1 m2 d1 d2 in
  (is_valid_iso8601_date date = true ↔
     1900 ≤ y1 * 1000 + y2 * 100 + y3 * 10 + y4 ∧ 1 ≤ m1 * 10 + m2 ≤ 12 ∧ 1 ≤ d1 * 10 + d2 ≤ 31)
  ∧ score (compute (mkTraceableAsset (Some "x") (Some "x") (Some date) (Some "x") None None "" "" None None 0))
    = 60 + (if is_valid_iso8601_date date then 20 else 0).
Proof.
  intros H. repeat apply Forall_cons in H as [? H]. cbv zeta. split.
  - unfold is_valid_iso8601_date.
    assert (date_parts (shaped y1 y2 y3 y4 m1 m2 d1 d2)
            = Some (y1 * 1000 + y2 * 100 + y3 * 10 + y4, m1 * 10 + m2, d1 * 10 + d2)) as ->.
    { unfold date_parts, shaped. cbn -[parse_unsigned digit_char]. unfold slice. cbn -[parse_unsigned digit_char].
      rewrite parse_four by done. cbn -[parse_unsigned digit_char]. by rewrite !parse_two. }
    rewrite !andb_true_iff, !Z.leb_le. lia.
  - generalize (shaped y1 y2 y3 y4 m1 m2 d1 d2). intros date. unfold compute. cbn -[is_valid_iso8601_date].
    by destruct (is_valid_iso8601_date date).
Qed.

(** [proof_of_work_is_prefix_monotone], for hashes and difficulties of any length. *)
Theorem pow_prefix_monotone hash low high :
  (low ≤ high)%nat →
  has_leading_zeros hash 0 = true
  ∧ ((slen hash < high)%nat → has_leading_zeros hash high = false)
  ∧ (has_leading_zeros hash high = true →
       has_leading_zeros hash low = true ∧ Forall (λ b, b = Chain.zero) (take high (bytes hash))
       ∧ (high ≤ slen hash)%nat).
Proof.
  intros Hle. split_and!.
  - done.
  - intros Hs. unfold has_leading_zeros. by rewrite (proj2 (Nat.leb_gt _ _)).
  - intros Hz. split; [by eapply has_leading_zeros_mono|]. unfold has_leading_zeros in Hz.
    apply andb_true_iff in Hz as [Hl Hz]. split; [|by apply Nat.leb_le].
    apply Forall_forall. intros b Hb%list_elem_of_In. rewrite forallb_forall in Hz.
    by apply Ascii.eqb_eq, Hz.
Qed.

(** [minimal_be_strips_only_leading_zeros], for inputs of any length. *)
Theorem minimal_be_exact input :
  let m := minimal_be input in
  (∃ k, input = replicate k 0 ++ m) ∧ minimal_be m = m ∧ (m = [] ↔ Forall (λ b, b = 0) input) ∧ head m ≠ Some 0.
Proof.
  cbv zeta. induction input as [|x r (IH1 & IH2 & IH3 & IH4)]; cbn [minimal_be].
  { split_and!; [by exists 0%nat|done|done|done]. }
  destruct (Z.eqb_spec x 0) as [->|Hx].
  - split_and!; [|done| |done].
    + destruct IH1 as [k Hk]. exists (S k). cbn. by f_equal.
    + rewrite IH3, Forall_cons. tauto.
  - split_and!.
    + by exists 0%nat.
    + cbn [minimal_be]. by rewrite (proj2 (Z.eqb_neq _ _)).
    + rewrite Forall_cons. split; [done|tauto].
    + cbn. congruence.
Qed.

(** [read_tlv_never_overreads], for inputs of any length: the tag is the first byte, the
    consumed prefix lies inside the input and ends with the contents. *)
Theorem read_tlv_in_bounds data e n :
  read_tlv data = Ok (e, n) →
  head data = Some (e_tag e) ∧ (2 ≤ n ≤ length data)%nat ∧ ∃ header, take n data = header ++ e_contents e.
Proof.
  intros H. pose proof (read_tlv_progress _ _ _ H) as Hn. revert H.
  destruct data as [|tag [|l rest]]; [done..|]. unfold read_tlv. cbv zeta.
  intros H. split; [|split; [done|]]; revert H.
  - destruct (if _ =? 0 then _ else _) as [[len header]|]; [|done]. by destruct (_ <=? _)%nat; [intros [= <- <-]|].
  - destruct (if _ =? 0 then _ else _) as [[len header]|]; [|done]. destruct (_ <=? _)%nat eqn:Hl; [|done].
    intros [= <- <-]. exists (take header (tag :: l :: rest)). cbn [e_contents].
    set (d := tag :: l :: rest). rewrite take_drop_commute, <- (take_drop header (take (header + Z.to_nat len) d)) at 1.
    f_equal. rewrite take_take. f_equal. lia.
Qed.

(** [canonical_is_hex64_rejects_short_strings] *)
Lemma is_hex64_length s : slen s ≠ 64%nat → Canonical.is_hex64 s = false.
Proof. intros H. unfold Canonical.is_hex64. by rewrite (proj2 (Nat.eqb_neq _ _)). Qed.

End Harness.
