(* ===== verification/Client.v ===== *)
(** The client library and the command line (glasschain-sdk: client.rs, error.rs;
    glasschain-cli: main.rs and its commands).

    [Sdk] holds the transaction builders; [Cli] one function per subcommand, each to the
    lines it writes and its result, and [dispatch] on top.  Files are a map, the key
    material of a run is an argument, and the server a command talks to is any function
    from metadata and request to an answer; the theorems about [channel-admin] put the gRPC
    server of [Server] there. *)

From S2P Require Import Prelude Types Asset Text Chain Storage Transient Bft Msp Ocsp CertVerifier Custody Auth Channel Utf8.
From S2P Require Import Runtime Boot Server.

Local Open Scope Z_scope.

(** ** The SDK *)

Module Sdk.

Inductive SdkError :=
| Transport (e : string)
| GrpcStatus (code message : string)
| Serialization (e : string)
| SdkIdentity (e : string)
| TransactionRejected (reason : string)
| SdkNotFound (what : string)
| SdkCore (e : CoreError).

Definition sdk_error_text (e : SdkError) : string :=
  match e with
  | Transport m => "gRPC transport error: " +:+ m
  | GrpcStatus code m => "gRPC status: " +:+ code +:+ " — " +:+ m
  | Serialization m => "serialization error: " +:+ m
  | SdkIdentity m => "identity error: " +:+ m
  | TransactionRejected r => "transaction rejected: " +:+ r
  | SdkNotFound m => "not found: " +:+ m
  | SdkCore c => "core error: " +:+ display_error c
  end.

Record GlasschainClientConfig := mkConfig { endpoint : string; cfg_node_id : option string }.
Definition config_new (endpoint : string) : GlasschainClientConfig := mkConfig endpoint None.
Definition with_node_id (c : GlasschainClientConfig) (id : string) : GlasschainClientConfig := mkConfig (endpoint c) (Some id).

Section sdk.
(** [serde_json::to_string_pretty] of a transaction; [now] and [id] are the clock and the
    fresh id of [Transaction::new]. *)
Context (tx_pretty : Transaction → result string string).

Definition build (now : Z) (id : string) (kind : TransactionKind) : result SdkError string :=
  map_err Serialization (tx_pretty (Transaction_with_id now id kind)).

Definition build_supply_offer_tx (now : Z) (id seller_id product_id product_name : string)
    (quantity price_per_unit lead_time_days : Z) (currency : string) : result SdkError string :=
  build now id (KSupplyOffer (mkSupplyOffer product_id product_name seller_id quantity price_per_unit lead_time_days currency)).

Definition build_purchase_order_tx (now : Z) (id buyer_id seller_id product_id : string)
    (quantity agreed_price : Z) (currency : string) : result SdkError string :=
  build now id (KPurchaseOrder (mkPurchaseOrder product_id buyer_id seller_id quantity agreed_price currency None)).

Definition build_asset_registration_tx (now : Z) (id originator : string) (asset : TraceableAsset)
    (event : string) : result SdkError string :=
  build now id (KAssetRegistration (mkTraceableAssetRegistration asset event originator None)).

Definition build_inventory_update_tx (now : Z) (id owner product : string) (delta : Z) (why : string)
  : result SdkError string :=
  build now id (KInventoryUpdate (mkInventoryUpdate product owner delta why)).

Definition build_smart_contract_tx (now : Z) (id contract_id buyer_id product_id : string)
    (conditions : PurchaseConditions) : result SdkError string :=
  build now id (KContractCreation (mkSmartContractDef contract_id buyer_id product_id conditions None)).
End sdk.

Definition compute_trust_score (a : TraceableAsset) : TrustScore.MetadataTrustScore := TrustScore.compute a.
End Sdk.

(** ** The command line *)

Module Cli.
Import Sdk.

(** The lines a command has written, and how it ended. *)
Notation Outcome := (list string * result string unit)%type.

(** [contract-deploy] *)
Record ContractDeployArgs := mkDeploy {
  cd_contract_id : string; cd_buyer_id : string; cd_product_id : string; cd_max_price : Z; cd_min_qty : Z;
  cd_max_qty : Z; cd_max_lead_days : Z; cd_currency : string; cd_dry_run : bool }.

(** [identity-gen] *)
Record IdentityGenArgs := mkIdentityGen { ig_node_id : string; ig_org : option string; ig_output : option string }.
Record IdentityDocument := mkDocument {
  doc_node_id : string; doc_public_key_hex : string; doc_has_certificate : bool;
  doc_certificate_pem : option string; doc_organization : option string }.

(** [ledger-inspect] *)
Record LedgerInspectArgs := mkInspect {
  li_endpoint : string; li_block : option Z; li_gtin : option string; li_serial : option string }.

(** [channel-admin] *)
Inductive AdminOp :=
| OpCreateChannel (name description : string) (member_ids : list string) (retention_secs : Z)
| OpAddMember (name member_id : string)
| OpRemoveMember (name member_id : string).
Record ChannelAdminArgs := mkAdmin { ca_endpoint : string; ca_cert : string; ca_key_seed : string; ca_op : AdminOp }.

Inductive Commands :=
| IdentityGen (a : IdentityGenArgs)
| ContractDeploy (a : ContractDeployArgs)
| LedgerInspect (a : LedgerInspectArgs)
| BackupScrub (storage_path : string)
| ChannelAdmin (a : ChannelAdminArgs).

Definition quote : string := String (Ascii.ascii_of_nat 34) EmptyString.
Definition rule : string := of_bytes (concat (replicate 40 (bytes "─"))).

Definition inspect_run (a : LedgerInspectArgs) : list string :=
  ["GlassChain Ledger Inspector"; "  Endpoint : " +:+ li_endpoint a; ""]
  ++ match li_block a with
     | Some i =>
         ["  Action   : GetBlock"; "  gRPC     : LedgerService.GetBlock { index: " +:+ pretty i +:+ " }"; "";
          "  Would send GetBlock(index=" +:+ pretty i +:+ ") to " +:+ li_endpoint a]
     | None =>
         match li_gtin a with
         | Some g =>
             ["  Action   : QueryAssetHistory"; "  GTIN     : " +:+ g]
             ++ match li_serial a with
                | Some s =>
                    ["  Serial   : " +:+ s;
                     "  gRPC     : LedgerService.QueryAssetHistory { gtin: " +:+ quote +:+ g +:+ quote
                     +:+ ", serial_number: " +:+ quote +:+ s +:+ quote +:+ " }"]
                | None => ["  gRPC     : LedgerService.QueryAssetHistory { gtin: " +:+ quote +:+ g +:+ quote +:+ " }"]
                end
             ++ [""; "  Would send QueryAssetHistory(gtin=" +:+ g +:+ ") to " +:+ li_endpoint a]
         | None =>
             ["  Action   : GetChainStatus"; "  gRPC     : LedgerService.GetChainStatus {}"; "";
              "  Would send GetChainStatus to " +:+ li_endpoint a]
         end
     end
  ++ [""; "Tip: pass --block N, --gtin <GTIN>, or omit flags for chain status."].

Section cli.
Context `{E : Env} `{P : Pki} `{O : OcspCrates} `{C : CaCrates}.
Context (tx_pretty : Transaction → result string string) (tx_of_json : string → result string Transaction).
Context (doc_pretty : IdentityDocument → result string string).
Context (base64_encode : list Z → string).
(** [fs::write], [fs::read_to_string]: the error on a path, if it fails *)
Context (read_fails write_fails : string → option string).
(** [HeaderValue::from_str] accepts the text; the text of a [tonic::Status] *)
Context (header_value : string → bool) (status_text : Status → string).

Definition deploy_conditions (a : ContractDeployArgs) : PurchaseConditions :=
  mkPurchaseConditions (cd_max_price a) (cd_min_qty a) (cd_max_qty a) (cd_max_lead_days a) None (cd_currency a) true.

Definition deploy_lines (a : ContractDeployArgs) (tx_json : string) : list string :=
  if cd_dry_run a then
    ["=== Dry Run — Contract Deployment Transaction ==="; ""; tx_json; "";
     "(dry-run: transaction was NOT submitted to any node)"]
  else
    ["=== Contract Deployment Transaction ==="; ""; tx_json; ""; "To deploy, submit the JSON above to:";
     "  gRPC service  : LedgerService"; "  RPC method    : SubmitTransaction"; ""; "Example (grpcurl):";
     "  grpcurl -d '{" +:+ quote +:+ "transaction_json" +:+ quote
     +:+ ": ...}' <NODE_HOST>:<NODE_PORT> glasschain.v1.LedgerService/SubmitTransaction"].

Definition deploy_summary (a : ContractDeployArgs) : list string :=
  ["--- Contract Summary ---"; "  Contract ID  : " +:+ cd_contract_id a; "  Buyer        : " +:+ cd_buyer_id a;
   "  Product      : " +:+ cd_product_id a;
   "  Price limit  : " +:+ pretty (cd_max_price a) +:+ " " +:+ cd_currency a +:+ " / unit";
   "  Quantity     : " +:+ pretty (cd_min_qty a) +:+ " – " +:+ pretty (cd_max_qty a) +:+ " units (lifetime cap)";
   "  Lead time    : ≤ " +:+ pretty (cd_max_lead_days a) +:+ " days"; "  Auto-execute : true"].

Definition contract_run (now : Z) (id : string) (a : ContractDeployArgs) : Outcome :=
  match build_smart_contract_tx tx_pretty now id (cd_contract_id a) (cd_buyer_id a) (cd_product_id a) (deploy_conditions a) with
  | Err e => ([], Err (sdk_error_text e))
  | Ok tx_json =>
      (deploy_lines a tx_json ++ deploy_summary a, match tx_of_json tx_json with Ok _ => Ok tt | Err e => Err e end)
  end.

(** The generated identity; [ca_key] and [seed] are its fresh key material. *)
Definition generate_identity (ca_key : list Z) (seed : string) (a : IdentityGenArgs) : result string KeyIdentity :=
  match ig_org a with
  | Some name =>
      let? org := map_err identity_error_text (Organization_new ca_key name) in
      map_err identity_error_text (issue_identity seed org (ig_node_id a)).2
  | None => Ok (generate seed (ig_node_id a))
  end.

Definition identity_document (i : KeyIdentity) (org : option string) : IdentityDocument :=
  mkDocument (ki_node_id i) (hex_encode (byte_list (ki_public_key i))) (is_some (ki_certificate_pem i))
    (ki_certificate_pem i) org.

Definition identity_summary (d : IdentityDocument) : list string :=
  [""; rule; "  GlassChain Identity Summary"; rule; "  Node ID      : " +:+ doc_node_id d;
   "  Public Key   : " +:+ doc_public_key_hex d;
   "  Certificate  : " +:+ (if doc_has_certificate d then "present (X.509 / ed25519)" else "none (standalone key pair)")]
  ++ match doc_organization d with Some org => ["  Organisation : " +:+ org] | None => [] end ++ [rule].

Definition identity_run (ca_key : list Z) (seed : string) (fs : Files) (a : IdentityGenArgs) : Files * Outcome :=
  match generate_identity ca_key seed a with
  | Err e => (fs, ([], Err e))
  | Ok i =>
      let d := identity_document i (ig_org a) in
      match doc_pretty d with
      | Err e => (fs, ([], Err e))
      | Ok json =>
          match ig_output a with
          | Some path =>
              match write_fails path with
              | Some e => (fs, ([], Err e))
              | None => (<[path := json]> fs, (("Identity JSON written to: " +:+ path) :: identity_summary d, Ok tt))
              end
          | None => (fs, (json :: identity_summary d, Ok tt))
          end
      end
  end.

(** [backup-scrub] over any storage backend; [open] is [RedbStorageProvider::open]. *)
Section scrub.
Context {S : Type} `{SP : !StorageProvider S} (envelope_of_json : string → result CoreError PayloadEnvelope).

Definition scrub_run (now : Z) (path : string) (open : result CoreError S) : option S * Outcome :=
  match open with
  | Err e => (None, ([], Err (display_error e)))
  | Ok s =>
      match purge_expired envelope_of_json now (transient_new s) with
      | (t, Err e) => (Some (storage t), ([], Err (display_error e)))
      | (t, Ok n) =>
          (Some (storage t),
           (["backup-scrub: purged " +:+ pretty n +:+ " expired private payload(s) from " +:+ path], Ok tt))
      end
  end.
End scrub.

(** [channel-admin].  [W] is the server's state and [rpc] a call with its metadata. *)
Section admin.
Context {W : Type} (rpc : W → gmap string string → RpcRequest → W * result Status RpcResponse).

(** [Endpoint::from_shared]: the error on a text, if it is no endpoint *)
Context (endpoint_error : string → option string).

(** The connection attempts in order: their error, if any, and whether the retry deadline
    had passed; when none is left the outer timeout has elapsed. *)
Fixpoint connect (endpoint : string) (attempts : list (option string * bool)) : result string unit :=
  match attempts with
  | [] => Err ("cannot connect to " +:+ endpoint +:+ ": retry window elapsed")
  | (None, _) :: _ => Ok tt
  | (Some e, true) :: _ => Err ("cannot connect to " +:+ endpoint +:+ ": " +:+ e)
  | (Some _, false) :: attempts => connect endpoint attempts
  end.

(** [None] is the panic on a value that is no header. *)
Definition attach (headers : list (string * string)) : option (gmap string string) :=
  if forallb (λ nv, header_value nv.2) headers then Some (insert_headers headers ∅) else None.

Definition request_of (op : AdminOp) : RpcRequest :=
  match op with
  | OpCreateChannel name description ids retention => CreateChannel name ids description retention
  | OpAddMember name m => AddChannelMember name m
  | OpRemoveMember name m => RemoveChannelMember name m
  end.

Definition flag (r : RpcResponse) : string :=
  match r with RCreated b | RAdded b | RRemoved b => if b then "true" else "false" | _ => "" end.

Definition outcome_text (op : AdminOp) (r : RpcResponse) : string :=
  match op with
  | OpCreateChannel name _ _ _ => "created channel `" +:+ name +:+ "` (created=" +:+ flag r +:+ ")"
  | OpAddMember name m => "added member `" +:+ m +:+ "` to `" +:+ name +:+ "` (added=" +:+ flag r +:+ ")"
  | OpRemoveMember name m => "removed member `" +:+ m +:+ "` from `" +:+ name +:+ "` (removed=" +:+ flag r +:+ ")"
  end.

Definition execute (w : W) (endpoint : string) (attempts : list (option string * bool)) (op : AdminOp)
    (headers : list (string * string)) : option (W * result string string) :=
  match (match endpoint_error endpoint with
         | Some e => Err ("invalid endpoint `" +:+ endpoint +:+ "`: " +:+ e)
         | None => connect endpoint attempts
         end) with
  | Err e => Some (w, Err e)
  | Ok _ =>
      md ← attach headers;
      let '(w, r) := rpc w md (request_of op) in
      Some (w, match r with Ok resp => Ok (outcome_text op resp) | Err s => Err (status_text s) end)
  end.

Definition admin_seed (key_seed : string) : result string string :=
  let? b := map_err (λ _, "--key-seed must be 64 hex characters") (hex_decode (trim key_seed)) in
  if (length b =? 32)%nat then Ok (of_byte_list b) else Err "--key-seed must be 64 hex characters (32 bytes)".

Definition admin_headers (now : Z) (fs : Files) (a : ChannelAdminArgs) : result string (list (string * string)) :=
  let? pem := match read_fails (ca_cert a), fs !! ca_cert a with
              | None, Some pem => Ok pem
              | Some e, _ => Err ("cannot read admin certificate `" +:+ ca_cert a +:+ "`: " +:+ e)
              | None, None => Err ("cannot read admin certificate `" +:+ ca_cert a +:+ "`: No such file or directory (os error 2)")
              end in
  let? seed := admin_seed (ca_key_seed a) in
  admin_headers_from_cert base64_encode now pem seed.

Definition admin_run (now : Z) (fs : Files) (w : W) (attempts : list (option string * bool)) (a : ChannelAdminArgs)
  : option (W * Outcome) :=
  match admin_headers now fs a with
  | Err e => Some (w, ([], Err e))
  | Ok headers =>
      '(w, r) ← execute w (ca_endpoint a) attempts (ca_op a) headers;
      Some (w, match r with Ok text => ([text], Ok tt) | Err e => ([], Err e) end)
  end.

(** [dispatch]: files, the server and the outcome; [scrub] is [scrub_run] on the storage of
    a path. *)
Definition dispatch (scrub : string → Outcome) (now : Z) (id : string) (ca_key : list Z) (seed : string) (fs : Files) (w : W)
    (attempts : list (option string * bool)) (command : Commands) : option (Files * W * Outcome) :=
  match command with
  | IdentityGen a => let '(fs, out) := identity_run ca_key seed fs a in Some (fs, w, out)
  | ContractDeploy a => Some (fs, w, contract_run now id a)
  | LedgerInspect a => Some (fs, w, (inspect_run a, Ok tt))
  | BackupScrub path => Some (fs, w, scrub path)
  | ChannelAdmin a => '(w, out) ← admin_run now fs w attempts a; Some (fs, w, out)
  end.

(** Only channel administration reaches the server, and only identity generation writes a
    file. *)
Theorem commands_reach scrub now id ca_key seed fs w attempts command fs' w' out :
  dispatch scrub now id ca_key seed fs w attempts command = Some (fs', w', out) →
  ((∀ a, command ≠ ChannelAdmin a) → w' = w)
  ∧ ((∀ a path, command = IdentityGen a → ig_output a ≠ Some path) → fs' = fs).
Proof.
  destruct command as [a|a|a|path|a]; cbn [dispatch].
  - destruct (identity_run ca_key seed fs a) as [fs1 o] eqn:Hi. intros [= <- <- _]. split; [done|]. intros H.
    revert Hi. unfold identity_run. destruct (generate_identity _ _ _); [|by intros [= <- _]].
    destruct (doc_pretty _); [|by intros [= <- _]]. destruct (ig_output a) as [path|] eqn:Ho; [|by intros [= <- _]].
    by destruct (H a path eq_refl).
  - by intros [= <- <- _].
  - by intros [= <- <- _].
  - by intros [= <- <- _].
  - destruct (admin_run now fs w attempts a) as [[w1 o]|]; cbn [mbind option_bind]; [|done].
    intros [= <- <- _]. split; [|done]. intros H. by destruct (H a).
Qed.
End admin.

(** ** What the offline commands do *)

(** [contract-deploy] only prints: with or without [--dry-run] the JSON it writes is the
    creation of the contract its flags describe, which executes automatically, and it ends
    well as soon as the JSON reads back; no node is involved in either mode. *)
Theorem deploy_prints_the_contract now id a json :
  tx_of_json json = Ok (Transaction_with_id now id (KContractCreation
    (mkSmartContractDef (cd_contract_id a) (cd_buyer_id a) (cd_product_id a) (deploy_conditions a) None))) →
  (∀ tx, tx_of_json json = Ok tx → tx_pretty tx = Ok json) →
  ∃ lines, contract_run now id a = (lines, Ok tt) ∧ json ∈ lines
    ∧ auto_execute (deploy_conditions a) = true.
Proof.
  intros Hj Hp. unfold contract_run, build_smart_contract_tx, build. rewrite (Hp _ Hj). cbn [map_err]. rewrite Hj.
  eexists. split; [done|]. split; [|done]. unfold deploy_lines. destruct (cd_dry_run a); set_solver.
Qed.

(** The document [identity-gen] writes names the generated key and carries a certificate
    exactly when an organization was given. *)
Lemma identity_run_document ca_key seed fs a fs' lines :
  identity_run ca_key seed fs a = (fs', (lines, Ok tt)) →
  ∃ i json, generate_identity ca_key seed a = Ok i ∧ ki_node_id i = ig_node_id a ∧ ki_seed i = seed
    ∧ is_some (ki_certificate_pem i) = is_some (ig_org a)
    ∧ doc_pretty (identity_document i (ig_org a)) = Ok json
    ∧ (∀ path, ig_output a = Some path → fs' = <[path := json]> fs)
    ∧ (ig_output a = None → json ∈ lines ∧ fs' = fs).
Proof.
  unfold identity_run. destruct (generate_identity ca_key seed a) as [i|] eqn:Hg; [|done].
  destruct (doc_pretty _) as [json|] eqn:Hd; [|done]. intros H. exists i, json. split; [done|].
  assert (ki_node_id i = ig_node_id a ∧ ki_seed i = seed ∧ is_some (ki_certificate_pem i) = is_some (ig_org a)) as (H1 & H2 & H3).
  { revert Hg. unfold generate_identity. destruct (ig_org a) as [name|].
    - destruct (Organization_new ca_key name) as [o|]; [|done]. cbn [map_err]. unfold issue_identity, issue_identity_with_role.
      destruct (take_serial o) as [o1 serial]. destruct (let? x := _ in _) as [cert|]; [|done]. by intros [= <-].
    - by intros [= <-]. }
  split_and!; try done.
  - intros path Hp. rewrite Hp in H. destruct (write_fails path); [done|]. by injection H.
  - intros Hp. rewrite Hp in H. injection H as <- <-. split; [by left|done].
Qed.

(** A generated identity cannot be used by a node: no file [identity-gen] writes holds the
    signing key, so the node's loader refuses it whatever organization and member it is
    asked for.  ([doc_pretty] leaves out the fields a snapshot requires.) *)
Theorem generated_identity_not_loadable ca_key seed fs a fs' lines path ca_key' seed' org name :
  (∀ d j, doc_pretty d = Ok j → ∃ e, snapshot_of_json j = Err e) →
  identity_run ca_key seed fs a = (fs', (lines, Ok tt)) → ig_output a = Some path → read_fails path = None →
  ∃ e, load_or_create_identity_file read_fails write_fails ca_key' seed' fs' path org name = (fs', Err e).
Proof.
  intros Hdoc Hrun Hout Hread. destruct (identity_run_document _ _ _ _ _ _ Hrun) as (i & json & _ & _ & _ & _ & Hd & Hw & _).
  destruct (Hdoc _ _ Hd) as [e He]. specialize (Hw path Hout). subst fs'.
  unfold load_or_create_identity_file. rewrite lookup_insert_eq, Hread. cbn. unfold import_json. rewrite He. cbn. eauto.
Qed.

(** [backup-scrub] removes exactly the expired private payloads of the copy it is pointed
    at, and leaves every other key of it alone. *)
Theorem scrub_removes_exactly_expired {S : Type} `{SP : !StorageProvider S} {SL : StorageLaws S}
    (envelope_of_json : string → result CoreError PayloadEnvelope) now path (s : S) :
  ∃ s' line, scrub_run envelope_of_json now path (Ok s) = (Some s', ([line], Ok tt))
    ∧ ∀ k, world s' !! k = if expired_at envelope_of_json now s k then None else world s !! k.
Proof.
  assert (index_consistent envelope_of_json (transient_new s)) as Hc.
  { intros k x Hx. cbn in Hx. by rewrite lookup_empty in Hx. }
  pose proof (purge_removes_exactly_expired envelope_of_json now (transient_new s) Hc) as Hp.
  unfold scrub_run. destruct (purge_expired envelope_of_json now (transient_new s)) as [t [n|e]].
  - destruct Hp as (_ & Hw & _). eauto.
  - by destruct Hp as [? _].
Qed.

(** ** Channel administration end to end *)

Section end_to_end.
Context `{D : Ed25519Crate} `{B : Bls}.
Context (base64_std : string → result string string) (json_offer : SupplyOffer → string) (clock : string → Z).
Context (signed_of_json : string → result string SignedTransaction)
        (proposal_of_json : string → result string EndorsementRequest)
        (custody_to_json : Indexer.Provenance.CustodyEvent → result string string).
Context (to_str : string → option string) (base64_decode : string → option (list Z)).
Context (cert_error_text : CertVerificationError → string) (endpoint_error : string → option string).
Context {S : Type}.

(** The server at the other end, at its own clock, behind its interceptor if it has one. *)
Definition server_rpc (server_now : Z) (auth : option MspAuthInterceptor) (st : ServerState (S := S))
    (md : gmap string string) (req : RpcRequest) : ServerState * result Status RpcResponse :=
  serve base64_std json_offer clock tx_pretty tx_of_json signed_of_json proposal_of_json custody_to_json
    to_str base64_decode cert_error_text server_now auth st md req.

(** The operator's files and key, and a server whose trust store knows the certificate; an
    interceptor in front of it has the key registered under the certificate's name. *)
Record admin_setup (fs : Files) (a : ChannelAdminArgs) (now server_now : Z) (auth : option MspAuthInterceptor)
    (st : ServerState (S := S)) (node : string) (der : list Z) : Prop := {
  as_file : ∃ pem, read_fails (ca_cert a) = None ∧ fs !! ca_cert a = Some pem ∧ cert_of_pem pem = Ok der;
  as_cn : ∃ c, cert_of_der der = Ok c ∧ subject_cn c = Some node;
  as_key : ∃ seed, admin_seed (ca_key_seed a) = Ok seed
             ∧ certificate_ed25519_public_key_der der = Some (ed_public seed);
  as_role : certificate_admin_role_der der = Some ADMIN_ROLE;
  as_gate : ∃ g, sv_admin st = Some g ∧ verify_cert_der server_now (ag_verifier g) der = Ok tt
              ∧ abs_diff server_now now ≤ skew_secs g;
  as_interceptor : ∀ m, auth = Some m →
    abs_diff server_now now ≤ 60
    ∧ ∀ seed, admin_seed (ca_key_seed a) = Ok seed → registry_get (mi_registry m) node = Some (ed_public seed);
  as_clock : 0 ≤ now ≤ U64_MAX;
  as_node : to_str node = Some node }.

Lemma admin_headers_request (L : rpc_laws to_str) fs a now server_now auth st node der :
  base64_decode (base64_encode der) = Some der → to_str (base64_encode der) = Some (base64_encode der) →
  admin_setup fs a now server_now auth st node der →
  ∃ hs, admin_headers now fs a = Ok hs
    ∧ Forall (λ nv, is_Some (to_str nv.2)) hs
    ∧ is_ok (admin_only to_str base64_decode cert_error_text server_now st (insert_headers hs ∅)) = true
    ∧ match auth with Some m => verify_request to_str server_now m (insert_headers hs ∅) = Ok tt | None => True end.
Proof.
  intros Hb64 Hb64s [(pem & Hr & Hf & Hpem) (c & Hc & Hcn) (seed & Hseed & Hkey) Hrole (g & Hg & Hv & Hskew) Hint Hnow Hnode].
  unfold admin_headers. rewrite Hr, Hf. cbn. rewrite Hseed. cbn. unfold admin_headers_from_cert.
  assert (certificate_subject_cn pem = Some node) as ->.
  { unfold certificate_subject_cn. rewrite Hpem, Hc. revert Hcn. unfold subject_cn.
    destruct (pc_common_name c) as [[]|]; cbn; congruence. }
  cbn. rewrite Hpem. cbn. set (sig := ed_sign seed (byte_list (challenge node (pretty now)))).
  assert (decode_signature (hex_encode (byte_list sig)) = Some sig) as Hdec
    by (apply decode_signature_encode with to_str; [done|apply (rl_len _ L)]).
  assert (to_str (pretty now) = Some (pretty now)) as Hts by (apply (rl_ts_header _ L); lia).
  assert (to_str (hex_encode (byte_list sig)) = Some (hex_encode (byte_list sig))) as Hhex by apply (rl_hex_header _ L).
  assert (TrustScore.parse_unsigned U64_MAX (bytes (pretty now)) = Some now) as Hparse
    by (by apply TrustScore.parse_unsigned_pretty).
  eexists. split; [done|]. split; [|split].
  { repeat constructor; cbn; eauto. }
  - unfold admin_only. rewrite Hg. rewrite (authorize_intro to_str base64_decode cert_error_text server_now g _ node); [done|].
    exists (base64_encode der), der, c, (ed_public seed). unfold insert_headers. cbn [foldl fst snd]. unfold header.
    split_and!; try done; try (by simplify_map_eq).
    exists (pretty now), (hex_encode (byte_list sig)), now, sig. unfold header.
    split_and!; try done; try (by simplify_map_eq); [apply (rl_key _ L)|apply (rl_sign _ L)].
  - destruct auth as [m|]; [|done]. destruct (Hint m eq_refl) as [H60 Hreg].
    unfold verify_request, header, insert_headers. cbn [foldl fst snd]. simplify_map_eq.
    cbn [is_some orb negb]. rewrite Hnode, Hts, Hhex. cbn [ok_or]. rewrite Hparse. cbn [ok_or].
    destruct (Z.ltb_spec 60 (abs_diff server_now now)); [lia|]. cbn [negb].
    rewrite Hdec, (Hreg seed Hseed). cbn [ok_or]. by rewrite (rl_key _ L), (rl_sign _ L).
Qed.

(** C21: The command line administers the server.  Given: an administrator certificate that the
    server's trust store verifies now, whose common name can be sent as a header, with its key;
    clocks within the gate's window; an interceptor, if the server has one, that has this key
    under that name and whose minute covers the clocks; and an endpoint that is valid and is
    reached by some attempt.  Then [channel-admin] does not panic, the server's collections
    become exactly what the operation's specification makes of them, its gate stays, and
    the command prints the granted answer: created, added, or whether the member was
    removed; or it fails with the status for an empty name, a name that exists, or a
    collection that does not. *)
Theorem channel_admin_takes_effect (L : rpc_laws to_str) fs a now server_now auth st node der attempts :
  (∀ v, is_Some (to_str v) → header_value v = true) →
  base64_decode (base64_encode der) = Some der → to_str (base64_encode der) = Some (base64_encode der) →
  admin_setup fs a now server_now auth st node der →
  endpoint_error (ca_endpoint a) = None → connect (ca_endpoint a) attempts = Ok tt →
  ∃ st', admin_run (server_rpc server_now auth) endpoint_error now fs st attempts a
      = Some (st', match view_reply (channel_view (sv_collections st)) (request_of (ca_op a)) with
                   | Ok resp => ([outcome_text (ca_op a) resp], Ok tt)
                   | Err status => ([], Err (status_text status))
                   end)
    ∧ channel_view (sv_collections st') = view_step (channel_view (sv_collections st)) (request_of (ca_op a))
    ∧ sv_admin st' = sv_admin st.
Proof.
  intros Hhv Hb Hbs Hset Hend Hcon.
  destruct (admin_headers_request L _ _ _ _ _ _ _ _ Hb Hbs Hset) as (hs & Hhs & Hval & Hok & Hauth).
  unfold admin_run, execute. rewrite Hhs, Hend, Hcon. unfold attach.
  assert (forallb (λ nv, header_value nv.2) hs = true) as ->.
  { apply forallb_forall. intros nv Hnv%list_elem_of_In. apply Hhv. by rewrite Forall_forall in Hval; apply Hval. }
  cbn [mbind option_bind].
  destruct (handle_channels base64_std json_offer clock tx_pretty tx_of_json signed_of_json proposal_of_json
    custody_to_json to_str base64_decode cert_error_text server_now st (insert_headers hs ∅) (request_of (ca_op a)))
    as [Hview Hgate].
  pose proof (handle_reply base64_std json_offer clock tx_pretty tx_of_json signed_of_json proposal_of_json
    custody_to_json to_str base64_decode cert_error_text server_now st (insert_headers hs ∅) (request_of (ca_op a)))
    as Hreply.
  rewrite Hok in Hview. unfold server_rpc, serve.
  assert (∀ x : ServerState (S := S) * result Status RpcResponse,
    match auth with
    | Some m => match verify_request to_str server_now m (insert_headers hs ∅) with
                | Ok _ => x | Err e => (st, Err e) end
    | None => x end = x) as -> by (intros x; destruct auth; [by rewrite Hauth|done]).
  destruct (handle _ _ _ _ _ _ _ _ _ _ _ _ _ _ _) as [st' r]. cbn [fst snd] in *. cbn [mbind option_bind].
  rewrite Hreply by (done || by destruct (ca_op a)). exists st'.
  split; [by destruct (view_reply _ _)|]. done.
Qed.
End end_to_end.

End cli.
End Cli.
