(* ===== verification/Swarm.v ===== *)
(** The libp2p swarm (glasschain-network: libp2p_swarm.rs).

    [SwarmTask] is what the background task keeps and asks of the libraries: the peers it
    calls connected, the addresses it hands to Kademlia, its dials and its publications;
    [on_event] and [on_command] are the two branches of its loop.  [LibP2pNode] adds the
    two bounded channels to the caller, with the event the task is waiting to send;
    [swarm_step] is one step of the task or the caller.  libp2p itself (what events occur)
    and the JSON codecs are arguments.  The caller receives events in the order they
    occurred; a published transaction or block is what a subscriber receives; a full event
    channel stops the task; a closed connection removes a peer that has others. *)

From S2P Require Import Prelude Types Chain.

Definition TOPIC_TRANSACTIONS : string := "glasschain/transactions".
Definition TOPIC_BLOCKS : string := "glasschain/blocks".

(** Peer ids and multiaddresses as their texts. *)
Notation PeerId := string.
Notation Multiaddr := string.

Inductive SwarmCommand :=
| Dial (addr : Multiaddr)
| PublishTransaction (tx : Transaction)
| PublishBlock (b : Block)
| AddKnownPeer (peer : PeerId) (addr : Multiaddr)
| Shutdown.

Inductive SwarmNodeEvent :=
| SwPeerConnected (peer : PeerId)
| SwPeerDisconnected (peer : PeerId)
| SwTransactionReceived (tx : Transaction)
| SwBlockReceived (b : Block)
| SwRoutingTableUpdated
| SwError (message : string).

Record LibP2pConfig := mkLibP2pConfig { listen_addr : Multiaddr; bootstrap_peers : list (PeerId * Multiaddr) }.

(** The library events the loop distinguishes.  [remaining] is the field of a closed
    connection that counts the peer's other connections. *)
Inductive SwarmEvent :=
| NewListenAddr (addr : Multiaddr)
| ConnectionEstablished (peer : PeerId)
| ConnectionClosed (peer : PeerId) (remaining : nat)
| GossipMessage (topic data : string)
| KademliaEvent
| IdentifyReceived (peer : PeerId) (listen_addrs : list Multiaddr)
| MdnsDiscovered (peers : list (PeerId * Multiaddr))
| MdnsExpired (peers : list (PeerId * Multiaddr))
| OtherEvent.

Inductive DialTarget := DialAddr (addr : Multiaddr) | DialPeer (peer : PeerId).

Record SwarmTask := mkSwarmTask {
  sw_known : gset PeerId;
  sw_addresses : list (PeerId * Multiaddr);
  sw_dials : list DialTarget;
  sw_published : list (string * string);
  sw_running : bool }.

Definition COMMAND_CAP : nat := 64.
Definition EVENT_CAP : nat := 256.

Section swarm.
(** [serde_json] for transactions and blocks. *)
Context (tx_to_vec : Transaction → result string string) (tx_of_slice : string → result string Transaction).
Context (block_to_vec : Block → result string string) (block_of_slice : string → result string Block).

Definition set_known (k : gset PeerId) (t : SwarmTask) : SwarmTask :=
  mkSwarmTask k (sw_addresses t) (sw_dials t) (sw_published t) (sw_running t).
Definition add_address (peer : PeerId) (addr : Multiaddr) (t : SwarmTask) : SwarmTask :=
  mkSwarmTask (sw_known t) (sw_addresses t ++ [(peer, addr)]) (sw_dials t) (sw_published t) (sw_running t).
Definition dial (target : DialTarget) (t : SwarmTask) : SwarmTask :=
  mkSwarmTask (sw_known t) (sw_addresses t) (sw_dials t ++ [target]) (sw_published t) (sw_running t).
Definition publish (topic data : string) (t : SwarmTask) : SwarmTask :=
  mkSwarmTask (sw_known t) (sw_addresses t) (sw_dials t) (sw_published t ++ [(topic, data)]) (sw_running t).
Definition stop (t : SwarmTask) : SwarmTask :=
  mkSwarmTask (sw_known t) (sw_addresses t) (sw_dials t) (sw_published t) false.

(** The task as [LibP2pNode::new] spawns it. *)
Definition task_new (c : LibP2pConfig) : SwarmTask :=
  foldl (λ t pa, add_address pa.1 pa.2 t) (mkSwarmTask ∅ [] [] [] true) (bootstrap_peers c).

(** A message of gossipsub: the event for the caller, if any. *)
Definition gossip_event (topic data : string) : option SwarmNodeEvent :=
  if topic ==? TOPIC_TRANSACTIONS then
    Some (match tx_of_slice data with
          | Ok tx => SwTransactionReceived tx
          | Err e => SwError ("Failed to decode transaction: " +:+ e)
          end)
  else if topic ==? TOPIC_BLOCKS then
    Some (match block_of_slice data with
          | Ok b => SwBlockReceived b
          | Err e => SwError ("Failed to decode block: " +:+ e)
          end)
  else None.

(** The swarm branch of the loop: the task after the event and what it sends to the caller. *)
Definition on_event (t : SwarmTask) (e : SwarmEvent) : SwarmTask * option SwarmNodeEvent :=
  match e with
  | ConnectionEstablished peer => (set_known ({[peer]} ∪ sw_known t) t, Some (SwPeerConnected peer))
  | ConnectionClosed peer _ => (set_known (sw_known t ∖ {[peer]}) t, Some (SwPeerDisconnected peer))
  | GossipMessage topic data => (t, gossip_event topic data)
  | KademliaEvent => (t, Some SwRoutingTableUpdated)
  | IdentifyReceived peer addrs => (foldl (λ t a, add_address peer a t) t addrs, None)
  | MdnsDiscovered peers => (foldl (λ t pa, dial (DialPeer pa.1) (add_address pa.1 pa.2 t)) t peers, None)
  | NewListenAddr _ | MdnsExpired _ | OtherEvent => (t, None)
  end.

(** The command branch; a transaction or block that does not serialize is only logged. *)
Definition on_command (t : SwarmTask) (c : SwarmCommand) : SwarmTask :=
  match c with
  | Dial addr => dial (DialAddr addr) t
  | PublishTransaction tx => match tx_to_vec tx with Ok data => publish TOPIC_TRANSACTIONS data t | Err _ => t end
  | PublishBlock b => match block_to_vec b with Ok data => publish TOPIC_BLOCKS data t | Err _ => t end
  | AddKnownPeer peer addr => add_address peer addr t
  | Shutdown => stop t
  end.

(** ** The node and its channels *)

(** [ln_waiting] is the event whose [send] is blocked by a full channel. *)
Record LibP2pNode := mkLibP2pNode {
  ln_task : SwarmTask;
  ln_commands : list SwarmCommand;
  ln_events : list SwarmNodeEvent;
  ln_waiting : option SwarmNodeEvent }.

Definition node_new (c : LibP2pConfig) : LibP2pNode := mkLibP2pNode (task_new c) [] [] None.

Definition known_peers (n : LibP2pNode) : list PeerId := elements (sw_known (ln_task n)).

(** The task sends an event: into the channel, or it waits. *)
Definition emit (e : option SwarmNodeEvent) (n : LibP2pNode) : LibP2pNode :=
  match e with
  | None => n
  | Some e =>
      if (length (ln_events n) <? EVENT_CAP)%nat
      then mkLibP2pNode (ln_task n) (ln_commands n) (ln_events n ++ [e]) (ln_waiting n)
      else mkLibP2pNode (ln_task n) (ln_commands n) (ln_events n) (Some e)
  end.

(** The steps: the task takes a library event or a command, the caller enqueues a command
    or polls for an event. *)
Inductive Step := StEvent (e : SwarmEvent) | StCommand | StSend (c : SwarmCommand) | StRecv.

(** The task takes its next input only while it runs and no send is blocked. *)
Definition ready (n : LibP2pNode) : bool := sw_running (ln_task n) && negb (is_some (ln_waiting n)).

Definition with_sw_task (n : LibP2pNode) (t : SwarmTask) : LibP2pNode :=
  mkLibP2pNode t (ln_commands n) (ln_events n) (ln_waiting n).

Definition step_event (n : LibP2pNode) (e : SwarmEvent) : LibP2pNode :=
  if ready n then let '(t, out) := on_event (ln_task n) e in emit out (with_sw_task n t) else n.

Definition step_command (n : LibP2pNode) : LibP2pNode :=
  if ready n then
    match ln_commands n with
    | c :: cs => mkLibP2pNode (on_command (ln_task n) c) cs (ln_events n) (ln_waiting n)
    | [] => n
    end
  else n.

(** A send waits while the channel is full, and only logs once the task has ended. *)
Definition step_send (n : LibP2pNode) (c : SwarmCommand) : LibP2pNode :=
  if sw_running (ln_task n) && (length (ln_commands n) <? COMMAND_CAP)%nat
  then mkLibP2pNode (ln_task n) (ln_commands n ++ [c]) (ln_events n) (ln_waiting n) else n.

(** [try_recv_event]; the slot it frees is taken by the waiting event. *)
Definition try_recv_event (n : LibP2pNode) : LibP2pNode * option SwarmNodeEvent :=
  match ln_events n with
  | [] => (n, None)
  | e :: es =>
      (match ln_waiting n with
       | Some w => mkLibP2pNode (ln_task n) (ln_commands n) (es ++ [w]) None
       | None => mkLibP2pNode (ln_task n) (ln_commands n) es None
       end, Some e)
  end.

Definition swarm_step (n : LibP2pNode) (s : Step) : LibP2pNode :=
  match s with
  | StEvent e => step_event n e
  | StCommand => step_command n
  | StSend c => step_send n c
  | StRecv => (try_recv_event n).1
  end.

(** What a step hands to the caller, and what the task emits in it. *)
Definition received (n : LibP2pNode) (s : Step) : list SwarmNodeEvent :=
  match s with StRecv => option_list (try_recv_event n).2 | _ => [] end.
Definition emitted (n : LibP2pNode) (s : Step) : list SwarmNodeEvent :=
  match s with StEvent e => if ready n then option_list (on_event (ln_task n) e).2 else [] | _ => [] end.

(** The node after a run, all that was received and all that was emitted in it. *)
Definition run (n : LibP2pNode) (steps : list Step) : LibP2pNode * list SwarmNodeEvent * list SwarmNodeEvent :=
  foldl (λ '(n, r, o) s, (swarm_step n s, r ++ received n s, o ++ emitted n s)) (n, [], []) steps.

(** ** What the caller sees *)

(** The peers a reader of the events would call connected. *)
Definition view_step (k : gset PeerId) (e : SwarmNodeEvent) : gset PeerId :=
  match e with
  | SwPeerConnected p => {[p]} ∪ k
  | SwPeerDisconnected p => k ∖ {[p]}
  | _ => k
  end.
Definition peers_view (events : list SwarmNodeEvent) : gset PeerId := foldl view_step ∅ events.

(** The events sent and not yet received. *)
Definition in_flight (n : LibP2pNode) : list SwarmNodeEvent := ln_events n ++ option_list (ln_waiting n).

(** The channels keep their bounds, and a send waits only for a full channel. *)
Definition channels_ok (n : LibP2pNode) : Prop :=
  (length (ln_events n) ≤ EVENT_CAP)%nat ∧ (length (ln_commands n) ≤ COMMAND_CAP)%nat
  ∧ (is_Some (ln_waiting n) → length (ln_events n) = EVENT_CAP).

#[local] Opaque EVENT_CAP COMMAND_CAP.

Lemma foldl_add_known {A} (f : A → PeerId * Multiaddr) (l : list A) (t : SwarmTask) :
  sw_known (foldl (λ t a, add_address (f a).1 (f a).2 t) t l) = sw_known t.
Proof. revert t; induction l as [|a l IH]; intros t; [done|]. csimpl. by rewrite IH. Qed.

Lemma foldl_dial_known (l : list (PeerId * Multiaddr)) (t : SwarmTask) :
  sw_known (foldl (λ t pa, dial (DialPeer pa.1) (add_address pa.1 pa.2 t)) t l) = sw_known t.
Proof. revert t; induction l as [|a l IH]; intros t; [done|]. csimpl. by rewrite IH. Qed.

Lemma gossip_event_view (topic data : string) (k : gset PeerId) :
  foldl view_step k (option_list (gossip_event topic data)) = k.
Proof. unfold gossip_event. repeat case_match; done. Qed.

(** The set of peers moves with the events sent about it. *)
Lemma on_event_view (t : SwarmTask) (e : SwarmEvent) :
  sw_known (on_event t e).1 = foldl view_step (sw_known t) (option_list (on_event t e).2).
Proof.
  destruct e as [| | |topic data| |peer addrs|peers| |]; try done; cbn [on_event fst snd].
  - by rewrite gossip_event_view.
  - exact (foldl_add_known (λ a, (peer, a)) addrs t).
  - exact (foldl_dial_known peers t).
Qed.

Lemma on_command_known (t : SwarmTask) (c : SwarmCommand) : sw_known (on_command t c) = sw_known t.
Proof. destruct c; cbn [on_command]; repeat case_match; done. Qed.

Lemma emit_in_flight (e : option SwarmNodeEvent) (n : LibP2pNode) :
  ln_waiting n = None → in_flight (emit e n) = in_flight n ++ option_list e
  ∧ ln_task (emit e n) = ln_task n ∧ ln_commands (emit e n) = ln_commands n
  ∧ (channels_ok n → channels_ok (emit e n)).
Proof.
  intros Hw. destruct e as [e|]; cbn [emit option_list]; [|by rewrite app_nil_r].
  unfold in_flight, channels_ok. destruct (Nat.ltb_spec (length (ln_events n)) EVENT_CAP) as [Hl|Hl];
    cbn [ln_events ln_waiting ln_task ln_commands]; rewrite Hw; cbn [option_list].
  - split_and!; rewrite ?app_nil_r; try done. intros (?&?&?). rewrite length_app; cbn. split_and!; try lia. intros [? [=]].
  - rewrite app_nil_r. split_and!; try done. intros (?&?&?). split_and!; try done. lia.
Qed.

Lemma ready_true (n : LibP2pNode) : ready n = true → sw_running (ln_task n) = true ∧ ln_waiting n = None.
Proof. unfold ready. destruct (sw_running _), (ln_waiting n); by intros. Qed.

(** One step: what is received leaves the front, what is emitted joins the back, the set of
    peers moves with the emitted events and the bounds stay. *)
Lemma swarm_step_flow (n : LibP2pNode) (s : Step) :
  in_flight n ++ emitted n s = received n s ++ in_flight (swarm_step n s)
  ∧ sw_known (ln_task (swarm_step n s)) = foldl view_step (sw_known (ln_task n)) (emitted n s)
  ∧ (channels_ok n → channels_ok (swarm_step n s)).
Proof.
  destruct s as [e| |c|]; cbn [swarm_step received emitted]; rewrite ?app_nil_r; cbn [app foldl].
  - unfold step_event. destruct (ready n) eqn:R; [|by rewrite app_nil_r]. apply ready_true in R as [_ Hw].
    pose proof (on_event_view (ln_task n) e) as Hv. destruct (on_event (ln_task n) e) as [t out]; cbn [fst snd] in *.
    destruct (emit_in_flight out (with_sw_task n t) Hw) as (-> & -> & _ & Hc). by split_and!.
  - unfold step_command. destruct (ready n); [|done]. destruct (ln_commands n) as [|c cs] eqn:Hq; [done|].
    split_and!; [done|exact (on_command_known (ln_task n) c)|]. unfold channels_ok; cbn [ln_commands ln_events ln_waiting].
    rewrite Hq; cbn [length]. intros (?&?&?); split_and!; try done; lia.
  - unfold step_send. destruct (sw_running _ && _) eqn:R; [|done]. apply andb_true_iff in R as [_ R%Nat.ltb_lt].
    split_and!; [done..|]. unfold channels_ok; cbn [ln_commands ln_events ln_waiting]. rewrite length_app; cbn [length].
    intros (?&?&?); split_and!; try done; lia.
  - unfold try_recv_event, in_flight, channels_ok. destruct (ln_events n) as [|e es] eqn:Hq; cbn [fst snd option_list];
      [by rewrite Hq|]. destruct (ln_waiting n) as [w|]; cbn [ln_events ln_waiting ln_task ln_commands option_list length app];
      rewrite ?app_nil_r; split_and!; try done; intros (?&?&Hf); split_and!; try done; try (intros [? [=]]); rewrite ?length_app;
      cbn [length]; lia.
Qed.

Lemma run_app (n : LibP2pNode) (s1 s2 : list Step) :
  run n (s1 ++ s2) = foldl (λ '(n, r, o) s, (swarm_step n s, r ++ received n s, o ++ emitted n s)) (run n s1) s2.
Proof. apply foldl_app. Qed.

(** C25: Whatever the network does and however the caller sends and polls, the events reach the
    caller exactly once and in the order the task emitted them: what was received, what the
    channel holds and the one send that waits are together all that was emitted.  The
    channels never hold more than 256 events and 64 commands.  And the peers the node lists
    are those the emitted events describe, so a caller that has received everything and
    replays it has exactly [known_peers].  (A handler's update of the list and the start of its
    send are one step here.) *)
Theorem events_in_order (c : LibP2pConfig) (steps : list Step) :
  let '(n, r, o) := run (node_new c) steps in
  r ++ in_flight n = o ∧ channels_ok n
  ∧ sw_known (ln_task n) = peers_view o
  ∧ (in_flight n = [] → known_peers n = elements (peers_view r)).
Proof.
  assert (H : let '(n, r, o) := run (node_new c) steps in
    r ++ in_flight n = o ∧ channels_ok n ∧ sw_known (ln_task n) = peers_view o).
  { induction steps as [|s steps IH] using rev_ind.
    - split_and!; [done| |exact (foldl_add_known id (bootstrap_peers c) _)].
      split_and!; cbn; [lia..|by intros []].
    - rewrite run_app. destruct (run _ steps) as [[n r] o]. destruct IH as (<- & Hc & Hk). cbn [foldl].
      destruct (swarm_step_flow n s) as (He & -> & Hc'). split_and!; [|by auto|].
      + by rewrite <- !app_assoc, He.
      + unfold peers_view. by rewrite foldl_app, Hk. }
  destruct (run _ steps) as [[n r] o]. destruct H as (Ho & Hc & Hk). split_and!; [done..|].
  intros Hf. unfold known_peers. by rewrite Hk, <- Ho, Hf, app_nil_r.
Qed.

(** ** Where the loop differs from what its documentation says *)

Definition no_receive (steps : list Step) : Prop := StRecv ∉ steps.

(** While a send waits the task handles nothing at all: whatever the network offers and the
    caller enqueues, until the caller polls the task, its queue of events and its waiting
    event stay as they are.  A queued [Shutdown] is handled only after a poll, and with
    sixty-four commands queued a further send leaves the node as it is too: a caller that
    awaits its own send without polling waits for ever. *)
Theorem blocked_send_stalls (n : LibP2pNode) (w : SwarmNodeEvent) (steps : list Step) :
  ln_waiting n = Some w → no_receive steps →
  let n' := (run n steps).1.1 in
  ln_task n' = ln_task n ∧ ln_events n' = ln_events n ∧ ln_waiting n' = Some w
  ∧ ln_commands n `prefix_of` ln_commands n'
  ∧ (length (ln_commands n) = COMMAND_CAP → n' = n).
Proof.
  intros Hw. induction steps as [|s steps IH] using rev_ind; intros Hn.
  { cbn [run foldl fst]. by split_and!. }
  rewrite run_app. destruct IH as (Ht & He & Hw' & Hp & Hfull); [intros ?; apply Hn; set_solver|].
  destruct (run n steps) as [[m r] o]. cbn [foldl fst] in *.
  assert (R : ready m = false) by (unfold ready; rewrite Hw'; apply andb_false_r).
  destruct s as [e| |c|]; cbn [swarm_step].
  - unfold step_event. by rewrite R.
  - unfold step_command. by rewrite R.
  - unfold step_send. destruct (_ && _) eqn:G; cbn [ln_task ln_events ln_waiting ln_commands]; [|done].
    apply andb_true_iff in G as [_ G%Nat.ltb_lt]. split_and!; [done..|by apply prefix_app_r|].
    intros Hc. rewrite (Hfull Hc) in G. lia.
  - by destruct Hn; set_solver.
Qed.

(** A peer with several connections leaves the set when the first of them closes, although
    the library reports how many remain; only a new connection brings it back. *)
Theorem one_closed_connection_forgets_the_peer (n : LibP2pNode) (p : PeerId) (remaining : nat) :
  ready n = true →
  let n' := swarm_step n (StEvent (ConnectionClosed p remaining)) in
  p ∉ known_peers n' ∧ emitted n (StEvent (ConnectionClosed p remaining)) = [SwPeerDisconnected p].
Proof.
  intros R; cbn [swarm_step emitted]. unfold step_event. rewrite R. cbn [on_event snd].
  apply ready_true in R as [_ Hw].
  destruct (emit_in_flight (Some (SwPeerDisconnected p)) (with_sw_task n (set_known (sw_known (ln_task n) ∖ {[p]}) (ln_task n))) Hw)
    as (_ & Ht & _). unfold known_peers. rewrite Ht. cbn [ln_task with_sw_task sw_known set_known]. split; [set_solver|done].
Qed.

(** What one node publishes another receives, over codecs that invert each other; nothing
    else about the transaction or block is examined on the way. *)
Theorem published_is_received (t u : SwarmTask) (tx : Transaction) (b : Block) (d e : string) :
  tx_to_vec tx = Ok d → tx_of_slice d = Ok tx → block_to_vec b = Ok e → block_of_slice e = Ok b →
  sw_published (on_command (on_command t (PublishTransaction tx)) (PublishBlock b))
    = sw_published t ++ [(TOPIC_TRANSACTIONS, d); (TOPIC_BLOCKS, e)]
  ∧ on_event u (GossipMessage TOPIC_TRANSACTIONS d) = (u, Some (SwTransactionReceived tx))
  ∧ on_event u (GossipMessage TOPIC_BLOCKS e) = (u, Some (SwBlockReceived b)).
Proof.
  intros H1 H2 H3 H4. cbn [on_command on_event]. rewrite H1, H3. unfold gossip_event. cbn [String.eqb].
  split_and!; [cbn [sw_published publish]; by rewrite <- app_assoc| |].
  - change (TOPIC_TRANSACTIONS ==? TOPIC_TRANSACTIONS) with true. by rewrite H2.
  - change (TOPIC_BLOCKS ==? TOPIC_TRANSACTIONS) with false. change (TOPIC_BLOCKS ==? TOPIC_BLOCKS) with true. by rewrite H4.
Qed.
End swarm.
