(* ===== verification/Workflow.v ===== *)
(** The workflow framework (glasschain-workflows: event.rs, action.rs, state.rs,
    transition.rs, checkpoint.rs, triage.rs, runner.rs, error.rs).

    A flow is an ordered table of pure transitions; the runner drives it from
    durable checkpoints and hands the actions to its caller.  Storage is any
    [StorageProvider]; serde_json on checkpoints and states, the rendering of an
    event in an error, and the clock are arguments.  The theorems: over a lawful
    backend the runner refines a small delivery machine, no action is lost across
    crashes, and a restarted triage view shows exactly the persisted flows. *)

From S2P Require Import Prelude Types WriteSet Chain Storage.

(** ** The algebra *)

Inductive Event :=
| RecordCommitted (r : CanonicalRecord)
| TransactionCommitted (k : TransactionKind)
| Woken (reason : string)
| Resumed (reason : string).

Definition is_resumed (ev : Event) : bool := match ev with Resumed _ => true | _ => false end.

Inductive Action :=
| EmitTransaction (tx : Transaction)
| EmitRecord (r : CanonicalRecord).

(** [trait FlowState] *)
Class FlowState (St : Type) := step : St → string.

Record TransitionResult (St : Type) := mkResult {
  tr_state : St;
  tr_actions : list Action;
  tr_completed : bool }.
Arguments mkResult {St}.
Arguments tr_state {St}.
Arguments tr_actions {St}.
Arguments tr_completed {St}.

(** [trait Transition<S>] *)
Record Transition (St : Type) := mkTransition {
  t_name : string;
  t_matches : St → Event → bool;
  t_apply : St → Event → TransitionResult St }.
Arguments mkTransition {St}.
Arguments t_name {St}.
Arguments t_matches {St}.
Arguments t_apply {St}.

(** [TransitionResult::new(state.clone(), Vec::new(), false)] *)
Definition unchanged {St} (s : St) : TransitionResult St := mkResult s [] false.

Record FlowRunner (St : Type) := mkRunner {
  flow_kind : string;
  transitions : list (Transition St) }.
Arguments mkRunner {St}.
Arguments flow_kind {St}.
Arguments transitions {St}.

Record FlowOutcome (St : Type) := mkOutcome {
  fo_state : St;
  fo_actions : list Action;
  fo_completed : bool }.
Arguments mkOutcome {St}.
Arguments fo_state {St}.
Arguments fo_actions {St}.
Arguments fo_completed {St}.

Inductive WorkflowError :=
| WStorage (msg : string)
| WSerialization (msg : string)
| CheckpointDeserialization (msg : string)
| CheckpointMismatch (flow_id event : string)
| Clock.

(** [FlowRunner::try_apply]: the first transition that matches. *)
Definition try_apply {St} (f : FlowRunner St) (s : St) (ev : Event)
  : option (TransitionResult St) :=
  (λ t, t_apply t s ev) <$> List.find (λ t, t_matches t s ev) (transitions f).

(** ** Checkpoints and triage *)

Definition CHECKPOINT_PREFIX : string := "workflow:checkpoint:".

Record Checkpoint := mkCheckpoint {
  cp_flow_id : string;
  cp_flow_kind : string;
  cp_state : Value;
  pending_event : option Event;
  next_action : nat;
  cp_step : string;
  cp_updated_at : Z }.

Record TriageEntry := mkTriageEntry {
  te_flow_id : string;
  te_flow_kind : string;
  te_step : string;
  te_updated_at : Z }.

Notation FlowTriage := (gmap string TriageEntry).

(** [FlowTriage::record] and [clear] *)
Definition triage_record (t : FlowTriage) (id kind st : string) (updated_at : Z) : FlowTriage :=
  <[id := mkTriageEntry id kind st updated_at]> t.
Definition triage_clear (t : FlowTriage) (id : string) : FlowTriage := delete id t.

Definition known_flows (t : FlowTriage) : list TriageEntry := (btree_items t).*2.

Definition stuck_flows (t : FlowTriage) (now stale_after_secs : Z) : list TriageEntry :=
  List.filter (λ e, (stale_after_secs <? saturating_sub now (te_updated_at e))%Z) (known_flows t).

Definition checkpoint_key (flow_id : string) : string := CHECKPOINT_PREFIX +:+ flow_id.

(** A step that may fail but keeps the state it reached. *)
Notation "'bind!' ( w , x ) := c 'in' k" :=
  (match c with (w, Ok x) => k | (w, Err e) => (w, Err e) end)
  (at level 10, w name, x name, c at level 200, k at level 200) : glass_scope.

Section runner.
Context {S : Type} `{SP : StorageProvider S}.
(** serde_json on checkpoints. *)
Context (checkpoint_to_json : Checkpoint → string)
        (checkpoint_of_json : string → result string Checkpoint).
(** [{:?}] of an event. *)
Context (debug_event : Event → string).

Definition storage_err {A} (r : result CoreError A) : result WorkflowError A :=
  map_err (λ e, WStorage (display_error e)) r.

(** [CheckpointStore::save], [load] and [delete] *)
Definition cp_save (s : S) (c : Checkpoint) : S * result WorkflowError unit :=
  let '(s, r) := put_state s (checkpoint_key (cp_flow_id c)) (checkpoint_to_json c) in
  (s, storage_err r).

Definition cp_load (s : S) (flow_id : string) : result WorkflowError (option Checkpoint) :=
  let? raw := storage_err (get_state s (checkpoint_key flow_id)) in
  match raw with
  | None => Ok None
  | Some raw => let? c := map_err WSerialization (checkpoint_of_json raw) in Ok (Some c)
  end.

Definition cp_delete (s : S) (flow_id : string) : S * result WorkflowError unit :=
  let '(s, r) := delete_state s (checkpoint_key flow_id) in (s, storage_err r).

(** [FlowTriage::discover]: the loop over the persisted keys. *)
Fixpoint discover_keys (s : S) (t : FlowTriage) (keys : list string)
  : result WorkflowError FlowTriage :=
  match keys with
  | [] => Ok t
  | k :: keys =>
      let? raw := storage_err (get_state s k) in
      match raw with
      | None => discover_keys s t keys
      | Some raw =>
          match checkpoint_of_json raw with
          | Ok c => discover_keys s (triage_record t (cp_flow_id c) (cp_flow_kind c) (cp_step c)
                                       (cp_updated_at c)) keys
          | Err _ => discover_keys s t keys
          end
      end
  end.

Definition discover (s : S) : result WorkflowError FlowTriage :=
  let? keys := storage_err (list_state_keys s CHECKPOINT_PREFIX) in
  discover_keys s ∅ keys.

(** ** The runner *)

Context {St : Type} `{FS : FlowState St}.
(** serde_json on flow states. *)
Context (state_to_value : St → Value) (state_of_value : Value → result string St).
Context (f : FlowRunner St).

(** The process: durable storage and the in-memory triage view. *)
Record Runtime := mkRuntime { rt_storage : S; rt_triage : FlowTriage }.

(** [FlowRunner::save_checkpoint]; [now] is the clock, [None] before the epoch. *)
Definition save_checkpoint (now : option Z) (w : Runtime) (flow_id : string) (s : St)
    (pending : option Event) (next : nat) : Runtime * result WorkflowError unit :=
  match now with
  | None => (w, Err Clock)
  | Some now =>
      let c := mkCheckpoint flow_id (flow_kind f) (state_to_value s) pending next (step s) now in
      let t := triage_record (rt_triage w) flow_id (flow_kind f) (step s) now in
      let '(st, r) := cp_save (rt_storage w) c in
      (mkRuntime st t, r)
  end.

(** [FlowRunner::finalize] *)
Definition finalize (now : option Z) (w : Runtime) (flow_id : string) (s : St) (completed : bool)
  : Runtime * result WorkflowError unit :=
  if completed then
    match cp_delete (rt_storage w) flow_id with
    | (st, Ok _) => (mkRuntime st (triage_clear (rt_triage w) flow_id), Ok tt)
    | (st, Err e) => (mkRuntime st (rt_triage w), Err e)
    end
  else save_checkpoint now w flow_id s None 0.

(** The second half of [handle]: apply the incoming event. *)
Definition handle_event (now : option Z) (w : Runtime) (flow_id : string) (s : St) (ev : Event)
  : Runtime * result WorkflowError (option (FlowOutcome St)) :=
  match try_apply f s ev with
  | None => (w, Ok None)
  | Some r =>
      match tr_actions r with
      | [] =>
          bind! (w, _u) := finalize now w flow_id (tr_state r) (tr_completed r) in
          (w, Ok (Some (mkOutcome (tr_state r) [] (tr_completed r))))
      | _ :: _ =>
          bind! (w, _u) := save_checkpoint now w flow_id s (Some ev) 0 in
          (w, Ok (Some (mkOutcome (tr_state r) (tr_actions r) false)))
      end
  end.

(** [FlowRunner::handle].  [clock i] is the [i]-th reading of the clock. *)
Definition handle (clock : nat → option Z) (w : Runtime) (flow_id : string) (initial : St)
    (ev : Event) : Runtime * result WorkflowError (option (FlowOutcome St)) :=
  match cp_load (rt_storage w) flow_id with
  | Err e => (w, Err e)
  | Ok None => if is_resumed ev then (w, Ok None) else handle_event (clock 0) w flow_id initial ev
  | Ok (Some saved) =>
      match state_of_value (cp_state saved) with
      | Err e => (w, Err (CheckpointDeserialization e))
      | Ok s =>
          match pending_event saved with
          | Some pending =>
              match try_apply f s pending with
              | None => (w, Err (CheckpointMismatch flow_id (debug_event pending)))
              | Some r =>
                  if (length (tr_actions r) <=? next_action saved)%nat then
                    bind! (w, _u) := finalize (clock 0) w flow_id (tr_state r) (tr_completed r) in
                    if tr_completed r then (w, Ok (Some (mkOutcome (tr_state r) [] true)))
                    else if is_resumed ev then (w, Ok (Some (mkOutcome (tr_state r) [] false)))
                    else handle_event (clock 1) w flow_id (tr_state r) ev
                  else (w, Ok (Some (mkOutcome (tr_state r)
                                       (drop (next_action saved) (tr_actions r)) false)))
              end
          | None =>
              let w := mkRuntime (rt_storage w)
                         (triage_record (rt_triage w) flow_id (cp_flow_kind saved) (step s)
                            (cp_updated_at saved)) in
              if is_resumed ev then (w, Ok None) else handle_event (clock 0) w flow_id s ev
          end
      end
  end.

(** [FlowRunner::ack] *)
Definition ack (clock : nat → option Z) (w : Runtime) (flow_id : string) (executed : nat)
  : Runtime * result WorkflowError unit :=
  match cp_load (rt_storage w) flow_id with
  | Err e => (w, Err e)
  | Ok None => (w, Ok tt)
  | Ok (Some saved) =>
      match pending_event saved with
      | None => (w, Ok tt)
      | Some pending =>
          match state_of_value (cp_state saved) with
          | Err e => (w, Err (CheckpointDeserialization
                                ("flow kind " +:+ flow_kind f +:+ ": " +:+ e)))
          | Ok s =>
              match try_apply f s pending with
              | None => (w, Err (CheckpointMismatch flow_id (debug_event pending)))
              | Some r =>
                  let next := Nat.min executed (length (tr_actions r)) in
                  if (next <? length (tr_actions r))%nat
                  then save_checkpoint (clock 0) w flow_id s (Some pending) next
                  else finalize (clock 0) w flow_id (tr_state r) (tr_completed r)
              end
          end
      end
  end.

(** [FlowRunner::current_state] *)
Definition current_state (w : Runtime) (flow_id : string) : result WorkflowError (option St) :=
  let? saved := cp_load (rt_storage w) flow_id in
  match saved with
  | None => Ok None
  | Some saved =>
      let? s := map_err (λ e, CheckpointDeserialization
                  ("flow kind " +:+ flow_kind f +:+ ": " +:+ e)) (state_of_value (cp_state saved)) in
      Ok (Some s)
  end.

(** ** The delivery machine

    What a flow instance is, apart from storage, triage and clock: not started (or
    completed), waiting for an event, or with the actions of one transition
    pending, the first [n] of them acknowledged. *)

Inductive Phase := Fresh | Waiting (s : St) | Pending (s : St) (ev : Event) (n : nat).

Definition spec_finish (r : TransitionResult St) : Phase :=
  if tr_completed r then Fresh else Waiting (tr_state r).

Definition spec_event (ph : Phase) (s : St) (ev : Event)
  : Phase * result WorkflowError (option (FlowOutcome St)) :=
  match try_apply f s ev with
  | None => (ph, Ok None)
  | Some r =>
      match tr_actions r with
      | [] => (spec_finish r, Ok (Some (mkOutcome (tr_state r) [] (tr_completed r))))
      | _ => (Pending s ev 0, Ok (Some (mkOutcome (tr_state r) (tr_actions r) false)))
      end
  end.

Definition spec_handle (flow_id : string) (initial : St) (ph : Phase) (ev : Event)
  : Phase * result WorkflowError (option (FlowOutcome St)) :=
  match ph with
  | Fresh => if is_resumed ev then (ph, Ok None) else spec_event ph initial ev
  | Waiting s => if is_resumed ev then (ph, Ok None) else spec_event ph s ev
  | Pending s pe n =>
      match try_apply f s pe with
      | None => (ph, Err (CheckpointMismatch flow_id (debug_event pe)))
      | Some r =>
          if (length (tr_actions r) <=? n)%nat then
            if tr_completed r then (Fresh, Ok (Some (mkOutcome (tr_state r) [] true)))
            else if is_resumed ev
            then (Waiting (tr_state r), Ok (Some (mkOutcome (tr_state r) [] false)))
            else spec_event (Waiting (tr_state r)) (tr_state r) ev
          else (ph, Ok (Some (mkOutcome (tr_state r) (drop n (tr_actions r)) false)))
      end
  end.

Definition spec_ack (flow_id : string) (ph : Phase) (executed : nat)
  : Phase * result WorkflowError unit :=
  match ph with
  | Pending s pe n =>
      match try_apply f s pe with
      | None => (ph, Err (CheckpointMismatch flow_id (debug_event pe)))
      | Some r =>
          if (executed <? length (tr_actions r))%nat then (Pending s pe executed, Ok tt)
          else (spec_finish r, Ok tt)
      end
  | _ => (ph, Ok tt)
  end.

(** ** Refinement *)

Context {SL : StorageLaws S}.
Context (checkpoint_codec : ∀ c, checkpoint_of_json (checkpoint_to_json c) = Ok c)
        (state_codec : ∀ s, state_of_value (state_to_value s) = Ok s).

(** The checkpoint stored for a flow. *)
Definition stored (w : Runtime) (id : string) (c : Checkpoint) : Prop :=
  world (rt_storage w) !! checkpoint_key id = Some (checkpoint_to_json c) ∧ cp_flow_id c = id.

Definition at_phase (w : Runtime) (id : string) (ph : Phase) : Prop :=
  match ph with
  | Fresh => world (rt_storage w) !! checkpoint_key id = None
  | Waiting s => ∃ c, stored w id c ∧ cp_state c = state_to_value s ∧ pending_event c = None
  | Pending s ev n => ∃ c, stored w id c ∧ cp_state c = state_to_value s
                       ∧ pending_event c = Some ev ∧ next_action c = n
  end.

(** Nothing but the flow's own checkpoint changed. *)
Definition frame (id : string) (w w' : Runtime) : Prop :=
  ∀ k, k ≠ checkpoint_key id → world (rt_storage w') !! k = world (rt_storage w) !! k.

Lemma cp_load_stored w id c : stored w id c → cp_load (rt_storage w) id = Ok (Some c).
Proof.
  intros [Hc _]. unfold cp_load, storage_err. rewrite get_state_law, Hc. simpl. by rewrite checkpoint_codec.
Qed.

Lemma cp_load_none w id :
  world (rt_storage w) !! checkpoint_key id = None → cp_load (rt_storage w) id = Ok None.
Proof. intros Hc. unfold cp_load, storage_err. by rewrite get_state_law, Hc. Qed.

Lemma save_checkpoint_spec now w id s pe n :
  ∃ w', save_checkpoint (Some now) w id s pe n = (w', Ok tt)
    ∧ stored w' id (mkCheckpoint id (flow_kind f) (state_to_value s) pe n (step s) now)
    ∧ frame id w w'.
Proof.
  unfold save_checkpoint, cp_save. simpl.
  match goal with |- context [put_state ?s ?k ?v] => destruct (put_state_law s k v) as (s' & -> & Hw) end.
  eexists. split; [done|]. unfold stored, frame. simpl. rewrite Hw. split.
  - split; [by rewrite lookup_insert_eq | done].
  - intros k Hk. by rewrite lookup_insert_ne.
Qed.

Lemma finalize_spec now w id s completed :
  ∃ w', finalize (Some now) w id s completed = (w', Ok tt)
    ∧ at_phase w' id (if completed then Fresh else Waiting s) ∧ frame id w w'.
Proof.
  unfold finalize. destruct completed.
  - unfold cp_delete. destruct (delete_state_law (rt_storage w) (checkpoint_key id)) as (s' & -> & Hw).
    simpl. eexists. split; [done|]. unfold frame. simpl. rewrite Hw. split.
    + by rewrite lookup_delete_eq.
    + intros k Hk. by rewrite lookup_delete_ne.
  - destruct (save_checkpoint_spec now w id s None 0) as (w' & -> & Hs & Hf).
    exists w'. split; [done|]. split; [|done]. by eexists.
Qed.

Lemma frame_trans id w1 w2 w3 : frame id w1 w2 → frame id w2 w3 → frame id w1 w3.
Proof. intros H1 H2 k Hk. by rewrite H2, H1. Qed.

Lemma handle_event_spec now w id ph s ev :
  at_phase w id ph →
  ∃ w', handle_event (Some now) w id s ev = (w', (spec_event ph s ev).2)
    ∧ at_phase w' id (spec_event ph s ev).1 ∧ frame id w w'.
Proof.
  intros Hph. unfold handle_event, spec_event, spec_finish.
  destruct (try_apply f s ev) as [r|]; [|by exists w].
  destruct (tr_actions r) as [|a acts].
  - destruct (finalize_spec now w id (tr_state r) (tr_completed r)) as (w' & -> & Hp & Hf). by exists w'.
  - destruct (save_checkpoint_spec now w id s (Some ev) 0) as (w' & -> & Hs & Hf).
    exists w'. split; [done|]. split; [|done]. by eexists.
Qed.

Lemma handle_refines clock w id initial ph ev :
  (∀ i, clock i ≠ None) → at_phase w id ph →
  ∃ w', handle clock w id initial ev = (w', (spec_handle id initial ph ev).2)
    ∧ at_phase w' id (spec_handle id initial ph ev).1 ∧ frame id w w'.
Proof.
  intros Hclock Hph. unfold handle.
  destruct (clock 0) as [t0|] eqn:H0; [|by destruct (Hclock 0)].
  destruct (clock 1) as [t1|] eqn:H1; [|by destruct (Hclock 1)].
  destruct ph as [|s|s pe n]; simpl in Hph.
  - rewrite cp_load_none by done. simpl. destruct (is_resumed ev); [by exists w|].
    by apply handle_event_spec.
  - destruct Hph as (c & Hc & Hs & Hp). rewrite (cp_load_stored w id c Hc), Hs, state_codec, Hp. simpl.
    destruct (is_resumed ev).
    + eexists. split; [done|]. split; [|done]. by exists c.
    + apply (handle_event_spec t0 (mkRuntime _ _)). by exists c.
  - destruct Hph as (c & Hc & Hs & Hp & Hn). rewrite (cp_load_stored w id c Hc), Hs, state_codec, Hp. simpl.
    destruct (try_apply f s pe) as [r|] eqn:Hr; [|exists w; split; [done|]; split; [by exists c | done]].
    rewrite Hn. destruct (length (tr_actions r) <=? n)%nat.
    2:{ exists w. split; [done|]. split; [by exists c | done]. }
    destruct (finalize_spec t0 w id (tr_state r) (tr_completed r)) as (w1 & -> & Hp1 & Hf1).
    destruct (tr_completed r); [by exists w1|]. destruct (is_resumed ev); [by exists w1|].
    destruct (handle_event_spec t1 w1 id (Waiting (tr_state r)) (tr_state r) ev Hp1) as (w2 & -> & Hp2 & Hf2).
    exists w2. split; [done|]. split; [done|]. by eapply frame_trans.
Qed.

Lemma ack_refines clock w id ph k :
  (∀ i, clock i ≠ None) → at_phase w id ph →
  ∃ w', ack clock w id k = (w', (spec_ack id ph k).2)
    ∧ at_phase w' id (spec_ack id ph k).1 ∧ frame id w w'.
Proof.
  intros Hclock Hph. unfold ack. destruct (clock 0) as [t0|] eqn:H0; [|by destruct (Hclock 0)].
  destruct ph as [|s|s pe n]; simpl in Hph.
  - rewrite cp_load_none by done. by exists w.
  - destruct Hph as (c & Hc & Hs & Hp). rewrite (cp_load_stored w id c Hc), Hp.
    exists w. split; [done|]. split; [by exists c | done].
  - destruct Hph as (c & Hc & Hs & Hp & Hn). rewrite (cp_load_stored w id c Hc), Hp, Hs, state_codec.
    unfold spec_ack, spec_finish.
    destruct (try_apply f s pe) as [r|] eqn:Hr; [|exists w; split; [done|]; split; [by exists c | done]].
    destruct (Nat.ltb_spec k (length (tr_actions r))) as [Hlt|Hge].
    + rewrite Nat.min_l by lia. rewrite (proj2 (Nat.ltb_lt _ _) Hlt).
      destruct (save_checkpoint_spec t0 w id s (Some pe) k) as (w' & -> & Hst & Hf).
      exists w'. split; [done|]. split; [|done]. by eexists.
    + rewrite Nat.min_r by lia. rewrite Nat.ltb_irrefl.
      destruct (finalize_spec t0 w id (tr_state r) (tr_completed r)) as (w' & -> & Hp1 & Hf). by exists w'.
Qed.

(** Every stored checkpoint sits under the key of its own flow. *)
Definition checkpoints_wf (s : S) : Prop :=
  ∀ k raw, world s !! k = Some raw → starts_with CHECKPOINT_PREFIX k = true →
    ∃ c, raw = checkpoint_to_json c ∧ k = checkpoint_key (cp_flow_id c).

Lemma phase_checkpoints_wf w w' id ph :
  checkpoints_wf (rt_storage w) → frame id w w' → at_phase w' id ph →
  checkpoints_wf (rt_storage w').
Proof.
  intros Hwf Hf Hph k raw Hk Hpre. destruct (decide (k = checkpoint_key id)) as [->|Hne].
  - assert (world (rt_storage w') !! checkpoint_key id = None ∨ ∃ c, stored w' id c) as [Hn|(c & Hc & <-)].
    { destruct ph as [|s|s pe n]; [by left | |]; destruct Hph as (c & Hc & _); right; by exists c. }
    + congruence.
    + exists c. split; [congruence | done].
  - rewrite Hf in Hk by done. by apply Hwf.
Qed.

(** C18: The runner refines the delivery machine: over any lawful backend, with
    serialisers that round-trip and a clock past the epoch, [handle] and [ack] on a
    flow in a phase return exactly what the machine returns, leave the flow in the
    machine's next phase, touch no key but the flow's own checkpoint, and keep
    every stored checkpoint under its own flow's key. *)
Theorem runner_refines clock w id initial ph :
  (∀ i, clock i ≠ None) → at_phase w id ph → checkpoints_wf (rt_storage w) →
  (∀ ev, ∃ w', handle clock w id initial ev = (w', (spec_handle id initial ph ev).2)
     ∧ at_phase w' id (spec_handle id initial ph ev).1 ∧ frame id w w'
     ∧ checkpoints_wf (rt_storage w'))
  ∧ (∀ k, ∃ w', ack clock w id k = (w', (spec_ack id ph k).2)
       ∧ at_phase w' id (spec_ack id ph k).1 ∧ frame id w w' ∧ checkpoints_wf (rt_storage w')).
Proof.
  intros Hclock Hph Hwf. split.
  - intros ev. destruct (handle_refines clock w id initial ph ev Hclock Hph) as (w' & -> & Hp & Hf).
    exists w'. split; [done|]. split; [done|]. split; [done|]. by eapply phase_checkpoints_wf.
  - intros k. destruct (ack_refines clock w id ph k Hclock Hph) as (w' & -> & Hp & Hf).
    exists w'. split; [done|]. split; [done|]. split; [done|]. by eapply phase_checkpoints_wf.
Qed.

(** ** Delivery across crashes *)

(** What the caller and the environment do to a flow: deliver an event,
    acknowledge, or crash, which loses the triage view and nothing else. *)
Inductive FlowOp := OpHandle (ev : Event) | OpAck (k : nat) | OpCrash.

Definition flow_op (clock : nat → option Z) (id : string) (initial : St) (w : Runtime) (op : FlowOp)
  : Runtime :=
  match op with
  | OpHandle ev => (handle clock w id initial ev).1
  | OpAck k => (ack clock w id k).1
  | OpCrash => mkRuntime (rt_storage w) ∅
  end.

(** Acknowledgements that leave some of [len] actions outstanding. *)
Definition partial_op (len : nat) (op : FlowOp) : Prop :=
  match op with OpAck k => k < len | _ => True end.

(** The count the last acknowledgement left, starting from [n]. *)
Definition last_ack (n : nat) (ops : list FlowOp) : nat :=
  foldl (λ n op, match op with OpAck k => k | _ => n end) n ops.

Lemma pending_persists clock w id initial s ev r n ops :
  (∀ i, clock i ≠ None) → try_apply f s ev = Some r → n < length (tr_actions r) →
  Forall (partial_op (length (tr_actions r))) ops → at_phase w id (Pending s ev n) →
  at_phase (foldl (flow_op clock id initial) w ops) id (Pending s ev (last_ack n ops))
  ∧ last_ack n ops < length (tr_actions r).
Proof.
  intros Hclock Hr Hn Hops. revert n Hn w. induction Hops as [|op ops Hop _ IH]; intros n Hn w Hw; [done|].
  simpl. unfold last_ack. simpl. destruct op as [ev'|k|]; simpl in Hop; (apply IH; [done|]); cbn [flow_op].
  - destruct (handle_refines clock w id initial (Pending s ev n) ev' Hclock Hw) as (w' & -> & Hp & _).
    simpl in Hp. rewrite Hr in Hp. by rewrite (proj2 (Nat.leb_gt _ _) Hn) in Hp.
  - destruct (ack_refines clock w id (Pending s ev n) k Hclock Hw) as (w' & -> & Hp & _).
    simpl in Hp. rewrite Hr in Hp. by rewrite (proj2 (Nat.ltb_lt _ _) Hop) in Hp.
  - done.
Qed.

(** No action is lost: once a transition with actions is pending, then after any
    number of crashes, incoming events and acknowledgements that leave some of the
    actions outstanding, the next call re-delivers exactly the actions not yet
    acknowledged, in order; and acknowledging all of them, and only that, moves the
    flow to the transition's next state or completes it. *)
Theorem no_action_lost clock w id initial s ev r n ops :
  (∀ i, clock i ≠ None) → try_apply f s ev = Some r → n < length (tr_actions r) →
  at_phase w id (Pending s ev n) → Forall (partial_op (length (tr_actions r))) ops →
  let w' := foldl (flow_op clock id initial) w ops in
  (∀ ev', (handle clock w' id initial ev').2 =
     Ok (Some (mkOutcome (tr_state r) (drop (last_ack n ops) (tr_actions r)) false)))
  ∧ drop (last_ack n ops) (tr_actions r) ≠ []
  ∧ ∀ k, length (tr_actions r) ≤ k → at_phase (ack clock w' id k).1 id (spec_finish r).
Proof.
  intros Hclock Hr Hn Hw Hops w'.
  destruct (pending_persists clock w id initial s ev r n ops) as [Hp Hlt]; try done.
  split; [|split].
  - intros ev'. destruct (handle_refines clock w' id initial _ ev' Hclock Hp) as (w2 & -> & _).
    simpl. rewrite Hr. by rewrite (proj2 (Nat.leb_gt _ _) Hlt).
  - intros Hd. apply (f_equal length) in Hd. rewrite length_drop in Hd. simpl in Hd. lia.
  - intros k Hk. destruct (ack_refines clock w' id _ k Hclock Hp) as (w2 & -> & Hp2 & _).
    simpl in Hp2 |- *. rewrite Hr in Hp2. by rewrite (proj2 (Nat.ltb_ge _ _) Hk) in Hp2.
Qed.

(** ** Triage *)

Definition entry_of (c : Checkpoint) : TriageEntry :=
  mkTriageEntry (cp_flow_id c) (cp_flow_kind c) (cp_step c) (cp_updated_at c).

Lemma checkpoint_key_inj a b : checkpoint_key a = checkpoint_key b → a = b.
Proof. apply app_str_inj_l. Qed.

Lemma discover_keys_spec s t keys :
  checkpoints_wf s → (∀ k, k ∈ keys → is_Some (world s !! k) ∧ starts_with CHECKPOINT_PREFIX k = true) →
  ∃ t', discover_keys s t keys = Ok t'
    ∧ ∀ id e, t' !! id = Some e ↔
        (∃ c, checkpoint_key id ∈ keys ∧ world s !! checkpoint_key id = Some (checkpoint_to_json c)
              ∧ e = entry_of c)
        ∨ (checkpoint_key id ∉ keys ∧ t !! id = Some e).
Proof.
  intros Hwf. revert t. induction keys as [|k keys IH]; intros t Hk; simpl.
  { exists t. split; [done|]. intros id e. set_solver. }
  destruct (Hk k) as [[raw Hraw] Hpre]; [left|].
  destruct (Hwf k raw Hraw Hpre) as (c & -> & Hkey).
  unfold storage_err. rewrite get_state_law, Hraw. simpl. rewrite checkpoint_codec.
  destruct (IH (triage_record t (cp_flow_id c) (cp_flow_kind c) (cp_step c) (cp_updated_at c)))
    as (t' & -> & Ht'); [intros; apply Hk; by right|].
  exists t'. split; [done|]. intros id e. rewrite Ht'. unfold triage_record.
  destruct (decide (id = cp_flow_id c)) as [->|Hne].
  - rewrite lookup_insert_eq. rewrite <- Hkey. split.
    + intros [(c' & Hin & Hc' & ->)|[Hn [= <-]]]; left.
      * exists c'. split; [by right | done].
      * exists c. split; [left | done].
    + intros [(c' & _ & Hc' & ->)|[Hn _]]; [|set_solver].
      rewrite Hraw in Hc'. injection Hc' as Hjson. apply (f_equal checkpoint_of_json) in Hjson.
      rewrite !checkpoint_codec in Hjson. injection Hjson as <-.
      destruct (decide (k ∈ keys)); [left; by exists c | by right].
  - rewrite lookup_insert_ne by done.
    assert (checkpoint_key id ≠ k) as Hkne.
    { rewrite Hkey. by intros ?%checkpoint_key_inj. }
    assert (∀ l, checkpoint_key id ∈ k :: l ↔ checkpoint_key id ∈ l) as Hcons by set_solver.
    split.
    + intros [(c' & Hin & H)|[Hn H]]; [left; exists c'; by rewrite Hcons | right; by rewrite Hcons].
    + intros [(c' & Hin & H)|[Hn H]]; rewrite Hcons in *; [left; by exists c' | by right].
Qed.

(** A restarted triage view is exact: discovery over a lawful backend whose
    checkpoints sit under their own keys succeeds, and a flow is in the view if and
    only if it has a checkpoint, with the kind, step and time stored there. *)
Theorem discover_exact s :
  checkpoints_wf s →
  ∃ t, discover s = Ok t
    ∧ ∀ id e, t !! id = Some e ↔
        ∃ c, world s !! checkpoint_key id = Some (checkpoint_to_json c) ∧ e = entry_of c.
Proof.
  intros Hwf. unfold discover, storage_err. rewrite list_state_keys_law. simpl.
  assert (∀ k, k ∈ sorted_keys_with CHECKPOINT_PREFIX (world s) ↔
    is_Some (world s !! k) ∧ starts_with CHECKPOINT_PREFIX k = true) as Hkeys.
  { intros k. rewrite sorted_keys_with_elem. tauto. }
  destruct (discover_keys_spec s ∅ (sorted_keys_with CHECKPOINT_PREFIX (world s)) Hwf) as (t & -> & Ht).
  { intros k Hk. by apply Hkeys. }
  exists t. split; [done|]. intros id e. rewrite Ht, lookup_empty. split.
  - intros [(c & _ & Hc & ->)|[_ [=]]]. by exists c.
  - intros (c & Hc & ->). left. exists c. split; [|done]. apply Hkeys. rewrite Hc.
    split; [done|]. apply starts_with_app.
Qed.

End runner.
