(* ===== verification/Flows.v ===== *)
(** The business flows (glasschain-workflows: receipt_flow.rs,
    attestation_flow.rs, purchase_flow.rs, recall_flow.rs).

    Each flow is a table of transitions over canonical records; one Module per
    flow.  The theorems: two organizations with mirrored configurations run the
    purchase protocol to settlement on each other's records; a recall stays on its
    configured lot and only moves forward; what the flows emit is accepted by the
    record validator once signed; a dispute's reason never reaches a record; and
    re-submitting an emission leaves the ledger's pool unchanged. *)

From S2P Require Import Prelude Types Asset WriteSet Canonical Chain Capability Policy Ledger Storage Workflow.

(** [CanonicalRecord::new] followed by an assignment of [record_id], which
    replaces the fresh UUID. *)
Definition record_with_id (id : string) (occurred_at : Z) (schema : string)
    (payload : gmap string Value) (issuer : string) : CanonicalRecord :=
  CanonicalRecord_new id occurred_at schema payload issuer.

(** [record.payload.get(k).and_then(Value::as_str) == Some(s)] *)
Definition payload_is (r : CanonicalRecord) (k s : string) : bool :=
  bool_decide ((payload r !! k ≫= as_str) = Some s).

(** [matches!(event, Event::Woken(reason) if p(reason))] *)
Definition woken (p : string → bool) (ev : Event) : bool :=
  match ev with Woken reason => p reason | _ => false end.

Definition committed (p : CanonicalRecord → bool) (ev : Event) : bool :=
  match ev with RecordCommitted r => p r | _ => false end.

(** An anchored lot record. *)
Definition is_anchored_lot (r : CanonicalRecord) : bool :=
  (schema_id r ==? "lot") && is_some (commitment r).

(** ** Shipment to receipt (receipt_flow.rs) *)

Module Receipt.

Inductive ReceiptFlowState :=
| AwaitingLot
| LotAnchored (lot_ref lot_commitment : string)
| Completed (receipt_ref : string).

#[global] Instance receipt_step : FlowState ReceiptFlowState := λ s,
  match s with
  | AwaitingLot => "awaiting_lot"
  | LotAnchored _ _ => "lot_anchored"
  | Completed _ => "completed"
  end.

Definition AnchorLotTransition : Transition ReceiptFlowState :=
  mkTransition "AnchorLot"
    (λ s ev, match s with AwaitingLot => committed is_anchored_lot ev | _ => false end)
    (λ s ev, match ev with
             | RecordCommitted lot =>
                 match commitment lot with
                 | Some c => mkResult (LotAnchored (record_id lot) c) [] false
                 | None => unchanged s
                 end
             | _ => unchanged s
             end).

Record ReceiptConfig := mkReceiptConfig {
  receiver_id : string;
  rc_issuer : string;
  received_on : string }.

Definition build_receipt (shipment : CanonicalRecord) (t : ReceiptConfig) : CanonicalRecord :=
  record_with_id ("receipt:" +:+ record_id shipment) (add64 (occurred_at shipment) 1)
    "delivery_receipt"
    (list_to_map [("shipment_ref", VString (record_id shipment));
                  ("receiver_id", VString (receiver_id t));
                  ("received_at", VString (received_on t))])
    (rc_issuer t).

Definition ShipmentToReceiptTransition (t : ReceiptConfig) : Transition ReceiptFlowState :=
  mkTransition "ShipmentToReceipt"
    (λ s ev, match s with
             | LotAnchored lot _ =>
                 committed (λ r, (schema_id r ==? "shipment") && payload_is r "lot_ref" lot) ev
             | _ => false
             end)
    (λ s ev, match ev with
             | RecordCommitted shipment =>
                 let receipt := build_receipt shipment t in
                 mkResult (Completed (record_id receipt)) [EmitRecord receipt] true
             | _ => unchanged s
             end).

Definition shipment_receipt_flow (t : ReceiptConfig) : FlowRunner ReceiptFlowState :=
  mkRunner "shipment_receipt" [AnchorLotTransition; ShipmentToReceiptTransition t].

End Receipt.

(** ** Certification and audit (attestation_flow.rs) *)

Module Attestation.
Section attestation.
Context `{E : Env}.

Record AttestationConfig := mkAttestationConfig {
  family : string;
  at_issuer : string;
  scope : string;
  valid_from : string;
  valid_to : string;
  at_issued_at : Z }.

Inductive AttestationFlowState :=
| AwaitingLot
| LotAnchored (lot_ref lot_commitment : string)
| Completed (record_ref : string).

#[global] Instance attestation_step : FlowState AttestationFlowState := λ s,
  match s with
  | AwaitingLot => "awaiting_lot"
  | LotAnchored _ _ => "lot_anchored"
  | Completed _ => "completed"
  end.

Definition AnchorLotTransition : Transition AttestationFlowState :=
  mkTransition "AnchorLot"
    (λ s ev, match s with AwaitingLot => committed is_anchored_lot ev | _ => false end)
    (λ s ev, match ev with
             | RecordCommitted lot =>
                 match commitment lot with
                 | Some c => mkResult (LotAnchored (record_id lot) c) [] false
                 | None => unchanged s
                 end
             | _ => unchanged s
             end).

(** The digest of the embedded evidence manifest. *)
Definition manifest_digest (lot_commitment : string) (c : AttestationConfig) : string :=
  sha256 ("manifest|" +:+ lot_commitment +:+ "|" +:+ scope c +:+ "|" +:+ valid_from c +:+ "|"
          +:+ valid_to c).

Definition attestation_payload (lot_ref lot_commitment : string) (c : AttestationConfig)
  : gmap string Value :=
  list_to_map [("lot_ref", VString lot_ref); ("issuer", VString (at_issuer c));
    ("scope", VString (scope c)); ("valid_from", VString (valid_from c));
    ("valid_to", VString (valid_to c)); ("status", VString "valid");
    ("evidence_manifest", VObject {[ "manifest_commitment" :=
       VString (manifest_digest lot_commitment c) ]})].

Definition build_attestation (lot_ref lot_commitment : string) (c : AttestationConfig)
  : CanonicalRecord :=
  let r := record_with_id (family c +:+ ":" +:+ lot_ref) (at_issued_at c) (family c)
             (attestation_payload lot_ref lot_commitment c) (at_issuer c) in
  set_commitment r (Some (record_commitment r)).

Definition EmitAttestationTransition (c : AttestationConfig) : Transition AttestationFlowState :=
  mkTransition "EmitAttestation"
    (λ s ev, match s with LotAnchored _ _ => woken (str_eqb "attest") ev | _ => false end)
    (λ s ev, match s, ev with
             | LotAnchored lot com, Woken _ =>
                 let r := build_attestation lot com c in
                 mkResult (Completed (record_id r)) [EmitRecord r] true
             | _, _ => unchanged s
             end).

Definition set_family (c : AttestationConfig) (fam : string) : AttestationConfig :=
  mkAttestationConfig fam (at_issuer c) (scope c) (valid_from c) (valid_to c) (at_issued_at c).

Definition attestation_flow (fam : string) (c : AttestationConfig)
  : FlowRunner AttestationFlowState :=
  mkRunner "attestation" [AnchorLotTransition; EmitAttestationTransition (set_family c fam)].

Definition certification_flow (c : AttestationConfig) : FlowRunner AttestationFlowState :=
  attestation_flow "quality_certification" c.

Definition audit_flow (c : AttestationConfig) : FlowRunner AttestationFlowState :=
  attestation_flow "audit_attestation" c.

End attestation.
End Attestation.

(** ** Purchase to settlement (purchase_flow.rs) *)

Module Purchase.

Record PurchaseFlowConfig := mkPurchaseConfig {
  org : string;
  counterparty : string;
  product_id : string;
  quantity : Z;
  currency : string;
  lot_ref : string;
  rfq_id : string;
  negotiated_at : Z;
  delivery_on : string }.

Inductive PurchaseFlowState :=
| RfqIssued (rfq_id : string)
| QuoteAccepted (rfq_id quote_id : string)
| AwaitingShipment (po_ref : string)
| AwaitingPurchaseOrder
| PoAccepted (po_ref : string)
| AwaitingReceipt (po_ref shipment_ref : string)
| Delivered (po_ref receipt_ref : string)
| Disputed (po_ref receipt_ref reason : string)
| Settled (po_ref : string).

#[global] Instance purchase_step : FlowState PurchaseFlowState := λ s,
  match s with
  | RfqIssued _ => "rfq_issued"
  | QuoteAccepted _ _ => "quote_accepted"
  | AwaitingShipment _ => "awaiting_shipment"
  | AwaitingPurchaseOrder => "awaiting_purchase_order"
  | PoAccepted _ => "po_accepted"
  | AwaitingReceipt _ _ => "awaiting_receipt"
  | Delivered _ _ => "delivered"
  | Disputed _ _ _ => "disputed"
  | Settled _ => "settled"
  end.

Definition QUOTE_ACCEPTED_PREFIX : string := "quote-accepted:".

(** [reason[n..]] *)
Definition suffix_from (n : nat) (s : string) : string := of_bytes (drop n (bytes s)).

Definition AcceptQuoteTransition : Transition PurchaseFlowState :=
  mkTransition "AcceptQuote"
    (λ s ev, match s with
             | RfqIssued _ => woken (starts_with QUOTE_ACCEPTED_PREFIX) ev
             | _ => false
             end)
    (λ s ev, match s, ev with
             | RfqIssued rfq, Woken reason =>
                 mkResult (QuoteAccepted rfq (suffix_from (slen QUOTE_ACCEPTED_PREFIX) reason))
                   [] false
             | _, _ => unchanged s
             end).

Definition build_purchase_order (rfq : string) (c : PurchaseFlowConfig) : CanonicalRecord :=
  record_with_id ("po:" +:+ rfq) (negotiated_at c) "purchase_order"
    (list_to_map [("product_id", VString (product_id c)); ("buyer_id", VString (org c));
       ("seller_id", VString (counterparty c)); ("quantity", VNumber (PosInt (quantity c)));
       ("currency", VString (currency c))])
    (org c).

Definition CommitPurchaseOrderTransition (c : PurchaseFlowConfig) : Transition PurchaseFlowState :=
  mkTransition "CommitPurchaseOrder"
    (λ s ev, match s with QuoteAccepted _ _ => woken (str_eqb "commit-po") ev | _ => false end)
    (λ s ev, match s, ev with
             | QuoteAccepted rfq _, Woken _ =>
                 let po := build_purchase_order rfq c in
                 mkResult (AwaitingShipment (record_id po)) [EmitRecord po] false
             | _, _ => unchanged s
             end).

Definition AcceptPurchaseOrderTransition (c : PurchaseFlowConfig) : Transition PurchaseFlowState :=
  mkTransition "AcceptPurchaseOrder"
    (λ s ev, match s with
             | AwaitingPurchaseOrder =>
                 committed (λ r, (schema_id r ==? "purchase_order")
                   && payload_is r "buyer_id" (counterparty c)
                   && payload_is r "seller_id" (org c)) ev
             | _ => false
             end)
    (λ s ev, match ev with
             | RecordCommitted po => mkResult (PoAccepted (record_id po)) [] false
             | _ => unchanged s
             end).

Definition shipment_timestamp (c : PurchaseFlowConfig) : option Z :=
  checked_add64 (negotiated_at c) 1.

Definition build_shipment (po_ref : string) (occurred_at : Z) (c : PurchaseFlowConfig)
  : CanonicalRecord :=
  record_with_id ("shipment:" +:+ po_ref +:+ ":" +:+ lot_ref c) occurred_at "shipment"
    (list_to_map [("lot_ref", VString (lot_ref c)); ("from_org", VString (org c));
       ("to_org", VString (counterparty c))])
    (org c).

Definition ShipOrderTransition (c : PurchaseFlowConfig) : Transition PurchaseFlowState :=
  mkTransition "ShipOrder"
    (λ s ev, match s with PoAccepted _ => woken (str_eqb "ship") ev | _ => false end)
    (λ s ev, match s, ev with
             | PoAccepted po, Woken _ =>
                 match shipment_timestamp c with
                 | None => unchanged s
                 | Some t =>
                     let r := build_shipment po t c in
                     mkResult (AwaitingReceipt po (record_id r)) [EmitRecord r] false
                 end
             | _, _ => unchanged s
             end).

Definition RecordDeliveryTransition (c : PurchaseFlowConfig) : Transition PurchaseFlowState :=
  mkTransition "RecordDelivery"
    (λ s ev, match s with
             | AwaitingShipment po =>
                 committed (λ r, (schema_id r ==? "shipment")
                   && payload_is r "lot_ref" (lot_ref c)
                   && payload_is r "from_org" (counterparty c)
                   && payload_is r "to_org" (org c)
                   && starts_with ("shipment:" +:+ po +:+ ":") (record_id r)) ev
             | _ => false
             end)
    (λ s ev, match s, ev with
             | AwaitingShipment po, RecordCommitted shipment =>
                 let receipt := Receipt.build_receipt shipment
                   (Receipt.mkReceiptConfig (org c) (org c) (delivery_on c)) in
                 mkResult (Delivered po (record_id receipt)) [EmitRecord receipt] false
             | _, _ => unchanged s
             end).

Definition AwaitSettlementTransition : Transition PurchaseFlowState :=
  mkTransition "AwaitSettlement"
    (λ s ev, match s with
             | AwaitingReceipt _ shipment =>
                 committed (λ r, (schema_id r ==? "delivery_receipt")
                   && payload_is r "shipment_ref" shipment) ev
             | _ => false
             end)
    (λ s ev, match s, ev with
             | AwaitingReceipt po _, RecordCommitted receipt =>
                 mkResult (Delivered po (record_id receipt)) [] false
             | _, _ => unchanged s
             end).

Definition RaiseDisputeTransition : Transition PurchaseFlowState :=
  mkTransition "RaiseDispute"
    (λ s ev, match s with Delivered _ _ => woken (starts_with "dispute:") ev | _ => false end)
    (λ s ev, match s, ev with
             | Delivered po receipt, Woken reason =>
                 mkResult (Disputed po receipt (suffix_from (slen "dispute:") reason)) [] false
             | _, _ => unchanged s
             end).

Definition SettleTransition : Transition PurchaseFlowState :=
  mkTransition "Settle"
    (λ s ev, match s with
             | Delivered _ _ | Disputed _ _ _ => woken (str_eqb "settle") ev
             | _ => false
             end)
    (λ s ev, match s with
             | Delivered po _ | Disputed po _ _ => mkResult (Settled po) [] true
             | _ => unchanged s
             end).

Definition buyer_flow (c : PurchaseFlowConfig) : FlowRunner PurchaseFlowState :=
  mkRunner "purchase_to_settlement"
    [AcceptQuoteTransition; CommitPurchaseOrderTransition c; RecordDeliveryTransition c;
     RaiseDisputeTransition; SettleTransition].

Definition seller_flow (c : PurchaseFlowConfig) : FlowRunner PurchaseFlowState :=
  mkRunner "purchase_to_settlement"
    [AcceptPurchaseOrderTransition c; ShipOrderTransition c; AwaitSettlementTransition;
     RaiseDisputeTransition; SettleTransition].

End Purchase.

(** ** Recall lifecycle (recall_flow.rs) *)

Module Recall.

Record RecallConfig := mkRecallConfig {
  rl_issuer : string;
  rl_lot_ref : string;
  rl_issued_at : Z }.

Inductive RecallFlowState :=
| AwaitingLot
| LotAnchored (lot_ref lot_commitment : string)
| Recalled (lot_ref recall_ref reason : string)
| RecallActive (lot_ref recall_ref reason : string)
| Completed (recall_ref : string).

#[global] Instance recall_step : FlowState RecallFlowState := λ s,
  match s with
  | AwaitingLot => "awaiting_lot"
  | LotAnchored _ _ => "lot_anchored"
  | Recalled _ _ _ => "recalled"
  | RecallActive _ _ _ => "recall_active"
  | Completed _ => "completed"
  end.

Definition RecallAnchorLotTransition (c : RecallConfig) : Transition RecallFlowState :=
  mkTransition "AnchorLot"
    (λ s ev, match s with
             | AwaitingLot => committed (λ r, is_anchored_lot r && (record_id r ==? rl_lot_ref c)) ev
             | _ => false
             end)
    (λ s ev, match ev with
             | RecordCommitted lot =>
                 match commitment lot with
                 | Some com => mkResult (LotAnchored (record_id lot) com) [] false
                 | None => unchanged s
                 end
             | _ => unchanged s
             end).

Definition build_recall (lot_ref reason status : string) (c : RecallConfig) : CanonicalRecord :=
  record_with_id
    (if status ==? "issued" then "recall:" +:+ lot_ref
     else "recall:" +:+ lot_ref +:+ ":" +:+ status)
    (rl_issued_at c) "recall"
    (list_to_map [("lot_ref", VString lot_ref); ("reason", VString reason);
       ("status", VString status); ("issued_by", VString (rl_issuer c))])
    (rl_issuer c).

Definition IssueRecallTransition (c : RecallConfig) : Transition RecallFlowState :=
  mkTransition "IssueRecall"
    (λ s ev, match s with LotAnchored _ _ => woken (starts_with "recall:") ev | _ => false end)
    (λ s ev, match s, ev with
             | LotAnchored lot _, Woken reason =>
                 let why := default "" (strip_prefix "recall:" reason) in
                 let r := build_recall lot why "issued" c in
                 mkResult (Recalled lot (record_id r) why) [EmitRecord r] false
             | _, _ => unchanged s
             end).

Definition ActivateRecallTransition (c : RecallConfig) : Transition RecallFlowState :=
  mkTransition "ActivateRecall"
    (λ s ev, match s with Recalled _ _ _ => woken (str_eqb "activate") ev | _ => false end)
    (λ s ev, match s, ev with
             | Recalled lot _ reason, Woken _ =>
                 let r := build_recall lot reason "active" c in
                 mkResult (RecallActive lot (record_id r) reason) [EmitRecord r] false
             | _, _ => unchanged s
             end).

Definition CompleteRecallTransition (c : RecallConfig) : Transition RecallFlowState :=
  mkTransition "CompleteRecall"
    (λ s ev, match s with RecallActive _ _ _ => woken (str_eqb "complete") ev | _ => false end)
    (λ s ev, match s, ev with
             | RecallActive lot _ reason, Woken _ =>
                 let r := build_recall lot reason "completed" c in
                 mkResult (Completed (record_id r)) [EmitRecord r] true
             | _, _ => unchanged s
             end).

Definition recall_flow (c : RecallConfig) : FlowRunner RecallFlowState :=
  mkRunner "recall" [RecallAnchorLotTransition c; IssueRecallTransition c;
                     ActivateRecallTransition c; CompleteRecallTransition c].

End Recall.

(** ** Custodian responses: quarantine and dispute (recall_flow.rs) *)

Module Response.

Record RecallResponseConfig := mkResponseConfig {
  rp_org : string;
  rp_lot_ref : string;
  responded_at : Z }.

Inductive RecallResponseState :=
| WatchingLot (lot_ref : string)
| RecallObserved (lot_ref recall_ref : string)
| Responded (lot_ref response_ref : string).

#[global] Instance response_step : FlowState RecallResponseState := λ s,
  match s with
  | WatchingLot _ => "watching_lot"
  | RecallObserved _ _ => "recall_observed"
  | Responded _ _ => "responded"
  end.

Definition ObserveRecallTransition (c : RecallResponseConfig) : Transition RecallResponseState :=
  mkTransition "ObserveRecall"
    (λ s ev, match s with
             | WatchingLot lot =>
                 committed (λ r, (schema_id r ==? "recall") && payload_is r "lot_ref" lot) ev
             | _ => false
             end)
    (λ s ev, match ev with
             | RecordCommitted r => mkResult (RecallObserved (rp_lot_ref c) (record_id r)) [] false
             | _ => unchanged s
             end).

Definition build_response (lot_ref transformation_type : string) (c : RecallResponseConfig)
  : CanonicalRecord :=
  record_with_id ("transformation:" +:+ lot_ref +:+ ":" +:+ transformation_type) (responded_at c)
    "inventory_transformation"
    (list_to_map [("lot_ref", VString lot_ref); ("transformation_type", VString transformation_type)])
    (rp_org c).

Definition wake_matches (transformation_type reason : string) : bool :=
  if transformation_type ==? "quarantine" then reason ==? "quarantine"
  else if transformation_type ==? "disputed"
  then (reason ==? "dispute") || starts_with "dispute:" reason
  else reason ==? transformation_type.

Definition RespondTransition (c : RecallResponseConfig) (transformation_type : string)
  : Transition RecallResponseState :=
  mkTransition "Respond"
    (λ s ev, match s with
             | RecallObserved _ _ => woken (wake_matches transformation_type) ev
             | _ => false
             end)
    (λ s ev, match s, ev with
             | RecallObserved lot _, Woken _ =>
                 let r := build_response lot transformation_type c in
                 mkResult (Responded lot (record_id r)) [EmitRecord r] true
             | _, _ => unchanged s
             end).

Definition response_flow (kind : string) (c : RecallResponseConfig) (transformation_type : string)
  : FlowRunner RecallResponseState :=
  mkRunner kind [ObserveRecallTransition c; RespondTransition c transformation_type].

Definition quarantine_flow (c : RecallResponseConfig) : FlowRunner RecallResponseState :=
  response_flow "quarantine" c "quarantine".

Definition dispute_flow (c : RecallResponseConfig) : FlowRunner RecallResponseState :=
  response_flow "dispute" c "disputed".

End Response.

(** ** Driving a flow *)

(** One event on a flow whose actions are acknowledged: an event no transition
    matches is ignored. *)
Definition drive {St} (f : FlowRunner St) (sa : St * list Action) (ev : Event) : St * list Action :=
  match try_apply f sa.1 ev with
  | Some r => (tr_state r, sa.2 ++ tr_actions r)
  | None => sa
  end.

Definition run_flow {St} (f : FlowRunner St) (s : St) (evs : list Event) : St * list Action :=
  foldl (drive f) (s, []) evs.

(** An invariant of the driven steps holds along any event sequence. *)
Lemma run_flow_invariant {St} (f : FlowRunner St) (P : list Event → St * list Action → Prop) s evs :
  P [] (s, []) →
  (∀ pre ev sa, P pre sa → P (pre ++ [ev]) (drive f sa ev)) →
  P evs (run_flow f s evs).
Proof.
  intros H0 Hstep. unfold run_flow. induction evs as [|ev evs IH] using rev_ind; [done|].
  rewrite foldl_app. simpl. by apply Hstep.
Qed.

(** *** The purchase protocol *)

Lemma suffix_from_app p s : Purchase.suffix_from (slen p) (p +:+ s) = s.
Proof.
  unfold Purchase.suffix_from. rewrite bytes_app.
  by rewrite <- length_bytes, drop_app_length, of_bytes_bytes.
Qed.

Lemma payload_is_intro r k s : payload r !! k = Some (VString s) → payload_is r k s = true.
Proof. intros H. unfold payload_is. rewrite H. by apply bool_decide_eq_true. Qed.

Section deal.
Import Purchase.
Context (cb cs : PurchaseFlowConfig).

(** The seller's configuration mirrors the buyer's. *)
Definition mirrored : Prop :=
  org cs = counterparty cb ∧ counterparty cs = org cb ∧ lot_ref cs = lot_ref cb
  ∧ (0 ≤ negotiated_at cs < U64_MAX)%Z.

Definition deal_po : CanonicalRecord := build_purchase_order (rfq_id cb) cb.
Definition deal_shipment : CanonicalRecord :=
  build_shipment (record_id deal_po) (negotiated_at cs + 1) cs.
Definition deal_receipt : CanonicalRecord :=
  Receipt.build_receipt deal_shipment (Receipt.mkReceiptConfig (org cb) (org cb) (delivery_on cb)).

Lemma buyer_quote q :
  try_apply (buyer_flow cb) (RfqIssued (rfq_id cb)) (Woken (QUOTE_ACCEPTED_PREFIX +:+ q)) =
  Some (mkResult (QuoteAccepted (rfq_id cb) q) [] false).
Proof.
  unfold try_apply. cbn [transitions buyer_flow List.find AcceptQuoteTransition t_matches woken].
  rewrite starts_with_app.
  exact (f_equal (λ id, Some (mkResult (QuoteAccepted (rfq_id cb) id) [] false))
           (suffix_from_app QUOTE_ACCEPTED_PREFIX q)).
Qed.

Lemma buyer_delivery :
  mirrored →
  try_apply (buyer_flow cb) (AwaitingShipment (record_id deal_po)) (RecordCommitted deal_shipment) =
  Some (mkResult (Delivered (record_id deal_po) (record_id deal_receipt))
          [EmitRecord deal_receipt] false).
Proof.
  intros (Ho & Hc & Hl & _). unfold try_apply. cbn [transitions buyer_flow List.find].
  cbn [t_matches AcceptQuoteTransition CommitPurchaseOrderTransition RecordDeliveryTransition committed].
  rewrite (payload_is_intro _ "lot_ref"), (payload_is_intro _ "from_org"), (payload_is_intro _ "to_org")
    by (simpl; by rewrite ?Ho, ?Hc, ?Hl).
  replace (starts_with _ _) with true; [done|]. symmetry.
  change (record_id deal_shipment) with ("shipment:" +:+ record_id deal_po +:+ ":" +:+ lot_ref cs).
  rewrite <- (app_str_assoc (record_id deal_po) ":" (lot_ref cs)),
    <- (app_str_assoc "shipment:" (record_id deal_po +:+ ":") (lot_ref cs)). apply starts_with_app.
Qed.

Lemma seller_accept :
  mirrored →
  try_apply (seller_flow cs) AwaitingPurchaseOrder (RecordCommitted deal_po) =
  Some (mkResult (PoAccepted (record_id deal_po)) [] false).
Proof.
  intros (Ho & Hc & _). unfold try_apply. cbn [transitions seller_flow List.find].
  cbn [t_matches AcceptPurchaseOrderTransition committed].
  by rewrite (payload_is_intro _ "buyer_id"), (payload_is_intro _ "seller_id") by (simpl; by rewrite ?Ho, ?Hc).
Qed.

Lemma seller_ship :
  mirrored →
  try_apply (seller_flow cs) (PoAccepted (record_id deal_po)) (Woken "ship") =
  Some (mkResult (AwaitingReceipt (record_id deal_po) (record_id deal_shipment))
          [EmitRecord deal_shipment] false).
Proof.
  intros (_ & _ & _ & Ht).
  assert (shipment_timestamp cs = Some (negotiated_at cs + 1)%Z) as Hs.
  { unfold shipment_timestamp, checked_add64. rewrite (proj2 (Z.leb_le _ _)); [done|lia]. }
  unfold try_apply. simpl. by rewrite Hs.
Qed.

Lemma seller_receipt :
  try_apply (seller_flow cs) (AwaitingReceipt (record_id deal_po) (record_id deal_shipment))
    (RecordCommitted deal_receipt) =
  Some (mkResult (Delivered (record_id deal_po) (record_id deal_receipt)) [] false).
Proof.
  unfold try_apply. cbn [transitions seller_flow List.find].
  cbn [t_matches AcceptPurchaseOrderTransition ShipOrderTransition AwaitSettlementTransition committed].
  by rewrite (payload_is_intro _ "shipment_ref").
Qed.

Lemma run_flow_cons {St} (f : FlowRunner St) s acts ev evs r :
  try_apply f s ev = Some r →
  foldl (drive f) (s, acts) (ev :: evs) = foldl (drive f) (tr_state r, acts ++ tr_actions r) evs.
Proof. intros H. simpl. unfold drive at 2. simpl. by rewrite H. Qed.

(** Two mirrored parties settle: the records each side emits are exactly those the
    other side is waiting for, so that the quote, the order, the shipment and the
    receipt bring both flows to settlement on the same purchase order; the same
    holds through a dispute raised by either side after delivery. *)
Theorem deal_settles q (why : option string) :
  mirrored →
  let dispute := match why with Some w => [Woken ("dispute:" +:+ w)] | None => [] end in
  run_flow (buyer_flow cb) (RfqIssued (rfq_id cb))
    ([Woken (QUOTE_ACCEPTED_PREFIX +:+ q); Woken "commit-po"; RecordCommitted deal_shipment]
       ++ dispute ++ [Woken "settle"])
    = (Settled (record_id deal_po), [EmitRecord deal_po; EmitRecord deal_receipt])
  ∧ run_flow (seller_flow cs) AwaitingPurchaseOrder
      ([RecordCommitted deal_po; Woken "ship"; RecordCommitted deal_receipt]
         ++ dispute ++ [Woken "settle"])
    = (Settled (record_id deal_po), [EmitRecord deal_shipment]).
Proof.
  intros Hm dispute. unfold run_flow.
  assert (∀ (f : FlowRunner PurchaseFlowState) po rc acts,
    (∀ ev, committed (λ _, true) ev = false →
       try_apply f (Delivered po rc) ev = try_apply (buyer_flow cb) (Delivered po rc) ev) →
    (∀ w ev, try_apply f (Disputed po rc w) ev = try_apply (buyer_flow cb) (Disputed po rc w) ev) →
    foldl (drive f) (Delivered po rc, acts) (dispute ++ [Woken "settle"]) = (Settled po, acts)) as Hend.
  { intros f po rc acts H1 H2. unfold dispute. destruct why as [w|]; cbn [app].
    - erewrite run_flow_cons.
      2:{ rewrite H1 by done. unfold try_apply.
          cbn [transitions buyer_flow List.find AcceptQuoteTransition CommitPurchaseOrderTransition
            RecordDeliveryTransition RaiseDisputeTransition t_matches woken].
          rewrite starts_with_app. reflexivity. }
      cbn [tr_state tr_actions t_apply RaiseDisputeTransition]. erewrite run_flow_cons; [|rewrite H2; reflexivity].
      simpl. by rewrite !app_nil_r.
    - erewrite run_flow_cons; [|rewrite H1 by done; reflexivity]. simpl. by rewrite !app_nil_r. }
  split.
  - cbn [app]. erewrite run_flow_cons by apply buyer_quote. cbn [tr_state tr_actions app].
    erewrite run_flow_cons; [|reflexivity]. cbn [tr_state tr_actions app].
    change (record_id (build_purchase_order (rfq_id cb) cb)) with (record_id deal_po).
    erewrite run_flow_cons by (by apply buyer_delivery). cbn [tr_state tr_actions app].
    by apply Hend.
  - cbn [app]. erewrite run_flow_cons by (by apply seller_accept). cbn [tr_state tr_actions app].
    erewrite run_flow_cons by (by apply seller_ship). cbn [tr_state tr_actions app].
    erewrite run_flow_cons by apply seller_receipt. cbn [tr_state tr_actions app].
    apply Hend; by intros; destruct ev.
Qed.

End deal.

(** *** Recalls *)

Section recall.
Import Recall.
Context (c : RecallConfig).

Definition trail (why : string) : list Action :=
  (λ status, EmitRecord (build_recall (rl_lot_ref c) why status c))
    <$> ["issued"; "active"; "completed"].

(** The configured lot was committed with its anchor. *)
Definition lot_committed (evs : list Event) : Prop :=
  ∃ r, RecordCommitted r ∈ evs ∧ is_anchored_lot r = true ∧ record_id r = rl_lot_ref c.

Definition recall_inv (evs : list Event) (sa : RecallFlowState * list Action) : Prop :=
  let '(s, acts) := sa in
  match s with
  | AwaitingLot => acts = []
  | LotAnchored lot _ => lot = rl_lot_ref c ∧ acts = [] ∧ lot_committed evs
  | Recalled lot _ why => lot = rl_lot_ref c ∧ acts = take 1 (trail why) ∧ lot_committed evs
  | RecallActive lot _ why => lot = rl_lot_ref c ∧ acts = take 2 (trail why) ∧ lot_committed evs
  | Completed _ => (∃ why, acts = trail why) ∧ lot_committed evs
  end.

Lemma lot_committed_mono evs ev : lot_committed evs → lot_committed (evs ++ [ev]).
Proof. intros (r & Hr & H). exists r. split; [apply elem_of_app; by left | done]. Qed.

Lemma recall_inv_step evs ev sa :
  recall_inv evs sa → recall_inv (evs ++ [ev]) (drive (recall_flow c) sa ev).
Proof.
  destruct sa as [s acts]. unfold drive, try_apply. simpl.
  destruct s as [|lot com|lot rf why|lot rf why|rf]; simpl.
  - intros ->. destruct ev as [r| | |]; simpl; try done.
    destruct (is_anchored_lot r) eqn:Ha; [|done]. destruct (record_id r ==? rl_lot_ref c) eqn:Hid; [|done].
    simpl. unfold is_anchored_lot in Ha. bool_hyps. destruct Ha as [Hs Hc].
    destruct (commitment r) as [com|] eqn:Hcom; [|done]. simpl. split; [done|]. split; [done|].
    exists r. split; [apply elem_of_app; right; left|]. split; [|done].
    unfold is_anchored_lot. by rewrite Hs, Hcom.
  - intros (-> & -> & Hlot). apply (lot_committed_mono _ ev) in Hlot.
    destruct ev as [| |reason|]; try done. cbn [woken].
    destruct (starts_with "recall:" reason); done.
  - intros (-> & -> & Hlot). apply (lot_committed_mono _ ev) in Hlot.
    destruct ev as [| |reason|]; try done. cbn [woken].
    destruct (str_eqb "activate" reason); done.
  - intros (-> & -> & Hlot). apply (lot_committed_mono _ ev) in Hlot.
    destruct ev as [| |reason|]; try done. cbn [woken].
    destruct (str_eqb "complete" reason); [|done]. split; [by exists why | done].
  - intros (Hwhy & Hlot). apply (lot_committed_mono _ ev) in Hlot. by destruct ev.
Qed.

Lemma NoDup_three {A} (x y z : A) : x ≠ y → x ≠ z → y ≠ z → NoDup [x; y; z].
Proof. intros. apply NoDup_cons. split; [set_solver|]. apply NoDup_cons. split; [set_solver|]. apply NoDup_singleton. Qed.

Lemma recall_ids_distinct why :
  NoDup ((λ status, record_id (build_recall (rl_lot_ref c) why status c))
           <$> ["issued"; "active"; "completed"]).
Proof.
  set (L := rl_lot_ref c).
  assert (∀ st, "recall:" +:+ L ≠ "recall:" +:+ L +:+ ":" +:+ st) as Hne.
  { intros st H%app_str_inj_l. apply (f_equal slen) in H. rewrite !slen_app in H.
    change (slen ":") with 1 in H. lia. }
  apply NoDup_three; [apply Hne | apply Hne|].
  intros H%app_str_inj_l%app_str_inj_l. discriminate H.
Qed.

(** A recall stays on its lot and only moves forward: whatever events arrive, the
    records the flow emits are a prefix of issued, active, completed for the
    configured lot with one reason, each under its own record id, and none is
    emitted before that lot's anchored record was committed. *)
Theorem recall_trail evs s acts :
  run_flow (recall_flow c) AwaitingLot evs = (s, acts) →
  ∃ why, acts `prefix_of` trail why
    ∧ NoDup ((λ status, record_id (build_recall (rl_lot_ref c) why status c))
               <$> ["issued"; "active"; "completed"])
    ∧ (acts ≠ [] → lot_committed evs).
Proof.
  intros Hrun. pose proof (run_flow_invariant (recall_flow c) recall_inv AwaitingLot evs) as Hinv.
  rewrite Hrun in Hinv. specialize (Hinv eq_refl ltac:(intros; by apply recall_inv_step)).
  assert (∀ why, NoDup ((λ status, record_id (build_recall (rl_lot_ref c) why status c))
    <$> ["issued"; "active"; "completed"])) as Hnd.
  { intros why. apply recall_ids_distinct. }
  destruct s as [|lot com|lot rf why|lot rf why|rf]; simpl in Hinv.
  - exists "". subst. split; [by eexists|]. split; [apply Hnd | done].
  - destruct Hinv as (_ & -> & Hl). exists "". split; [by eexists|]. split; [apply Hnd | done].
  - destruct Hinv as (_ & -> & Hl). exists why. split; [by eexists|]. split; [apply Hnd | done].
  - destruct Hinv as (_ & -> & Hl). exists why. split; [by eexists|]. split; [apply Hnd | done].
  - destruct Hinv as ((why & ->) & Hl). exists why. split; [done|]. split; [apply Hnd | done].
Qed.

End recall.

(** *** Custodian responses *)

Section response.
Import Response.
Context (c : RecallResponseConfig).

(** The one record a response flow can emit. *)
Definition the_response (kind : string) : Action :=
  EmitRecord (build_response (rp_lot_ref c) kind c).

(** What a custodian reveals does not depend on what it was told: whatever events
    reach a dispute flow, including wake-ups that carry the dispute's reason, it
    emits nothing or exactly one record, which is a function of its configuration
    alone; and it emits it only after a committed recall of the watched lot. *)
Theorem dispute_reason_private lot evs s acts :
  run_flow (dispute_flow c) (WatchingLot lot) evs = (s, acts) →
  (acts = [] ∨ acts = [the_response "disputed"])
  ∧ (acts ≠ [] → ∃ r, RecordCommitted r ∈ evs ∧ schema_id r = "recall"
       ∧ payload r !! "lot_ref" ≫= as_str = Some lot).
Proof.
  set (P := λ (evs : list Event) (sa : RecallResponseState * list Action),
    let seen := ∃ r, RecordCommitted r ∈ evs ∧ schema_id r = "recall"
       ∧ payload r !! "lot_ref" ≫= as_str = Some lot in
    match sa.1 with
    | WatchingLot l => l = lot ∧ sa.2 = []
    | RecallObserved l _ => l = rp_lot_ref c ∧ sa.2 = [] ∧ seen
    | Responded _ _ => sa.2 = [the_response "disputed"] ∧ seen
    end).
  assert (∀ pre ev sa, P pre sa → P (pre ++ [ev]) (drive (dispute_flow c) sa ev)) as Hstep.
  { intros pre ev [st a]. unfold P. cbn zeta. simpl.
    assert (∀ Q, (∃ r, RecordCommitted r ∈ pre ∧ Q r) → ∃ r, RecordCommitted r ∈ pre ++ [ev] ∧ Q r) as Hmono.
    { intros Q (r & Hr & H). exists r. split; [apply elem_of_app; by left | done]. }
    destruct st as [l|l rf|l rf]; simpl; unfold drive, try_apply; simpl.
    - intros [-> ->]. destruct ev as [r| | |]; simpl; try done.
      destruct (schema_id r ==? "recall") eqn:Hs; [|done]. unfold payload_is.
      destruct (bool_decide _) eqn:Hl; [|done]. bool_hyps. simpl. split; [done|]. split; [done|].
      exists r. split; [apply elem_of_app; right; left | done].
    - intros (-> & -> & Hseen). apply Hmono in Hseen. destruct ev as [| |reason|]; try done.
      cbn [woken]. by destruct (wake_matches "disputed" reason).
    - intros (-> & Hseen). apply Hmono in Hseen. by destruct ev. }
  intros Hrun. pose proof (run_flow_invariant (dispute_flow c) P (WatchingLot lot) evs) as Hinv.
  rewrite Hrun in Hinv. specialize (Hinv ltac:(done) Hstep). unfold P in Hinv. cbn zeta in Hinv.
  destruct s; simpl in Hinv.
  - destruct Hinv as [_ ->]. split; [by left | done].
  - destruct Hinv as (_ & -> & Hs). split; [by left | done].
  - destruct Hinv as (-> & Hs). split; [by right | done].
Qed.

End response.

(** *** Emitted records are valid *)

Section validity.
Context `{E : Env}.

Lemma validate_record_intro d r :
  find_family v1 r = Ok d → check_envelope r = Ok tt →
  looks_like_legacy_asset (payload r) = false → check_required d (payload r) = Ok tt →
  check_whitelist d (payload r) = Ok tt → check_family d r = Ok tt →
  check_status d (payload r) = Ok tt → check_anchor d r = Ok tt → extensions r = ∅ →
  validate_record r = Ok tt.
Proof.
  intros H1 H2 H3 H4 H5 H6 H7 H8 H9. unfold validate_record, validate_record_with.
  by rewrite H2, H1, H3, H4, H5, H6, H7, H8, H9.
Qed.

Lemma present_string s : s ≠ "" → is_present (Some (VString s)) = true.
Proof. intros H. simpl. by apply negb_true_iff, is_empty_false. Qed.

Lemma signed_envelope id t schema p iss sigs :
  id ≠ "" → iss ≠ "" → sigs ≠ [] →
  check_envelope (with_signatures (record_with_id id t schema p iss) sigs) = Ok tt.
Proof.
  intros Hid Hiss Hs. unfold check_envelope. simpl.
  rewrite (proj2 (is_empty_false _) Hid), (proj2 (is_empty_false _) Hiss).
  by rewrite bool_decide_eq_false_2.
Qed.

Lemma check_required_intro d p :
  Forall (λ k, is_present (p !! k) = true) (sd_required d) → check_required d p = Ok tt.
Proof. intros H. apply each_result_Ok. eapply Forall_impl; [exact H|]. intros k Hk. by rewrite Hk. Qed.

(** Discharge the parts of the validator that do not depend on field values. *)
Ltac emitted_valid d :=
  apply (validate_record_intro d);
    [by vm_compute | apply signed_envelope | by vm_compute | apply check_required_intro; repeat constructor
    | by vm_compute | | | | done].

Context (sigs : list RecordSignature) (signed : sigs ≠ []).

Lemma purchase_order_valid rfq c :
  Purchase.org c ≠ "" → Purchase.counterparty c ≠ "" → Purchase.product_id c ≠ "" →
  Purchase.currency c ≠ "" →
  validate_record (with_signatures (Purchase.build_purchase_order rfq c) sigs) = Ok tt.
Proof.
  intros. emitted_valid (mkSchema "purchase_order" 1
      ["product_id"; "buyer_id"; "seller_id"; "quantity"; "currency"] [] false None).
  all: try done. all: by apply present_string.
Qed.

Lemma shipment_valid po t c :
  Purchase.org c ≠ "" → Purchase.counterparty c ≠ "" → Purchase.lot_ref c ≠ "" →
  validate_record (with_signatures (Purchase.build_shipment po t c) sigs) = Ok tt.
Proof.
  intros. emitted_valid (mkSchema "shipment" 1 ["lot_ref"; "from_org"; "to_org"] [] false None).
  all: try done. all: by apply present_string.
Qed.

Lemma iso_date_nonempty d : TrustScore.is_valid_iso8601_date d = true → d ≠ "".
Proof. by intros H ->. Qed.

Lemma receipt_valid shipment c :
  record_id shipment ≠ "" → Receipt.receiver_id c ≠ "" → Receipt.rc_issuer c ≠ "" →
  TrustScore.is_valid_iso8601_date (Receipt.received_on c) = true →
  validate_record (with_signatures (Receipt.build_receipt shipment c) sigs) = Ok tt.
Proof.
  intros Hs Hr Hi Hd. emitted_valid (mkSchema "delivery_receipt" 1
    ["shipment_ref"; "receiver_id"; "received_at"] [] false None).
  all: try done. all: try (by apply present_string).
  - by apply present_string, iso_date_nonempty.
  - change (check_family _ _) with (check_delivery_receipt (payload (Receipt.build_receipt shipment c))).
    unfold check_delivery_receipt. change (get_str _ _) with (Receipt.received_on c). by rewrite Hd.
Qed.

Lemma recall_valid lot why status c :
  lot ≠ "" → why ≠ "" → Recall.rl_issuer c ≠ "" → status ∈ ["issued"; "active"; "completed"] →
  validate_record (with_signatures (Recall.build_recall lot why status c) sigs) = Ok tt.
Proof.
  intros Hl Hw Hi Hst. emitted_valid (mkSchema "recall" 1 ["lot_ref"; "reason"; "status"; "issued_by"] [] false
      (Some ["issued"; "active"; "completed"])).
  all: try done. all: try (by apply present_string).
  - by destruct (status ==? "issued").
  - apply present_string. intros ->. by repeat (apply elem_of_cons in Hst as [[=]|Hst]); apply elem_of_nil in Hst.
  - unfold check_status. cbn [sd_status_values]. change (get_str _ _) with status.
    by rewrite (proj2 (mem_elem _ _) Hst).
Qed.

Lemma response_valid lot kind c :
  lot ≠ "" → kind ≠ "" → Response.rp_org c ≠ "" →
  validate_record (with_signatures (Response.build_response lot kind c) sigs) = Ok tt.
Proof.
  intros. emitted_valid (mkSchema "inventory_transformation" 1 ["lot_ref"; "transformation_type"] [] false None).
  all: try done. all: by apply present_string.
Qed.

(** SHA-256 digests are rendered as 64 hexadecimal digits. *)
Context (sha256_hex : ∀ s, is_hex64 (sha256 s) = true).

Lemma attestation_valid lot com c fam :
  fam ∈ ["quality_certification"; "audit_attestation"] →
  lot ≠ "" → Attestation.at_issuer c ≠ "" → Attestation.scope c ≠ "" →
  TrustScore.is_valid_iso8601_date (Attestation.valid_from c) = true →
  TrustScore.is_valid_iso8601_date (Attestation.valid_to c) = true →
  str_ltb (Attestation.valid_to c) (Attestation.valid_from c) = false →
  validate_record (with_signatures
    (Attestation.build_attestation lot com (Attestation.set_family c fam)) sigs) = Ok tt.
Proof.
  intros Hfam Hl Hi Hsc Hf Ht Hw.
  set (d := mkSchema fam 1
      ["lot_ref"; "issuer"; "scope"; "valid_from"; "valid_to"; "status"; "evidence_manifest"]
      [] true (Some ["valid"; "suspended"; "revoked"])).
  set (p := Attestation.attestation_payload lot com (Attestation.set_family c fam)).
  set (r := with_signatures _ sigs).
  assert (check_certification fam p = Ok tt) as Hcert.
  { unfold check_certification. change (get_str p "valid_from") with (Attestation.valid_from c).
    change (get_str p "valid_to") with (Attestation.valid_to c). rewrite Hf, Ht, Hw. simpl.
    change (manifest_commitment p) with
      (Attestation.manifest_digest com (Attestation.set_family c fam)).
    unfold Attestation.manifest_digest. by rewrite sha256_hex. }
  assert (check_required d p = Ok tt) as Hreq.
  { apply check_required_intro. repeat constructor; try done; try (by apply present_string);
      by apply present_string, iso_date_nonempty. }
  assert (find_family v1 r = Ok d ∧ check_family d r = check_certification fam p ∧ fam ≠ "") as (Hfind & Hcf & Hne).
  { apply elem_of_cons in Hfam as [->|Hfam]; [by vm_compute|].
    apply list_elem_of_singleton in Hfam as ->. by vm_compute. }
  apply (validate_record_intro d);
    [exact Hfind | | by vm_compute | exact Hreq | by vm_compute | by rewrite Hcf | by vm_compute | | done].
  - unfold check_envelope. change (issuer r) with (Attestation.at_issuer c).
    change (record_id r) with (fam +:+ ":" +:+ lot). change (signatures r) with sigs.
    rewrite (proj2 (is_empty_false _) Hi), (proj2 (is_empty_false (fam +:+ _))) by (by destruct fam).
    by rewrite bool_decide_eq_false_2.
  - unfold check_anchor. simpl. by rewrite str_eqb_refl.
Qed.

(** What the flows emit is accepted once signed: with configurations whose fields
    are filled in and whose dates are ISO dates in order, every purchase order,
    shipment, receipt, recall status, custodian response and attestation record
    passes the v1 record validator when the caller attaches signatures. *)
Theorem emitted_records_valid cp rfq po t shipment cr cl lot why status cq kind ca com fam :
  Purchase.org cp ≠ "" → Purchase.counterparty cp ≠ "" → Purchase.product_id cp ≠ "" →
  Purchase.currency cp ≠ "" → Purchase.lot_ref cp ≠ "" →
  record_id shipment ≠ "" → Receipt.receiver_id cr ≠ "" → Receipt.rc_issuer cr ≠ "" →
  TrustScore.is_valid_iso8601_date (Receipt.received_on cr) = true →
  lot ≠ "" → why ≠ "" → Recall.rl_issuer cl ≠ "" → status ∈ ["issued"; "active"; "completed"] →
  kind ≠ "" → Response.rp_org cq ≠ "" →
  fam ∈ ["quality_certification"; "audit_attestation"] →
  Attestation.at_issuer ca ≠ "" → Attestation.scope ca ≠ "" →
  TrustScore.is_valid_iso8601_date (Attestation.valid_from ca) = true →
  TrustScore.is_valid_iso8601_date (Attestation.valid_to ca) = true →
  str_ltb (Attestation.valid_to ca) (Attestation.valid_from ca) = false →
  Forall (λ r, validate_record (with_signatures r sigs) = Ok tt)
    [ Purchase.build_purchase_order rfq cp; Purchase.build_shipment po t cp;
      Receipt.build_receipt shipment cr; Recall.build_recall lot why status cl;
      Response.build_response lot kind cq;
      Attestation.build_attestation lot com (Attestation.set_family ca fam) ].
Proof.
  intros. repeat constructor.
  - by apply purchase_order_valid.
  - by apply shipment_valid.
  - by apply receipt_valid.
  - by apply recall_valid.
  - by apply response_valid.
  - by apply attestation_valid.
Qed.

(** An empty reason makes a recall unpublishable: the wake-up [recall:] is matched
    and moves the flow to its issued state, but the record it emits is one the
    validator rejects, whoever signs it. *)
Theorem empty_recall_reason_rejected c lot com :
  try_apply (Recall.recall_flow c) (Recall.LotAnchored lot com) (Woken "recall:") =
    Some (mkResult (Recall.Recalled lot ("recall:" +:+ lot) "")
            [EmitRecord (Recall.build_recall lot "" "issued" c)] false)
  ∧ is_ok (validate_record (with_signatures (Recall.build_recall lot "" "issued" c) sigs)) = false.
Proof.
  split; [done|]. destruct (is_ok _) eqn:Hok; [|done]. apply is_ok_true in Hok as [[] Hok].
  apply validate_record_inv in Hok as (d & (Hd & Hid & _ & _ & Hreq & _) & _). exfalso.
  assert (Forall (λ d, sd_schema_id d = "recall" → "reason" ∈ sd_required d) SCHEMA_V1) as HF.
  { by repeat constructor; simpl; try discriminate; intros _; set_solver. }
  rewrite Forall_forall in HF. pose proof (proj1 (Forall_forall _ _) Hreq) as Hr. specialize (Hr "reason" (HF d Hd (eq_sym Hid))). done.
Qed.

End validity.

(** *** Emissions and the ledger *)

Section emission.
Context `{E : Env}.

(** How a host submits an action: emissions carry their record's id. *)
Definition action_tx (now : Z) (a : Action) : Transaction :=
  match a with
  | EmitTransaction tx => tx
  | EmitRecord r => Transaction_with_id now (record_id r) (KCanonicalRecord r)
  end.

Fixpoint submit (now : Z) (acts : list Action) (l : Ledger)
  : Ledger * list (result CoreError unit) :=
  match acts with
  | [] => (l, [])
  | a :: acts =>
      let '(l, r) := add_transaction l (action_tx now a) in
      let '(l, rs) := submit now acts l in (l, r :: rs)
  end.

Definition known (l : Ledger) (id : string) : Prop :=
  id ∈ chain_ids (chain l) ∨ id ∈ pending_ids l.

Lemma add_known l tx l' r :
  indexes_ok l → add_transaction l tx = (l', r) →
  chain l' = chain l ∧ (is_ok r = true → indexes_ok l' ∧ known l' (tx_id tx))
  ∧ (∀ id, known l id → known l' id)
  ∧ (known l (tx_id tx) → pending_transactions l' = pending_transactions l).
Proof.
  intros Hidx Hadd. pose proof (add_transaction_cases l tx Hidx) as H. rewrite Hadd in H.
  destruct H as (Hc & _ & H). split; [done|]. unfold known, pending_ids in *. rewrite Hc.
  destruct r as [[]|e]; [|rewrite H; split; [done|]; split; [done | done]].
  destruct H as (Hok & _ & [(Hp & Hin)|(Hp & Hn1 & Hn2 & _)]); rewrite Hp.
  - split; [done|]. done.
  - rewrite fmap_app. split; [intros _; split; [done|]; right; apply elem_of_app; right; left|].
    split; [|tauto]. intros id [?|?]; [by left | right; apply elem_of_app; by left].
Qed.

Lemma submit_known now acts l l' rs :
  indexes_ok l → submit now acts l = (l', rs) → Forall (λ r, is_ok r = true) rs →
  indexes_ok l' ∧ chain l' = chain l ∧ (∀ id, known l id → known l' id)
  ∧ (∀ a, a ∈ acts → known l' (tx_id (action_tx now a))).
Proof.
  revert l rs. induction acts as [|a acts IH]; intros l rs Hidx; simpl.
  { intros [= <- <-] _. split; [done|]. split; [done|]. split; [done|]. by intros a Ha%elem_of_nil. }
  destruct (add_transaction l (action_tx now a)) as [l1 r1] eqn:Ha.
  destruct (submit now acts l1) as [l2 rs2] eqn:Hs. intros [= <- <-] [Hr1 Hrs]%Forall_cons.
  destruct (add_known l _ l1 r1 Hidx Ha) as (Hc1 & Hk1 & Hm1 & _). destruct (Hk1 Hr1) as [Hidx1 Hkn].
  destruct (IH l1 rs2 Hidx1 Hs Hrs) as (Hidx2 & Hc2 & Hm2 & Hall).
  split; [done|]. split; [congruence|]. split; [naive_solver|].
  intros b [->|Hb]%elem_of_cons; [by apply Hm2 | by apply Hall].
Qed.

Lemma submit_again now acts l l' rs :
  indexes_ok l → (∀ a, a ∈ acts → known l (tx_id (action_tx now a))) →
  submit now acts l = (l', rs) → Forall (λ r, is_ok r = true) rs →
  pending_transactions l' = pending_transactions l ∧ chain l' = chain l.
Proof.
  revert l rs. induction acts as [|a acts IH]; intros l rs Hidx Hkn; simpl.
  { by intros [= <- <-]. }
  destruct (add_transaction l (action_tx now a)) as [l1 r1] eqn:Ha.
  destruct (submit now acts l1) as [l2 rs2] eqn:Hs. intros [= <- <-] [Hr1 Hrs]%Forall_cons.
  destruct (add_known l _ l1 r1 Hidx Ha) as (Hc1 & Hk1 & Hm1 & Hsame).
  destruct (IH l1 rs2) as [H1 H2]; [by apply Hk1|intros b Hb; apply Hm1, Hkn; by right|done|done|].
  rewrite H1, H2, Hc1. split; [|done]. apply Hsame, Hkn. left.
Qed.

(** Exactly-once effects: when the actions of a transition were all accepted and
    any suffix of them is re-delivered after a crash and submitted again, at any
    later time, the pool and the chain are as after the first submission. *)
Theorem redelivery_exactly_once l now now' acts m l1 rs1 l2 rs2 :
  indexes_ok l →
  submit now acts l = (l1, rs1) → Forall (λ r, is_ok r = true) rs1 →
  submit now' (drop m acts) l1 = (l2, rs2) → Forall (λ r, is_ok r = true) rs2 →
  pending_transactions l2 = pending_transactions l1 ∧ chain l2 = chain l1.
Proof.
  intros Hidx H1 Hok1 H2 Hok2.
  destruct (submit_known now acts l l1 rs1 Hidx H1 Hok1) as (Hidx1 & _ & _ & Hall).
  apply (submit_again now' (drop m acts) l1 l2 rs2); try done.
  intros a Ha. assert (a ∈ acts) as Hin by (rewrite <- (take_drop m acts); apply elem_of_app; by right).
  specialize (Hall a Hin). by destruct a.
Qed.

(** Two custodians cannot both respond: the record id of a response names the lot
    and the kind of response but not the organization, so once one custodian's
    quarantine of a lot is known to the ledger, another organization's quarantine
    of the same lot is accepted and silently dropped. *)
Theorem second_custodian_dropped l now c1 c2 lot kind l1 l2 r :
  indexes_ok l → Response.rp_org c1 ≠ Response.rp_org c2 →
  add_transaction l (action_tx now (EmitRecord (Response.build_response lot kind c1))) = (l1, Ok tt) →
  add_transaction l1 (action_tx now (EmitRecord (Response.build_response lot kind c2))) = (l2, r) →
  Response.build_response lot kind c1 ≠ Response.build_response lot kind c2
  ∧ pending_transactions l2 = pending_transactions l1 ∧ chain l2 = chain l1.
Proof.
  intros Hidx Hne H1 H2. split.
  { intros Heq. apply (f_equal issuer) in Heq. done. }
  destruct (add_known l _ l1 _ Hidx H1) as (_ & Hk & _). destruct (Hk eq_refl) as [Hidx1 Hkn].
  destruct (add_known l1 _ l2 r Hidx1 H2) as (Hc & _ & _ & Hsame). split; [by apply Hsame | done].
Qed.

End emission.
