(* ===== verification/Scenario.v ===== *)
(** The demo scenario (demo: scenario.rs): parameters, companies, the transactions and
    private terms a round is made of, and the run state with its bookkeeping.

    Companies and roles come from the operator's parameters ([sanitized],
    [build_companies]); the builders make the offers, records, registrations and payloads;
    [RunState] holds what the page shows, in four groups of fields, and its operations are
    the methods of the code.  Fresh transaction ids and the clock are arguments.  The
    theorems: parameters end in their bounds, ids are distinct, offers stay within their
    bands, the records the honest companies sign pass the validator and the attackers'
    records do not, the cash and stock books say exactly what was moved, and the percentile
    and the rolling windows are what they say. *)

From S2P Require Import Prelude Types Asset Text Chain Canonical Capability Contracts Channel Flows.

Local Open Scope Z_scope.

(** ** Constants *)

Definition COLLECTION : string := "pricing".
Definition GTIN : string := "07891234100016".
Definition CONTRACT_ID : string := "auto-replenish".
Definition MANUAL_CONTRACT_ID : string := "manual-review".
Definition VALUE_CONTRACT_ID : string := "value-review".
Definition PREMIUM_CONTRACT_ID : string := "premium-review".
Definition CASH_START : Z := 10000000.
Definition MANUAL_MAX_PRICE : Z := 2000.
Definition VALUE_MAX_PRICE : Z := 1600.
Definition PREMIUM_MAX_PRICE : Z := 2400.
Definition CONTRACT_MAX_PRICE : Z := 1200.
Definition AUTO_QUANTITY_TIERS : list Z := [100; 125; 150; 200; 250; 300; 350; 400; 450; 500].
Definition MANUAL_QUANTITY_TIERS : list Z := [250; 300; 350; 400; 500].
Definition AUTO_PRICE_TIERS : list Z := [850; 900; 950; 1000; 1050; 1100; 1150; 1200].
Definition MANUAL_PRICE_TIERS : list Z := [1350; 1500; 1700; 1900; 2100; 2300].
Definition RETAIL_UNITS_PER_ROUND : Z := 100.
Definition STOCK_PRESSURE_DIVISOR : Z := 5000.
Definition PRESSURE_CAP : Z := 2.
Definition RETAIL_PRICE : Z := 1500.
Definition FEED_CAP : nat := 60.
Definition SECURITY_CAP : nat := 30.
Definition OFFER_CAP : nat := 80.
Definition COMMIT_WINDOW : nat := 64.

(** ** Parameters *)

Record SimParams := mkSimParams {
  manufacturers : Z; distributors : Z; logistics : Z; pharmacies : Z; regulators : Z;
  certifiers : Z; evil_nodes : Z; lots_per_round : Z; round_interval_ms : Z }.

Definition SimParams_defaults : SimParams := mkSimParams 3 2 2 3 1 2 2 3 400.

Definition clamp (z lo hi : Z) : Z := Z.min (Z.max z lo) hi.

Definition sanitized (p : SimParams) : SimParams :=
  mkSimParams (clamp (manufacturers p) 1 6) (clamp (distributors p) 1 5) (clamp (logistics p) 1 5)
    (clamp (pharmacies p) 1 6) (clamp (regulators p) 0 3) (clamp (certifiers p) 1 4)
    (clamp (evil_nodes p) 0 5) (clamp (lots_per_round p) 1 50) (clamp (round_interval_ms p) 0 10000).

(** ** Companies *)

Record Company := mkCompany {
  co_id : string; co_role : string; co_evil : bool; co_has_verifier : bool }.

(** [1..=count] *)
Definition one_to (count : Z) : list Z := seqZ 1 count.

Definition push_role (count : Z) (role : string) : list Company :=
  (λ i, mkCompany (role +:+ "-" +:+ pretty i) role false true) <$> one_to count.

Definition evil_company (i : Z) : Company :=
  let even := (i mod 2 =? 0) in
  mkCompany ("evil-" +:+ pretty i) (if even then "certifier" else "manufacturer") true (negb even).

Definition build_companies (p : SimParams) : list Company :=
  push_role (manufacturers p) "manufacturer" ++ push_role (distributors p) "distributor"
  ++ push_role (logistics p) "logistics" ++ push_role (pharmacies p) "pharmacy"
  ++ push_role (regulators p) "regulator" ++ push_role (certifiers p) "certifier"
  ++ (evil_company <$> one_to (evil_nodes p)).

Definition companies_of_role (companies : list Company) (role : string) : list string :=
  co_id <$> List.filter (λ c, (co_role c ==? role) && negb (co_evil c)) companies.

Definition pricing_member_ids (companies : list Company) : list string :=
  co_id <$> List.filter (λ c, negb (co_evil c) && negb (co_role c ==? "certifier")) companies.

Definition pricing_collection (companies : list Company) : Channel :=
  Channel_new (mkChannelConfig COLLECTION (pricing_member_ids companies)
    "demo pricing payloads (member-only)" None 3600).

(** ** Numbers and text *)

(** [{n:0w}] of the decimal text *)
Definition zero_pad (w : nat) (s : string) : string := of_bytes (replicate (w - slen s) zero) +:+ s.
Definition dec_pad (w : nat) (n : Z) : string := zero_pad w (pretty n).

(** [{n:x}] for a value below [16 ^ digits] *)
Fixpoint hex_digits (digits : nat) (n : Z) : string :=
  match digits with
  | O => ""
  | S d => hex_digits d (n / 16) +:+ hex_digit (n mod 16)
  end.

(** [{n:064x}] of a [u64]: 48 zeros and the sixteen digits of the number. *)
Definition hex64 (n : Z) : string := zero_pad 64 (hex_digits 16 n).

(** [s.contains(p)] *)
Fixpoint str_contains (p s : string) : bool :=
  starts_with p s || match s with EmptyString => false | String _ s => str_contains p s end.

(** The sorted position of a percentile. *)
Definition percentile (samples : list Z) (pct : Z) : Z :=
  match samples with
  | [] => 0
  | _ =>
      let len := Z.of_nat (length samples) in
      let idx := Z.min (len * pct / 100) (len - 1) in
      default 0 (sort_by Z.leb samples !! Z.to_nat idx)
  end.

(** ** Offers and contracts *)

Definition activation_tx `{Env} (now height : Z) : Transaction :=
  Transaction_with_id now ("cap:pdc:" +:+ pretty height)
    (KCapabilityActivation (mkCapabilityActivation "pdc" 1 (capability_hash "pdc" 1) height
       [mkRecordSignature "gov" "B" Ed25519])).

Definition contract_def (id buyer : string) (max_price max_quantity : Z) (auto_execute : bool)
    (max_lead_time_days : Z) : SmartContractDef :=
  mkSmartContractDef id buyer "SKU-DEMO"
    (mkPurchaseConditions max_price 1 max_quantity max_lead_time_days None "USD" auto_execute) None.

Definition contract_tx (now : Z) (uuid id buyer : string) (max_price max_quantity : Z)
    (auto_execute : bool) (max_lead_time_days : Z) : Transaction :=
  Transaction_with_id now uuid
    (KContractCreation (contract_def id buyer max_price max_quantity auto_execute max_lead_time_days)).

(** [tiers[i % len]] of a non-empty table. *)
Definition tier (tiers : list Z) (i : Z) : Z :=
  default 0 (tiers !! Z.to_nat (i mod Z.of_nat (length tiers))).

Definition offer_price (seq : Z) : Z :=
  if (seq mod 3 =? 0) then tier MANUAL_PRICE_TIERS (seq / 3)
  else tier AUTO_PRICE_TIERS (add64 ((seq * 5) mod (U64_MAX + 1)) (seq / 4)).

Definition offer_quantity (seq pressure : Z) : Z :=
  let tiers := if (CONTRACT_MAX_PRICE <? offer_price seq) then MANUAL_QUANTITY_TIERS
               else AUTO_QUANTITY_TIERS in
  let base := tier tiers (add64 ((seq * 7) mod (U64_MAX + 1)) (seq / 5)) in
  Z.min (add64 base (pressure * 50)) 500.

Definition manual_contract_for_price (price : Z) : string :=
  if (MANUAL_MAX_PRICE <? price) then PREMIUM_CONTRACT_ID
  else if (VALUE_MAX_PRICE <? price) then MANUAL_CONTRACT_ID
  else VALUE_CONTRACT_ID.

Definition offer_buyer (price : Z) : string :=
  let c := manual_contract_for_price price in
  if c ==? PREMIUM_CONTRACT_ID then "pharmacy-3"
  else if c ==? MANUAL_CONTRACT_ID then "pharmacy-1"
  else if c ==? VALUE_CONTRACT_ID then "pharmacy-2"
  else "pharmacy-1".

Definition manual_contract_for_buyer (buyer : string) : string :=
  if buyer ==? "pharmacy-2" then VALUE_CONTRACT_ID
  else if buyer ==? "pharmacy-3" then PREMIUM_CONTRACT_ID
  else MANUAL_CONTRACT_ID.

Definition offer_of (seq : Z) (seller : string) (pressure : Z) : SupplyOffer :=
  mkSupplyOffer "SKU-DEMO" "Demo Vaccine 10-Dose" seller (offer_quantity seq pressure)
    (offer_price seq) (3 + seq mod 4) "USD".

Definition supply_offer (now : Z) (uuid : string) (seq : Z) (seller : string) (pressure : Z) : Transaction :=
  Transaction_with_id now uuid (KSupplyOffer (offer_of seq seller pressure)).

(** The four contracts of the setup, in order. *)
Definition setup_contracts : list SmartContractDef :=
  [ contract_def CONTRACT_ID "pharmacy-1" CONTRACT_MAX_PRICE 100000 true 14;
    contract_def MANUAL_CONTRACT_ID "pharmacy-1" MANUAL_MAX_PRICE 4000 false 30;
    contract_def VALUE_CONTRACT_ID "pharmacy-2" VALUE_MAX_PRICE 3000 false 21;
    contract_def PREMIUM_CONTRACT_ID "pharmacy-3" PREMIUM_MAX_PRICE 5000 false 45 ].

(** ** Records and registrations *)

Section records.
Context `{E : Env}.

(** A fresh record with the id and the commitment the code then sets. *)
Definition anchored (uuid id schema : string) (payload : gmap string Value) (issuer : string) : CanonicalRecord :=
  let r := CanonicalRecord_new uuid 1700000000 schema payload issuer in
  let r := mkCanonicalRecord id (schema_id r) (schema_version r) (commitment r) (occurred_at r)
             (Types.issuer r) (signatures r) (pdc_ref r) (extensions r) (Types.payload r) in
  set_commitment r (Some (record_commitment r)).

Definition demo_lot_payload (seq : Z) : gmap string Value :=
  list_to_map [ ("lot_id", VString ("LOT-" +:+ pretty seq)); ("product_id", VString "SKU-DEMO");
                ("batch_number", VString ("B-" +:+ dec_pad 4 seq)) ].

Definition lot_record (uuid : string) (seq : Z) (manufacturer : string) : CanonicalRecord :=
  anchored uuid ("lot-" +:+ pretty seq) "lot" (demo_lot_payload seq) manufacturer.

Definition sign_record (r : CanonicalRecord) (signer : string) : CanonicalRecord :=
  with_signatures r (signatures r ++ [mkRecordSignature signer "B" Ed25519]).

Definition signed (now : Z) (r : CanonicalRecord) (signer : string) : Transaction :=
  let staged := sign_record r signer in
  Transaction_with_id now (record_id staged) (KCanonicalRecord staged).

Definition cert_payload (seq : Z) (issuer : string) : gmap string Value :=
  list_to_map [ ("lot_ref", VString ("lot-" +:+ pretty seq)); ("issuer", VString issuer);
    ("scope", VString "demo scope"); ("valid_from", VString "2026-09-16");
    ("valid_to", VString "2027-09-16"); ("status", VString "valid");
    ("evidence_manifest", VObject {[ "manifest_commitment" := VString (hex64 seq) ]}) ].

Definition cert_record (uuid : string) (seq : Z) (schema record_id issuer : string) : CanonicalRecord :=
  anchored uuid record_id schema (cert_payload seq issuer) issuer.
End records.

Definition demo_asset (custodian : string) (seq : Z) (evil_metadata : bool) : TraceableAsset :=
  let keep (s : string) : option string := if evil_metadata then None else Some s in
  mkTraceableAsset (Some GTIN) (Some ("B-" +:+ dec_pad 4 seq)) (Some "2027-06-30")
    (keep ("SN-BR-" +:+ dec_pad 6 seq)) (keep "MS 1.1234.0042.001-7")
    (keep "12.345.678/0001-99 (fictional)") "Demo Vaccine 10-Dose" custodian (Some "BR") (Some "2-8") 500.

Definition custody_tx (now : Z) (uuid : string) (seq : Z) (event_type custodian : string)
    (evil_metadata : bool) : Transaction :=
  Transaction_with_id now uuid
    (KAssetRegistration (mkTraceableAssetRegistration (demo_asset custodian seq evil_metadata) event_type
       custodian None)).

Definition retail_sale_tx (now : Z) (uuid company : string) (units seq : Z) : Transaction :=
  Transaction_with_id now uuid
    (KInventoryUpdate (mkInventoryUpdate "SKU-DEMO" company
       (if (units <=? I64_MAX) then - units else - I64_MAX - 1)
       ("retail sale to customers (batch " +:+ pretty seq +:+ ")"))).

Definition demo_asset_id (seq : Z) (evil_metadata : bool) : string :=
  if evil_metadata then "GTIN:" +:+ GTIN +:+ ":BATCH:B-" +:+ dec_pad 4 seq
  else "GTIN:" +:+ GTIN +:+ ":SN:SN-BR-" +:+ dec_pad 6 seq.

(** ** Private terms *)

Definition num (n : Z) : Value := VNumber (PosInt n).
Definition terms (kind : string) (seq : Z) (author : string) (fields : list (string * Value)) : Value :=
  VObject (list_to_map ([("kind", VString kind); ("lot", num seq); ("author", VString author)] ++ fields)).

Definition pricing_terms (seq pressure : Z) (manufacturer : string) : Value :=
  let list_price := offer_price seq in
  terms "pricing" seq manufacturer
    [ ("list_price_per_unit", num list_price);
      ("member_price_per_unit", num (list_price - list_price / 8));
      ("quantity", num (offer_quantity seq pressure)); ("currency", VString "USD");
      ("payment_terms", VString "net 60") ].

Definition storage_terms (seq : Z) (distributor : string) : Value :=
  terms "storage" seq distributor
    [ ("warehouse", VString ("DC-" +:+ distributor)); ("temp_range", VString "2-8°C");
      ("humidity", VString "≤60%"); ("retention_days", num 90);
      ("lot_release", VString "on certification") ].

Definition transit_terms (seq : Z) (logistics : string) : Value :=
  terms "transit" seq logistics
    [ ("carrier", VString logistics); ("route", VString "mfg → hub → pharmacy");
      ("transit_hours", num 36); ("cold_chain", VString "continuous");
      ("delivery_window", VString "next business day") ].

Definition process_terms (seq : Z) (manufacturer : string) : Value :=
  terms "process" seq manufacturer
    [ ("steps", VArray [VString "mixing"; VString "filling"; VString "packaging"]);
      ("batch_record", VString ("BR-" +:+ dec_pad 4 seq));
      ("gmp_line", VString ("line-" +:+ pretty (seq mod 3 + 1))); ("operator_shift", VString "B") ].

Definition intake_checklist (seq : Z) (distributor : string) : Value :=
  terms "intake" seq distributor
    [ ("checks", VArray [VString "seal integrity"; VString "cold-chain log"; VString "quantity match"]);
      ("quarantine_hours", num 24); ("accepted_by", VString distributor) ].

(** The two doubles 2.0 and 7.5 by their bits. *)
Definition temperature_log_terms (seq : Z) (logistics : string) : Value :=
  terms "temperature_log" seq logistics
    [ ("sensor", VString ("TS-" +:+ dec_pad 4 seq)); ("min_c", VNumber (Float 4611686018427387904));
      ("max_c", VNumber (Float 4620130267728707584)); ("samples_per_hour", num 4);
      ("excursions", num 0) ].

Definition certifier_evidence (seq : Z) (certifier : string) : Value :=
  terms "certification_evidence" seq certifier
    [ ("inspector", VString (certifier +:+ " field team"));
      ("findings", VString "batch conforms to GxP — no deviations observed");
      ("samples_tested", num 12); ("lab_reference", VString ("LAB-" +:+ dec_pad 4 seq));
      ("next_audit", VString "2027-03-16") ].

Definition regulator_notes (seq : Z) : Value :=
  terms "regulator_notes" seq "regulator-1"
    [ ("inspection", VString "routine market surveillance"); ("finding", VString "no deviations");
      ("follow_up_required", VBool false); ("inspector", VString "AnvisaDemo field officer") ].

(** [terms.get(key)] *)
Definition field (v : Value) (key : string) : option Value :=
  match v with VObject m => m !! key | _ => None end.
Definition str_field (v : Value) (key : string) : option string := field v key ≫= as_str.
Definition u64_field (v : Value) (key : string) : option Z := field v key ≫= as_u64.
Definition strs_field (v : Value) (key : string) : option (list string) :=
  match field v key ≫= as_array with Some l => Some (omap as_str l) | None => None end.

Section summary.
(** The text of a double: [{}] of the value, and [{:.2}] of the value over 100. *)
Context (f64_text cents_text : option Number → string).

Definition f64_field (v : Value) (key : string) : option Number :=
  match field v key with Some (VNumber n) => Some n | _ => None end.

Definition payload_summary (t : Value) : string :=
  let s key := default "—" (str_field t key) in
  let n key := pretty (default 0 (u64_field t key)) in
  let kind := default "terms" (str_field t "kind") in
  if kind ==? "storage" then
    s "warehouse" +:+ " · " +:+ s "temp_range" +:+ " · humidity " +:+ s "humidity" +:+ " · retain "
    +:+ n "retention_days" +:+ "d"
  else if kind ==? "transit" then
    s "route" +:+ " · " +:+ n "transit_hours" +:+ " h transit · " +:+ s "cold_chain" +:+ " cold chain · "
    +:+ s "delivery_window"
  else if kind ==? "process" then
    match strs_field t "steps" with Some l => String.concat " → " l | None => "steps" end
    +:+ " · batch " +:+ s "batch_record" +:+ " · " +:+ s "gmp_line" +:+ " · shift " +:+ s "operator_shift"
  else if kind ==? "intake" then
    "checks: " +:+ match strs_field t "checks" with Some l => String.concat ", " l | None => "—" end
    +:+ " · quarantine " +:+ n "quarantine_hours" +:+ " h"
  else if kind ==? "temperature_log" then
    s "sensor" +:+ " · " +:+ f64_text (f64_field t "min_c") +:+ "–" +:+ f64_text (f64_field t "max_c")
    +:+ " °C · " +:+ n "samples_per_hour" +:+ "/h · " +:+ n "excursions" +:+ " excursions"
  else if kind ==? "certification_evidence" then
    s "findings" +:+ " · " +:+ n "samples_tested" +:+ " samples · lab " +:+ s "lab_reference"
    +:+ " · next audit " +:+ s "next_audit"
  else if kind ==? "regulator_notes" then
    s "inspection" +:+ " · finding: " +:+ s "finding" +:+ " · " +:+ s "inspector"
  else
    "member $" +:+ cents_text (f64_field t "member_price_per_unit") +:+ " · list $"
    +:+ cents_text (f64_field t "list_price_per_unit") +:+ " · " +:+ n "quantity" +:+ " "
    +:+ s "currency" +:+ " · " +:+ s "payment_terms".
End summary.

(** ** The run state *)

Record LotStage := mkLotStage { ls_event_type : string; ls_custodian : string; ls_block : Z }.
Record LotView := mkLotView {
  lv_lot_ref : string; lv_status : string; lv_manufacturer : string; lv_trust_score : Z;
  lv_chain : list LotStage; lv_lineage_complete : bool; lv_trust_avg : Z; lv_flat_records : Z;
  lv_schema_compliant : bool }.
Record CertView := mkCertView {
  cv_record_id : string; cv_schema : string; cv_lot_ref : string; cv_issuer : string; cv_status : string }.
Record SecurityEvent := mkSecurityEvent {
  se_actor : string; se_action : string; se_outcome : string; se_detail : string; se_explanation : string }.
Record TxView := mkTxView {
  tv_id : string; tv_kind : string; tv_from : string; tv_to : string; tv_label : string; tv_height : Z }.
Record WmsRow := mkWmsRow {
  wr_company : string; wr_role : string; wr_product : string; wr_lots_here : Z; wr_units_here : Z;
  wr_received_units : Z; wr_dispatched_units : Z; wr_sold_units : Z; wr_stock_value_minor : Z;
  wr_sellable_units : Z }.
Record WmsSummary := mkWmsSummary {
  ws_members : Z; ws_total_units : Z; ws_total_value_minor : Z; ws_total_sold_units : Z; ws_low_stock : Z }.
Record OfferEvent := mkOfferEvent {
  oe_kind : string; oe_tx_id : string; oe_seller : string; oe_buyer : string; oe_product : string;
  oe_quantity : Z; oe_sold : Z; oe_price_per_unit : Z; oe_round : Z; oe_note : string }.
Record EdgeCount := mkEdgeCount { ec_from : string; ec_to : string; ec_count : Z }.
Record PdcEntry := mkPdcEntry { pe_collection : string; pe_commitments : list string }.
Record Metrics := mkMetrics {
  m_submitted : Z; m_rejected : Z; m_blocks : Z; m_lots : Z; m_elapsed_s : Z; m_tx_per_sec : Z;
  m_last_commit_ms : Z; m_commit_p50_ms : Z; m_commit_p95_ms : Z; m_commit_p99_ms : Z;
  m_pool_count : Z; m_pool_bytes : Z }.
Record FeedItem := mkFeedItem { fi_label : string; fi_height : Z }.
Record BlockView := mkBlockView {
  bv_height : Z; bv_hash : string; bv_previous_hash : string; bv_tx_count : Z; bv_timestamp : Z;
  bv_certified : bool }.
Record PostureRow := mkPostureRow {
  po_company : string; po_role : string; po_evil : bool; po_verifier : bool; po_certificate : bool;
  po_ocsp : string; po_collections : list string; po_peers : Z }.
Record ContractView := mkContractView {
  ct_id : string; ct_buyer : string; ct_product : string; ct_max_price_per_unit : Z;
  ct_max_quantity : Z; ct_auto_execute : bool; ct_executions : Z; ct_quantity_purchased : Z;
  ct_status : string }.
Record FlatRecordView := mkFlatView {
  fv_block : Z; fv_gtin : string; fv_batch : string; fv_serial : string; fv_custodian : string;
  fv_event : string; fv_trust : Z; fv_standard : bool; fv_missing : string }.
Record ComplianceView := mkCompliance {
  cl_schema_version : string; cl_fields_present : Z; cl_fields_total : Z; cl_compliant : Z;
  cl_non_compliant : Z; cl_critical : Z; cl_warnings : Z; cl_flat_records : Z;
  cl_standard_records : Z; cl_low_trust_records : Z; cl_lineages_checked : Z;
  cl_lineages_complete : Z; cl_avg_trust : Z; cl_recent : list FlatRecordView }.
Record RoundPoint := mkRoundPoint {
  rp_round : Z; rp_submitted : Z; rp_rejected : Z; rp_commit_ms : Z; rp_pool_count : Z;
  rp_tx_per_sec : Z; rp_produce_ms : Z; rp_payload_ms : Z; rp_submit_ms : Z; rp_settle_ms : Z;
  rp_project_ms : Z; rp_retail_ms : Z; rp_round_ms : Z }.
Record OrgView := mkOrgView {
  ov_id : string; ov_role : string; ov_evil : bool; ov_member_of : list string; ov_trust_score : Z;
  ov_records : Z }.

(** The fields of [RunState], grouped by what changes them: the stock and cash books, the
    logs of what happened, the projections of the chain, and the measurements. *)
Record Books := mkBooks {
  bk_wms : list WmsRow; bk_summary : WmsSummary; bk_cash : gmap string Z; bk_inventory : gmap string Z }.
Record Activity := mkActivity {
  ac_certs : list CertView; ac_security : list SecurityEvent; ac_offers : list OfferEvent;
  ac_edges : list EdgeCount; ac_pdc : list PdcEntry; ac_feed : list FeedItem;
  ac_transactions : list TxView }.
Record Projection := mkProjection {
  pj_lots : list LotView; pj_orgs : list OrgView; pj_blocks : list BlockView;
  pj_contracts : list ContractView; pj_compliance : ComplianceView; pj_last_projected_block : Z;
  pj_last_contract_block : Z; pj_trust_totals : gmap string (Z * Z); pj_batch_totals : gmap Z (Z * Z);
  pj_trust_total : Z * Z }.
Record Meter := mkMeter {
  mt_metrics : Metrics; mt_history : list RoundPoint; mt_started_ms : option Z; mt_commit_times : list Z }.

Record RunState := mkRun {
  rs_status : string; rs_round : Z; rs_chain_height : Z; rs_params : SimParams;
  rs_equivocations : list string; rs_posture : list PostureRow;
  rs_books : Books; rs_activity : Activity; rs_projection : Projection; rs_meter : Meter }.

(** Updates of one field. *)
Definition set_wms (x : list WmsRow) (a : Books) : Books :=
  mkBooks x (bk_summary a) (bk_cash a) (bk_inventory a).
Definition set_summary (x : WmsSummary) (a : Books) : Books :=
  mkBooks (bk_wms a) x (bk_cash a) (bk_inventory a).
Definition set_cash (x : gmap string Z) (a : Books) : Books :=
  mkBooks (bk_wms a) (bk_summary a) x (bk_inventory a).
Definition set_inventory (x : gmap string Z) (a : Books) : Books :=
  mkBooks (bk_wms a) (bk_summary a) (bk_cash a) x.

Definition set_certs (x : list CertView) (a : Activity) : Activity :=
  mkActivity x (ac_security a) (ac_offers a) (ac_edges a) (ac_pdc a) (ac_feed a) (ac_transactions a).
Definition set_security (x : list SecurityEvent) (a : Activity) : Activity :=
  mkActivity (ac_certs a) x (ac_offers a) (ac_edges a) (ac_pdc a) (ac_feed a) (ac_transactions a).
Definition set_offers (x : list OfferEvent) (a : Activity) : Activity :=
  mkActivity (ac_certs a) (ac_security a) x (ac_edges a) (ac_pdc a) (ac_feed a) (ac_transactions a).
Definition set_edges (x : list EdgeCount) (a : Activity) : Activity :=
  mkActivity (ac_certs a) (ac_security a) (ac_offers a) x (ac_pdc a) (ac_feed a) (ac_transactions a).
Definition set_pdc (x : list PdcEntry) (a : Activity) : Activity :=
  mkActivity (ac_certs a) (ac_security a) (ac_offers a) (ac_edges a) x (ac_feed a) (ac_transactions a).
Definition set_feed (x : list FeedItem) (a : Activity) : Activity :=
  mkActivity (ac_certs a) (ac_security a) (ac_offers a) (ac_edges a) (ac_pdc a) x (ac_transactions a).
Definition set_transactions (x : list TxView) (a : Activity) : Activity :=
  mkActivity (ac_certs a) (ac_security a) (ac_offers a) (ac_edges a) (ac_pdc a) (ac_feed a) x.

Definition set_lots (x : list LotView) (a : Projection) : Projection :=
  mkProjection x (pj_orgs a) (pj_blocks a) (pj_contracts a) (pj_compliance a)
    (pj_last_projected_block a) (pj_last_contract_block a) (pj_trust_totals a) (pj_batch_totals a)
    (pj_trust_total a).
Definition set_orgs (x : list OrgView) (a : Projection) : Projection :=
  mkProjection (pj_lots a) x (pj_blocks a) (pj_contracts a) (pj_compliance a)
    (pj_last_projected_block a) (pj_last_contract_block a) (pj_trust_totals a) (pj_batch_totals a)
    (pj_trust_total a).
Definition set_blocks (x : list BlockView) (a : Projection) : Projection :=
  mkProjection (pj_lots a) (pj_orgs a) x (pj_contracts a) (pj_compliance a) (pj_last_projected_block
    a) (pj_last_contract_block a) (pj_trust_totals a) (pj_batch_totals a) (pj_trust_total a).
Definition set_contracts (x : list ContractView) (a : Projection) : Projection :=
  mkProjection (pj_lots a) (pj_orgs a) (pj_blocks a) x (pj_compliance a) (pj_last_projected_block a)
    (pj_last_contract_block a) (pj_trust_totals a) (pj_batch_totals a) (pj_trust_total a).
Definition set_compliance (x : ComplianceView) (a : Projection) : Projection :=
  mkProjection (pj_lots a) (pj_orgs a) (pj_blocks a) (pj_contracts a) x (pj_last_projected_block a)
    (pj_last_contract_block a) (pj_trust_totals a) (pj_batch_totals a) (pj_trust_total a).
Definition set_last_projected_block (x : Z) (a : Projection) : Projection :=
  mkProjection (pj_lots a) (pj_orgs a) (pj_blocks a) (pj_contracts a) (pj_compliance a) x
    (pj_last_contract_block a) (pj_trust_totals a) (pj_batch_totals a) (pj_trust_total a).
Definition set_last_contract_block (x : Z) (a : Projection) : Projection :=
  mkProjection (pj_lots a) (pj_orgs a) (pj_blocks a) (pj_contracts a) (pj_compliance a)
    (pj_last_projected_block a) x (pj_trust_totals a) (pj_batch_totals a) (pj_trust_total a).
Definition set_trust_totals (x : gmap string (Z * Z)) (a : Projection) : Projection :=
  mkProjection (pj_lots a) (pj_orgs a) (pj_blocks a) (pj_contracts a) (pj_compliance a)
    (pj_last_projected_block a) (pj_last_contract_block a) x (pj_batch_totals a) (pj_trust_total a).
Definition set_batch_totals (x : gmap Z (Z * Z)) (a : Projection) : Projection :=
  mkProjection (pj_lots a) (pj_orgs a) (pj_blocks a) (pj_contracts a) (pj_compliance a)
    (pj_last_projected_block a) (pj_last_contract_block a) (pj_trust_totals a) x (pj_trust_total a).
Definition set_trust_total (x : Z * Z) (a : Projection) : Projection :=
  mkProjection (pj_lots a) (pj_orgs a) (pj_blocks a) (pj_contracts a) (pj_compliance a)
    (pj_last_projected_block a) (pj_last_contract_block a) (pj_trust_totals a) (pj_batch_totals a)
    x.

Definition set_metrics (x : Metrics) (a : Meter) : Meter :=
  mkMeter x (mt_history a) (mt_started_ms a) (mt_commit_times a).
Definition set_history (x : list RoundPoint) (a : Meter) : Meter :=
  mkMeter (mt_metrics a) x (mt_started_ms a) (mt_commit_times a).
Definition set_started_ms (x : option Z) (a : Meter) : Meter :=
  mkMeter (mt_metrics a) (mt_history a) x (mt_commit_times a).
Definition set_commit_times (x : list Z) (a : Meter) : Meter :=
  mkMeter (mt_metrics a) (mt_history a) (mt_started_ms a) x.

Definition set_run_status (x : string) (a : RunState) : RunState :=
  mkRun x (rs_round a) (rs_chain_height a) (rs_params a) (rs_equivocations a) (rs_posture a)
    (rs_books a) (rs_activity a) (rs_projection a) (rs_meter a).
Definition set_run_round (x : Z) (a : RunState) : RunState :=
  mkRun (rs_status a) x (rs_chain_height a) (rs_params a) (rs_equivocations a) (rs_posture a)
    (rs_books a) (rs_activity a) (rs_projection a) (rs_meter a).
Definition set_run_chain_height (x : Z) (a : RunState) : RunState :=
  mkRun (rs_status a) (rs_round a) x (rs_params a) (rs_equivocations a) (rs_posture a) (rs_books a)
    (rs_activity a) (rs_projection a) (rs_meter a).
Definition set_run_params (x : SimParams) (a : RunState) : RunState :=
  mkRun (rs_status a) (rs_round a) (rs_chain_height a) x (rs_equivocations a) (rs_posture a)
    (rs_books a) (rs_activity a) (rs_projection a) (rs_meter a).
Definition set_run_equivocations (x : list string) (a : RunState) : RunState :=
  mkRun (rs_status a) (rs_round a) (rs_chain_height a) (rs_params a) x (rs_posture a) (rs_books a)
    (rs_activity a) (rs_projection a) (rs_meter a).
Definition set_run_posture (x : list PostureRow) (a : RunState) : RunState :=
  mkRun (rs_status a) (rs_round a) (rs_chain_height a) (rs_params a) (rs_equivocations a) x
    (rs_books a) (rs_activity a) (rs_projection a) (rs_meter a).
Definition set_run_books (x : Books) (a : RunState) : RunState :=
  mkRun (rs_status a) (rs_round a) (rs_chain_height a) (rs_params a) (rs_equivocations a)
    (rs_posture a) x (rs_activity a) (rs_projection a) (rs_meter a).
Definition set_run_activity (x : Activity) (a : RunState) : RunState :=
  mkRun (rs_status a) (rs_round a) (rs_chain_height a) (rs_params a) (rs_equivocations a)
    (rs_posture a) (rs_books a) x (rs_projection a) (rs_meter a).
Definition set_run_projection (x : Projection) (a : RunState) : RunState :=
  mkRun (rs_status a) (rs_round a) (rs_chain_height a) (rs_params a) (rs_equivocations a)
    (rs_posture a) (rs_books a) (rs_activity a) x (rs_meter a).
Definition set_run_meter (x : Meter) (a : RunState) : RunState :=
  mkRun (rs_status a) (rs_round a) (rs_chain_height a) (rs_params a) (rs_equivocations a)
    (rs_posture a) (rs_books a) (rs_activity a) (rs_projection a) x.

Definition on_books (f : Books → Books) (s : RunState) : RunState := set_run_books (f (rs_books s)) s.
Definition on_activity (f : Activity → Activity) (s : RunState) : RunState :=
  set_run_activity (f (rs_activity s)) s.
Definition on_projection (f : Projection → Projection) (s : RunState) : RunState :=
  set_run_projection (f (rs_projection s)) s.
Definition on_meter (f : Meter → Meter) (s : RunState) : RunState := set_run_meter (f (rs_meter s)) s.
Definition on_metrics (f : Metrics → Metrics) (s : RunState) : RunState :=
  on_meter (λ m, set_metrics (f (mt_metrics m)) m) s.

(** [RunState::default()] *)
Definition Metrics_default : Metrics := mkMetrics 0 0 0 0 0 0 0 0 0 0 0 0.
Definition WmsSummary_default : WmsSummary := mkWmsSummary 0 0 0 0 0.
Definition ComplianceView_default : ComplianceView := mkCompliance "" 0 0 0 0 0 0 0 0 0 0 0 0 [].
Definition RunState_default : RunState :=
  mkRun "" 0 0 SimParams_defaults [] [] (mkBooks [] WmsSummary_default ∅ ∅)
    (mkActivity [] [] [] [] [] [] [])
    (mkProjection [] [] [] [] ComplianceView_default 0 0 ∅ ∅ (0, 0)) (mkMeter Metrics_default [] None []).

(** ** Logs *)

(** Push, then drop from the front what exceeds the cap. *)
Definition push_capped {A} (cap : nat) (x : A) (l : list A) : list A :=
  let l := l ++ [x] in drop (length l - cap) l.

(** Push, then drop one from the front above the cap. *)
Definition push_window {A} (cap : nat) (x : A) (l : list A) : list A :=
  let l := l ++ [x] in if (cap <? length l)%nat then tail l else l.

(** [iter_mut().find(..)]: the first element that satisfies [p] is changed in place. *)
Fixpoint update_first {A} (p : A → bool) (f : A → A) (l : list A) : list A :=
  match l with
  | [] => []
  | x :: l => if p x then f x :: l else x :: update_first p f l
  end.

Definition push_feed (label : string) (s : RunState) : RunState :=
  on_activity (λ a, set_feed (push_capped FEED_CAP (mkFeedItem label (rs_chain_height s)) (ac_feed a)) a) s.
Definition push_security (e : SecurityEvent) (s : RunState) : RunState :=
  on_activity (λ a, set_security (push_capped SECURITY_CAP e (ac_security a)) a) s.
Definition push_offer (e : OfferEvent) (s : RunState) : RunState :=
  on_activity (λ a, set_offers (push_capped OFFER_CAP e (ac_offers a)) a) s.

Definition edge_is (from to : string) (e : EdgeCount) : bool := (ec_from e ==? from) && (ec_to e ==? to).
Definition count_edge (from to : string) (s : RunState) : RunState :=
  on_activity (λ a, set_edges
    (if existsb (edge_is from to) (ac_edges a)
     then update_first (edge_is from to) (λ e, mkEdgeCount (ec_from e) (ec_to e) (add64 (ec_count e) 1)) (ac_edges a)
     else ac_edges a ++ [mkEdgeCount from to 1]) a) s.

Definition record_tx (id kind from to label : string) (s : RunState) : RunState :=
  let s := count_edge from to s in
  on_activity (λ a, set_transactions
    (push_window 40 (mkTxView id kind from to label (rs_chain_height s)) (ac_transactions a)) a) s.

Definition record_commit (commit_ms pool_count pool_bytes : Z) (s : RunState) : RunState :=
  on_meter (λ mt,
    let m := mt_metrics mt in
    let times := push_window COMMIT_WINDOW commit_ms (mt_commit_times mt) in
    set_commit_times times
      (set_metrics (mkMetrics (m_submitted m) (m_rejected m) (add64 (m_blocks m) 1) (m_lots m) (m_elapsed_s m)
         (m_tx_per_sec m) commit_ms (percentile times 50) (percentile times 95) (percentile times 99)
         pool_count pool_bytes) mt)) s.

Definition count_submitted (n : Z) (m : Metrics) : Metrics :=
  mkMetrics (add64 (m_submitted m) n) (m_rejected m) (m_blocks m) (m_lots m) (m_elapsed_s m) (m_tx_per_sec m)
    (m_last_commit_ms m) (m_commit_p50_ms m) (m_commit_p95_ms m) (m_commit_p99_ms m) (m_pool_count m) (m_pool_bytes m).
Definition count_rejected (n : Z) (m : Metrics) : Metrics :=
  mkMetrics (m_submitted m) (add64 (m_rejected m) n) (m_blocks m) (m_lots m) (m_elapsed_s m) (m_tx_per_sec m)
    (m_last_commit_ms m) (m_commit_p50_ms m) (m_commit_p95_ms m) (m_commit_p99_ms m) (m_pool_count m) (m_pool_bytes m).
Definition count_lots (n : Z) (m : Metrics) : Metrics :=
  mkMetrics (m_submitted m) (m_rejected m) (m_blocks m) (add64 (m_lots m) n) (m_elapsed_s m) (m_tx_per_sec m)
    (m_last_commit_ms m) (m_commit_p50_ms m) (m_commit_p95_ms m) (m_commit_p99_ms m) (m_pool_count m) (m_pool_bytes m).

Definition refresh_throughput (now_millis : Z) (s : RunState) : RunState :=
  on_meter (λ mt,
    let elapsed := match mt_started_ms mt with
                   | Some started => saturating_sub now_millis started / 1000
                   | None => 0
                   end in
    let m := mt_metrics mt in
    set_metrics (mkMetrics (m_submitted m) (m_rejected m) (m_blocks m) (m_lots m) elapsed
      (m_submitted m / Z.max elapsed 1) (m_last_commit_ms m) (m_commit_p50_ms m) (m_commit_p95_ms m)
      (m_commit_p99_ms m) (m_pool_count m) (m_pool_bytes m)) mt) s.

(** ** Stock and cash *)

Definition sum64 (l : list Z) : Z := foldl add64 0 l.

Definition sellable (b : Books) (company : string) : Z := default 0 (bk_inventory b !! company).
Definition system_stock (b : Books) : Z := sum64 (map_to_list (bk_inventory b)).*2.
Definition buy_pressure (b : Books) : Z :=
  Z.min (add64 1 (system_stock b / STOCK_PRESSURE_DIVISOR)) PRESSURE_CAP.

Definition row_of (company : string) (r : WmsRow) : bool := wr_company r ==? company.

Definition move_row (received dispatched : Z) (r : WmsRow) : WmsRow :=
  mkWmsRow (wr_company r) (wr_role r) (wr_product r) (wr_lots_here r) (wr_units_here r)
    (add64 (wr_received_units r) received) (add64 (wr_dispatched_units r) dispatched) (wr_sold_units r)
    (wr_stock_value_minor r) (wr_sellable_units r).

Definition wms_move (company role : string) (received dispatched : Z) (b : Books) : Books :=
  let rows := if existsb (row_of company) (bk_wms b) then bk_wms b
              else bk_wms b ++ [mkWmsRow company role "SKU-DEMO" 0 0 0 0 0 0 0] in
  let b := set_wms (update_first (row_of company) (move_row received dispatched) rows) b in
  if (0 <? received)
  then set_inventory (<[company := add64 (sellable b company) received]> (bk_inventory b)) b
  else b.

Definition cash_of (b : Books) (company : string) : Z := default CASH_START (bk_cash b !! company).

Definition sell_row (units : Z) (r : WmsRow) : WmsRow :=
  mkWmsRow (wr_company r) (wr_role r) (wr_product r) (wr_lots_here r) (wr_units_here r)
    (wr_received_units r) (wr_dispatched_units r) (add64 (wr_sold_units r) units)
    (wr_stock_value_minor r) (wr_sellable_units r).

Definition retail_sale (company : string) (units minor_units : Z) (b : Books) : Books :=
  if negb (existsb (row_of company) (bk_wms b)) then b else
  let b := set_wms (update_first (row_of company) (sell_row units) (bk_wms b)) b in
  let b := set_inventory (<[company := saturating_sub (sellable b company) units]> (bk_inventory b)) b in
  set_cash (<[company := saturating_add64 (cash_of b company) minor_units]> (bk_cash b)) b.

Definition cash_move (buyer seller : string) (minor_units : Z) (b : Books) : Books :=
  let b := set_cash (<[buyer := saturating_sub (cash_of b buyer) minor_units]> (bk_cash b)) b in
  set_cash (<[seller := saturating_add64 (cash_of b seller) minor_units]> (bk_cash b)) b.

(** [refresh_wms]: on-hand counts from the custody chains, valuations and the header. *)
Definition reset_row (r : WmsRow) : WmsRow :=
  mkWmsRow (wr_company r) (wr_role r) (wr_product r) 0 0 (wr_received_units r) (wr_dispatched_units r)
    (wr_sold_units r) (wr_stock_value_minor r) (wr_sellable_units r).
Definition hold_lot (r : WmsRow) : WmsRow :=
  mkWmsRow (wr_company r) (wr_role r) (wr_product r) (add64 (wr_lots_here r) 1) (add64 (wr_units_here r) 500)
    (wr_received_units r) (wr_dispatched_units r) (wr_sold_units r) (wr_stock_value_minor r) (wr_sellable_units r).
Definition value_row (b : Books) (r : WmsRow) : WmsRow :=
  mkWmsRow (wr_company r) (wr_role r) (wr_product r) (wr_lots_here r) (wr_units_here r) (wr_received_units r)
    (wr_dispatched_units r) (wr_sold_units r) (saturating_mul64 (wr_units_here r) RETAIL_PRICE)
    (sellable b (wr_company r)).

Definition place_lot (rows : list WmsRow) (lot : LotView) : list WmsRow :=
  match last (lv_chain lot) with
  | Some stage => update_first (row_of (ls_custodian stage)) hold_lot rows
  | None => rows
  end.

Definition refresh_wms (lots : list LotView) (b : Books) : Books :=
  let rows := foldl place_lot (reset_row <$> bk_wms b) lots in
  let pressure := buy_pressure b in
  let rows := value_row b <$> rows in
  set_summary (mkWmsSummary (Z.of_nat (length rows)) (sum64 (wr_units_here <$> rows))
      (sum64 (wr_stock_value_minor <$> rows)) (sum64 (wr_sold_units <$> rows))
      (Z.of_nat (length (List.filter (λ r, sellable b (wr_company r) <? RETAIL_UNITS_PER_ROUND * pressure) rows))))
    (set_wms rows b).

(** ** Parameters stay in bounds *)

Record in_bounds (p : SimParams) : Prop := {
  ib_manufacturers : 1 ≤ manufacturers p ≤ 6; ib_distributors : 1 ≤ distributors p ≤ 5;
  ib_logistics : 1 ≤ logistics p ≤ 5; ib_pharmacies : 1 ≤ pharmacies p ≤ 6;
  ib_regulators : 0 ≤ regulators p ≤ 3; ib_certifiers : 1 ≤ certifiers p ≤ 4;
  ib_evil : 0 ≤ evil_nodes p ≤ 5; ib_lots : 1 ≤ lots_per_round p ≤ 50;
  ib_interval : 0 ≤ round_interval_ms p ≤ 10000 }.

Lemma clamp_bounds z lo hi : lo ≤ hi → lo ≤ clamp z lo hi ≤ hi.
Proof. unfold clamp. lia. Qed.

Lemma clamp_id z lo hi : lo ≤ z ≤ hi → clamp z lo hi = z.
Proof. unfold clamp. lia. Qed.

(** Sanitizing always ends within the bounds and changes nothing that already is. *)
Theorem sanitized_in_bounds p : in_bounds (sanitized p) ∧ (in_bounds p → sanitized p = p).
Proof.
  split; [split; apply clamp_bounds; lia|]. intros []. destruct p. cbn in *.
  unfold sanitized. cbn. by rewrite !clamp_id.
Qed.

(** ** Companies *)

Definition initial (s : string) : option Ascii.ascii := String.get 0 s.

Lemma numbered_ids prefix (l : list Z) : NoDup l → NoDup ((λ i : Z, prefix +:+ pretty i) <$> l).
Proof. intros Hl. apply NoDup_fmap_2; [|done]. intros i j H%app_str_inj_l. by apply (inj pretty). Qed.

Lemma push_role_ids count role :
  co_id <$> push_role count role = (λ i, (role +:+ "-") +:+ pretty i) <$> one_to count.
Proof.
  unfold push_role. rewrite <- list_fmap_compose. apply list_fmap_ext. intros _ i _. cbn. by rewrite app_str_assoc.
Qed.

Lemma evil_ids count : co_id <$> (evil_company <$> one_to count) = (λ i, "evil-" +:+ pretty i) <$> one_to count.
Proof. by rewrite <- list_fmap_compose. Qed.

Lemma numbered_initial prefix (l : list Z) id :
  prefix ≠ "" → id ∈ (λ i : Z, prefix +:+ pretty i) <$> l → initial id = initial prefix.
Proof.
  intros Hp (i & -> & _)%list_elem_of_fmap. destruct prefix as [|a prefix]; [done|]. by rewrite app_str_cons.
Qed.

(** Lists whose members start with different letters have no member in common. *)
Lemma NoDup_blocks (blocks : list (string * list Z)) :
  NoDup ((initial ∘ fst) <$> blocks) → Forall (λ b, b.1 ≠ "" ∧ NoDup b.2) blocks →
  NoDup (b ← blocks; (λ i : Z, b.1 +:+ pretty i) <$> b.2).
Proof.
  induction blocks as [|[p l] blocks IH]; intros Hnd Hf; [constructor|]. csimpl.
  csimpl in Hnd. apply NoDup_cons in Hnd as [Hp Hnd]. apply Forall_cons in Hf as [[Hne Hl] Hf]. cbn in *.
  apply NoDup_app. split; [by apply numbered_ids|]. split; [|by apply IH].
  intros id Hid (b & Hb & Hin)%list_elem_of_bind. apply numbered_initial in Hid; [|done].
  pose proof Hin as Hin'. rewrite Forall_forall in Hf. destruct (Hf b Hin') as [Hbne _].
  apply numbered_initial in Hb; [|done]. apply Hp. apply list_elem_of_fmap. exists b. split; [|done]. cbn. congruence.
Qed.

(** Every company has its own id, whatever the parameters; the leader (the first company)
    is an honest manufacturer once the parameters are sanitized; and the collection of
    private pricing holds exactly the honest companies that are not certifiers. *)
Theorem companies_well_formed p :
  NoDup (co_id <$> build_companies p)
  ∧ (in_bounds p → head (build_companies p) = Some (mkCompany "manufacturer-1" "manufacturer" false true))
  ∧ ∀ c, c ∈ build_companies p →
      (co_id c ∈ pricing_member_ids (build_companies p) ↔ co_evil c = false ∧ co_role c ≠ "certifier").
Proof.
  assert (NoDup (co_id <$> build_companies p)) as Hnd.
  { unfold build_companies. rewrite !fmap_app, !push_role_ids, evil_ids.
    pose proof (NoDup_blocks [("manufacturer-", one_to (manufacturers p)); ("distributor-", one_to (distributors p));
      ("logistics-", one_to (logistics p)); ("pharmacy-", one_to (pharmacies p)); ("regulator-", one_to (regulators p));
      ("certifier-", one_to (certifiers p)); ("evil-", one_to (evil_nodes p))]) as H.
    csimpl in H. rewrite app_nil_r in H. apply H; clear H.
    - apply (bool_decide_unpack _). by vm_compute.
    - repeat constructor; try done; apply NoDup_seqZ. }
  split; [done|]. split.
  - intros [[H1 H2] _ _ _ _ _ _ _ _]. unfold build_companies, push_role, one_to.
    rewrite (seqZ_cons 1 (manufacturers p)) by lia. done.
  - intros c Hc. unfold pricing_member_ids. rewrite list_elem_of_fmap. split.
    + intros (c' & Hid & Hf). apply list_elem_of_In, List.filter_In in Hf as [Hin Hf].
      apply list_elem_of_In in Hin. assert (c' = c) as ->.
      { apply list_elem_of_lookup in Hc as [i Hi], Hin as [j Hj].
        assert (i = j) as ->; [|congruence]. apply (NoDup_lookup _ i j (co_id c) Hnd); rewrite list_lookup_fmap.
        - by rewrite Hi.
        - rewrite Hj. cbn. congruence. }
      apply andb_true_iff in Hf as [He Hr]. apply negb_true_iff in He, Hr. by apply str_eqb_neq in Hr.
    + intros [He Hr]. exists c. split; [done|]. apply list_elem_of_In, List.filter_In.
      split; [by apply list_elem_of_In|]. rewrite He. apply str_eqb_neq in Hr. by rewrite Hr.
Qed.

(** ** Offers *)

Lemma tier_elem tiers i : tiers ≠ [] → tier tiers i ∈ tiers.
Proof.
  intros Hne. unfold tier. assert (0 < Z.of_nat (length tiers)) by (destruct tiers; [done|cbn; lia]).
  destruct (lookup_lt_is_Some_2 tiers (Z.to_nat (i mod Z.of_nat (length tiers)))) as [x Hx].
  { pose proof (Z.mod_pos_bound i (Z.of_nat (length tiers))). lia. }
  rewrite Hx. by eapply list_elem_of_lookup_2.
Qed.

Lemma elem_of_forallb {A} (P : A → bool) x l : x ∈ l → forallb P l = true → P x = true.
Proof. intros Hx Hl. rewrite forallb_forall in Hl. by apply Hl, list_elem_of_In. Qed.

Lemma offer_price_band seq :
  if (seq mod 3 =? 0) then 1350 ≤ offer_price seq ≤ 2300 else 850 ≤ offer_price seq ≤ CONTRACT_MAX_PRICE.
Proof.
  unfold offer_price. destruct (seq mod 3 =? 0).
  - pose proof (elem_of_forallb (λ x, (1350 <=? x) && (x <=? 2300)) _ _ (tier_elem MANUAL_PRICE_TIERS (seq / 3) ltac:(done))
      eq_refl) as H. cbv beta in H. lia.
  - set (i := add64 _ _).
    pose proof (elem_of_forallb (λ x, (850 <=? x) && (x <=? 1200)) _ _ (tier_elem AUTO_PRICE_TIERS i ltac:(done)) eq_refl) as H.
    cbv beta in H. unfold CONTRACT_MAX_PRICE. lia.
Qed.

Lemma offer_quantity_bounds seq pressure :
  0 ≤ pressure ≤ PRESSURE_CAP → 100 ≤ offer_quantity seq pressure ≤ 500.
Proof.
  unfold PRESSURE_CAP. intros Hp. unfold offer_quantity. set (i := add64 _ (seq / 5)). clearbody i.
  assert (∀ tiers, tiers = MANUAL_QUANTITY_TIERS ∨ tiers = AUTO_QUANTITY_TIERS → 100 ≤ tier tiers i ≤ 500) as Ht.
  { intros tiers Hs. assert (tiers ≠ [] ∧ forallb (λ x, (100 <=? x) && (x <=? 500)) tiers = true) as [Hne Ha]
      by (by destruct Hs as [-> | ->]).
    pose proof (elem_of_forallb _ _ _ (tier_elem tiers i Hne) Ha) as H. cbv beta in H. lia. }
  set (b := tier _ i). assert (100 ≤ b ≤ 500) as Hb by (apply Ht; destruct (_ <? _); auto).
  rewrite add64_small by (unfold U64_MAX; lia). lia.
Qed.

Lemma setup_match d seq seller pressure :
  0 ≤ pressure ≤ PRESSURE_CAP → d ∈ setup_contracts →
  offer_matches (Contract_new d) (offer_of seq seller pressure)
  = (offer_price seq <=? max_price_per_unit (scd_conditions d)).
Proof.
  intros Hp Hd. pose proof (offer_quantity_bounds seq pressure Hp) as Hq.
  pose proof (Z.mod_pos_bound seq 4) as Hm. unfold offer_matches, offer_of. cbn -[offer_price offer_quantity].
  assert (∀ a : bool, a && (3 + seq mod 4 <=? max_lead_time_days (scd_conditions d))
                        && (min_quantity (scd_conditions d) <=? offer_quantity seq pressure) && true = a) as Hs.
  { intros a. assert (14 ≤ max_lead_time_days (scd_conditions d) ∧ min_quantity (scd_conditions d) = 1) as [Hl ->].
    { unfold setup_contracts in Hd. rewrite !elem_of_cons, elem_of_nil in Hd.
      destruct Hd as [->|[->|[->|[->|[]]]]]; cbn; lia. }
    rewrite (proj2 (Z.leb_le _ (max_lead_time_days _))), (proj2 (Z.leb_le 1 _)) by lia. by rewrite !andb_true_r. }
  unfold setup_contracts in Hd. rewrite !elem_of_cons, elem_of_nil in Hd.
  destruct Hd as [->|[->|[->|[->|[]]]]]; cbn -[offer_price offer_quantity]; exact (Hs _).
Qed.

(** Which contracts an advertised offer matches, exactly.  The quantity is between 100 and
    the 500 units of the lot.  An offer matches the contracts whose ceiling its price
    does not exceed: two of three offers are under the automatic cap and match all four;
    the others match no automatic contract, always the conditions-only contract of
    their price band, and, below 2000, further ones as well: the bands overlap, although
    the comments say that a premium offer matches exactly one contract. *)
Theorem offers_match_by_price seq seller pressure :
  0 ≤ pressure ≤ PRESSURE_CAP →
  100 ≤ offer_quantity seq pressure ≤ 500
  ∧ (scd_contract_id <$> List.filter (λ d, offer_matches (Contract_new d) (offer_of seq seller pressure)) setup_contracts)
    = (if (seq mod 3 =? 0) then [] else [CONTRACT_ID])
      ++ (if (offer_price seq <=? MANUAL_MAX_PRICE) then [MANUAL_CONTRACT_ID] else [])
      ++ (if (offer_price seq <=? VALUE_MAX_PRICE) then [VALUE_CONTRACT_ID] else [])
      ++ [PREMIUM_CONTRACT_ID].
Proof.
  intros Hp. split; [by apply offer_quantity_bounds|].
  assert (List.filter (λ d, offer_matches (Contract_new d) (offer_of seq seller pressure)) setup_contracts
    = List.filter (λ d, offer_price seq <=? max_price_per_unit (scd_conditions d)) setup_contracts) as ->.
  { apply filter_ext_in. intros d Hd%list_elem_of_In. by apply setup_match. }
  pose proof (offer_price_band seq) as Hb. unfold setup_contracts. cbn -[offer_price].
  assert (offer_price seq <=? CONTRACT_MAX_PRICE = negb (seq mod 3 =? 0)) as ->.
  { destruct (seq mod 3 =? 0); cbn [negb]; [|apply Z.leb_le; lia]. unfold CONTRACT_MAX_PRICE. apply Z.leb_gt. lia. }
  assert (offer_price seq <=? PREMIUM_MAX_PRICE = true) as ->.
  { unfold PREMIUM_MAX_PRICE, CONTRACT_MAX_PRICE in *. apply Z.leb_le. destruct (seq mod 3 =? 0); lia. }
  destruct (seq mod 3 =? 0), (offer_price seq <=? MANUAL_MAX_PRICE), (offer_price seq <=? VALUE_MAX_PRICE); done.
Qed.

(** ** Records *)

Lemma slen_hex_digits d n : slen (hex_digits d n) = d.
Proof.
  revert n. induction d as [|d IH]; intros n; [done|]. cbn [hex_digits]. rewrite slen_app, IH.
  unfold hex_digit. pose proof (Z.mod_pos_bound n 16 ltac:(lia)).
  assert (∃ k, (k < 16)%nat ∧ Z.to_nat (n mod 16) = k) as (k & Hk & ->) by (exists (Z.to_nat (n mod 16)); lia).
  do 16 (destruct k as [|k]; [cbn; lia|]). lia.
Qed.

Lemma hex_digits_hex d n : forallb is_hexdigit (bytes (hex_digits d n)) = true.
Proof.
  revert n. induction d as [|d IH]; intros n; [done|]. cbn [hex_digits]. rewrite bytes_app, forallb_app, IH. cbn [andb].
  unfold hex_digit. destruct (Z.to_nat (n mod 16)) as [|k]; [done|]. do 15 (destruct k as [|k]; [done|]). by destruct k.
Qed.

Lemma hex64_ok n : is_hex64 (hex64 n) = true.
Proof.
  unfold is_hex64, hex64, zero_pad. rewrite slen_hex_digits. change (64 - 16)%nat with 48%nat.
  rewrite slen_app, slen_hex_digits, bytes_app, forallb_app, hex_digits_hex. by vm_compute.
Qed.

Section record_validity.
Context `{E : Env}.

Definition lot_family : SchemaDescriptor :=
  mkSchema "lot" 1 ["lot_id"; "product_id"; "batch_number"] ["expiry_date"] true None.
Definition certification_family (schema : string) : SchemaDescriptor :=
  mkSchema schema 1 ["lot_ref"; "issuer"; "scope"; "valid_from"; "valid_to"; "status"; "evidence_manifest"]
    [] true (Some ["valid"; "suspended"; "revoked"]).

Lemma anchored_envelope uuid id schema p iss signer :
  id ≠ "" → iss ≠ "" → check_envelope (sign_record (anchored uuid id schema p iss) signer) = Ok tt.
Proof.
  intros Hid Hiss. unfold check_envelope. cbn.
  by rewrite (proj2 (is_empty_false _) Hid), (proj2 (is_empty_false _) Hiss).
Qed.

Lemma anchored_anchor d uuid id schema p iss signer :
  sd_anchored d = true → check_anchor d (sign_record (anchored uuid id schema p iss) signer) = Ok tt.
Proof. unfold check_anchor. intros ->. cbn. by rewrite str_eqb_refl. Qed.

(** The attackers' records: an extra payload field, a commitment of another text, and a
    record nobody signed. *)
Definition forged_record (uuid : string) (seq : Z) (actor : string) : CanonicalRecord :=
  let r := cert_record uuid seq "quality_certification" ("forged-" +:+ pretty seq) actor in
  let p := <["undisclosed_kickback" := VString "rampant"]> (payload r) in
  mkCanonicalRecord (record_id r) (schema_id r) (schema_version r) (commitment r) (occurred_at r) (issuer r)
    (signatures r) (pdc_ref r) (extensions r) p.

Definition DEADBEEF : string := "deadbeefdeadbeefdeadbeefdeadbeefdeadbeefdeadbeefdeadbeefdeadbeef".
Definition tampered_record (uuid : string) (seq : Z) (actor : string) : CanonicalRecord :=
  set_commitment (lot_record uuid seq actor) (Some DEADBEEF).

(** What the honest companies sign passes the strict validator, for every lot number and
    every issuer; the attackers' records do not: neither the certification with an
    undisclosed payload field, nor the anchor whose commitment is not its own hash, nor
    the record without a signature. *)
Theorem records_judged_right uuid seq who :
  who ≠ "" →
  validate_record (sign_record (lot_record uuid seq who) who) = Ok tt
  ∧ (∀ schema id, schema ∈ ["quality_certification"; "audit_attestation"] → id ≠ "" →
       validate_record (sign_record (cert_record uuid seq schema id who) who) = Ok tt)
  ∧ validate_record (sign_record (forged_record uuid seq who) who) ≠ Ok tt
  ∧ (record_commitment (lot_record uuid seq who) ≠ DEADBEEF →
     validate_record (sign_record (tampered_record uuid seq who) who) ≠ Ok tt)
  ∧ validate_record (lot_record uuid seq who) ≠ Ok tt.
Proof.
  intros Hw.
  assert (∀ s r, String s r ≠ "") as Hne by done.
  split; [|split; [|split; [|split]]].
  - apply (validate_record_intro lot_family); [by vm_compute|by apply anchored_envelope|by vm_compute| |by vm_compute
      |done|done|by apply anchored_anchor|done].
    apply check_required_intro. repeat constructor; try (apply present_string; by rewrite ?app_str_cons); done.
  - intros schema id Hs Hid. apply (validate_record_intro (certification_family schema)).
    + rewrite !elem_of_cons, elem_of_nil in Hs. destruct Hs as [->|[->|[]]]; by vm_compute.
    + by apply anchored_envelope.
    + by vm_compute.
    + apply check_required_intro. repeat constructor; try (by apply present_string); try done.
    + by vm_compute.
    + assert (check_certification schema (cert_payload seq who) = Ok tt) as Hc.
      { unfold check_certification. change (manifest_commitment (cert_payload seq who)) with (hex64 seq).
        rewrite hex64_ok. by vm_compute. }
      rewrite !elem_of_cons, elem_of_nil in Hs. destruct Hs as [->|[->|[]]]; exact Hc.
    + by vm_compute.
    + by apply anchored_anchor.
    + done.
  - intros (d & (Hd & _ & _ & _ & _ & Hk & _) & _)%validate_record_inv.
    specialize (Hk "undisclosed_kickback" ltac:(by eexists)). apply mem_elem in Hk.
    pose proof (elem_of_forallb (λ d, negb (mem "undisclosed_kickback" (sd_required d ++ sd_optional d))) _ _ Hd
      ltac:(by vm_compute)) as Hn. cbv beta in Hn. by rewrite Hk in Hn.
  - intros Hc (d & (Hd & Hs & _ & _ & _ & _ & _ & Ha & _) & _)%validate_record_inv.
    pose proof (elem_of_forallb (λ d, negb (sd_schema_id d ==? "lot") || sd_anchored d) _ _ Hd
      ltac:(by vm_compute)) as Hn. cbv beta in Hn. rewrite <- Hs in Hn. change (sd_anchored d = true) in Hn.
    rewrite Hn in Ha. injection Ha as Ha. by apply Hc.
  - intros (d & (_ & _ & _ & (_ & _ & Hs) & _) & _)%validate_record_inv. by apply Hs.
Qed.

End record_validity.

(** ** Cash *)

Definition zsum (l : list Z) : Z := foldr Z.add 0 l.

Lemma zsum_app l k : zsum (l ++ k) = zsum l + zsum k.
Proof. unfold zsum. induction l as [|x l IH]; cbn in *; lia. Qed.

(** Changing one company's amount changes the sum by the difference. *)
Lemma zsum_update (f g : string → Z) c cs :
  NoDup cs → c ∈ cs → (∀ x, x ≠ c → g x = f x) → zsum (g <$> cs) = zsum (f <$> cs) - f c + g c.
Proof.
  intros Hnd Hc Hx. induction Hnd as [|x cs Hn Hnd IH]; [by apply elem_of_nil in Hc|].
  csimpl. unfold zsum in *. cbn [foldr]. apply elem_of_cons in Hc as [->|Hc].
  - assert (g <$> cs = f <$> cs) as ->; [|lia]. apply list_fmap_ext. intros i y Hy. apply Hx.
    intros ->. apply list_elem_of_lookup_2 in Hy. by apply Hn.
  - rewrite (IH Hc), (Hx x); [lia|]. by intros ->.
Qed.

Definition total_cash (b : Books) (cs : list string) : Z := zsum (cash_of b <$> cs).

Lemma cash_of_insert b c x y : cash_of (set_cash (<[c := x]> (bk_cash b)) b) y = if c ==? y then x else cash_of b y.
Proof.
  unfold cash_of. cbn. destruct (c ==? y) eqn:Hcy.
  - apply str_eqb_eq in Hcy as ->. by rewrite lookup_insert_eq.
  - apply str_eqb_neq in Hcy. by rewrite lookup_insert_ne.
Qed.

Lemma cash_move_balance buyer seller amount b c :
  cash_of (cash_move buyer seller amount b) c =
    let paid x := if buyer ==? x then saturating_sub (cash_of b buyer) amount else cash_of b x in
    if seller ==? c then saturating_add64 (paid seller) amount else paid c.
Proof. unfold cash_move. rewrite !cash_of_insert. by destruct (seller ==? c). Qed.

(** What a payment does to the cash of the companies, in total: it is conserved when the
    buyer can pay, and otherwise the seller still receives the whole amount, so the
    shortfall is money from nowhere.  Nobody else's balance moves. *)
Theorem cash_move_exact b buyer seller amount cs :
  NoDup cs → buyer ∈ cs → seller ∈ cs → 0 ≤ amount →
  (∀ c, 0 ≤ cash_of b c) → cash_of b seller + amount ≤ U64_MAX →
  let b' := cash_move buyer seller amount b in
  total_cash b' cs = total_cash b cs + Z.max 0 (amount - cash_of b buyer)
  ∧ (buyer ≠ seller → cash_of b' buyer = Z.max 0 (cash_of b buyer - amount)
                      ∧ cash_of b' seller = cash_of b seller + amount)
  ∧ ∀ c, c ≠ buyer → c ≠ seller → cash_of b' c = cash_of b c.
Proof.
  intros Hnd Hb Hs Ha Hpos Hmax. cbv zeta.
  set (b1 := set_cash (<[buyer := saturating_sub (cash_of b buyer) amount]> (bk_cash b)) b).
  assert (∀ c, cash_of b1 c = if buyer ==? c then saturating_sub (cash_of b buyer) amount else cash_of b c) as H1
    by (intros c; apply cash_of_insert).
  change (cash_move buyer seller amount b)
    with (set_cash (<[seller := saturating_add64 (cash_of b1 seller) amount]> (bk_cash b1)) b1).
  assert (0 ≤ cash_of b1 seller ≤ cash_of b seller) as Hle.
  { rewrite H1. pose proof (Hpos seller). destruct (buyer ==? seller) eqn:He; [|lia].
    apply str_eqb_eq in He as ->. unfold saturating_sub. lia. }
  unfold saturating_add64. rewrite Z.min_l by lia. unfold total_cash.
  split; [|split].
  - rewrite (zsum_update (cash_of b1) _ seller cs Hnd Hs).
    2: { intros x Hx. rewrite cash_of_insert. apply not_eq_sym, str_eqb_neq in Hx. by rewrite Hx. }
    rewrite cash_of_insert, str_eqb_refl.
    rewrite (zsum_update (cash_of b) (cash_of b1) buyer cs Hnd Hb).
    2: { intros x Hx. rewrite H1. apply not_eq_sym, str_eqb_neq in Hx. by rewrite Hx. }
    rewrite (H1 buyer), str_eqb_refl. unfold saturating_sub. pose proof (Hpos buyer). lia.
  - intros Hbs. rewrite !cash_of_insert, str_eqb_refl, !H1, str_eqb_refl.
    pose proof Hbs as Hbs'. apply str_eqb_neq in Hbs as ->. apply not_eq_sym, str_eqb_neq in Hbs' as ->.
    unfold saturating_sub. lia.
  - intros c Hcb Hcs. rewrite cash_of_insert, !H1. apply not_eq_sym, str_eqb_neq in Hcb as ->.
    apply not_eq_sym, str_eqb_neq in Hcs as ->. done.
Qed.

(** ** Stock *)

(** The books of one company: units received and sold by its row, and its stock. *)
Definition row_totals (b : Books) (company : string) : Z * Z :=
  match List.find (row_of company) (bk_wms b) with
  | Some r => (wr_received_units r, wr_sold_units r)
  | None => (0, 0)
  end.
Definition received (b : Books) (company : string) : Z := (row_totals b company).1.
Definition sold (b : Books) (company : string) : Z := (row_totals b company).2.

(** The movements of the round: goods in or out, a retail sale of at most the stock,
    payments, and the refresh of the cards. *)
Inductive BookOp :=
| OpMove (company role : string) (received dispatched : Z)
| OpSale (company : string) (units minor_units : Z)
| OpPay (buyer seller : string) (minor_units : Z)
| OpRefresh (lots : list LotView).

Definition book_op (b : Books) (op : BookOp) : Books :=
  match op with
  | OpMove c role r d => wms_move c role r d b
  | OpSale c u m => retail_sale c u m b
  | OpPay x y m => cash_move x y m b
  | OpRefresh lots => refresh_wms lots b
  end.


Lemma find_row_update c c' f rows :
  (∀ r, wr_company (f r) = wr_company r) →
  List.find (row_of c') (update_first (row_of c) f rows)
  = if c ==? c' then f <$> List.find (row_of c') rows else List.find (row_of c') rows.
Proof.
  intros Hf. induction rows as [|x rows IH]; [by destruct (c ==? c')|]. cbn [update_first].
  assert (∀ d, row_of d (f x) = row_of d x) as Hrow by (intros d; unfold row_of; by rewrite Hf).
  destruct (row_of c x) eqn:Hx; cbn [List.find]; rewrite ?Hrow.
  - unfold row_of in Hx. apply str_eqb_eq in Hx. subst c.
    change (row_of c' x) with (wr_company x ==? c'). by destruct (wr_company x ==? c').
  - rewrite IH. destruct (row_of c' x) eqn:Hx'; [|done]. unfold row_of in Hx, Hx'. apply str_eqb_eq in Hx' as <-.
    apply str_eqb_neq, not_eq_sym, str_eqb_neq in Hx. by rewrite Hx.
Qed.

Lemma find_row_fmap c f rows :
  (∀ r, wr_company (f r) = wr_company r) → List.find (row_of c) (f <$> rows) = f <$> List.find (row_of c) rows.
Proof.
  intros Hf. induction rows as [|x rows IH]; [done|]. csimpl.
  change (row_of c (f x)) with (wr_company (f x) ==? c). change (row_of c x) with (wr_company x ==? c).
  rewrite Hf. by destruct (wr_company x ==? c).
Qed.

Lemma find_row_exists c rows : existsb (row_of c) rows = is_some (List.find (row_of c) rows).
Proof. induction rows as [|x rows IH]; [done|]. cbn. by destruct (row_of c x). Qed.

Lemma find_row_snoc c rows r :
  List.find (row_of c) (rows ++ [r])
  = match List.find (row_of c) rows with Some x => Some x | None => if row_of c r then Some r else None end.
Proof. induction rows as [|x rows IH]; [done|]. cbn. by destruct (row_of c x). Qed.

(** The received and sold units of a row, as the refresh leaves them. *)
Definition totals_of (o : option WmsRow) : Z * Z :=
  match o with Some r => (wr_received_units r, wr_sold_units r) | None => (0, 0) end.

Lemma row_totals_refresh lots b c : row_totals (refresh_wms lots b) c = row_totals b c.
Proof.
  unfold row_totals, refresh_wms. cbn. rewrite find_row_fmap by done.
  change (totals_of (value_row b <$> List.find (row_of c) (foldl place_lot (reset_row <$> bk_wms b) lots))
          = totals_of (List.find (row_of c) (bk_wms b))).
  assert (∀ rows, totals_of (List.find (row_of c) (foldl place_lot rows lots)) = totals_of (List.find (row_of c) rows)) as H.
  { induction lots as [|lot lots IH]; intros rows; [done|]. cbn [foldl]. rewrite IH. unfold place_lot.
    destruct (last (lv_chain lot)) as [st|]; [|done]. rewrite find_row_update by done.
    destruct (_ ==? c); [|done]. by destruct (List.find (row_of c) rows). }
  transitivity (totals_of (List.find (row_of c) (reset_row <$> bk_wms b))).
  - rewrite <- H. by destruct (List.find _ _).
  - rewrite find_row_fmap by done. by destruct (List.find _ _).
Qed.

Lemma row_totals_move c' role r d b c :
  row_totals (wms_move c' role r d b) c
  = if c' ==? c then (add64 (received b c) r, sold b c) else row_totals b c.
Proof.
  assert (bk_wms (wms_move c' role r d b) = update_first (row_of c') (move_row r d)
    (if existsb (row_of c') (bk_wms b) then bk_wms b
     else bk_wms b ++ [mkWmsRow c' role "SKU-DEMO" 0 0 0 0 0 0 0])) as Hw
    by (unfold wms_move; by destruct (0 <? r)).
  unfold received, sold, row_totals. rewrite Hw, find_row_update by done. rewrite find_row_exists.
  destruct (c' ==? c) eqn:Hc.
  - apply str_eqb_eq in Hc as ->. destruct (List.find (row_of c) (bk_wms b)) as [x|] eqn:Hx; cbn; [by rewrite Hx|].
    rewrite find_row_snoc, Hx. unfold row_of. cbn. by rewrite str_eqb_refl.
  - destruct (is_some _); [done|]. rewrite find_row_snoc.
    destruct (List.find (row_of c) (bk_wms b)); [done|]. unfold row_of. cbn. by rewrite Hc.
Qed.

Lemma sellable_move c' role r d b c :
  0 ≤ r →
  sellable (wms_move c' role r d b) c
  = if (c' ==? c) && (0 <? r) then add64 (sellable b c) r else sellable b c.
Proof.
  intros Hr. unfold wms_move. destruct (0 <? r); [|by rewrite andb_false_r]. rewrite andb_true_r.
  unfold sellable. cbn. destruct (c' ==? c) eqn:Hc.
  - apply str_eqb_eq in Hc as ->. by rewrite lookup_insert_eq.
  - apply str_eqb_neq in Hc. by rewrite lookup_insert_ne.
Qed.

Lemma retail_sale_totals c' u m b c :
  row_totals (retail_sale c' u m b) c
  = (if (c' ==? c) && existsb (row_of c) (bk_wms b) then (received b c, add64 (sold b c) u) else row_totals b c)
  ∧ sellable (retail_sale c' u m b) c
    = if (c' ==? c) && existsb (row_of c) (bk_wms b) then saturating_sub (sellable b c) u else sellable b c.
Proof.
  unfold retail_sale. destruct (existsb (row_of c') (bk_wms b)) eqn:He; cbn [negb].
  - set (b1 := set_wms _ b). split.
    + change (totals_of (List.find (row_of c) (update_first (row_of c') (sell_row u) (bk_wms b)))
        = if (c' ==? c) && existsb (row_of c) (bk_wms b) then (received b c, add64 (sold b c) u) else row_totals b c).
      rewrite find_row_update by done. destruct (c' ==? c) eqn:Hc; [|done]. apply str_eqb_eq in Hc as ->.
      rewrite He. rewrite find_row_exists in He. unfold received, sold, row_totals.
      by destruct (List.find (row_of c) (bk_wms b)).
    + change (default 0 (<[c' := saturating_sub (sellable b c') u]> (bk_inventory b) !! c)
        = if (c' ==? c) && existsb (row_of c) (bk_wms b) then saturating_sub (sellable b c) u else sellable b c).
      destruct (c' ==? c) eqn:Hc; cbn [andb].
      * apply str_eqb_eq in Hc as ->. by rewrite He, lookup_insert_eq.
      * apply str_eqb_neq in Hc. by rewrite lookup_insert_ne.
  - destruct (c' ==? c) eqn:Hc; [|done]. apply str_eqb_eq in Hc as ->. by rewrite He.
Qed.

(** The stock of a company is what it received less what it sold, as 64-bit numbers. *)
Record balanced (b : Books) (c : string) : Prop := {
  ba_stock : 0 ≤ sellable b c;
  ba_equation : (sellable b c + sold b c) mod 2 ^ 64 = received b c mod 2 ^ 64 }.

(** An operation of the round: quantities are not negative and a sale is of units in
    stock. *)
Definition op_fits (b : Books) (op : BookOp) : Prop :=
  match op with
  | OpMove _ _ r _ => 0 ≤ r
  | OpSale c u _ => 0 ≤ u ≤ sellable b c
  | _ => True
  end.

Lemma add64_mod a b : add64 a b mod 2 ^ 64 = (a + b) mod 2 ^ 64.
Proof. unfold add64. apply Z.mod_mod. lia. Qed.

Lemma book_op_balanced b op c : op_fits b op → balanced b c → balanced (book_op b op) c.
Proof.
  intros Hop [H1 H2]. destruct op as [c' role r d|c' u m|x y m|lots]; cbn in *.
  - pose proof (row_totals_move c' role r d b c) as Ht. pose proof (sellable_move c' role r d b c Hop) as Hs.
    destruct (c' ==? c) eqn:Hc; cbn [andb] in *.
    + apply str_eqb_eq in Hc as ->. split; rewrite Hs; unfold received, sold in *; rewrite ?Ht; cbn [fst snd].
      * destruct (0 <? r); [apply Z.mod_pos_bound; lia|done].
      * rewrite add64_mod, <- (Z.add_mod_idemp_l (row_totals b c).1) by lia. unfold received in H2. rewrite <- H2.
        rewrite Z.add_mod_idemp_l by lia. destruct (Z.ltb_spec 0 r).
        -- rewrite <- Z.add_mod_idemp_l, add64_mod, Z.add_mod_idemp_l by lia. f_equal. lia.
        -- f_equal. lia.
    + split; rewrite Hs; unfold received, sold in *; by rewrite ?Ht.
  - destruct (retail_sale_totals c' u m b c) as [Ht Hs].
    destruct ((c' ==? c) && existsb (row_of c) (bk_wms b)) eqn:Hc.
    + apply andb_true_iff in Hc as [Hc _]. apply str_eqb_eq in Hc as ->. unfold saturating_sub in Hs.
      split; rewrite Hs; unfold received, sold in *; rewrite ?Ht; cbn [fst snd]; [lia|].
      rewrite <- Z.add_mod_idemp_r, add64_mod, Z.add_mod_idemp_r by lia. rewrite <- H2. f_equal. lia.
    + split; rewrite Hs; unfold received, sold in *; by rewrite ?Ht.
  - done.
  - pose proof (row_totals_refresh lots b c) as Ht. split; unfold received, sold in *; by rewrite ?Ht.
Qed.

Fixpoint ops_fit (b : Books) (ops : list BookOp) : Prop :=
  match ops with [] => True | op :: ops => op_fits b op ∧ ops_fit (book_op b op) ops end.

Lemma book_ops_balanced b ops c : ops_fit b ops → balanced b c → balanced (foldl book_op b ops) c.
Proof.
  revert b. induction ops as [|op ops IH]; intros b Hops Hb; [done|]. destruct Hops as [Hop Hops].
  cbn [foldl]. apply IH; [done|by apply book_op_balanced].
Qed.

(** ** Windows and percentiles *)

(** A capped log holds the newest entries, in order, and never more than its cap. *)
Lemma push_capped_newest {A} cap (x : A) l :
  (length l ≤ cap)%nat → (0 < cap)%nat →
  push_capped cap x l = (if (length l =? cap)%nat then tail l else l) ++ [x]
  ∧ (length (push_capped cap x l) ≤ cap)%nat.
Proof.
  intros Hl Hc. unfold push_capped. rewrite length_app. cbn [length].
  destruct (Nat.eqb_spec (length l) cap) as [Heq|Hne].
  - replace (length l + 1 - cap)%nat with 1%nat by lia. destruct l as [|y l]; [cbn in *; lia|].
    cbn [drop app tail]. rewrite drop_0, length_app. cbn in *. split; [done|lia].
  - replace (length l + 1 - cap)%nat with 0%nat by lia. rewrite drop_0, length_app. cbn. split; [done|lia].
Qed.

Definition count (p : Z → bool) (l : list Z) : nat := length (List.filter p l).

Lemma count_perm p l k : l ≡ₚ k → count p l = count p k.
Proof.
  unfold count. induction 1 as [|x l k _ IH|x y l|l k m _ IH1 _ IH2]; cbn; [done| | |lia].
  - destruct (p x); cbn; lia.
  - by destruct (p x), (p y).
Qed.

Lemma count_all p l : Forall (λ x, p x = true) l → count p l = length l.
Proof. unfold count. induction 1 as [|x l Hx _ IH]; [done|]. cbn. rewrite Hx. cbn. lia. Qed.
Lemma count_none p l : Forall (λ x, p x = false) l → count p l = 0%nat.
Proof. unfold count. induction 1 as [|x l Hx _ IH]; [done|]. cbn. by rewrite Hx. Qed.
Lemma count_app p l k : count p (l ++ k) = (count p l + count p k)%nat.
Proof. unfold count. by rewrite List.filter_app, length_app. Qed.

Lemma leb_sorted l : StronglySorted (λ x y, (x <=? y) = true) l → StronglySorted Z.le l.
Proof.
  induction 1 as [|x l _ IH Hx]; constructor; [done|]. eapply Forall_impl; [exact Hx|]. by intros y Hy%Z.leb_le.
Qed.

Lemma sorted_ranks l i v :
  StronglySorted Z.le l → l !! i = Some v →
  (count (λ x, (x <? v)%Z) l ≤ i)%nat ∧ (i < count (λ x, (x <=? v)%Z) l)%nat.
Proof.
  revert i. induction l as [|x l IH]; intros i Hs Hi; [done|]. inversion Hs as [|? ? Hs' Hx]; subst.
  destruct i as [|i].
  - injection Hi as <-. split.
    + rewrite count_none; [lia|]. constructor; [lia|]. eapply Forall_impl; [exact Hx|]. intros y Hy. cbn. lia.
    + unfold count. cbn. rewrite Z.leb_refl. cbn. lia.
  - cbn in Hi. destruct (IH i Hs' Hi) as [H1 H2]. unfold count in *. cbn.
    rewrite Forall_forall in Hx. specialize (Hx v (list_elem_of_lookup_2 _ _ _ Hi)).
    destruct (x <? v), (Z.leb_spec x v); cbn; lia.
Qed.

(** The latency percentiles are order statistics: the reported value is one of the samples,
    at most the stated share of the samples lies below it, and more than that share
    does not exceed it (the last sample for a full share). *)
Theorem percentile_rank samples pct :
  samples ≠ [] → 0 ≤ pct ≤ 100 →
  let v := percentile samples pct in
  let idx := Z.to_nat (Z.min (Z.of_nat (length samples) * pct / 100) (Z.of_nat (length samples) - 1)) in
  v ∈ samples ∧ (count (λ x, (x <? v)%Z) samples ≤ idx)%nat ∧ (idx < count (λ x, (x <=? v)%Z) samples)%nat.
Proof.
  intros Hne Hp v idx.
  assert (sort_by Z.leb samples ≡ₚ samples) as Hperm by apply sort_by_perm.
  assert (StronglySorted Z.le (sort_by Z.leb samples)) as Hsort.
  { apply leb_sorted, sort_by_sorted; intros x y; [|intros z]; rewrite !Z.leb_le; lia. }
  assert (idx < length (sort_by Z.leb samples))%nat as Hlt.
  { rewrite Hperm. unfold idx. destruct samples; [done|]. cbn [length]. lia. }
  destruct (lookup_lt_is_Some_2 _ _ Hlt) as [w Hw].
  assert (v = w) as ->. { unfold v, percentile. destruct samples; [done|]. fold idx. by rewrite Hw. }
  split; [rewrite <- Hperm; by eapply list_elem_of_lookup_2|].
  rewrite <- !(count_perm _ _ _ Hperm). by apply sorted_ranks.
Qed.
