(* ===== verification/ScenarioRun.v ===== *)
(** The demo's rounds and views (demo: scenario.rs).

    [SharedRun] is what the runner and the page share; the nodes behind it are any
    [Federation], with the operations the scenario calls.  A round is drafted
    ([certify_entry], [advance_entry], [enter_lot]), the attackers act ([evil_attacks]), the
    drafts are submitted, the leader mines, and the block is folded into the page's
    projections ([scan_block], [project_chain], [retail]); [drive_round] composes them in the
    order of the code, with [None] for a panic.  [complete_purchase] and [org_snapshot] are
    the page's two entries.  [nodes_federation] runs the scenario on the nodes of
    [Runtime]. *)

From S2P Require Import Prelude Types Asset Text Chain Canonical Capability Policy Msp Ledger Storage Bft.
From S2P Require Import Rounds Validators Node Indexer Channel Peers Outbound Transient Private Contracts Watcher Runtime Boot.
From S2P Require Import Scenario.

Local Open Scope Z_scope.

(** ** The nodes *)

(** What the scenario calls on the node of a company. *)
Class Federation (F : Type) := {
  fed_has : F → string → bool;
  fed_submit : F → string → Transaction → F * result CoreError unit;
  (** [submit_private_payload] of a collection and a cleartext *)
  fed_private : F → string → string → string → F * result CoreError unit;
  (** [wait_for_ids] *)
  fed_settle : F → string → list string → F;
  fed_mine : F → string → F;
  fed_chain : F → string → list Block;
  fed_provenance : F → string → Provenance.ProvenanceIndex;
  fed_flat : F → string → list Flattener.FlatAssetRecord;
  fed_summaries : F → string → list ContractSummary;
  (** [pending_pool_stats]: entries and bytes *)
  fed_pool : F → string → Z * Z;
  fed_transient : F → string → string → string → option string }.

Record PipelineLot := mkLot {
  pl_seq : Z; pl_stage : Z; pl_manufacturer : string; pl_distributor : string; pl_logistics : string;
  pl_pharmacy : string; pl_certifier : string; pl_certified : bool }.

Definition set_certified (e : PipelineLot) : PipelineLot :=
  mkLot (pl_seq e) (pl_stage e) (pl_manufacturer e) (pl_distributor e) (pl_logistics e) (pl_pharmacy e)
    (pl_certifier e) true.
Definition next_stage (e : PipelineLot) : PipelineLot :=
  mkLot (pl_seq e) (pl_stage e + 1) (pl_manufacturer e) (pl_distributor e) (pl_logistics e) (pl_pharmacy e)
    (pl_certifier e) (pl_certified e).

(** Collection, commitment, cleartext and author. *)
Definition PayloadLedger := list (string * string * string * string).

(** The measured durations of a round, in milliseconds. *)
Record Timings := mkTimings {
  tm_scenario : Z; tm_payload : Z; tm_submit : Z; tm_settle : Z; tm_commit : Z; tm_project : Z;
  tm_retail : Z; tm_round : Z }.

Section run.
Context `{E : Env} {F : Type} `{FD : Federation F}.
(** Fresh transaction ids and their clock, [serde_json] and the text of doubles. *)
Context (uuid : nat → string) (clock : nat → Z).
Context (json_text : Value → string) (json_of : string → option Value).
Context (f64_text cents_text : option Number → string).

Record SharedRun := mkShared {
  sh_state : RunState; sh_fed : F; sh_payloads : PayloadLedger; sh_params : SimParams;
  sh_pipeline : list PipelineLot; sh_topology : Z; sh_fresh : nat }.

Definition with_state (w : SharedRun) (s : RunState) : SharedRun :=
  mkShared s (sh_fed w) (sh_payloads w) (sh_params w) (sh_pipeline w) (sh_topology w) (sh_fresh w).
Definition with_fed (w : SharedRun) (f : F) : SharedRun :=
  mkShared (sh_state w) f (sh_payloads w) (sh_params w) (sh_pipeline w) (sh_topology w) (sh_fresh w).
Definition with_pipeline (w : SharedRun) (l : list PipelineLot) : SharedRun :=
  mkShared (sh_state w) (sh_fed w) (sh_payloads w) (sh_params w) l (sh_topology w) (sh_fresh w).
Definition with_payloads (w : SharedRun) (l : PayloadLedger) : SharedRun :=
  mkShared (sh_state w) (sh_fed w) l (sh_params w) (sh_pipeline w) (sh_topology w) (sh_fresh w).
Definition with_fresh (w : SharedRun) (n : nat) : SharedRun :=
  mkShared (sh_state w) (sh_fed w) (sh_payloads w) (sh_params w) (sh_pipeline w) (sh_topology w) n.

Definition update_state (f : RunState → RunState) (w : SharedRun) : SharedRun := with_state w (f (sh_state w)).

(** [Transaction::new]: a fresh id and the clock. *)
Definition new_tx (k : nat) (kind : TransactionKind) : Transaction := Transaction_with_id (clock k) (uuid k) kind.

(** ** Parameters *)

Definition topology_of (p : SimParams) : list Z :=
  [manufacturers p; distributors p; logistics p; pharmacies p; regulators p; certifiers p; evil_nodes p].

Definition apply_params (w : SharedRun) (requested : SimParams) : SharedRun * SimParams :=
  let p := sanitized requested in
  let changed := negb (bool_decide (topology_of (sh_params w) = topology_of p)) in
  (mkShared (sh_state w) (sh_fed w) (sh_payloads w) p (sh_pipeline w)
     (if changed then add64 (sh_topology w) 1 else sh_topology w) (sh_fresh w), p).

(** ** A manual purchase *)

Definition awaiting (e : OfferEvent) : bool :=
  str_contains "awaiting" (oe_note e) || str_contains "still on offer" (oe_note e).
Definition is_offer (id : string) (e : OfferEvent) : bool := (oe_kind e ==? "offer") && (oe_tx_id e ==? id).

Definition fill_offer (sold : Z) (note : string) (e : OfferEvent) : OfferEvent :=
  mkOfferEvent (oe_kind e) (oe_tx_id e) (oe_seller e) (oe_buyer e) (oe_product e) (oe_quantity e) sold
    (oe_price_per_unit e) (oe_round e) note.

Definition manual_order (buyer : string) (offer : OfferEvent) (quantity : Z) : PurchaseOrder :=
  mkPurchaseOrder (oe_product offer) buyer (oe_seller offer) quantity (oe_price_per_unit offer) "USD"
    (Some (manual_contract_for_buyer buyer)).

(** The books and rows after the node accepted the order. *)
Definition settle_purchase (offer_tx_id order_id buyer : string) (offer : OfferEvent) (quantity : Z)
    (s : RunState) : RunState :=
  let s := on_books (cash_move buyer (oe_seller offer) (saturating_mul64 quantity (oe_price_per_unit offer))) s in
  let remaining := (oe_quantity offer - Z.min (oe_sold offer) (oe_quantity offer) - quantity) mod (U64_MAX + 1) in
  let sold := add64 (oe_sold offer) quantity in
  let note := if (remaining =? 0)
              then "fully bought by manual purchases (" +:+ pretty sold +:+ " of "
                   +:+ pretty (oe_quantity offer) +:+ " units)"
              else "partially bought: " +:+ pretty sold +:+ " of " +:+ pretty (oe_quantity offer)
                   +:+ " units, " +:+ pretty remaining +:+ " still on offer" in
  let s := on_activity (λ a, set_offers (update_first (is_offer offer_tx_id) (fill_offer sold note) (ac_offers a)) a) s in
  let s := push_offer (mkOfferEvent "purchase" order_id (oe_seller offer) buyer (oe_product offer) quantity 0
             (oe_price_per_unit offer) (rs_round s)
             ("manually completed by " +:+ buyer +:+ " against " +:+ manual_contract_for_buyer buyer
              +:+ " (committing next block)")) s in
  record_tx order_id "purchase" (oe_seller offer) buyer
    ("Manual PurchaseOrder " +:+ pretty quantity +:+ " × " +:+ oe_product offer +:+ " @ "
     +:+ pretty (oe_price_per_unit offer) +:+ " by " +:+ buyer) s.

(** [None] is the panic for a buyer without a node. *)
Definition complete_purchase (w : SharedRun) (offer_tx_id buyer : string) (quantity : Z)
  : option (SharedRun * result string string) :=
  match List.find (λ e, is_offer offer_tx_id e && awaiting e) (ac_offers (rs_activity (sh_state w))) with
  | None => Some (w, Err "offer not found or not awaiting a decision")
  | Some offer =>
      let remaining := oe_quantity offer - Z.min (oe_sold offer) (oe_quantity offer) in
      let quantity := clamp quantity 1 (Z.max remaining 1) in
      let order := new_tx (sh_fresh w) (KPurchaseOrder (manual_order buyer offer quantity)) in
      if negb (fed_has (sh_fed w) buyer) then None else
      let '(f, r) := fed_submit (sh_fed w) buyer order in
      let w := with_fresh (with_fed w f) (S (sh_fresh w)) in
      match r with
      | Err e => Some (w, Err ("admission rejected: core error: " +:+ display_error e))
      | Ok _ => Some (update_state (settle_purchase offer_tx_id (tx_id order) buyer offer quantity) w, Ok (tx_id order))
      end
  end.

(** ** Drafting a round *)

(** The page's state, the transactions with the node they go to, the private payloads with
    their authors, and the next fresh id. *)
Record Draft := mkDraft {
  dr_state : RunState; dr_txs : list (string * Transaction); dr_payloads : list (string * string);
  dr_fresh : nat }.

Definition draft_state (f : RunState → RunState) (d : Draft) : Draft :=
  mkDraft (f (dr_state d)) (dr_txs d) (dr_payloads d) (dr_fresh d).
Definition draft_payload (t : Value) (author : string) (d : Draft) : Draft :=
  mkDraft (dr_state d) (dr_txs d) (dr_payloads d ++ [(json_text t, author)]) (dr_fresh d).
Definition draft_fresh (d : Draft) : Draft := mkDraft (dr_state d) (dr_txs d) (dr_payloads d) (S (dr_fresh d)).

(** [node_for] and the push; [None] is its panic. *)
Definition draft_tx (has : string → bool) (company : string) (tx : Transaction) (d : Draft) : option Draft :=
  if has company then Some (mkDraft (dr_state d) (dr_txs d ++ [(company, tx)]) (dr_payloads d) (dr_fresh d))
  else None.

Definition push_certs (views : list CertView) (s : RunState) : RunState :=
  on_activity (λ a, let l := ac_certs a ++ views in
                    set_certs (if (30 <? length l)%nat then tail l else l) a) s.

Definition cert_tx (d : Draft) (seq : Z) (schema record_id certifier : string) : Transaction :=
  signed (clock (dr_fresh d)) (cert_record "" seq schema record_id certifier) certifier.

(** 1. Certification and audit of a lot that has none yet. *)
Definition certify_entry (has : string → bool) (regulators : Z) (d : Draft) (e : PipelineLot)
  : option (Draft * PipelineLot) :=
  if pl_certified e then Some (d, e) else
  let seq := pl_seq e in
  let who := pl_certifier e in
  let cert_id := "cert-" +:+ pretty seq in
  let audit_id := "audit-" +:+ pretty seq in
  d ← draft_tx has who (cert_tx d seq "quality_certification" cert_id who) d;
  d ← draft_tx has who (cert_tx d seq "audit_attestation" audit_id who) d;
  let d := draft_state (push_certs
    [ mkCertView cert_id "quality_certification" ("LOT-" +:+ pretty seq) who "valid";
      mkCertView audit_id "audit_attestation" ("LOT-" +:+ pretty seq) who "valid" ]) d in
  let d := draft_payload (certifier_evidence seq who) who d in
  let d := if (0 <? regulators) then draft_payload (regulator_notes seq) "regulator-1" d else d in
  Some (d, set_certified e).

(** The event, the giving and the taking company of the next hop. *)
Definition hop (e : PipelineLot) : string * string * string :=
  if (pl_stage e =? 0) then ("dispatch", pl_manufacturer e, pl_distributor e)
  else if (pl_stage e =? 1) then ("dispatch", pl_distributor e, pl_logistics e)
  else ("receive", pl_logistics e, pl_pharmacy e).

Definition hand_over (tx_id event from to : string) (seq pressure : Z) (s : RunState) : RunState :=
  let s := record_tx tx_id "custody" from to
             ("AssetRegistration `" +:+ event +:+ "` → " +:+ to +:+ " (lot " +:+ pretty seq +:+ ")") s in
  let s := on_books (wms_move from "holder" 0 500) s in
  let s := on_books (wms_move to "holder" 500 0) s in
  push_feed ("lot " +:+ pretty seq +:+ " handed over: " +:+ from +:+ " → " +:+ to +:+ " ("
    +:+ pretty (offer_quantity seq pressure) +:+ " units)") s.

(** 2. Every lot in flight moves one custody hop. *)
Definition advance_entry (has : string → bool) (pressure : Z) (d : Draft) (e : PipelineLot)
  : option (Draft * PipelineLot) :=
  if (3 <=? pl_stage e) then Some (d, e) else
  let '(event, from, to) := hop e in
  let tx := custody_tx (clock (dr_fresh d)) (uuid (dr_fresh d)) (pl_seq e) event to false in
  let d := draft_fresh d in
  d ← draft_tx has to tx d;
  let d := if (pl_stage e =? 0)
           then draft_payload (intake_checklist (pl_seq e) to) to (draft_payload (storage_terms (pl_seq e) to) to d)
           else draft_payload (temperature_log_terms (pl_seq e) to) to
                  (draft_payload (transit_terms (pl_seq e) to) to d) in
  let d := draft_state (hand_over (tx_id tx) event from to (pl_seq e) pressure) d in
  Some (d, next_stage e).

(** [for entry in pipeline.iter_mut()] *)
Fixpoint walk (step : Draft → PipelineLot → option (Draft * PipelineLot)) (d : Draft) (l : list PipelineLot)
  : option (Draft * list PipelineLot) :=
  match l with
  | [] => Some (d, [])
  | e :: l =>
      '(d, e) ← step d e;
      '(d, l) ← walk step d l;
      Some (d, e :: l)
  end.

(** [list[slot % list.len()]]; the remainder by zero panics. *)
Definition rotate (l : list string) (slot : Z) : option string :=
  match l with [] => None | _ => l !! Z.to_nat (slot mod Z.of_nat (length l)) end.

Definition process_step (has : string → bool) (seq : Z) (maker step : string) (d : Draft) : option Draft :=
  let tx := new_tx (dr_fresh d) (KInventoryUpdate (mkInventoryUpdate "SKU-DEMO" maker 0
              ("manufacturing step: " +:+ step +:+ " (lot " +:+ pretty seq +:+ ")"))) in
  d ← draft_tx has maker tx (draft_fresh d);
  Some (draft_state (record_tx (tx_id tx) "process" maker maker
    ("Process step `" +:+ step +:+ "` by " +:+ maker +:+ " (lot " +:+ pretty seq +:+ ")")) d).

Definition offer_note (seq pressure : Z) : string :=
  let price := offer_price seq in
  let quantity := offer_quantity seq pressure in
  if (CONTRACT_MAX_PRICE <? price)
  then "matched " +:+ manual_contract_for_price price +:+ " for " +:+ offer_buyer price +:+ " — "
       +:+ pretty quantity +:+ " of the lot's 500 units on offer, awaiting a buyer decision"
  else "partial lot offer: " +:+ pretty quantity +:+ " of the lot's 500 units (auto contract)".

(** The sell side of a new lot. *)
Definition advertise (has : string → bool) (round seq pressure : Z) (maker : string) (d : Draft) : option Draft :=
  let price := offer_price seq in
  let buyer := offer_buyer price in
  let tx := supply_offer (clock (dr_fresh d)) (uuid (dr_fresh d)) seq maker pressure in
  d ← draft_tx has maker tx (draft_fresh d);
  Some (draft_state (λ s,
    let s := push_offer (mkOfferEvent "offer" (tx_id tx) maker buyer "SKU-DEMO" (offer_quantity seq pressure) 0
               price round (offer_note seq pressure)) s in
    let s := record_tx (tx_id tx) "offer" maker buyer
               ("SupplyOffer " +:+ pretty seq +:+ " from " +:+ maker) s in
    count_edge maker buyer s) d).

Definition new_lot_view (seq : Z) (maker : string) : LotView :=
  let trust := TrustScore.score (TrustScore.compute (demo_asset maker seq false)) in
  mkLotView ("LOT-" +:+ pretty seq) "manufactured" maker trust [] false trust 0 true.

Definition push_lot (v : LotView) (s : RunState) : RunState :=
  on_metrics (count_lots 1) (on_projection (λ p, set_lots (pj_lots p ++ [v]) p) s).

(** 3. A new lot: its anchor, manufacture, process steps, offer and pricing. *)
Definition enter_lot (has : string → bool) (p : SimParams) (companies : list Company) (round pressure slot : Z)
    (d : Draft) : option (Draft * PipelineLot) :=
  let seq := add64 ((round - 1) * lots_per_round p + slot) 1 in
  maker ← rotate (companies_of_role companies "manufacturer") slot;
  distributor ← rotate (companies_of_role companies "distributor") slot;
  carrier ← rotate (companies_of_role companies "logistics") slot;
  pharmacy ← rotate (companies_of_role companies "pharmacy") slot;
  certifier ← rotate (companies_of_role companies "certifier") slot;
  let d := draft_state (λ s,
    let s := push_feed ("lot " +:+ pretty seq +:+ ": " +:+ maker +:+ " manufactures; " +:+ distributor
               +:+ " → " +:+ carrier +:+ " → " +:+ pharmacy +:+ " queued") s in
    count_edge certifier pharmacy (count_edge maker distributor s)) d in
  d ← draft_tx has maker (signed (clock (dr_fresh d)) (lot_record "" seq maker) maker) d;
  let manufacture := custody_tx (clock (dr_fresh d)) (uuid (dr_fresh d)) seq "manufacture" maker false in
  let d := draft_state (λ s,
    on_books (wms_move maker "manufacturer" 500 0)
      (record_tx (tx_id manufacture) "custody" maker maker
         ("AssetRegistration `manufacture` → " +:+ maker +:+ " (lot " +:+ pretty seq +:+ ")") s)) (draft_fresh d) in
  d ← draft_tx has maker manufacture d;
  d ← process_step has seq maker "mixing" d;
  d ← process_step has seq maker "packaging" d;
  let d := draft_payload (process_terms seq maker) maker d in
  d ← advertise has round seq pressure maker d;
  let d := draft_payload (pricing_terms seq pressure maker) maker d in
  let d := draft_state (push_lot (new_lot_view seq maker)) d in
  Some (d, mkLot seq 0 maker distributor carrier pharmacy certifier false).

Fixpoint enter_lots (enter : Z → Draft → option (Draft * PipelineLot)) (d : Draft) (slots : list Z)
  : option (Draft * list PipelineLot) :=
  match slots with
  | [] => Some (d, [])
  | slot :: slots =>
      '(d, e) ← enter slot d;
      '(d, l) ← enter_lots enter d slots;
      Some (d, e :: l)
  end.

(** Phases 1 to 3. *)
Definition draft_round (has : string → bool) (p : SimParams) (round pressure : Z) (pipeline : list PipelineLot)
    (d : Draft) : option (Draft * list PipelineLot) :=
  let companies := build_companies p in
  '(d, l) ← walk (certify_entry has (regulators p)) d pipeline;
  '(d, l) ← walk (advance_entry has pressure) d l;
  '(d, fresh) ← enter_lots (enter_lot has p companies round pressure) d (seqZ 0 (lots_per_round p));
  Some (d, l ++ fresh).

(** ** Attackers *)

(** The explanations the page shows beside each attempt; the runs of blanks are the
    source's. *)
Definition explain_membership : string :=
  "Private payloads only ever leave a node for peers whose organization                "
  +:+ "      is in the collection's member list. This company is verified but is           "
  +:+ "           not a member of `pricing`, so the membership gate refused before any     "
  +:+ "                 cleartext could leave the node or reach a peer.".
Definition explain_zero_trust : string :=
  "Zero-trust gate (#86): private payloads require a configured,                      "
  +:+ "verified certificate chain. This node presents no verifier, so                      "
  +:+ "every org-gated path fails closed — the payload never left the                      "
  +:+ "node and nothing about it is in the chain.".
Definition explain_schema : string :=
  "ADR-006 records are strictly validated against the v1                      family "
  +:+ "descriptor: the `quality_certification` family allows only                      its "
  +:+ "listed payload keys. The forged record carried an extra field,                      "
  +:+ "so admission refused the whole transaction — nothing of it ever                     "
  +:+ " reached the pending pool, let alone a block.".
Definition explain_commitment : string :=
  "Anchored families (ADR-006) must carry commitment =                      "
  +:+ "sha256(canonical form). The forged anchor claimed a commitment its                  "
  +:+ "    content does not produce, so strict validation refused it before                "
  +:+ "      admission.".
Definition explain_replay : string :=
  "The pending pool and the committed index are idempotent by                      "
  +:+ "transaction id: a replayed transaction — even one the node itself                   "
  +:+ "   just admitted — is refused, so an adversary cannot double-spend or               "
  +:+ "       double-count by replaying.".
Definition explain_metadata : string :=
  "Zero trust is not exclusion: the schema permits partial metadata, so the "
  +:+ "registration committed. But the chain scored it — MetadataTrustScore recorded the "
  +:+ "missing core fields (serial number, Anvisa registration, manufacturer id), dropping "
  +:+ "the score below the standard threshold. The shortfall is visible and permanent; the "
  +:+ "on-chain record devalues itself.".

Definition explanation_of (detail : string) : string :=
  if detail ==? "collection membership enforced at the node" then explain_membership
  else if detail ==? "org-gated paths fail closed" then explain_zero_trust
  else if detail ==? "strict canonical schema validation" then explain_schema
  else if detail ==? "anchored families hash-check the commitment" then explain_commitment
  else if detail ==? "pool idempotency" then explain_replay else explain_metadata.

(** A row of the security log: its detail settles the explanation. *)
Definition security_row (actor action outcome detail : string) : SecurityEvent :=
  mkSecurityEvent actor action outcome detail (explanation_of detail).

Definition log_attack (row : SecurityEvent) (counted : bool) (w : SharedRun) : SharedRun :=
  update_state (λ s, let s := push_security row s in
                     if counted then on_metrics (count_rejected 1) s else s) w.

Definition verdict {X} (r : result CoreError X) (accepted refused : string) : string :=
  if is_ok r then accepted else refused.

Definition UNEXPECTED : string := "ACCEPTED (unexpected!)".

(** A submission to the attacker's own node, with what the page says about it. *)
Definition attempt (c : Company) (tx : Transaction) (action accepted refused detail : string) (counted : bool)
    (w : SharedRun) : SharedRun * result CoreError unit :=
  let '(f, r) := fed_submit (sh_fed w) (co_id c) tx in
  (log_attack (security_row (co_id c) action (verdict r accepted refused) detail) counted (with_fed w f), r).

Definition smuggle (c : Company) (w : SharedRun) : SharedRun :=
  let '(f, r) := fed_private (sh_fed w) (co_id c) COLLECTION "smuggled pricing data" in
  log_attack (security_row (co_id c) "private payload to pricing (not a member)"
      (verdict r UNEXPECTED
         (if co_has_verifier c then "rejected by membership gate"
          else "rejected: fail-closed without a certificate verifier (#86)"))
      (if co_has_verifier c then "collection membership enforced at the node" else "org-gated paths fail closed"))
    true (with_fed w f).

(** The five attempts of one company; the id of an admitted registration is returned. *)
Definition attack (round : Z) (w : SharedRun) (c : Company) : SharedRun * list string :=
  let seq := (round * 100) mod (U64_MAX + 1) in
  let me := co_id c in
  let now := clock (sh_fresh w) in
  let w := smuggle c w in
  let w := (attempt c (signed now (forged_record "" seq me) me)
    "forged certification with undisclosed payload key" UNEXPECTED "rejected by schema validation"
    "strict canonical schema validation" true w).1 in
  let w := (attempt c (signed now (tampered_record "" seq me) me)
    "lot anchor with tampered commitment" UNEXPECTED "rejected: commitment does not match the record"
    "anchored families hash-check the commitment" true w).1 in
  let replay := Transaction_with_id now ("replay-" +:+ me) (KCanonicalRecord (lot_record "" seq me)) in
  let w := with_fed w (fed_submit (sh_fed w) me replay).1 in
  let w := (attempt c replay "transaction replay (same id twice)" UNEXPECTED
    "rejected: duplicate transaction id (replay blocked)" "pool idempotency" true w).1 in
  let evil := custody_tx now (uuid (sh_fresh w)) seq "manufacture" me true in
  let w := with_fresh w (S (sh_fresh w)) in
  let '(w, r) := attempt c evil "registration with missing core metadata"
    "admitted — non-standard metadata, trust score reduced" "rejected by admission"
    "trust scoring flags the shortfall" false w in
  (w, if is_ok r then [tx_id evil] else []).

(** [None] is the panic of [node_for]. *)
Fixpoint evil_attacks (round : Z) (w : SharedRun) (evil : list Company) : option (SharedRun * list string) :=
  match evil with
  | [] => Some (w, [])
  | c :: evil =>
      if negb (fed_has (sh_fed w) (co_id c)) then None else
      let '(w, ids) := attack round w c in
      '(w, rest) ← evil_attacks round w evil;
      Some (w, ids ++ rest)
  end.

(** ** Payloads *)

Definition kind_of (cleartext : string) : string :=
  default "terms" (json_of cleartext ≫= λ t, str_field t "kind").

(** [disseminate_payloads]: kind, commitment, cleartext and author of each accepted one,
    in the order of the round. *)
Fixpoint disseminate_payloads (f : F) (leader : string) (payloads : list (string * string))
  : F * list (string * string * string * string) :=
  match payloads with
  | [] => (f, [])
  | (cleartext, author) :: payloads =>
      let '(f, r) := fed_private f leader COLLECTION cleartext in
      let '(f, rest) := disseminate_payloads f leader payloads in
      (f, if is_ok r then (kind_of cleartext, sha256 cleartext, cleartext, author) :: rest else rest)
  end.

Definition is_collection (e : PdcEntry) : bool := pe_collection e ==? COLLECTION.

Definition list_commitment (members : list string) (s : RunState) (commitment author : string) : RunState :=
  let s := on_activity (λ a, set_pdc
    (let l := if existsb is_collection (ac_pdc a) then ac_pdc a else ac_pdc a ++ [mkPdcEntry COLLECTION []] in
     update_first is_collection (λ e, mkPdcEntry (pe_collection e) (pe_commitments e ++ [commitment])) l) a) s in
  foldl (λ s m, if m ==? author then s else count_edge author m s) s members.

Definition record_payloads (members : list string) (accepted : list (string * string * string * string))
    (w : SharedRun) : SharedRun :=
  let w := with_payloads w (sh_payloads w
             ++ ((λ '(_, commitment, cleartext, author), (COLLECTION, commitment, cleartext, author)) <$> accepted)) in
  update_state (λ s, foldl (λ s '(kind, commitment, _, author),
    if kind ==? "pricing" then list_commitment members s commitment author else s) s accepted) w.

(** ** Submission *)

(** [submit_round]: each transaction to its node, the counters once at the end. *)
Fixpoint submit_all (f : F) (txs : list (string * Transaction)) : F * list (result CoreError unit) :=
  match txs with
  | [] => (f, [])
  | (company, tx) :: txs =>
      let '(f, r) := fed_submit f company tx in
      let '(f, rs) := submit_all f txs in (f, r :: rs)
  end.

Definition submit_round (txs : list (string * Transaction)) (w : SharedRun) : SharedRun :=
  match txs with
  | [] => w
  | _ =>
      let '(f, rs) := submit_all (sh_fed w) txs in
      let ok := Z.of_nat (length (List.filter is_ok rs)) in
      let failures := omap (λ r, match r with Err e => Some e | Ok _ => None end) rs in
      update_state (λ s,
        let s := on_metrics (λ m, count_rejected (Z.of_nat (length failures)) (count_submitted ok m)) s in
        foldl (λ s e, push_feed ("admission rejected: core error: " +:+ display_error e) s) s failures) (with_fed w f)
  end.

(** ** The committed block *)

Definition purchase_recorded (id : string) (e : OfferEvent) : bool :=
  (oe_kind e ==? "purchase") && (oe_tx_id e ==? id).

Definition open_offer (o : PurchaseOrder) (e : OfferEvent) : bool :=
  (oe_kind e ==? "offer") && (oe_seller e ==? po_seller_id o)
  && (oe_price_per_unit e =? po_agreed_price_per_unit o) && (oe_sold e <? oe_quantity e).

(** The text of the code has a backslash, a line break and the indentation in it. *)
Definition newline : string := String (Ascii.ascii_of_nat 10) EmptyString.
Definition auto_fill (o : PurchaseOrder) (e : OfferEvent) : OfferEvent :=
  let sold := add64 (oe_sold e) (po_quantity o) in
  fill_offer sold
    (if (oe_quantity e <=? sold)
     then "auto-executed: " +:+ pretty sold +:+ " of the lot's 500 units bought"
     else "auto-executed: " +:+ pretty sold +:+ " of the lot's 500 units bought, \" +:+ newline +:+ of_bytes (replicate 37 space)
          +:+ "offer re-advertised") e.

Definition is_manual (o : PurchaseOrder) : bool :=
  match po_contract_id o with Some c => negb (c ==? CONTRACT_ID) | None => false end.

Definition order_value (o : PurchaseOrder) : Z := saturating_mul64 (po_quantity o) (po_agreed_price_per_unit o).

(** One order of the committed block. *)
Definition scan_order (round : Z) (s : RunState) (id : string) (o : PurchaseOrder) : RunState :=
  let recorded := existsb (purchase_recorded id) (ac_offers (rs_activity s)) in
  let s := on_books (cash_move (po_buyer_id o) (po_seller_id o) (order_value o)) s in
  let s := if is_manual o then s
           else on_activity (λ a, set_offers (update_first (open_offer o) (auto_fill o) (ac_offers a)) a) s in
  if recorded then s else
  let s := push_offer (mkOfferEvent "purchase" id (po_seller_id o) (po_buyer_id o) (po_product_id o)
             (po_quantity o) 0 (po_agreed_price_per_unit o) round
             (if is_manual o
              then "manually completed by " +:+ po_buyer_id o +:+ " against "
                   +:+ default MANUAL_CONTRACT_ID (po_contract_id o) +:+ ", tx " +:+ id
              else "matched by contract " +:+ CONTRACT_ID +:+ " (auto-execute), tx " +:+ id)) s in
  record_tx id "purchase" (po_seller_id o) (po_buyer_id o)
    ("PurchaseOrder " +:+ pretty (po_quantity o) +:+ " × " +:+ po_product_id o +:+ " @ "
     +:+ pretty (po_agreed_price_per_unit o) +:+ " from " +:+ po_seller_id o) s.

Definition scan_tx (round : Z) (s : RunState) (tx : Transaction) : RunState :=
  match tx_kind tx with KPurchaseOrder o => scan_order round s (tx_id tx) o | _ => s end.

(** 6. The orders of the leader's last block. *)
Definition scan_block (round : Z) (leader : string) (w : SharedRun) : SharedRun :=
  match last (fed_chain (sh_fed w) leader) with
  | Some b => update_state (λ s, foldl (scan_tx round) s (transactions b)) w
  | None => w
  end.

(** ** Projections of the chain *)

Definition stage_of (e : Provenance.CustodyEvent) : LotStage :=
  mkLotStage (Provenance.ce_event_type e) (Provenance.ce_custodian_id e) (Provenance.ce_block_index e).

Definition stage_text (stage : Z) : string :=
  if (stage =? 0) then "manufactured" else if (stage =? 1) then "at distributor"
  else if (stage =? 2) then "in transit" else "complete".

(** The position of each lot's row, by its number; a later row wins. *)
Definition lot_number (v : LotView) : option Z :=
  digits ← strip_prefix "LOT-" (lv_lot_ref v); parse_u64 digits.
Definition lot_index (lots : list LotView) : gmap Z nat :=
  foldl (λ m iv, match lot_number iv.2 with Some seq => <[seq := iv.1]> m | None => m end) ∅
    (imap pair lots).

Definition place_chain (index : gmap Z nat) (pipeline : list PipelineLot) (lots : list LotView)
    (seq : Z) (events : list Provenance.CustodyEvent) : list LotView :=
  match index !! seq with
  | None => lots
  | Some i =>
      let stage := match List.find (λ e, pl_seq e =? seq) pipeline with Some e => pl_stage e | None => 0 end in
      alter (λ v, mkLotView (lv_lot_ref v) (stage_text stage) (lv_manufacturer v) (lv_trust_score v)
                    (stage_of <$> events) (lv_lineage_complete v) (lv_trust_avg v) (lv_flat_records v)
                    (lv_schema_compliant v)) i lots
  end.

(** [checked_div], and the saturating conversion to a byte. *)
Definition avg8 (t : Z * Z) : Z := if (t.2 =? 0) then 0 else Z.min (t.1 / t.2) 255.
Definition add_score (trust : Z) (t : Z * Z) : Z * Z := (add64 t.1 trust, add64 t.2 1).

Definition batch_number_of (r : Flattener.FlatAssetRecord) : option Z :=
  batch ← Flattener.fr_batch_number r; digits ← strip_prefix "B-" batch; parse_u64 digits.

Definition flat_view (r : Flattener.FlatAssetRecord) : FlatRecordView :=
  mkFlatView (Flattener.fr_block_index r) (default "" (Flattener.fr_gtin r))
    (default "" (Flattener.fr_batch_number r)) (default "" (Flattener.fr_serial_number r))
    (Flattener.fr_custodian_id r) (Flattener.fr_event_type r) (Flattener.fr_trust_score r)
    (Flattener.fr_is_standard_compliant r) (Flattener.fr_missing_core_fields r).

(** Folding one new flat record into the aggregates. *)
Definition fold_record (p : Projection) (r : Flattener.FlatAssetRecord) : Projection :=
  let c := pj_compliance p in
  let trust := Flattener.fr_trust_score r in
  let ok := Flattener.fr_is_standard_compliant r in
  let c := mkCompliance (cl_schema_version c) (cl_fields_present c) (cl_fields_total c) (cl_compliant c)
             (cl_non_compliant c) (cl_critical c) (cl_warnings c) (add64 (cl_flat_records c) 1)
             (if ok then add64 (cl_standard_records c) 1 else cl_standard_records c)
             (if ok then cl_low_trust_records c else add64 (cl_low_trust_records c) 1)
             (cl_lineages_checked c) (cl_lineages_complete c) (cl_avg_trust c)
             (flat_view r :: cl_recent c) in
  let p := set_compliance c p in
  let p := set_trust_total (add_score trust (pj_trust_total p)) p in
  let org := Flattener.fr_originator_id r in
  let p := set_trust_totals (<[org := add_score trust (default (0, 0) (pj_trust_totals p !! org))]> (pj_trust_totals p)) p in
  match batch_number_of r with
  | Some seq => set_batch_totals (<[seq := add_score trust (default (0, 0) (pj_batch_totals p !! seq))]> (pj_batch_totals p)) p
  | None => p
  end.

(** The records above the cursor, and the cursor after them. *)
Definition new_records (cursor : Z) (records : list Flattener.FlatAssetRecord) : list Flattener.FlatAssetRecord :=
  List.filter (λ r, cursor <? Flattener.fr_block_index r) records.
Definition advance_cursor (cursor : Z) (records : list Flattener.FlatAssetRecord) : Z :=
  foldl Z.max cursor (Flattener.fr_block_index <$> records).

Definition fold_records (records : list Flattener.FlatAssetRecord) (p : Projection) : Projection :=
  let fresh := new_records (pj_last_projected_block p) records in
  set_last_projected_block (advance_cursor (pj_last_projected_block p) fresh) (foldl fold_record p fresh).

(** Sequence number, lineage, compliance, critical and warning counts, fields present. *)
Record LineageReport := mkLineageReport {
  lr_seq : Z; lr_lineage : bool; lr_compliant : bool; lr_critical : Z; lr_warnings : Z; lr_fields : Z }.

Definition lineage_report (index : Provenance.ProvenanceIndex) (e : PipelineLot) : LineageReport :=
  let r := Schema.validate_asset (demo_asset (pl_manufacturer e) (pl_seq e) false) in
  mkLineageReport (pl_seq e)
    (Provenance.verify_lineage index (demo_asset_id (pl_seq e) false) ["manufacture"; "dispatch"; "receive"])
    (Schema.is_compliant r) (Z.of_nat (Schema.critical_count r)) (Z.of_nat (Schema.warning_count r))
    (Z.of_nat (Schema.field_count_present r)).

(** The statistics of the lots in flight. *)
Definition pipeline_stats (reports : list LineageReport) (p : Projection) : Projection :=
  let c := pj_compliance p in
  let n := Z.of_nat (length reports) in
  let compliant := Z.of_nat (length (List.filter lr_compliant reports)) in
  set_compliance (mkCompliance ("v" +:+ pretty SCHEMA_VERSION_V1)
      (match last reports with Some r => lr_fields r | None => cl_fields_present c end) 6 compliant (n - compliant)
      (sum64 (lr_critical <$> reports)) (sum64 (lr_warnings <$> reports)) (cl_flat_records c)
      (cl_standard_records c) (cl_low_trust_records c) n
      (Z.of_nat (length (List.filter lr_lineage reports))) (avg8 (pj_trust_total p)) (take 12 (cl_recent c))) p.

Definition report_lot (index : gmap Z nat) (p : Projection) (r : LineageReport) : Projection :=
  match index !! lr_seq r with
  | None => p
  | Some i =>
      let t := default (0, 0) (pj_batch_totals p !! lr_seq r) in
      set_lots (alter (λ v, mkLotView (lv_lot_ref v) (lv_status v) (lv_manufacturer v) (lv_trust_score v)
                  (lv_chain v) (lr_lineage r) (avg8 t) t.2 (lr_compliant r)) i (pj_lots p)) p
  end.

Definition block_view (b : Block) : BlockView :=
  mkBlockView (index b) (String.substring 0 16 (hash b)) (String.substring 0 16 (previous_hash b))
    (Z.of_nat (length (transactions b))) (timestamp b) (is_some (certificate b)).

(** The contract registry: definitions and executions of the blocks above the cursor. *)
Definition new_contract (c : SmartContractDef) : ContractView :=
  mkContractView (scd_contract_id c) (scd_buyer_id c) (scd_product_id c) (max_price_per_unit (scd_conditions c))
    (max_quantity (scd_conditions c)) (auto_execute (scd_conditions c)) 0 0 "Active".

Definition add_contract (l : list ContractView) (c : SmartContractDef) : list ContractView :=
  if existsb (λ v, ct_id v ==? scd_contract_id c) l then l else l ++ [new_contract c].

Definition count_execution (l : list ContractView) (id : string) : list ContractView :=
  update_first (λ v, ct_id v ==? id)
    (λ v, mkContractView (ct_id v) (ct_buyer v) (ct_product v) (ct_max_price_per_unit v) (ct_max_quantity v)
            (ct_auto_execute v) (add64 (ct_executions v) 1) (ct_quantity_purchased v) (ct_status v)) l.

Definition blocks_above (cursor : Z) (c : list Block) : list Transaction :=
  List.filter (λ b, cursor <? index b) c ≫= transactions.
Definition creations (txs : list Transaction) : list SmartContractDef :=
  omap (λ tx, match tx_kind tx with KContractCreation d => Some d | _ => None end) txs.
Definition order_contracts (txs : list Transaction) : list string :=
  omap (λ tx, match tx_kind tx with KPurchaseOrder o => po_contract_id o | _ => None end) txs.

Definition refresh_contract (summaries : list ContractSummary) (v : ContractView) : ContractView :=
  match List.find (λ m, cm_id m ==? ct_id v) summaries with
  | Some m => mkContractView (ct_id v) (ct_buyer v) (ct_product v) (ct_max_price_per_unit v) (ct_max_quantity v)
                (ct_auto_execute v) (ct_executions v) (cm_quantity_purchased m) (cm_status m)
  | None => v
  end.

Definition fold_contracts (c : list Block) (summaries : list ContractSummary) (p : Projection) : Projection :=
  let txs := blocks_above (pj_last_contract_block p) c in
  let l := foldl add_contract (pj_contracts p) (creations txs) in
  let l := foldl count_execution l (order_contracts txs) in
  set_last_contract_block (match last c with Some b => index b | None => 0 end)
    (set_contracts (refresh_contract summaries <$> l) p).

Definition org_trust (totals : gmap string (Z * Z)) (o : OrgView) : OrgView :=
  let t := default (0, 0) (totals !! ov_id o) in
  mkOrgView (ov_id o) (ov_role o) (ov_evil o) (ov_member_of o) (avg8 t) t.2.

(** 7. Everything the page shows of the chain. *)
Definition project_chain (leader : string) (pipeline : list PipelineLot) (f : F) (p : Projection) : Projection :=
  let provenance := fed_provenance f leader in
  let lots := lot_index (pj_lots p) in
  let reports := lineage_report provenance <$> pipeline in
  let p := set_lots (foldl (λ l e, place_chain lots pipeline l (pl_seq e)
             (Provenance.get_custody_chain provenance (demo_asset_id (pl_seq e) false))) (pj_lots p) pipeline) p in
  let p := fold_records (fed_flat f leader) p in
  let p := pipeline_stats reports p in
  let p := foldl (report_lot lots) p reports in
  let p := set_blocks (block_view <$> take 12 (reverse (fed_chain f leader))) p in
  let p := fold_contracts (fed_chain f leader) (fed_summaries f leader) p in
  set_orgs (org_trust (pj_trust_totals p) <$> pj_orgs p) p.

(** ** Retail *)

Definition retail_one (round : Z) (w : SharedRun) (pharmacy : string) : option SharedRun :=
  let b := rs_books (sh_state w) in
  let stock := sellable b pharmacy in
  if (stock =? 0) then Some w else
  let units := Z.min stock (RETAIL_UNITS_PER_ROUND * buy_pressure b) in
  let sale := retail_sale_tx (clock (sh_fresh w)) (uuid (sh_fresh w)) pharmacy units round in
  if negb (fed_has (sh_fed w) pharmacy) then None else
  let '(f, r) := fed_submit (sh_fed w) pharmacy sale in
  let w := with_fresh (with_fed w f) (S (sh_fresh w)) in
  Some (if is_ok r then
          update_state (λ s,
            let s := on_metrics (count_submitted 1) s in
            let s := on_books (retail_sale pharmacy units (saturating_mul64 units RETAIL_PRICE)) s in
            push_feed (pharmacy +:+ " sold " +:+ pretty units
              +:+ " units to customers (retail, committed next block)") s) w
        else w).

Fixpoint retail (round : Z) (w : SharedRun) (pharmacies : list string) : option SharedRun :=
  match pharmacies with
  | [] => Some w
  | p :: pharmacies => w ← retail_one round w p; retail round w pharmacies
  end.

(** ** The round *)

Definition push_point (round : Z) (t : Timings) (s : RunState) : RunState :=
  on_meter (λ mt, let m := mt_metrics mt in
    set_history (push_window 64 (mkRoundPoint round (m_submitted m) (m_rejected m) (tm_commit t) (m_pool_count m)
      (m_tx_per_sec m) (tm_scenario t) (tm_payload t) (tm_submit t) (tm_settle t) (tm_project t) (tm_retail t)
      (tm_round t)) (mt_history mt)) mt) s.

(** The state update of phase 7. *)
Definition receipt (round now_millis : Z) (t : Timings) (leader : string) (w : SharedRun) : SharedRun :=
  update_state (λ s,
    let '(entries, bytes) := fed_pool (sh_fed w) leader in
    let s := set_run_round round (set_run_params (sh_params w) s) in
    let s := set_run_chain_height (Z.of_nat (length (fed_chain (sh_fed w) leader))) s in
    let s := record_commit (tm_commit t) entries bytes s in
    let s := on_projection (project_chain leader (sh_pipeline w) (sh_fed w)) s in
    let s := on_books (refresh_wms (pj_lots (rs_projection s))) s in
    refresh_throughput now_millis s) w.

(** Phases 4 to 7 after the attackers: payloads, submission, settling, mining, receipts. *)
Definition commit_phases (d : Draft) (admitted : list string) (leader : string) (round now_millis : Z)
    (t : Timings) (w : SharedRun) : SharedRun :=
  let '(f, accepted) := disseminate_payloads (sh_fed w) leader (dr_payloads d) in
  let w := record_payloads (pricing_member_ids (build_companies (sh_params w))) accepted (with_fed w f) in
  let w := submit_round (dr_txs d) w in
  let w := with_fed w (fed_settle (sh_fed w) leader (admitted ++ ((λ ct, tx_id ct.2) <$> dr_txs d))) in
  let w := with_fed w (fed_mine (sh_fed w) leader) in
  receipt round now_millis t leader (scan_block round leader w).

Definition drive_round (w : SharedRun) (leader : string) (round now_millis : Z) (t : Timings) : option SharedRun :=
  let p := sh_params w in
  let companies := build_companies p in
  let pressure := buy_pressure (rs_books (sh_state w)) in
  '(d, pipeline) ← draft_round (fed_has (sh_fed w)) p round pressure (sh_pipeline w)
                     (mkDraft (sh_state w) [] [] (sh_fresh w));
  let w := with_pipeline (with_fresh (with_state w (dr_state d)) (dr_fresh d)) pipeline in
  '(w, admitted) ← evil_attacks round w (List.filter co_evil companies);
  let w := commit_phases d admitted leader round now_millis t w in
  w ← retail round w (companies_of_role companies "pharmacy");
  Some (update_state (push_point round t) w).

(** ** Setup and the runner *)

Context (build_federation : list Company → string → F * list PostureRow).

Definition setup_projection (p : Projection) (companies : list Company) : Projection :=
  mkProjection (pj_lots p)
    ((λ c, mkOrgView (co_id c) (co_role c) (co_evil c)
             (if co_evil c || (co_role c ==? "certifier") then [] else [COLLECTION]) 0 0) <$> companies)
    (pj_blocks p) []
    (mkCompliance ("v" +:+ pretty SCHEMA_VERSION_V1) 0 6 0 0 0 0 0 0 0 0 0 0 []) 0 0 ∅ ∅ (0, 0).

Fixpoint submit_setup (f : F) (leader : string) (k : nat) (defs : list SmartContractDef) : F * nat :=
  match defs with
  | [] => (f, k)
  | d :: defs => submit_setup (fed_submit f leader (new_tx k (KContractCreation d))).1 leader (S k) defs
  end.

(** [None] is the panic when the leader has no node or there is no company. *)
Definition setup_run (now_millis : Z) (w : SharedRun) : option (SharedRun * string) :=
  let companies := build_companies (sh_params w) in
  leader ← co_id <$> head companies;
  let '(f, posture) := build_federation companies leader in
  let w := update_state (λ s,
    let s := set_run_status "running" (set_run_params (sh_params w) (set_run_posture posture s)) in
    let s := on_meter (set_started_ms (Some now_millis)) s in
    on_projection (λ p, setup_projection p companies) s) (with_fed w f) in
  if negb (fed_has f leader) then None else
  let f := (fed_submit f leader (activation_tx (clock (sh_fresh w)) 2)).1 in
  let '(f, k) := submit_setup f leader (sh_fresh w) setup_contracts in
  Some (with_fresh (with_fed w (fed_mine f leader)) k, leader).

(** One turn of the runner's loop: the federation is rebuilt when the topology changed. *)
Definition runner_turn (seen now_millis : Z) (t : Timings) (w : SharedRun) (leader : string)
  : option (SharedRun * string * Z) :=
  '(w, leader, seen) ←
    (if (sh_topology w =? seen) then Some (w, leader, seen)
     else '(w', leader) ← setup_run now_millis (update_state (set_run_status "rebuilding") w);
          Some (w', leader, sh_topology w));
  let round := add64 (rs_round (sh_state w)) 1 in
  w ← drive_round w leader round now_millis t;
  Some (w, leader, seen).

(** The watcher task: what it does with an event of the leader. *)
Definition watch_event (e : NodeEvent) (s : RunState) : RunState :=
  match e with
  | EquivocationDetected height _ =>
      set_run_equivocations (rs_equivocations s ++ ["equivocation evidence at height " +:+ pretty height]) s
  | ContractExecuted contract quantity =>
      push_offer (mkOfferEvent "execution" "" "—" "—" "—" quantity 0 0 (rs_round s)
        ("contract " +:+ contract +:+ " executed")) s
  | _ => s
  end.

(** ** What a viewer sees *)

Record OrgPayload := mkOrgPayload {
  op_collection : string; op_commitment : string; op_payload : option string; op_author : string;
  op_lot : Z; op_kind : string; op_summary : string }.

(** The fields of the answer; the trade rows are the offers they are rendered from. *)
Record OrgSnapshot := mkOrgSnapshot {
  os_chain_height : Z; os_pdc_values : list OrgPayload; os_stock : option WmsRow; os_inventory : Z;
  os_cash : option Z; os_sell_offers : list OfferEvent; os_purchases : list OfferEvent;
  os_pending_inbound : Z; os_private_visible : bool }.

Definition is_regulator (v : string) : bool := starts_with "regulator" v.

(** Who may read the cleartext of an author's payload on a node that holds it. *)
Definition readable (viewer : option string) (author : string) (held : bool) : bool :=
  match viewer with
  | None => false
  | Some v => (v ==? "admin") || is_regulator v || ((author ==? v) && held)
  end.

Definition payload_row (f : F) (org : string) (viewer : option string) (row : string * string * string * string)
  : OrgPayload :=
  let '(collection, commitment, cleartext, author) := row in
  let t := json_of cleartext in
  mkOrgPayload collection commitment
    (if readable viewer author (is_some (fed_transient f org collection commitment)) then Some cleartext else None)
    author (default 0 (t ≫= λ t, u64_field t "lot")) (default "terms" (t ≫= λ t, str_field t "kind"))
    (match t with Some t => payload_summary f64_text cents_text t | None => "—" end).

Definition listed (w : SharedRun) (org : string) (viewer : option string) : PayloadLedger :=
  match viewer with
  | Some v => if is_regulator v then sh_payloads w else List.filter (λ r, r.2 ==? org) (sh_payloads w)
  | None => List.filter (λ r, r.2 ==? org) (sh_payloads w)
  end.

Definition private_visible (org : string) (viewer : option string) : bool :=
  match viewer with Some v => (v ==? org) || is_regulator v || (v ==? "admin") | None => false end.

(** [None] is the answer for an unknown organization; the admin lens is [admin_snapshot]. *)
Definition org_snapshot (w : SharedRun) (org : string) (viewer : option string) : option OrgSnapshot :=
  if negb (fed_has (sh_fed w) org) then None else
  let s := sh_state w in
  let b := rs_books s in
  let visible := private_visible org viewer in
  let trades p := if visible then List.filter p (ac_offers (rs_activity s)) else [] in
  Some (mkOrgSnapshot (Z.of_nat (length (fed_chain (sh_fed w) org)))
    (payload_row (sh_fed w) org viewer <$> listed w org viewer)
    (List.find (row_of org) (bk_wms b)) (sellable b org)
    (if visible then Some (cash_of b org) else None)
    (trades (λ e, (oe_kind e ==? "offer") && (oe_seller e ==? org)))
    (trades (λ e, (oe_kind e ==? "purchase") && (oe_buyer e ==? org)))
    (Z.of_nat (length (List.filter (λ e, (pl_pharmacy e ==? org) && (pl_stage e <? 3)) (sh_pipeline w))))
    visible).

Definition admin_snapshot (w : SharedRun) : Z * list OrgPayload * gmap string Z :=
  (rs_chain_height (sh_state w),
   (λ '(collection, commitment, cleartext, author),
      let t := json_of cleartext in
      mkOrgPayload collection commitment (Some cleartext) author (default 0 (t ≫= λ t, u64_field t "lot"))
        (kind_of cleartext) (match t with Some t => payload_summary f64_text cents_text t | None => "—" end))
     <$> sh_payloads w,
   bk_cash (rs_books (sh_state w))).

(** ** Laws of the nodes *)

(** No call removes a node, and admission refuses a canonical record that the validator
    refuses. *)
Class FederationLaws : Prop := {
  fl_submit_has f c tx x : fed_has (fed_submit f c tx).1 x = fed_has f x;
  fl_private_has f c coll p x : fed_has (fed_private f c coll p).1 x = fed_has f x;
  fl_settle_has f c ids x : fed_has (fed_settle f c ids) x = fed_has f x;
  fl_mine_has f c x : fed_has (fed_mine f c) x = fed_has f x;
  fl_invalid f c tx r : tx_kind tx = KCanonicalRecord r → validate_record r ≠ Ok tt →
    is_ok (fed_submit f c tx).2 = false }.

(** ** The books along a run *)

(** [b'] comes from [b] by movements, payments, refreshes and sales of units in stock. *)
Definition books_run (b b' : Books) : Prop := ∃ ops, ops_fit b ops ∧ b' = foldl book_op b ops.

Lemma ops_fit_app b ops ops' : ops_fit b (ops ++ ops') ↔ ops_fit b ops ∧ ops_fit (foldl book_op b ops) ops'.
Proof. revert b. induction ops as [|op ops IH]; intros b; cbn; [tauto|]. rewrite IH. tauto. Qed.

#[local] Instance books_run_preorder : PreOrder books_run.
Proof.
  split.
  - intros b. by exists [].
  - intros b1 b2 b3 (ops & Ho & ->) (ops' & Ho' & ->). exists (ops ++ ops').
    rewrite ops_fit_app, foldl_app. done.
Qed.

Lemma books_run_op b op : op_fits b op → books_run b (book_op b op).
Proof. intros H. by exists [op]. Qed.

Lemma books_run_balanced b b' c : books_run b b' → balanced b c → balanced b' c.
Proof. intros (ops & Ho & ->) Hb. by apply book_ops_balanced. Qed.

Notation draft_books d := (rs_books (dr_state d)).

Lemma draft_tx_Some has c tx d d' :
  draft_tx has c tx d = Some d' →
  has c = true ∧ d' = mkDraft (dr_state d) (dr_txs d ++ [(c, tx)]) (dr_payloads d) (dr_fresh d).
Proof. unfold draft_tx. destruct (has c); [|done]. by intros [= <-]. Qed.

(** Read off a successful draft step, one node lookup at a time. *)
Ltac draft_step H :=
  repeat match type of H with
  | (draft_tx _ _ _ ?d ≫= _) = _ =>
      let d' := fresh "d" in let Hd := fresh "Hd" in let Hh := fresh "Hh" in
      destruct (draft_tx _ _ _ d) as [d'|] eqn:Hd; cbn [mbind option_bind] in H; [|discriminate H];
      apply draft_tx_Some in Hd as [Hh Hd]
  end.

Lemma certify_entry_Some has regs d e d' e' :
  certify_entry has regs d e = Some (d', e') →
  e' = set_certified e ∧ draft_books d' = draft_books d.
Proof.
  unfold certify_entry. destruct (pl_certified e) eqn:Hc.
  - intros [= <- <-]. split; [|done]. destruct e. cbn in *. by subst.
  - intros H. draft_step H. injection H as <- <-. split; [done|]. subst. by destruct (0 <? regs).
Qed.

Definition advanced (e : PipelineLot) : PipelineLot := if (3 <=? pl_stage e) then e else next_stage e.

Lemma advance_entry_Some has pressure d e d' e' :
  advance_entry has pressure d e = Some (d', e') →
  e' = advanced e ∧ books_run (draft_books d) (draft_books d').
Proof.
  unfold advance_entry, advanced. destruct (3 <=? pl_stage e).
  - intros [= <- <-]. split; [done|reflexivity].
  - destruct (hop e) as [[event from] to]. intros H. draft_step H. injection H as <- <-. split; [done|].
    subst. transitivity (book_op (draft_books d) (OpMove from "holder" 0 500)); [by apply books_run_op|].
    destruct (pl_stage e =? 0);
      apply (books_run_op (book_op (draft_books d) (OpMove from "holder" 0 500)) (OpMove to "holder" 500 0)); cbn; lia.
Qed.

Lemma walk_Some (step : Draft → PipelineLot → option (Draft * PipelineLot)) g l :
  (∀ d e d' e', step d e = Some (d', e') → e' = g e ∧ books_run (draft_books d) (draft_books d')) →
  ∀ d d' l', walk step d l = Some (d', l') → l' = g <$> l ∧ books_run (draft_books d) (draft_books d').
Proof.
  intros Hs. induction l as [|e l IH]; intros d d' l' H; cbn [walk] in H.
  - injection H as <- <-. split; [done|reflexivity].
  - destruct (step d e) as [[d1 e1]|] eqn:H1; cbn [mbind option_bind] in H; [|done].
    destruct (walk step d1 l) as [[d2 l2]|] eqn:H2; cbn [mbind option_bind] in H; [|done].
    injection H as <- <-. apply Hs in H1 as [-> Hb1]. apply IH in H2 as [-> Hb2].
    split; [done|]. by transitivity (draft_books d1).
Qed.

Definition lot_seq (p : SimParams) (round slot : Z) : Z := add64 ((round - 1) * lots_per_round p + slot) 1.

Lemma process_step_Some has seq maker step d d' :
  process_step has seq maker step d = Some d' → draft_books d' = draft_books d.
Proof. unfold process_step. intros H. draft_step H. injection H as <-. by subst. Qed.

Lemma advertise_Some has round seq pressure maker d d' :
  advertise has round seq pressure maker d = Some d' → draft_books d' = draft_books d.
Proof. unfold advertise. intros H. draft_step H. injection H as <-. by subst. Qed.

(** The lot that enters at a slot of a round: its number, its place at the maker, and its
    companies, taken in rotation from each role. *)
Record entered (p : SimParams) (round slot : Z) (e : PipelineLot) : Prop := {
  en_seq : pl_seq e = lot_seq p round slot;
  en_stage : pl_stage e = 0;
  en_certified : pl_certified e = false;
  en_manufacturer : rotate (companies_of_role (build_companies p) "manufacturer") slot = Some (pl_manufacturer e);
  en_distributor : rotate (companies_of_role (build_companies p) "distributor") slot = Some (pl_distributor e);
  en_logistics : rotate (companies_of_role (build_companies p) "logistics") slot = Some (pl_logistics e);
  en_pharmacy : rotate (companies_of_role (build_companies p) "pharmacy") slot = Some (pl_pharmacy e);
  en_certifier : rotate (companies_of_role (build_companies p) "certifier") slot = Some (pl_certifier e) }.

Lemma enter_lot_Some has p round pressure slot d d' e :
  enter_lot has p (build_companies p) round pressure slot d = Some (d', e) →
  entered p round slot e ∧ books_run (draft_books d) (draft_books d').
Proof.
  unfold enter_lot. fold (lot_seq p round slot). intros H. set (companies := build_companies p) in *.
  set (seq := lot_seq p round slot) in *.
  destruct (rotate (companies_of_role companies "manufacturer") slot) as [maker|] eqn:Emaker; cbn [mbind option_bind] in H; [|done].
  destruct (rotate (companies_of_role companies "distributor") slot) as [dist|] eqn:Edist; cbn [mbind option_bind] in H; [|done].
  destruct (rotate (companies_of_role companies "logistics") slot) as [carrier|] eqn:Ecarrier; cbn [mbind option_bind] in H; [|done].
  destruct (rotate (companies_of_role companies "pharmacy") slot) as [pharm|] eqn:Epharm; cbn [mbind option_bind] in H; [|done].
  destruct (rotate (companies_of_role companies "certifier") slot) as [cert|] eqn:Ecert; cbn [mbind option_bind] in H; [|done].
  draft_step H.
  destruct (process_step _ _ _ "mixing" _) as [dm|] eqn:Hm; cbn [mbind option_bind] in H; [|done].
  destruct (process_step _ _ _ "packaging" _) as [dp|] eqn:Hp; cbn [mbind option_bind] in H; [|done].
  destruct (advertise _ _ _ _ _ _) as [da|] eqn:Ha; cbn [mbind option_bind] in H; [|done].
  injection H as <- <-. split; [by split|].
  apply process_step_Some in Hm, Hp. apply advertise_Some in Ha. cbn -[lot_record] in *.
  rewrite Ha, Hp, Hm. subst. apply (books_run_op _ (OpMove maker "manufacturer" 500 0)). cbn. lia.
Qed.

Lemma enter_lots_Some has p round pressure slots :
  ∀ d d' l, enter_lots (enter_lot has p (build_companies p) round pressure) d slots = Some (d', l) →
  Forall2 (entered p round) slots l
  ∧ books_run (draft_books d) (draft_books d').
Proof.
  induction slots as [|slot slots IH]; intros d d' l H; cbn [enter_lots] in H.
  - injection H as <- <-. split_and!; [constructor|reflexivity].
  - destruct (enter_lot _ _ _ _ _ _ _) as [[d1 e1]|] eqn:H1; cbn [mbind option_bind] in H; [|done].
    destruct (enter_lots _ d1 slots) as [[d2 l2]|] eqn:H2; cbn [mbind option_bind] in H; [|done].
    injection H as <- <-. apply enter_lot_Some in H1 as [He Hb1]. apply IH in H2 as (Hl & Hb2).
    split_and!; [by constructor|by transitivity (draft_books d1)].
Qed.

(** What a round does to a lot in flight: it is certified and moves one hop. *)
Definition lot_turn (e : PipelineLot) : PipelineLot := advanced (set_certified e).

Lemma draft_round_Some has p round pressure pipeline d d' l :
  draft_round has p round pressure pipeline d = Some (d', l) →
  books_run (draft_books d) (draft_books d')
  ∧ ∃ fresh, l = (lot_turn <$> pipeline) ++ fresh
    ∧ Forall2 (entered p round) (seqZ 0 (lots_per_round p)) fresh.
Proof.
  unfold draft_round. intros H.
  destruct (walk (certify_entry has (regulators p)) d pipeline) as [[d1 l1]|] eqn:H1; cbn [mbind option_bind] in H; [|done].
  destruct (walk (advance_entry has pressure) d1 l1) as [[d2 l2]|] eqn:H2; cbn [mbind option_bind] in H; [|done].
  destruct (enter_lots _ d2 _) as [[d3 l3]|] eqn:H3; cbn [mbind option_bind] in H; [|done]. injection H as <- <-.
  apply (walk_Some _ set_certified) in H1 as [-> Hb1].
  2: { intros d0 e0 d0' e0' [-> Hb]%certify_entry_Some. split; [done|]. rewrite Hb. reflexivity. }
  apply (walk_Some _ advanced) in H2 as [-> Hb2]; [|by intros * ?%advance_entry_Some].
  apply enter_lots_Some in H3 as (Hl & Hb3). split.
  - transitivity (draft_books d1); [done|]. by transitivity (draft_books d2).
  - exists l3. by rewrite <- list_fmap_compose.
Qed.

(** What the phases after the draft keep. *)
Record keeps (w w' : SharedRun) : Prop := {
  kp_pipeline : sh_pipeline w' = sh_pipeline w;
  kp_params : sh_params w' = sh_params w;
  kp_topology : sh_topology w' = sh_topology w;
  kp_books : books_run (rs_books (sh_state w)) (rs_books (sh_state w'));
  kp_has : FederationLaws → ∀ c, fed_has (sh_fed w') c = fed_has (sh_fed w) c }.

#[local] Instance keeps_preorder : PreOrder keeps.
Proof.
  split.
  - intros w. split; [done|done|done|reflexivity|done].
  - intros w1 w2 w3 [A1 A2 A3 A4 A5] [B1 B2 B3 B4 B5]. split; try congruence.
    + by transitivity (rs_books (sh_state w2)).
    + intros L c. by rewrite B5, A5.
Qed.

(** A change that leaves the books, the nodes and the pipeline alone. *)
Lemma keeps_same w w' :
  sh_pipeline w' = sh_pipeline w → sh_params w' = sh_params w → sh_topology w' = sh_topology w →
  rs_books (sh_state w') = rs_books (sh_state w) →
  (FederationLaws → ∀ c, fed_has (sh_fed w') c = fed_has (sh_fed w) c) → keeps w w'.
Proof. intros H1 H2 H3 H4 H5. split; try done. rewrite H4. reflexivity. Qed.

Lemma keeps_books w f :
  books_run (rs_books (sh_state w)) (rs_books (f (sh_state w))) → keeps w (update_state f w).
Proof. intros H. by split. Qed.

Lemma attempt_keeps c tx a b x y counted w : keeps w (attempt c tx a b x y counted w).1.
Proof.
  unfold attempt. pose proof (λ (L : FederationLaws) z, fl_submit_has (sh_fed w) (co_id c) tx z) as Hh.
  destruct (fed_submit _ _ _) as [f r]. apply keeps_same; try done. by destruct counted.
Qed.

Lemma attack_keeps round w c : keeps w (attack round w c).1.
Proof.
  unfold attack. set (w1 := smuggle c w).
  assert (keeps w w1) as K1.
  { unfold w1, smuggle. pose proof (λ (L : FederationLaws) z, fl_private_has (sh_fed w) (co_id c) COLLECTION "smuggled pricing data" z) as Hh.
    destruct (fed_private _ _ _ _) as [f r]. by apply keeps_same. }
  set (w2 := (attempt c _ _ _ _ "strict canonical schema validation" true w1).1).
  assert (keeps w1 w2) as K2 by apply attempt_keeps.
  set (w3 := (attempt c _ _ _ _ "anchored families hash-check the commitment" true w2).1).
  assert (keeps w2 w3) as K3 by apply attempt_keeps.
  set (replay := Transaction_with_id _ _ _). set (w4 := with_fed w3 _).
  assert (keeps w3 w4) as K4 by (apply keeps_same; try done; intros L z; apply fl_submit_has).
  set (w5 := (attempt c replay _ _ _ "pool idempotency" true w4).1).
  assert (keeps w4 w5) as K5 by apply attempt_keeps.
  set (w6 := with_fresh w5 _). assert (keeps w5 w6) as K6 by (by apply keeps_same).
  match goal with |- context [attempt ?c ?tx ?a ?b ?x ?y ?k w6] => pose proof (attempt_keeps c tx a b x y k w6) as K7;
    destruct (attempt c tx a b x y k w6) as [w7 r] end. cbn in *.
  transitivity w1; [done|]. transitivity w2; [done|]. transitivity w3; [done|]. transitivity w4; [done|].
  transitivity w5; [done|]. by transitivity w6.
Qed.

Lemma evil_attacks_keeps round evil : ∀ w w' ids, evil_attacks round w evil = Some (w', ids) → keeps w w'.
Proof.
  induction evil as [|c evil IH]; intros w w' ids H; cbn [evil_attacks] in H.
  - injection H as <- _. reflexivity.
  - destruct (fed_has _ _); [|done]. cbn [negb] in H. pose proof (attack_keeps round w c) as K.
    destruct (attack round w c) as [w1 ids1]. destruct (evil_attacks round w1 evil) as [[w2 ids2]|] eqn:H2; [|done].
    cbn [mbind option_bind] in H. injection H as <- _. cbn in K. transitivity w1; [done|]. by eapply IH.
Qed.

Lemma disseminate_has (L : FederationLaws) leader payloads : ∀ f c,
  fed_has (disseminate_payloads f leader payloads).1 c = fed_has f c.
Proof.
  induction payloads as [|[t a] payloads IH]; intros f c; [done|]. cbn [disseminate_payloads].
  pose proof (fl_private_has f leader COLLECTION t c) as Hp. destruct (fed_private _ _ _ _) as [f1 r].
  specialize (IH f1 c). destruct (disseminate_payloads f1 leader payloads). cbn in *. congruence.
Qed.

Lemma submit_all_has (L : FederationLaws) txs : ∀ f c, fed_has (submit_all f txs).1 c = fed_has f c.
Proof.
  induction txs as [|[x tx] txs IH]; intros f c; [done|]. cbn [submit_all].
  pose proof (fl_submit_has f x tx c) as Hp. destruct (fed_submit f x tx) as [f1 r].
  specialize (IH f1 c). destruct (submit_all f1 txs). cbn in *. congruence.
Qed.

Lemma foldl_books {A} (g : RunState → A → RunState) l :
  (∀ s a, rs_books (g s a) = rs_books s) → ∀ s, rs_books (foldl g s l) = rs_books s.
Proof. intros Hg. induction l as [|a l IH]; intros s; [done|]. cbn. by rewrite IH. Qed.

Lemma record_payloads_keeps members accepted w : keeps w (record_payloads members accepted w).
Proof.
  apply keeps_same; try done. unfold record_payloads. cbn. apply foldl_books.
  intros s [[[kind commitment] t] author]. destruct (kind ==? "pricing"); [|done]. unfold list_commitment.
  rewrite foldl_books; [done|]. intros s0 m. by destruct (m ==? author).
Qed.

Lemma submit_round_keeps txs w : keeps w (submit_round txs w).
Proof.
  unfold submit_round. destruct txs as [|x txs]; [reflexivity|].
  pose proof (λ (L : FederationLaws) c, submit_all_has L (x :: txs) (sh_fed w) c) as Hh.
  destruct (submit_all (sh_fed w) (x :: txs)) as [f rs]. apply keeps_same; try done. cbn.
  by rewrite foldl_books.
Qed.

Lemma scan_order_books round s id o :
  rs_books (scan_order round s id o) = cash_move (po_buyer_id o) (po_seller_id o) (order_value o) (rs_books s).
Proof. unfold scan_order. by destruct (existsb _ _), (is_manual o). Qed.

Lemma scan_block_keeps round leader w : keeps w (scan_block round leader w).
Proof.
  unfold scan_block. destruct (last _) as [b|]; [|reflexivity]. apply keeps_books.
  generalize (sh_state w). induction (transactions b) as [|tx txs IH]; intros s; [reflexivity|]. cbn [foldl].
  transitivity (rs_books (scan_tx round s tx)); [|done]. unfold scan_tx.
  destruct (tx_kind tx); try reflexivity. rewrite scan_order_books.
  by apply (books_run_op _ (OpPay (po_buyer_id o) (po_seller_id o) (order_value o))).
Qed.

Lemma receipt_keeps round now t leader w : keeps w (receipt round now t leader w).
Proof.
  apply keeps_books. destruct (fed_pool (sh_fed w) leader) as [entries bytes]. cbn -[refresh_wms project_chain].
  match goal with |- books_run ?b (refresh_wms ?lots ?b) => by apply (books_run_op b (OpRefresh lots)) end.
Qed.

Lemma buy_pressure_bounds b : 0 ≤ buy_pressure b ≤ PRESSURE_CAP.
Proof.
  unfold buy_pressure, PRESSURE_CAP. assert (0 ≤ add64 1 (system_stock b / STOCK_PRESSURE_DIVISOR)); [|lia].
  apply Z.mod_pos_bound. lia.
Qed.

(** Stock counters that the books hold are never negative. *)
Definition stock_ok (b : Books) : Prop := ∀ c, 0 ≤ sellable b c.

Lemma books_run_stock b b' : books_run b b' → stock_ok b → stock_ok b'.
Proof.
  intros (ops & Ho & ->). revert b Ho. induction ops as [|op ops IH]; intros b Ho Hb; [done|].
  destruct Ho as [Ho Hops]. cbn [foldl]. apply (IH _ Hops). intros c. destruct op as [c' role r d|c' u m|x y m|lots]; cbn in *.
  - rewrite sellable_move by done. destruct (_ && _); [apply Z.mod_pos_bound; lia|done].
  - destruct (retail_sale_totals c' u m b c) as [_ ->]. destruct (_ && _); [unfold saturating_sub; lia|done].
  - apply Hb.
  - apply Hb.
Qed.

Lemma retail_one_keeps round w p w' :
  stock_ok (rs_books (sh_state w)) → retail_one round w p = Some w' → keeps w w'.
Proof.
  intros Hs. unfold retail_one. destruct (sellable _ p =? 0); [intros [= <-]; reflexivity|].
  destruct (fed_has (sh_fed w) p); [|done]. cbn [negb].
  set (units := Z.min _ _). set (tx := retail_sale_tx _ _ _ _ _).
  pose proof (λ (L : FederationLaws) c, fl_submit_has (sh_fed w) p tx c) as Hh.
  destruct (fed_submit (sh_fed w) p tx) as [f r]. intros [= <-].
  set (w1 := with_fresh (with_fed w f) _). assert (keeps w w1) as K by (by apply keeps_same).
  destruct (is_ok r); [|done]. transitivity w1; [done|]. apply keeps_books.
  apply (books_run_op _ (OpSale p units (saturating_mul64 units RETAIL_PRICE))). cbn. unfold units.
  pose proof (Hs p). pose proof (buy_pressure_bounds (rs_books (sh_state w))). unfold RETAIL_UNITS_PER_ROUND. lia.
Qed.

Lemma retail_keeps round ps : ∀ w w',
  stock_ok (rs_books (sh_state w)) → retail round w ps = Some w' → keeps w w'.
Proof.
  induction ps as [|p ps IH]; intros w w' Hs H; cbn [retail] in H; [injection H as <-; reflexivity|].
  destruct (retail_one round w p) as [w1|] eqn:H1; cbn [mbind option_bind] in H; [|done].
  pose proof (retail_one_keeps _ _ _ _ Hs H1) as K. transitivity w1; [done|].
  apply IH; [|done]. by eapply books_run_stock; [apply (kp_books _ _ K)|].
Qed.

Lemma commit_phases_keeps d admitted leader round now t w : keeps w (commit_phases d admitted leader round now t w).
Proof.
  unfold commit_phases. pose proof (λ L c, disseminate_has L leader (dr_payloads d) (sh_fed w) c) as Hdh.
  destruct (disseminate_payloads (sh_fed w) leader (dr_payloads d)) as [f accepted].
  set (w3 := with_fed w f). assert (keeps w w3) as K3 by (by apply keeps_same).
  set (w4 := record_payloads _ accepted w3). assert (keeps w3 w4) as K4 by apply record_payloads_keeps.
  set (w5 := submit_round (dr_txs d) w4). assert (keeps w4 w5) as K5 by apply submit_round_keeps.
  set (w6 := with_fed w5 _).
  assert (keeps w5 w6) as K6 by (apply keeps_same; try done; intros L c; apply fl_settle_has).
  set (w7 := with_fed w6 _).
  assert (keeps w6 w7) as K7 by (apply keeps_same; try done; intros L c; apply fl_mine_has).
  transitivity w3; [done|]. transitivity w4; [done|]. transitivity w5; [done|]. transitivity w6; [done|].
  transitivity w7; [done|]. etransitivity; [apply scan_block_keeps|]. apply receipt_keeps.
Qed.

(** A round drafts, then leaves the drafted pipeline alone. *)
Record round_effect (w w' : SharedRun) (round : Z) : Prop := {
  re_params : sh_params w' = sh_params w;
  re_topology : sh_topology w' = sh_topology w;
  re_books : books_run (rs_books (sh_state w)) (rs_books (sh_state w'));
  re_has : FederationLaws → ∀ c, fed_has (sh_fed w') c = fed_has (sh_fed w) c;
  re_draft : ∃ d, draft_round (fed_has (sh_fed w)) (sh_params w) round (buy_pressure (rs_books (sh_state w)))
                    (sh_pipeline w) (mkDraft (sh_state w) [] [] (sh_fresh w)) = Some (d, sh_pipeline w') }.

Lemma drive_round_effect w leader round now t w' :
  stock_ok (rs_books (sh_state w)) → drive_round w leader round now t = Some w' → round_effect w w' round.
Proof.
  intros Hs. unfold drive_round. intros H.
  destruct (draft_round _ _ _ _ _ _) as [[d pipeline]|] eqn:Hd; cbn [mbind option_bind] in H; [|done].
  pose proof Hd as Hd'. apply draft_round_Some in Hd as [Hb Hp]. cbn [dr_state] in Hb.
  set (w1 := with_pipeline _ pipeline) in *.
  destruct (evil_attacks round w1 _) as [[w2 admitted]|] eqn:He; cbn [mbind option_bind] in H; [|done].
  apply evil_attacks_keeps in He. set (w9 := commit_phases d admitted leader round now t w2) in *.
  assert (keeps w1 w9) as K by (transitivity w2; [done|apply commit_phases_keeps]).
  destruct (retail round w9 _) as [w10|] eqn:Hr; cbn [mbind option_bind] in H; [|done].
  apply retail_keeps in Hr.
  2: { eapply books_run_stock; [apply (kp_books _ _ K)|]. cbn. by eapply books_run_stock. }
  injection H as <-. destruct K as [A1 A2 A3 A4 A5], Hr as [B1 B2 B3 B4 B5]. cbn in *. split; cbn.
  - congruence.
  - congruence.
  - transitivity (draft_books d); [done|]. by transitivity (rs_books (sh_state w9)).
  - intros L c. by rewrite B5, A5.
  - exists d. by rewrite B1, A1.
Qed.

(** ** Rounds succeed and deliver *)

Definition lot_companies (e : PipelineLot) : list string :=
  [pl_manufacturer e; pl_distributor e; pl_logistics e; pl_pharmacy e; pl_certifier e].

(** Every company a round may call has a node. *)
Record staffed (has : string → bool) (p : SimParams) (pipeline : list PipelineLot) : Prop := {
  sf_bounds : in_bounds p;
  sf_companies : ∀ c, c ∈ build_companies p → has (co_id c) = true;
  sf_lots : Forall (λ e, Forall (λ c, has c = true) (lot_companies e) ∧ 0 ≤ pl_stage e) pipeline }.

Lemma draft_tx_ok has c tx d :
  has c = true → draft_tx has c tx d = Some (mkDraft (dr_state d) (dr_txs d ++ [(c, tx)]) (dr_payloads d) (dr_fresh d)).
Proof. unfold draft_tx. by intros ->. Qed.

Lemma lot_turn_companies e : lot_companies (lot_turn e) = lot_companies e.
Proof. unfold lot_turn, advanced. cbn. by destruct (3 <=? pl_stage e). Qed.

Lemma lot_turn_stage e : 0 ≤ pl_stage e ≤ 3 → pl_stage (lot_turn e) = Z.min 3 (pl_stage e + 1).
Proof. intros H. unfold lot_turn, advanced. cbn. destruct (Z.leb_spec 3 (pl_stage e)); cbn; lia. Qed.

Lemma certify_entry_ok has regs d e :
  Forall (λ c, has c = true) (lot_companies e) → is_Some (certify_entry has regs d e).
Proof.
  unfold lot_companies. rewrite !Forall_cons. intros (_ & _ & _ & _ & Hc & _). unfold certify_entry. destruct (pl_certified e); [by eexists|].
  rewrite draft_tx_ok by done. cbn [mbind option_bind]. rewrite draft_tx_ok by done. by eexists.
Qed.

Lemma advance_entry_ok has pressure d e :
  Forall (λ c, has c = true) (lot_companies e) → is_Some (advance_entry has pressure d e).
Proof.
  unfold lot_companies. rewrite !Forall_cons. intros (H1 & H2 & H3 & H4 & _ & _). unfold advance_entry. destruct (3 <=? pl_stage e); [by eexists|].
  assert (has (hop e).2 = true) as Hto by (unfold hop; destruct (pl_stage e =? 0), (pl_stage e =? 1); done).
  destruct (hop e) as [[event from] to]. cbn in Hto. rewrite draft_tx_ok by done. by eexists.
Qed.

Lemma walk_ok (step : Draft → PipelineLot → option (Draft * PipelineLot)) l :
  Forall (λ e, ∀ d, is_Some (step d e)) l → ∀ d, is_Some (walk step d l).
Proof.
  induction 1 as [|e l He _ IH]; intros d; [by eexists|]. cbn [walk].
  destruct (He d) as [[d1 e1] ->]. cbn [mbind option_bind]. destruct (IH d1) as [[d2 l2] ->]. by eexists.
Qed.

Lemma rotate_ok l slot : l ≠ [] → ∃ x, rotate l slot = Some x ∧ x ∈ l.
Proof.
  intros Hne. unfold rotate. destruct l as [|y l]; [done|].
  destruct (lookup_lt_is_Some_2 (y :: l) (Z.to_nat (slot mod Z.of_nat (length (y :: l))))) as [x Hx].
  { pose proof (Z.mod_pos_bound slot (Z.of_nat (length (y :: l)))). cbn [length] in *. lia. }
  exists x. split; [done|]. by eapply list_elem_of_lookup_2.
Qed.

Lemma role_staffed has p pipeline role :
  staffed has p pipeline → role ∈ ["manufacturer"; "distributor"; "logistics"; "pharmacy"; "certifier"] →
  ∀ slot, ∃ x, rotate (companies_of_role (build_companies p) role) slot = Some x ∧ has x = true.
Proof.
  intros [Hb Hc _] Hrole slot.
  assert (∃ c, c ∈ build_companies p ∧ co_role c = role ∧ co_evil c = false) as (c & Hin & Hr & He).
  { exists (mkCompany (role +:+ "-" +:+ pretty 1) role false true). split; [|done].
    assert (∀ n, 1 ≤ n → mkCompany (role +:+ "-" +:+ pretty 1) role false true ∈ push_role n role) as Hpush.
    { intros n Hn. unfold push_role. apply list_elem_of_fmap. exists 1. split; [done|]. apply elem_of_seqZ. lia. }
    destruct Hb. unfold build_companies. rewrite !elem_of_app.
    rewrite !elem_of_cons, elem_of_nil in Hrole. destruct Hrole as [->|[->|[->|[->|[->|[]]]]]].
    - left. apply Hpush; lia.
    - do 1 right. left. apply Hpush; lia.
    - do 2 right. left. apply Hpush; lia.
    - do 3 right. left. apply Hpush; lia.
    - do 5 right. left. apply Hpush; lia. }
  destruct (rotate_ok (companies_of_role (build_companies p) role) slot) as (x & Hx & Hxin).
  { unfold companies_of_role. intros Hnil. apply fmap_nil_inv in Hnil.
    assert (c ∈ List.filter (λ c, (co_role c ==? role) && negb (co_evil c)) (build_companies p)) as Hf.
    { apply list_elem_of_In, List.filter_In. split; [by apply list_elem_of_In|]. by rewrite Hr, He, str_eqb_refl. }
    rewrite Hnil in Hf. by apply elem_of_nil in Hf. }
  exists x. split; [done|]. unfold companies_of_role in Hxin. apply list_elem_of_fmap in Hxin as (c' & -> & Hf).
  apply list_elem_of_In, List.filter_In in Hf as [Hf _]. by apply Hc, list_elem_of_In.
Qed.

Lemma enter_lot_ok has p pipeline round pressure slot d :
  staffed has p pipeline →
  ∃ d' e, enter_lot has p (build_companies p) round pressure slot d = Some (d', e)
    ∧ Forall (λ c, has c = true) (lot_companies e) ∧ pl_stage e = 0.
Proof.
  intros Hsf.
  destruct (role_staffed _ _ _ "manufacturer" Hsf ltac:(set_solver) slot) as (x1 & E1 & H1).
  destruct (role_staffed _ _ _ "distributor" Hsf ltac:(set_solver) slot) as (x2 & E2 & H2).
  destruct (role_staffed _ _ _ "logistics" Hsf ltac:(set_solver) slot) as (x3 & E3 & H3).
  destruct (role_staffed _ _ _ "pharmacy" Hsf ltac:(set_solver) slot) as (x4 & E4 & H4).
  destruct (role_staffed _ _ _ "certifier" Hsf ltac:(set_solver) slot) as (x5 & E5 & H5).
  unfold enter_lot. rewrite E1, E2, E3, E4, E5. cbn [mbind option_bind].
  rewrite draft_tx_ok by done. cbn [mbind option_bind]. rewrite draft_tx_ok by done. cbn [mbind option_bind].
  unfold process_step. do 2 (rewrite draft_tx_ok by done; cbn [mbind option_bind]).
  unfold advertise. rewrite draft_tx_ok by done. cbn [mbind option_bind].
  do 2 eexists. split; [reflexivity|]. split; [|done]. repeat constructor; done.
Qed.

Lemma enter_lots_ok has p pipeline round pressure slots :
  staffed has p pipeline → ∀ d, ∃ d' l,
    enter_lots (enter_lot has p (build_companies p) round pressure) d slots = Some (d', l)
    ∧ Forall (λ e, Forall (λ c, has c = true) (lot_companies e) ∧ 0 ≤ pl_stage e) l.
Proof.
  intros Hsf. induction slots as [|slot slots IH]; intros d; cbn [enter_lots].
  - exists d, []. split; [done|constructor].
  - destruct (enter_lot_ok has p pipeline round pressure slot d Hsf) as (d1 & e1 & -> & He & Hst). cbn [mbind option_bind].
    destruct (IH d1) as (d2 & l2 & -> & Hl). cbn [mbind option_bind]. exists d2, (e1 :: l2). split; [done|].
    constructor; [split; [done|lia]|done].
Qed.

Lemma draft_round_ok has p round pressure pipeline d :
  staffed has p pipeline →
  ∃ d' l, draft_round has p round pressure pipeline d = Some (d', l) ∧ staffed has p l.
Proof.
  intros Hsf. pose proof (sf_lots _ _ _ Hsf) as Hl. unfold draft_round.
  destruct (walk_ok (certify_entry has (regulators p)) pipeline) with (d := d) as [[d1 l1] H1].
  { eapply Forall_impl; [exact Hl|]. intros e [He _] d0. by apply certify_entry_ok. }
  rewrite H1. cbn [mbind option_bind]. apply (walk_Some _ set_certified) in H1 as [-> _].
  2: { intros d0 e0 d0' e0' [-> Hb]%certify_entry_Some. split; [done|]. rewrite Hb. reflexivity. }
  destruct (walk_ok (advance_entry has pressure) (set_certified <$> pipeline)) with (d := d1) as [[d2 l2] H2].
  { apply Forall_fmap. eapply Forall_impl; [exact Hl|]. intros e [He _] d0. by apply advance_entry_ok. }
  rewrite H2. cbn [mbind option_bind]. apply (walk_Some _ advanced) in H2 as [-> _]; [|by intros * ?%advance_entry_Some].
  destruct (enter_lots_ok has p pipeline round pressure (seqZ 0 (lots_per_round p)) Hsf d2) as (d3 & l3 & -> & Hl3).
  cbn [mbind option_bind]. exists d3. eexists. split; [reflexivity|]. destruct Hsf. split; [done|done|].
  apply Forall_app. split; [|done]. rewrite <- list_fmap_compose. apply Forall_fmap.
  eapply Forall_impl; [exact Hl|]. intros e [He Hst]. change ((advanced ∘ set_certified) e) with (lot_turn e). cbv beta.
  split; [by rewrite lot_turn_companies|]. unfold lot_turn, advanced. cbn. destruct (3 <=? pl_stage e); cbn; lia.
Qed.

Lemma evil_attacks_ok (L : FederationLaws) round evil : ∀ w,
  Forall (λ c, fed_has (sh_fed w) (co_id c) = true) evil → is_Some (evil_attacks round w evil).
Proof.
  induction evil as [|c evil IH]; intros w Hf; [by eexists|]. apply Forall_cons in Hf as [Hc Hf].
  cbn [evil_attacks]. rewrite Hc. cbn [negb]. pose proof (kp_has _ _ (attack_keeps round w c) L) as Hk.
  destruct (attack round w c) as [w1 ids]. cbn in Hk. destruct (IH w1) as [[w2 ids2] ->]; [|by eexists].
  eapply Forall_impl; [exact Hf|]. intros x Hx. cbv beta in *. by rewrite Hk.
Qed.

Lemma retail_ok (L : FederationLaws) round ps : ∀ w,
  stock_ok (rs_books (sh_state w)) → Forall (λ c, fed_has (sh_fed w) c = true) ps → is_Some (retail round w ps).
Proof.
  induction ps as [|p ps IH]; intros w Hs Hf; [by eexists|]. apply Forall_cons in Hf as [Hp Hf]. cbn [retail].
  assert (is_Some (retail_one round w p)) as [w1 H1].
  { unfold retail_one. destruct (_ =? 0); [by eexists|]. rewrite Hp. cbn [negb].
    destruct (fed_submit _ _ _) as [f r]. by eexists. }
  rewrite H1. cbn [mbind option_bind]. pose proof (retail_one_keeps _ _ _ _ Hs H1) as K. apply IH.
  - by eapply books_run_stock; [apply (kp_books _ _ K)|].
  - eapply Forall_impl; [exact Hf|]. intros x Hx. cbv beta in *. by rewrite (kp_has _ _ K L).
Qed.

Definition run_staffed (w : SharedRun) : Prop := staffed (fed_has (sh_fed w)) (sh_params w) (sh_pipeline w).

Lemma staffed_ext has has' p l : (∀ c, has' c = has c) → staffed has p l → staffed has' p l.
Proof.
  intros Hh [H1 H2 H3]. split; [done|by intros c Hc; rewrite Hh; apply H2|].
  eapply Forall_impl; [exact H3|]. intros e [He Hst]. split; [|done]. eapply Forall_impl; [exact He|].
  intros c Hc. cbv beta in *. by rewrite Hh.
Qed.

Lemma drive_round_ok (L : FederationLaws) w leader round now t :
  run_staffed w → stock_ok (rs_books (sh_state w)) →
  ∃ w', drive_round w leader round now t = Some w' ∧ run_staffed w' ∧ round_effect w w' round.
Proof.
  intros Hsf Hs.
  destruct (draft_round_ok (fed_has (sh_fed w)) (sh_params w) round (buy_pressure (rs_books (sh_state w)))
    (sh_pipeline w) (mkDraft (sh_state w) [] [] (sh_fresh w)) Hsf) as (d & l & Hd & Hl).
  assert (is_Some (drive_round w leader round now t)) as [w' Hw].
  { unfold drive_round. rewrite Hd. cbn [mbind option_bind]. apply draft_round_Some in Hd as [Hb _]. cbn [dr_state] in Hb.
    set (w1 := with_pipeline _ l).
    assert (∀ c, c ∈ build_companies (sh_params w) → fed_has (sh_fed w1) (co_id c) = true) as Hc
      by apply (sf_companies _ _ _ Hsf).
    destruct (evil_attacks_ok L round (List.filter co_evil (build_companies (sh_params w))) w1) as [[w2 ids] He].
    { apply Forall_forall. intros c Hin. apply list_elem_of_In, List.filter_In in Hin as [Hin _].
      by apply Hc, list_elem_of_In. }
    rewrite He. cbn [mbind option_bind]. apply evil_attacks_keeps in He.
    set (w9 := commit_phases d ids leader round now t w2).
    assert (keeps w1 w9) as K by (transitivity w2; [done|apply commit_phases_keeps]).
    destruct (retail_ok L round (companies_of_role (build_companies (sh_params w)) "pharmacy") w9) as [w10 ->].
    - eapply books_run_stock; [apply (kp_books _ _ K)|]. cbn. by eapply books_run_stock.
    - apply Forall_forall. intros c Hin. rewrite (kp_has _ _ K L). unfold companies_of_role in Hin.
      apply list_elem_of_fmap in Hin as (x & -> & Hin). apply list_elem_of_In, List.filter_In in Hin as [Hin _].
      by apply Hc, list_elem_of_In.
    - by eexists. }
  pose proof (drive_round_effect _ _ _ _ _ _ Hs Hw) as He. exists w'. split_and!; [done| |done].
  destruct He as [H1 _ _ H4 [d' H5]]. rewrite Hd in H5. injection H5 as <- ->. unfold run_staffed. rewrite H1.
  by eapply staffed_ext; [apply (H4 L)|].
Qed.

(** Several rounds, each with its number, clock and measurements. *)
Fixpoint drive_rounds (w : SharedRun) (leader : string) (rounds : list (Z * Z * Timings)) : option SharedRun :=
  match rounds with
  | [] => Some w
  | (round, now, t) :: rounds => w ← drive_round w leader round now t; drive_rounds w leader rounds
  end.

(** A lot after [n] rounds. *)
Lemma lot_turns n e : 0 ≤ pl_stage e ≤ 3 →
  let e' := Nat.iter n lot_turn e in
  pl_seq e' = pl_seq e ∧ lot_companies e' = lot_companies e
  ∧ pl_stage e' = Z.min 3 (pl_stage e + Z.of_nat n)
  ∧ pl_certified e' = (pl_certified e || (0 <? n)%nat).
Proof.
  intros Hst. cbv zeta. induction n as [|n (H1 & H2 & H3 & H4)].
  { cbn. rewrite orb_false_r. split_and!; [done|done|lia|done]. }
  change (Nat.iter (S n) lot_turn e) with (lot_turn (Nat.iter n lot_turn e)).
  set (e' := Nat.iter n lot_turn e) in *. clearbody e'. split_and!.
  - rewrite <- H1. unfold lot_turn, advanced. cbn. by destruct (3 <=? pl_stage e').
  - by rewrite lot_turn_companies.
  - rewrite lot_turn_stage, H3 by lia. lia.
  - cbn. rewrite orb_true_r. unfold lot_turn, advanced. cbn. by destruct (3 <=? pl_stage e').
Qed.

Lemma Forall2_seqZ {X} (R : Z → X → Prop) n l : Forall2 R (seqZ 0 n) l →
  length l = Z.to_nat n ∧ ∀ slot, 0 ≤ slot < n → ∃ x, l !! Z.to_nat slot = Some x ∧ R slot x.
Proof.
  intros H. split; [rewrite <- (Forall2_length _ _ _ H); apply length_seqZ|].
  intros slot Hs. destruct (Forall2_lookup_l _ _ _ (Z.to_nat slot) slot H) as (x & Hx & Hr); [|eauto].
  rewrite lookup_seqZ. lia.
Qed.

(** The pipeline after any number of rounds: the lots in flight, turned once per round, then
    the lots of each round, turned once per round after it. *)
Lemma drive_rounds_pipeline (L : FederationLaws) rounds : ∀ w leader,
  run_staffed w → stock_ok (rs_books (sh_state w)) →
  let lots := Z.to_nat (lots_per_round (sh_params w)) in
  ∃ w', drive_rounds w leader rounds = Some w' ∧ run_staffed w' ∧ sh_params w' = sh_params w
  ∧ length (sh_pipeline w') = (length (sh_pipeline w) + length rounds * lots)%nat
  ∧ (∀ i e, sh_pipeline w !! i = Some e → sh_pipeline w' !! i = Some (Nat.iter (length rounds) lot_turn e))
  ∧ ∀ j round now t slot, rounds !! j = Some (round, now, t) → 0 ≤ slot < lots_per_round (sh_params w) →
      ∃ e, entered (sh_params w) round slot e
        ∧ sh_pipeline w' !! (length (sh_pipeline w) + j * lots + Z.to_nat slot)%nat
          = Some (Nat.iter (length rounds - S j) lot_turn e).
Proof.
  induction rounds as [|[[round now] t] rounds IH]; intros w leader Hsf Hs.
  - exists w. split_and!; try done; cbn; lia.
  - destruct (drive_round_ok L w leader round now t Hsf Hs) as (w1 & H1 & Hsf1 & [Hpar _ Hb _ [d Hd]]).
    destruct (IH w1 leader Hsf1) as (w' & Hw & Hsf' & Hpar' & Hlen & Hold & Hnew); [by eapply books_run_stock|].
    apply draft_round_Some in Hd as [_ (fresh & Hp & Hent)]. apply Forall2_seqZ in Hent as [Hfl Hent].
    rewrite Hpar in Hlen, Hnew, Hpar'. rewrite Hp in Hlen, Hnew. rewrite length_app, length_fmap, Hfl in Hlen, Hnew.
    exists w'. cbn [drive_rounds]. rewrite H1. cbn [mbind option_bind]. split_and!; [done|done|done| | |].
    + rewrite Hlen. cbn [length]. lia.
    + intros i e He. cbn [length]. rewrite Nat.iter_succ_r. apply Hold. rewrite Hp.
      apply lookup_app_l_Some. by rewrite list_lookup_fmap, He.
    + intros [|j] round' now' t' slot Hj Hslot; cbn [lookup list_lookup] in Hj.
      * injection Hj as -> -> ->. destruct (Hent slot Hslot) as (e & He & Hen). exists e. split; [done|].
        cbn [length]. rewrite Nat.sub_succ, Nat.sub_0_r. apply Hold. rewrite Hp, lookup_app_r by (rewrite length_fmap; lia).
        rewrite length_fmap. by replace (_ + _ - _)%nat with (Z.to_nat slot) by lia.
      * destruct (Hnew j round' now' t' slot Hj Hslot) as (e & He & Hl). exists e. split; [done|].
        cbn [length]. rewrite Nat.sub_succ. rewrite <- Hl. f_equal. lia.
Qed.

(** C32: The scenario runs and delivers.  Let the parameters be within the bounds that
    validation enforces, every company of the parameters and every company a lot in flight is
    bound for have a node, and the stock figures be non-negative (they are unsigned).  Then no
    round panics, however many are driven, and the same holds afterwards.  After [n] rounds a
    lot that was in flight is [n] hops further (at most three: at the pharmacy), under its
    number, still bound for the same companies, and certified if [n > 0].  Behind these, in
    order, stand the lots that the rounds added, [lots_per_round] each: the lot of a slot has
    the number of its round and slot, is bound for the companies that the rotation of each
    role gives for the slot, has moved one hop per later round, and is certified if there
    was one.  There are no others. *)
Theorem rounds_deliver (L : FederationLaws) w leader rounds :
  run_staffed w → stock_ok (rs_books (sh_state w)) →
  let p := sh_params w in
  let lots := Z.to_nat (lots_per_round p) in
  let n := length rounds in
  ∃ w', drive_rounds w leader rounds = Some w' ∧ run_staffed w'
  ∧ length (sh_pipeline w') = (length (sh_pipeline w) + n * lots)%nat
  ∧ (∀ i e, sh_pipeline w !! i = Some e → pl_stage e ≤ 3 →
      ∃ e', sh_pipeline w' !! i = Some e' ∧ pl_seq e' = pl_seq e ∧ lot_companies e' = lot_companies e
      ∧ pl_stage e' = Z.min 3 (pl_stage e + Z.of_nat n)
      ∧ (rounds ≠ [] → pl_certified e' = true))
  ∧ (∀ j round now t slot, rounds !! j = Some (round, now, t) → 0 ≤ slot < lots_per_round p →
      ∃ e', sh_pipeline w' !! (length (sh_pipeline w) + j * lots + Z.to_nat slot)%nat = Some e'
      ∧ pl_seq e' = lot_seq p round slot
      ∧ (λ role, rotate (companies_of_role (build_companies p) role) slot)
          <$> ["manufacturer"; "distributor"; "logistics"; "pharmacy"; "certifier"] = Some <$> lot_companies e'
      ∧ pl_stage e' = Z.min 3 (Z.of_nat (n - S j))
      ∧ pl_certified e' = (S j <? n)%nat).
Proof.
  intros Hsf Hs. cbv zeta.
  destruct (drive_rounds_pipeline L rounds w leader Hsf Hs) as (w' & Hw & Hsf' & _ & Hlen & Hold & Hnew).
  exists w'. split_and!; [done|done|done| |].
  - intros i e He Hst. pose proof (sf_lots _ _ _ Hsf) as Hl. rewrite Forall_lookup in Hl. destruct (Hl i e He) as [_ H0].
    destruct (lot_turns (length rounds) e ltac:(lia)) as (T1 & T2 & T3 & T4).
    eexists. split; [by apply Hold|]. split_and!; [done|done|done|]. intros Hne. rewrite T4.
    destruct rounds; [done|]. apply orb_true_r.
  - intros j round now t slot Hj Hslot. destruct (Hnew j round now t slot Hj Hslot) as (e & [E1 E2 E3 E4 E5 E6 E7 E8] & He).
    destruct (lot_turns (length rounds - S j) e ltac:(lia)) as (T1 & T2 & T3 & T4).
    eexists. split; [done|]. rewrite T1, T2, T3, T4, E1, E2, E3. apply lookup_lt_Some in Hj. split_and!; [done| |lia|].
    + csimpl. by rewrite E4, E5, E6, E7, E8.
    + cbn [orb]. apply Bool.eq_iff_eq_true. rewrite !Nat.ltb_lt. lia.
Qed.

(** The books of the run balance: from a fresh run on, after any rounds, the stock of every
    company is what its card says it received less what it sold to customers.  The goods
    it dispatched are not deducted, so one lot counts at the maker, the distributor, the
    carrier and the pharmacy at once. *)
Theorem run_books_balance w leader rounds w' c :
  stock_ok (rs_books (sh_state w)) → balanced (rs_books (sh_state w)) c →
  drive_rounds w leader rounds = Some w' → balanced (rs_books (sh_state w')) c.
Proof.
  revert w. induction rounds as [|[[round now] t] rounds IH]; intros w Hs Hb H; cbn [drive_rounds] in H.
  - by injection H as <-.
  - destruct (drive_round w leader round now t) as [w1|] eqn:H1; cbn [mbind option_bind] in H; [|done].
    apply drive_round_effect in H1 as [_ _ Hr _ _]; [|done].
    apply (IH w1); [by eapply books_run_stock|by eapply books_run_balanced|done].
Qed.

(** ** The custody trail *)

(** The registrations among drafted transactions, with the node they are submitted to. *)
Definition custody_txs (txs : list (string * Transaction)) : list (string * TraceableAssetRegistration) :=
  omap (λ ct, match tx_kind ct.2 with KAssetRegistration r => Some (ct.1, r) | _ => None end) txs.

Definition registration_of (seq : Z) (event custodian : string) : string * TraceableAssetRegistration :=
  (custodian, mkTraceableAssetRegistration (demo_asset custodian seq false) event custodian None).

(** The registration a lot in flight gives rise to this round, and that of a new lot. *)
Definition hop_registration (e : PipelineLot) : option (string * TraceableAssetRegistration) :=
  if (3 <=? pl_stage e) then None else Some (registration_of (pl_seq e) (hop e).1.1 (hop e).2).
Definition manufacture_registration (e : PipelineLot) : string * TraceableAssetRegistration :=
  registration_of (pl_seq e) "manufacture" (pl_manufacturer e).

Lemma custody_txs_app l k : custody_txs (l ++ k) = custody_txs l ++ custody_txs k.
Proof. apply omap_app. Qed.

Lemma certify_entry_custody has regs d e d' e' :
  certify_entry has regs d e = Some (d', e') → custody_txs (dr_txs d') = custody_txs (dr_txs d).
Proof.
  unfold certify_entry. destruct (pl_certified e); [by intros [= <- _]|]. intros H. draft_step H. injection H as <- _.
  subst. destruct (0 <? regs); cbn; rewrite !custody_txs_app; cbn; by rewrite !app_nil_r.
Qed.

Lemma advance_entry_custody has pressure d e d' e' :
  advance_entry has pressure d e = Some (d', e') →
  custody_txs (dr_txs d') = custody_txs (dr_txs d) ++ option_list (hop_registration e).
Proof.
  unfold advance_entry, hop_registration. destruct (3 <=? pl_stage e).
  - intros [= <- _]. by rewrite app_nil_r.
  - destruct (hop e) as [[event from] to]. intros H. draft_step H. injection H as <- _. subst.
    destruct (pl_stage e =? 0); cbn; by rewrite custody_txs_app.
Qed.

Lemma enter_lot_custody has p companies round pressure slot d d' e :
  enter_lot has p companies round pressure slot d = Some (d', e) →
  custody_txs (dr_txs d') = custody_txs (dr_txs d) ++ [manufacture_registration e].
Proof.
  unfold enter_lot. fold (lot_seq p round slot). set (seq := lot_seq p round slot). clearbody seq. intros H.
  destruct (rotate (companies_of_role companies "manufacturer") slot) as [maker|]; cbn [mbind option_bind] in H; [|done].
  destruct (rotate (companies_of_role companies "distributor") slot) as [dist|]; cbn [mbind option_bind] in H; [|done].
  destruct (rotate (companies_of_role companies "logistics") slot) as [carrier|]; cbn [mbind option_bind] in H; [|done].
  destruct (rotate (companies_of_role companies "pharmacy") slot) as [pharm|]; cbn [mbind option_bind] in H; [|done].
  destruct (rotate (companies_of_role companies "certifier") slot) as [cert|]; cbn [mbind option_bind] in H; [|done].
  unfold process_step, advertise in H. draft_step H.
  repeat match type of H with
  | ((draft_tx _ _ _ ?x ≫= _) ≫= _) = _ =>
      let d1 := fresh "d" in let Hd := fresh "Hd" in
      destruct (draft_tx _ _ _ x) as [d1|] eqn:Hd; cbn [mbind option_bind] in H; [|discriminate H];
      apply draft_tx_Some in Hd as [_ Hd]
  end.
  injection H as <- <-. subst. cbn -[lot_record]. rewrite !custody_txs_app. cbn -[lot_record].
  by rewrite !app_nil_r.
Qed.

Lemma walk_custody (step : Draft → PipelineLot → option (Draft * PipelineLot)) g l :
  (∀ d e d' e', step d e = Some (d', e') → custody_txs (dr_txs d') = custody_txs (dr_txs d) ++ option_list (g e)) →
  ∀ d d' l', walk step d l = Some (d', l') → custody_txs (dr_txs d') = custody_txs (dr_txs d) ++ omap g l.
Proof.
  intros Hs. induction l as [|e l IH]; intros d d' l' H; cbn [walk] in H.
  - injection H as <- <-. by rewrite app_nil_r.
  - destruct (step d e) as [[d1 e1]|] eqn:H1; cbn [mbind option_bind] in H; [|done].
    destruct (walk step d1 l) as [[d2 l2]|] eqn:H2; cbn [mbind option_bind] in H; [|done].
    injection H as <- <-. apply Hs in H1. apply IH in H2. rewrite H2, H1, <- app_assoc. f_equal.
    csimpl. by destruct (g e).
Qed.

Lemma enter_lots_custody has p companies round pressure slots :
  ∀ d d' l, enter_lots (enter_lot has p companies round pressure) d slots = Some (d', l) →
  custody_txs (dr_txs d') = custody_txs (dr_txs d) ++ (manufacture_registration <$> l).
Proof.
  induction slots as [|slot slots IH]; intros d d' l H; cbn [enter_lots] in H.
  - injection H as <- <-. by rewrite app_nil_r.
  - destruct (enter_lot _ _ _ _ _ _ _) as [[d1 e1]|] eqn:H1; cbn [mbind option_bind] in H; [|done].
    destruct (enter_lots _ d1 slots) as [[d2 l2]|] eqn:H2; cbn [mbind option_bind] in H; [|done].
    injection H as <- <-. apply enter_lot_custody in H1. apply IH in H2. by rewrite H2, H1, <- app_assoc.
Qed.

(** The registrations of a round, exactly: one handover for every lot that is not yet at its
    pharmacy (the event and the taker of its next hop, submitted by the taker's own
    node), then one manufacture for every new lot, submitted by its maker; nothing else the
    round drafts registers an asset. *)
Theorem round_registers_exactly has p round pressure pipeline s k d l :
  draft_round has p round pressure pipeline (mkDraft s [] [] k) = Some (d, l) →
  custody_txs (dr_txs d) = omap hop_registration pipeline
    ++ (manufacture_registration <$> drop (length pipeline) l).
Proof.
  unfold draft_round. intros H.
  destruct (walk (certify_entry has (regulators p)) _ pipeline) as [[d1 l1]|] eqn:H1; cbn [mbind option_bind] in H; [|done].
  destruct (walk (advance_entry has pressure) d1 l1) as [[d2 l2]|] eqn:H2; cbn [mbind option_bind] in H; [|done].
  destruct (enter_lots _ d2 _) as [[d3 l3]|] eqn:H3; cbn [mbind option_bind] in H; [|done]. injection H as <- <-.
  pose proof H1 as H1'. apply (walk_Some _ set_certified) in H1' as [-> _].
  2: { intros d0 e0 d0' e0' [-> Hb]%certify_entry_Some. split; [done|]. rewrite Hb. reflexivity. }
  apply (walk_custody _ (λ _, None)) in H1.
  2: { intros * ->%certify_entry_custody. by rewrite app_nil_r. }
  pose proof H2 as H2'. apply (walk_Some _ advanced) in H2' as [-> _]; [|by intros * ?%advance_entry_Some].
  apply (walk_custody _ hop_registration) in H2; [|by intros * ->%advance_entry_custody].
  apply enter_lots_custody in H3. rewrite H3, H2, H1. cbn [dr_txs].
  rewrite drop_app_ge, !length_fmap, Nat.sub_diag, drop_0 by (by rewrite !length_fmap).
  assert (omap (λ _ : PipelineLot, @None (string * TraceableAssetRegistration)) pipeline = []) as ->
    by (clear; induction pipeline as [|e l IH]; [done|exact IH]). cbn.
  f_equal. clear. induction pipeline as [|e l IH]; [done|]. csimpl. by rewrite IH.
Qed.

(** The scenario's asset ids are the indexer's. *)
Lemma demo_asset_id_indexed custodian seq evil :
  Provenance.asset_id_for (demo_asset custodian seq evil) = demo_asset_id seq evil.
Proof. by destruct evil. Qed.

(** ** Lot numbers *)

(** Lots of one run have different numbers while the number of lots per round does not
    change. *)
Lemma lot_seq_inj p r s r' s' :
  0 < lots_per_round p → 1 ≤ r → 1 ≤ r' → 0 ≤ s < lots_per_round p → 0 ≤ s' < lots_per_round p →
  r * lots_per_round p ≤ U64_MAX → r' * lots_per_round p ≤ U64_MAX →
  lot_seq p r s = lot_seq p r' s' → r = r' ∧ s = s'.
Proof.
  intros Hl Hr Hr' Hs Hs' Hm Hm'. unfold lot_seq. rewrite !add64_small by nia. intros H.
  assert (r = r') as -> by nia. lia.
Qed.

(** Raising the lots of the second round from three to four makes its first number differ from
    the first round's; lowering it repeats one, so two lots share their asset id and
    their record ids. *)
Lemma lot_numbers_collide :
  let p4 := mkSimParams 3 2 2 3 1 2 2 4 400 in
  let p3 := mkSimParams 3 2 2 3 1 2 2 3 400 in
  lot_seq p4 1 3 = lot_seq p3 2 0 ∧ in_bounds p4 ∧ in_bounds p3.
Proof. cbv zeta. split; [done|]. split; split; cbn; lia. Qed.

(** A lot bound for a company that lost its node stops the runner: rebuilding the
    federation with fewer companies keeps the lots in flight, and the next round panics
    on the first lot whose certifier is gone. *)
Theorem shrunk_topology_panics w leader round now t e l :
  sh_pipeline w = e :: l → pl_certified e = false → fed_has (sh_fed w) (pl_certifier e) = false →
  drive_round w leader round now t = None.
Proof.
  intros Hp Hc Hh. unfold drive_round, draft_round. rewrite Hp. cbn [walk].
  assert (∀ regs d, certify_entry (fed_has (sh_fed w)) regs d e = None) as Hn.
  { intros regs d. unfold certify_entry. rewrite Hc. unfold draft_tx. by rewrite Hh. }
  by rewrite Hn.
Qed.

(** ** Purchases *)

Lemma settle_purchase_books offer_id order_id buyer offer q s :
  rs_books (settle_purchase offer_id order_id buyer offer q s)
  = cash_move buyer (oe_seller offer) (saturating_mul64 q (oe_price_per_unit offer)) (rs_books s).
Proof. done. Qed.

(** A manual purchase is paid twice: the buyer is charged when the node accepts the order,
    and again when the block with that order is scanned, because the scan moves the cash
    before it looks whether the purchase is already recorded. *)
Theorem manual_purchase_charged_twice w offer_id buyer quantity w1 order_id leader round b w2 :
  complete_purchase w offer_id buyer quantity = Some (w1, Ok order_id) →
  sh_state w2 = sh_state w1 → last (fed_chain (sh_fed w2) leader) = Some b →
  ∃ offer q, let v := saturating_mul64 q (oe_price_per_unit offer) in
    1 ≤ q ∧ oe_seller offer ∈ oe_seller <$> ac_offers (rs_activity (sh_state w))
    ∧ (transactions b = [new_tx (sh_fresh w) (KPurchaseOrder (manual_order buyer offer q))] →
       rs_books (sh_state (scan_block round leader w2))
       = cash_move buyer (oe_seller offer) v (cash_move buyer (oe_seller offer) v (rs_books (sh_state w)))).
Proof.
  unfold complete_purchase. destruct (List.find _ _) as [offer|] eqn:Hf; [|done].
  apply find_some in Hf as [Hin _]. set (q := clamp _ _ _).
  destruct (fed_has _ _); [|done]. cbn [negb]. destruct (fed_submit _ _ _) as [f [u|e]]; [|done].
  intros [= <- <-] Hs Hb. exists offer, q. cbv zeta. split_and!.
  - unfold q, clamp. lia.
  - apply list_elem_of_fmap. exists offer. split; [done|]. by apply list_elem_of_In.
  - intros Ht. unfold scan_block. rewrite Hb, Ht. cbn -[settle_purchase scan_order]. rewrite scan_order_books, Hs.
    cbn -[settle_purchase]. rewrite settle_purchase_books. done.
Qed.

(** ** Incremental projections *)

Lemma advance_cursor_bounds l : ∀ cursor,
  cursor ≤ advance_cursor cursor l ∧ Forall (λ r, Flattener.fr_block_index r ≤ advance_cursor cursor l) l.
Proof.
  unfold advance_cursor. induction l as [|r l IH]; intros cursor; csimpl; [split; [lia|constructor]|].
  destruct (IH (Z.max cursor (Flattener.fr_block_index r))) as [H1 H2]. split; [lia|]. constructor; [lia|done].
Qed.

Lemma advance_cursor_app cursor l k : advance_cursor cursor (l ++ k) = advance_cursor (advance_cursor cursor l) k.
Proof. unfold advance_cursor. by rewrite fmap_app, foldl_app. Qed.

Lemma fold_record_cursor p r : pj_last_projected_block (fold_record p r) = pj_last_projected_block p.
Proof. unfold fold_record. by destruct (batch_number_of r). Qed.

Lemma fold_record_set_cursor p r c :
  fold_record (set_last_projected_block c p) r = set_last_projected_block c (fold_record p r).
Proof. unfold fold_record. by destruct (batch_number_of r). Qed.

Lemma fold_records_set_cursor l : ∀ p c,
  foldl fold_record (set_last_projected_block c p) l = set_last_projected_block c (foldl fold_record p l).
Proof. induction l as [|r l IH]; intros p c; [done|]. cbn. by rewrite fold_record_set_cursor, IH. Qed.

Lemma advance_cursor_new c l : ∀ acc, c ≤ acc → advance_cursor acc (new_records c l) = advance_cursor acc l.
Proof.
  unfold advance_cursor, new_records. induction l as [|r l IH]; intros acc Hc; [done|]. cbn [List.filter].
  destruct (Z.ltb_spec c (Flattener.fr_block_index r)); csimpl; rewrite IH by lia; [done|].
  by rewrite Z.max_l by lia.
Qed.

Lemma new_records_all c l : Forall (λ r, c < Flattener.fr_block_index r) l → new_records c l = l.
Proof.
  unfold new_records. induction 1 as [|r l Hr _ IH]; [done|]. cbn. by rewrite (proj2 (Z.ltb_lt _ _) Hr), IH.
Qed.

Lemma new_records_none c l : Forall (λ r, Flattener.fr_block_index r ≤ c) l → new_records c l = [].
Proof.
  unfold new_records. induction 1 as [|r l Hr _ IH]; [done|]. cbn. by rewrite (proj2 (Z.ltb_ge _ _) Hr), IH.
Qed.

Lemma new_records_app c l k : new_records c (l ++ k) = new_records c l ++ new_records c k.
Proof. apply List.filter_app. Qed.

(** Folding only what is new is enough: when the records seen by the second fold extend
    those of the first by records of later blocks, the aggregates, the per-company and
    per-lot totals, the recent list and the cursor are those of folding everything at
    once. *)
Theorem incremental_projection old new p :
  Forall (λ r, advance_cursor (pj_last_projected_block p) old < Flattener.fr_block_index r) new →
  fold_records (old ++ new) (fold_records old p) = fold_records (old ++ new) p.
Proof.
  intros Hnew. set (c0 := pj_last_projected_block p) in *. set (c1 := advance_cursor c0 old) in *.
  destruct (advance_cursor_bounds old c0) as [Hle Hold]. fold c1 in Hle, Hold.
  assert (fold_records old p = set_last_projected_block c1 (foldl fold_record p (new_records c0 old))) as Hp1.
  { unfold fold_records. fold c0. by rewrite advance_cursor_new by lia. }
  rewrite Hp1. unfold fold_records. cbn [pj_last_projected_block set_last_projected_block]. fold c0.
  rewrite !new_records_app, (new_records_none c1 old), (new_records_all c1 new), (new_records_all c0 new);
    [|eapply Forall_impl; [exact Hnew|]; intros r Hr; cbv beta in *; lia|done|done].
  rewrite app_nil_l, fold_records_set_cursor, foldl_app, advance_cursor_app, advance_cursor_new by lia. done.
Qed.

(** ** Disclosure *)

(** The viewers who may see everything: the admin lens and names that begin like a regulator's. *)
Definition privileged (v : string) : Prop := v = "admin" ∨ starts_with "regulator" v = true.

Lemma private_visible_spec org viewer :
  private_visible org viewer = true ↔ ∃ v, viewer = Some v ∧ (v = org ∨ privileged v).
Proof.
  unfold private_visible, privileged, is_regulator. destruct viewer as [v|]; [|by split; [|intros (? & ? & _)]].
  rewrite !orb_true_iff, !str_eqb_eq. split.
  - intros Hv. exists v. tauto.
  - intros (x & [= <-] & Hv). tauto.
Qed.

Lemma is_some_spec {X} (o : option X) : is_some o = true ↔ is_Some o.
Proof. destruct o; split; [by eexists|done|done|by intros [? ?]]. Qed.

Lemma readable_spec viewer author held :
  readable viewer author held = true ↔ ∃ v, viewer = Some v ∧ (privileged v ∨ author = v ∧ held = true).
Proof.
  unfold readable, privileged, is_regulator. destruct viewer as [v|]; [|by split; [|intros (? & ? & _)]].
  rewrite !orb_true_iff, andb_true_iff, !str_eqb_eq. split.
  - intros Hv. exists v. tauto.
  - intros (x & [= <-] & Hv). tauto.
Qed.

Lemma listed_spec w org viewer r :
  r ∈ listed w org viewer ↔
  r ∈ sh_payloads w ∧ (r.2 = org ∨ ∃ v, viewer = Some v ∧ starts_with "regulator" v = true).
Proof.
  assert (r ∈ List.filter (λ r : string * string * string * string, r.2 ==? org) (sh_payloads w)
    ↔ r ∈ sh_payloads w ∧ r.2 = org) as Hf.
  { rewrite list_elem_of_In, filter_In, <- list_elem_of_In. by rewrite str_eqb_eq. }
  assert ((∃ v, viewer = Some v ∧ starts_with "regulator" v = true)
    ↔ match viewer with Some v => starts_with "regulator" v | None => false end = true) as ->.
  { destruct viewer as [v|]; [|by split; [intros (? & ? & _)|]]. split; [by intros (x & [= <-] & ?)|by exists v]. }
  unfold listed, is_regulator. destruct viewer as [v|]; [destruct (starts_with "regulator" v)|]; rewrite ?Hf; intuition done.
Qed.

(** C33: What a member's page discloses, and to whom.  A payload has a row exactly when the
    member wrote it or the viewer is a regulator, and its cleartext is in the row exactly for
    the admin lens, a regulator, or its author where the member's node holds the payload.
    Cash, offers and purchases are shown (the member's cash, and exactly its offers and
    purchases) to the member itself, a regulator and the admin lens, and to nobody else.  But
    every row, for every viewer and for the public lens that is documented as commitments
    only, carries a summary computed from the cleartext: for pricing terms, the member price
    and the list price.  A regulator is any viewer whose name begins with that word. *)
Theorem snapshot_disclosure w org viewer s :
  org_snapshot w org viewer = Some s →
  (∀ collection commitment cleartext author, (collection, commitment, cleartext, author) ∈ sh_payloads w →
     (author = org ∨ ∃ v, viewer = Some v ∧ starts_with "regulator" v = true) →
     ∃ row, row ∈ os_pdc_values s ∧ op_collection row = collection ∧ op_commitment row = commitment
       ∧ op_author row = author
       ∧ (op_payload row = Some cleartext ↔ ∃ v, viewer = Some v ∧
            (privileged v ∨ author = v ∧ is_Some (fed_transient (sh_fed w) org collection commitment)))
       ∧ ∀ t, json_of cleartext = Some t →
           op_summary row = payload_summary f64_text cents_text t
           ∧ (str_field t "kind" = Some "pricing" → ∃ rest,
                op_summary row = "member $" +:+ cents_text (f64_field t "member_price_per_unit") +:+ " · list $"
                  +:+ cents_text (f64_field t "list_price_per_unit") +:+ rest))
  ∧ (∀ row, row ∈ os_pdc_values s →
       (op_author row = org ∨ ∃ v, viewer = Some v ∧ starts_with "regulator" v = true)
       ∧ (is_Some (op_payload row) → ∃ v, viewer = Some v ∧ (privileged v ∨ op_author row = v
            ∧ is_Some (fed_transient (sh_fed w) org (op_collection row) (op_commitment row)))))
  ∧ ((∃ v, viewer = Some v ∧ (v = org ∨ privileged v)) →
       os_cash s = Some (cash_of (rs_books (sh_state w)) org)
       ∧ (∀ e, e ∈ os_sell_offers s ↔
            e ∈ ac_offers (rs_activity (sh_state w)) ∧ oe_kind e = "offer" ∧ oe_seller e = org)
       ∧ (∀ e, e ∈ os_purchases s ↔
            e ∈ ac_offers (rs_activity (sh_state w)) ∧ oe_kind e = "purchase" ∧ oe_buyer e = org))
  ∧ ((~ ∃ v, viewer = Some v ∧ (v = org ∨ privileged v)) →
       os_cash s = None ∧ os_sell_offers s = [] ∧ os_purchases s = []).
Proof.
  unfold org_snapshot. destruct (fed_has _ _); [|done]. cbn [negb]. intros [= <-].
  cbn [os_pdc_values os_cash os_sell_offers os_purchases]. split_and!.
  - intros coll com clear author Hin Hl. exists (payload_row (sh_fed w) org viewer (coll, com, clear, author)).
    split; [by apply list_elem_of_fmap_2, listed_spec|]. do 3 (split; [done|]). split.
    + cbn [payload_row op_payload]. setoid_rewrite <- is_some_spec. rewrite <- readable_spec. by destruct (readable _ _ _).
    + intros t Ht. cbn [payload_row op_summary]. rewrite Ht. split; [done|]. intros Hk.
      unfold payload_summary. rewrite Hk. cbn. eexists. reflexivity.
  - intros row (x & -> & Hx)%list_elem_of_fmap. apply listed_spec in Hx as [_ Hx]. destruct x as [[[coll com] clear] author].
    split; [done|]. cbn [payload_row op_payload op_author op_collection op_commitment].
    setoid_rewrite <- is_some_spec. rewrite <- readable_spec. intros Hs. by destruct (readable _ _ _).
  - rewrite <- private_visible_spec. intros ->. split; [done|].
    split; intros e; rewrite list_elem_of_In, filter_In, <- list_elem_of_In, andb_true_iff, !str_eqb_eq; tauto.
  - rewrite <- private_visible_spec. by destruct (private_visible org viewer).
Qed.

(** ** The attackers *)

Definition security_log (w : SharedRun) : list SecurityEvent := ac_security (rs_activity (sh_state w)).

Lemma attempt_log c tx a b x y counted w :
  is_ok (fed_submit (sh_fed w) (co_id c) tx).2 = false →
  security_log (attempt c tx a b x y counted w).1
  = push_capped SECURITY_CAP (security_row (co_id c) a x y) (security_log w).
Proof.
  intros Hr. unfold attempt. destruct (fed_submit _ _ _) as [f r]. cbn in Hr. unfold verdict. rewrite Hr.
  unfold security_log. by destruct counted.
Qed.

Lemma attempt_logs c tx a b x y counted w :
  ∃ row, security_log (attempt c tx a b x y counted w).1 = push_capped SECURITY_CAP row (security_log w).
Proof.
  unfold attempt, security_log. destruct (fed_submit _ _ _) as [f r]. eexists. destruct counted; reflexivity.
Qed.

(** Every forged, tampered or unsigned record of an attacker is refused by its own node, and
    the page says so: the three rows follow the smuggling attempt and precede the
    registration in the security log.  The replay row reports a blocked duplicate, but the
    record is refused at its first submission already, for want of a signature. *)
Theorem attacks_refused (L : FederationLaws) round w c :
  let me := co_id c in
  let seq := (round * 100) mod (U64_MAX + 1) in
  me ≠ "" → record_commitment (lot_record "" seq me) ≠ DEADBEEF →
  (∃ first last_row,
     security_log (attack round w c).1
     = foldl (λ l r, push_capped SECURITY_CAP r l) (security_log w)
         [ first;
           security_row me "forged certification with undisclosed payload key" "rejected by schema validation"
             "strict canonical schema validation";
           security_row me "lot anchor with tampered commitment" "rejected: commitment does not match the record"
             "anchored families hash-check the commitment";
           security_row me "transaction replay (same id twice)" "rejected: duplicate transaction id (replay blocked)"
             "pool idempotency";
           last_row ])
  ∧ ∀ f now, is_ok (fed_submit f me (Transaction_with_id now ("replay-" +:+ me)
                      (KCanonicalRecord (lot_record "" seq me)))).2 = false.
Proof.
  intros me seq Hme Hdead. destruct (records_judged_right "" seq me Hme) as (_ & _ & Hforged & Htampered & Hunsigned).
  specialize (Htampered Hdead).
  assert (∀ f r now id, validate_record r ≠ Ok tt →
    is_ok (fed_submit f me (Transaction_with_id now id (KCanonicalRecord r))).2 = false) as Hno
    by (intros; by eapply fl_invalid).
  split; [|intros; by apply Hno].
  unfold attack. fold me seq. set (w1 := smuggle c w).
  assert (∃ first, security_log w1 = push_capped SECURITY_CAP first (security_log w)) as [first H1].
  { unfold w1, smuggle. destruct (fed_private _ _ _ _) as [f r]. eexists. unfold security_log. reflexivity. }
  set (w2 := (attempt c _ _ _ _ "strict canonical schema validation" true w1).1).
  assert (security_log w2 = _) as H2
    by (apply attempt_log; exact (Hno _ (sign_record (forged_record "" seq me) me) _ _ Hforged)).
  set (w3 := (attempt c _ _ _ _ "anchored families hash-check the commitment" true w2).1).
  assert (security_log w3 = _) as H3
    by (apply attempt_log; exact (Hno _ (sign_record (tampered_record "" seq me) me) _ _ Htampered)).
  set (replay := Transaction_with_id _ ("replay-" +:+ me) _). set (w4 := with_fed w3 _).
  set (w5 := (attempt c replay _ _ _ "pool idempotency" true w4).1).
  assert (security_log w5 = _) as H5
    by (apply attempt_log; exact (Hno _ (lot_record "" seq me) _ _ Hunsigned)).
  set (w6 := with_fresh w5 _). set (evil := custody_tx _ _ _ _ _ _).
  assert (∃ row, security_log (attempt c evil "registration with missing core metadata"
    "admitted — non-standard metadata, trust score reduced" "rejected by admission"
    "trust scoring flags the shortfall" false w6).1 = push_capped SECURITY_CAP row (security_log w6)) as [row H7]
    by apply attempt_logs.
  exists first, row. destruct (attempt c evil _ _ _ _ false w6) as [w7 r]. cbn [fst] in *. rewrite H7.
  change (security_log w6) with (security_log w5). rewrite H5. change (security_log w4) with (security_log w3).
  rewrite H3, H2, H1. done.
Qed.
End run.

(** ** The scenario on the nodes of [Runtime] *)

Section nodes.
Context `{E : Env} `{B : Bls}.
Context (base64_std : string → result string string) (json_offer : SupplyOffer → string) (tx_clock : string → Z).
Context (envelope_json : PayloadEnvelope → string) (envelope_of : string → result CoreError PayloadEnvelope).
Context (now : Z).

Notation MemNode := (FullNode (S := InMemory.Store)).

(** The companies' nodes, with the private side of each. *)
Record Fleet := mkFleet {
  ft_nodes : gmap string MemNode; ft_private : gmap string (PrivNode InMemory.Store) }.

(** What gossip does with the messages a node broadcasts, what time brings while the
    runner waits, the miner's loop, and the size of the pool in bytes. *)
Context (relayed : gmap string MemNode → string → list Message → string → MemNode → MemNode)
        (waited mined_block : MemNode → MemNode) (pool_bytes : list Transaction → Z).

Definition with_node (f : Fleet) (c : string) (n : MemNode) : Fleet := mkFleet (<[c := n]> (ft_nodes f)) (ft_private f).

Definition node_submit (f : Fleet) (c : string) (tx : Transaction) : Fleet * result CoreError unit :=
  match ft_nodes f !! c with
  | None => (f, Err EmptyLedger)
  | Some n =>
      match submit_transaction base64_std json_offer tx_clock n tx with
      | (n, Err e) => (with_node f c n, Err e)
      | (n, Ok out) =>
          let f := with_node f c n in
          (mkFleet (map_imap (λ x m, Some (relayed (ft_nodes f) c out x m)) (ft_nodes f)) (ft_private f), Ok tt)
      end
  end.

Definition node_private (f : Fleet) (c coll payload : string) : Fleet * result CoreError unit :=
  match ft_private f !! c with
  | None => (f, Err EmptyLedger)
  | Some n =>
      let '(n, r, _) := submit_private_payload envelope_json now n coll payload in
      (mkFleet (ft_nodes f) (<[c := n]> (ft_private f)), r)
  end.

#[global] Instance nodes_federation : Federation Fleet := {|
  fed_has f c := is_some (ft_nodes f !! c);
  fed_submit := node_submit;
  fed_private := node_private;
  fed_settle f _ _ := mkFleet (waited <$> ft_nodes f) (ft_private f);
  fed_mine f c := mkFleet (alter mined_block c (ft_nodes f)) (ft_private f);
  fed_chain f c := match ft_nodes f !! c with Some n => fn_chain n | None => [] end;
  fed_provenance f c := match ft_nodes f !! c with Some n => fn_provenance n | None => ∅ end;
  fed_flat f c := match ft_nodes f !! c with Some n => fn_flattener n | None => [] end;
  fed_summaries f c := match ft_nodes f !! c with Some n => contract_summaries n | None => [] end;
  fed_pool f c := match ft_nodes f !! c with
                  | Some n => let l := pending_transactions (nd_ledger (fn_core n)) in
                              (Z.of_nat (length l), pool_bytes l)
                  | None => (0, 0)
                  end;
  fed_transient f c coll com :=
    n ← ft_private f !! c;
    match (transient_get envelope_of now (transient n) coll com).2 with
    | Ok o => o
    | Err _ => None
    end |}.

(** A node refuses every canonical record that the validator refuses, whatever its state. *)
Lemma submit_invalid (n : MemNode) tx r :
  tx_kind tx = KCanonicalRecord r → validate_record r ≠ Ok tt →
  is_ok (submit_transaction base64_std json_offer tx_clock n tx).2 = false.
Proof.
  intros Hk Hv. unfold submit_transaction. destruct (submission_gate (fn_core n) tx) as [c [u|e]]; [|done].
  assert (is_ok (add_transaction (nd_ledger c) tx).2 = false) as Hadd.
  { unfold add_transaction. destruct (is_empty (tx_id tx)); [done|].
    destruct (fold_capability (nd_ledger c)) as [l [u'|e]]; [|done]. rewrite Hk. cbn [check_admission].
    destruct (capability_history l) as [h|]; [|done]. unfold validate_record_under.
    destruct (validate_record r) as [[]|e]; [done|]. done. }
  destruct (add_transaction (nd_ledger c) tx) as [l [u'|e]]; [done|done].
Qed.

(** The fleet keeps the laws the scenario relies on. *)
#[global] Instance nodes_federation_laws : FederationLaws.
Proof.
  split; cbn.
  - intros f c tx x. unfold node_submit. destruct (ft_nodes f !! c) as [n|] eqn:Hn; [|done].
    assert (∀ n', is_some (<[c := n']> (ft_nodes f) !! x) = is_some (ft_nodes f !! x)) as Hx.
    { intros n'. destruct (decide (c = x)) as [<-|Hne]; [by rewrite lookup_insert_eq, Hn|by rewrite lookup_insert_ne]. }
    destruct (submit_transaction _ _ _ n tx) as [n' [out|e]]; cbn; [|apply Hx].
    rewrite map_lookup_imap. rewrite <- (Hx n'). by destruct (<[c := n']> (ft_nodes f) !! x).
  - intros f c coll p x. unfold node_private. destruct (ft_private f !! c) as [n|]; [|done].
    by destruct (submit_private_payload _ _ n coll p) as [[n' r] out].
  - intros f c ids x. rewrite lookup_fmap. by destruct (ft_nodes f !! x).
  - intros f c x. destruct (decide (c = x)) as [<-|Hne].
    + rewrite lookup_alter_eq. by destruct (ft_nodes f !! c).
    + by rewrite lookup_alter_ne.
  - intros f c tx r Hk Hv. unfold node_submit. destruct (ft_nodes f !! c) as [n|]; [|done].
    pose proof (submit_invalid n tx r Hk Hv) as Hs. by destruct (submit_transaction _ _ _ n tx) as [n' [out|e]].
Qed.
End nodes.
