(* ===== verification/Bridge.v ===== *)
(** The demo's HTTP bridge (demo: main.rs).

    [handle] routes a request of the page to the calls of [ScenarioRun]: the static assets,
    the bootstrap, the snapshots and the three commands behind the [Origin] and token
    checks.  The run itself is a task ([Task]) that the commands spawn and abort and that
    [tick] advances: its set-up, then one round after the other, dead once a round panics.
    A request and a tick are one step each; axum's own rejections (unknown route, wrong
    method, malformed JSON) are a parameter. *)

From S2P Require Import Prelude Types Text Chain Canonical Ledger Scenario ScenarioRun.

Local Open Scope Z_scope.

(** ** Header checks *)

Definition HOSTS : list string := ["127.0.0.1"; "localhost"; "[::1]"; "[::]"].

(** Names are lower case; the first value of a name counts. *)
Definition HeaderMap := list (string * string).
Definition get_header (headers : HeaderMap) (name : string) : option string :=
  snd <$> List.find (λ nv, nv.1 ==? name) headers.

Definition colon : Ascii.ascii := Ascii.ascii_of_nat 58.
Definition bracket : Ascii.ascii := Ascii.ascii_of_nat 93.

(** [s.split(c).next()] *)
Fixpoint before (c : Ascii.ascii) (s : string) : string :=
  match s with
  | EmptyString => EmptyString
  | String a s => if Ascii.eqb a c then EmptyString else String a (before c s)
  end.

(** [&s[..=end]] for [s.find(c) = Some(end)] *)
Fixpoint through (c : Ascii.ascii) (s : string) : option string :=
  match s with
  | EmptyString => None
  | String a s => if Ascii.eqb a c then Some (String a EmptyString) else String a <$> through c s
  end.

Definition bare_host (host : string) : string :=
  if starts_with "[" host then default host (through bracket host) else before colon host.

Section bridge.
Context `{E : Env} {F : Type} `{FD : Federation F}.
Context (uuid : nat → string) (clock : nat → Z).
Context (json_text : Value → string) (json_of : string → option Value).
Context (f64_text cents_text : option Number → string).
Context (build_federation : list Company → string → F * list PostureRow).
(** [HeaderValue::to_str] *)
Context (to_str : string → option string).

Notation Shared := (@SharedRun F).

Definition host_header_ok (headers : HeaderMap) : bool :=
  match get_header headers "host" ≫= to_str with
  | Some host => existsb (λ h, h ==? bare_host host) HOSTS
  | None => false
  end.

Definition origin_ok (headers : HeaderMap) : bool :=
  match get_header headers "origin" ≫= to_str with
  | Some origin => existsb (λ known, str_contains known origin) HOSTS
  | None => false
  end.

Definition auth_ok (headers : HeaderMap) (token : string) : bool :=
  match get_header headers "x-glass-auth" ≫= to_str with Some t => t ==? token | None => false end.

(** ** Responses *)

Definition MODE_LABEL : string :=
  "PoW dev/test (difficulty 1) — synthetic demonstration, not production evidence".

(** The JSON documents by what they are rendered from; the serialization of a [RunState]
    leaves out its start time, latencies, cursors and totals. *)
Inductive Body :=
| BAsset (file content_type : string)
| BError (message : string)
| BBootstrap (token : string) (orgs : list (string * string)) (params : SimParams) (mode : string)
| BSnapshot (s : RunState)
| BAdmin (height : Z) (payloads : list OrgPayload) (cash : gmap string Z)
| BOrg (org : string) (s : OrgSnapshot)
| BEvents
| BResult (result : string)
| BSubmitted (tx : string)
| BParams (params : SimParams).

(** Status, the CSP header, [no-store] and the body. *)
Record Response := mkResponse { rp_status : Z; rp_csp : bool; rp_no_store : bool; rp_body : Body }.

Definition with_csp (r : Response) : Response := mkResponse (rp_status r) true (rp_no_store r) (rp_body r).
Definition json_plain (b : Body) : Response := with_csp (mkResponse 200 false false b).
Definition error_json (status : Z) (message : string) : Response :=
  mkResponse status (rp_csp (json_plain (BError message))) false (BError message).
Definition asset_response (file content_type : string) : Response := mkResponse 200 false true (BAsset file content_type).

(** ** State *)

(** The spawned run: before its set-up, between rounds with its leader and the topology
    version it has seen, or ended by a panic. *)
Inductive Task := Starting (seen : Z) | Running (leader : string) (seen : Z) | Dead.

Record Bridge := mkBridge { br_shared : Shared; br_task : option Task; br_token : string }.

Definition with_shared (b : Bridge) (w : Shared) : Bridge := mkBridge w (br_task b) (br_token b).
Definition with_task (b : Bridge) (t : option Task) : Bridge := mkBridge (br_shared b) t (br_token b).
Definition set_status (status : string) (b : Bridge) : Bridge :=
  with_shared b (update_state (set_run_status status) (br_shared b)).

(** ** Reading *)

Definition get_index (headers : HeaderMap) : Response :=
  if negb (host_header_ok headers) then error_json 403 "host mismatch"
  else asset_response "index.html" "text/html; charset=utf-8".

Definition get_bootstrap (b : Bridge) (headers : HeaderMap) : Response :=
  if negb (host_header_ok headers) then error_json 403 "host mismatch" else
  let params := sh_params (br_shared b) in
  json_plain (BBootstrap (br_token b) ((λ c, (co_id c, co_role c)) <$> build_companies params) params MODE_LABEL).

(** [org_snapshot] of the scenario, the admin lens included. *)
Definition org_answer (w : Shared) (org : string) (viewer : option string) : Body :=
  if org ==? "admin" then
    let '(height, payloads, cash) := admin_snapshot json_of f64_text cents_text w in BAdmin height payloads cash
  else match org_snapshot json_of f64_text cents_text w org viewer with
       | Some s => BOrg org s
       | None => BError "unknown viewing org"
       end.

Definition get_snapshot (b : Bridge) (headers : HeaderMap) (query : gmap string string) : Response :=
  if negb (host_header_ok headers) then error_json 403 "host mismatch" else
  json_plain (match query !! "as" with
              | None => BSnapshot (sh_state (br_shared b))
              | Some view_as =>
                  if is_empty view_as then BSnapshot (sh_state (br_shared b))
                  else org_answer (br_shared b) view_as (query !! "viewer")
              end).

(** The stream carries one [BSnapshot] of the state per interval. *)
Definition get_events (headers : HeaderMap) : Response :=
  if negb (host_header_ok headers) then error_json 403 "host mismatch"
  else with_csp (mkResponse 200 false false BEvents).
Definition event_of (b : Bridge) : string * Body := ("snapshot", BSnapshot (sh_state (br_shared b))).

(** ** Commands *)

Definition command_gate (b : Bridge) (headers : HeaderMap) : option Response :=
  if negb (origin_ok headers) then Some (error_json 403 "cross-origin command rejected")
  else if negb (auth_ok headers (br_token b)) then Some (error_json 403 "missing or invalid session token")
  else None.

Definition run_action (b : Bridge) (action : string) : Bridge * Response :=
  if action ==? "start" then
    (match br_task b with
     | None => set_status "running" (with_task b (Some (Starting (sh_topology (br_shared b)))))
     | Some _ => b
     end, json_plain (BResult "running"))
  else if action ==? "stop" then (set_status "stopped" (with_task b None), json_plain (BResult "stopped"))
  else if action ==? "reset" then
    let b := with_task b None in
    (set_status "idle" (with_shared b (with_state (br_shared b) RunState_default)), json_plain (BResult "reset"))
  else (b, error_json 400 "expected action: start | stop | reset").

Definition post_run (b : Bridge) (headers : HeaderMap) (action : string) : Bridge * Response :=
  match command_gate b headers with
  | Some r => (b, r)
  | None => run_action b action
  end.

Record PurchaseCommand := mkPurchase { pc_offer_tx_id : string; pc_buyer : option string; pc_quantity : option Z }.

(** Without a response the handler panicked ([node_for] of an unknown buyer). *)
Definition post_purchase (b : Bridge) (headers : HeaderMap) (c : PurchaseCommand) : Bridge * option Response :=
  match command_gate b headers with
  | Some r => (b, Some r)
  | None =>
      match complete_purchase uuid clock (br_shared b) (pc_offer_tx_id c) (default "pharmacy-1" (pc_buyer c))
              (default U64_MAX (pc_quantity c)) with
      | Some (w, Ok tx) => (with_shared b w, Some (json_plain (BSubmitted tx)))
      | Some (w, Err e) => (with_shared b w, Some (error_json 400 e))
      | None => (b, None)
      end
  end.

Definition post_params (b : Bridge) (headers : HeaderMap) (requested : SimParams) : Bridge * Response :=
  match command_gate b headers with
  | Some r => (b, r)
  | None => let '(w, applied) := apply_params (br_shared b) requested in (with_shared b w, json_plain (BParams applied))
  end.

(** ** Routing *)

(** The decoded JSON body of a command. *)
Inductive Payload := NoPayload | RunAction (action : string) | Purchase (c : PurchaseCommand) | Params (p : SimParams).

Record Request := mkRequest {
  rq_method : string; rq_path : string; rq_headers : HeaderMap; rq_query : gmap string string; rq_payload : Payload }.

Definition STATIC : list (string * string) :=
  [("/app.js", "text/javascript; charset=utf-8"); ("/views.js", "text/javascript; charset=utf-8");
   ("/graph.js", "text/javascript; charset=utf-8"); ("/style.css", "text/css; charset=utf-8")].

Context (rejection : Request → Response).

Definition handle_get (b : Bridge) (rq : Request) : Response :=
  let path := rq_path rq in
  match List.find (λ a, a.1 ==? path) STATIC with
  | Some (file, content_type) => asset_response file content_type
  | None =>
      if path ==? "/" then get_index (rq_headers rq)
      else if path ==? "/api/bootstrap" then get_bootstrap b (rq_headers rq)
      else if path ==? "/api/snapshot" then get_snapshot b (rq_headers rq) (rq_query rq)
      else if path ==? "/api/events" then get_events (rq_headers rq)
      else rejection rq
  end.

Definition handle_post (b : Bridge) (rq : Request) : Bridge * option Response :=
  let reply (x : Bridge * Response) := (x.1, Some x.2) in
  if rq_path rq ==? "/api/run" then
    match rq_payload rq with RunAction a => reply (post_run b (rq_headers rq) a) | _ => (b, Some (rejection rq)) end
  else if rq_path rq ==? "/api/params" then
    match rq_payload rq with Params p => reply (post_params b (rq_headers rq) p) | _ => (b, Some (rejection rq)) end
  else if rq_path rq ==? "/api/purchase" then
    match rq_payload rq with Purchase c => post_purchase b (rq_headers rq) c | _ => (b, Some (rejection rq)) end
  else (b, Some (rejection rq)).

Definition handle (b : Bridge) (rq : Request) : Bridge * option Response :=
  if rq_method rq ==? "GET" then (b, Some (handle_get b rq))
  else if rq_method rq ==? "POST" then handle_post b rq
  else (b, Some (rejection rq)).

(** ** The run *)

(** One step of the spawned task. *)
Definition tick (b : Bridge) (now_millis : Z) (t : Timings) : Bridge :=
  match br_task b with
  | None | Some Dead => b
  | Some (Starting seen) =>
      match setup_run uuid clock build_federation now_millis (br_shared b) with
      | Some (w, leader) => mkBridge w (Some (Running leader seen)) (br_token b)
      | None => with_task b (Some Dead)
      end
  | Some (Running leader seen) =>
      match runner_turn uuid clock json_text json_of build_federation seen now_millis t (br_shared b) leader with
      | Some (w, leader, seen) => mkBridge w (Some (Running leader seen)) (br_token b)
      | None => with_task b (Some Dead)
      end
  end.

Inductive BridgeEvent := EvRequest (rq : Request) | EvTick (now_millis : Z) (t : Timings).

Definition bridge_step (b : Bridge) (e : BridgeEvent) : Bridge :=
  match e with EvRequest rq => (handle b rq).1 | EvTick now t => tick b now t end.
Definition bridge_run (b : Bridge) (es : list BridgeEvent) : Bridge := foldl bridge_step b es.

(** ** Who may change the run *)

(** The two checks of a command. *)
Definition authorized (b : Bridge) (headers : HeaderMap) : bool := origin_ok headers && auth_ok headers (br_token b).

Lemma command_gate_spec b headers :
  (authorized b headers = true ∧ command_gate b headers = None)
  ∨ (authorized b headers = false ∧ ∃ message, command_gate b headers = Some (error_json 403 message)).
Proof.
  unfold command_gate, authorized. destruct (origin_ok headers), (auth_ok headers (br_token b)); cbn; eauto.
Qed.

Lemma str_eqb_spec x y : reflect (x = y) (x ==? y).
Proof. apply iff_reflect. symmetry. apply str_eqb_eq. Qed.

Lemma run_action_token b a : br_token (run_action b a).1 = br_token b.
Proof. unfold run_action. repeat destruct (str_eqb a _); try done. by destruct (br_task b). Qed.

Definition command_route (rq : Request) : bool :=
  (rq_method rq ==? "POST")
  && match rq_payload rq with
     | RunAction _ => rq_path rq ==? "/api/run"
     | Params _ => rq_path rq ==? "/api/params"
     | Purchase _ => rq_path rq ==? "/api/purchase"
     | NoPayload => false
     end.

(** An authorized request carries the session token and an origin that contains a loopback
    name. *)
Lemma authorized_spec b headers :
  authorized b headers = true ↔
  get_header headers "x-glass-auth" ≫= to_str = Some (br_token b)
  ∧ ∃ origin known, get_header headers "origin" ≫= to_str = Some origin
      ∧ known ∈ HOSTS ∧ str_contains known origin = true.
Proof.
  unfold authorized, origin_ok, auth_ok. rewrite andb_true_iff.
  destruct (get_header headers "x-glass-auth" ≫= to_str) as [t|], (get_header headers "origin" ≫= to_str) as [o|];
    rewrite ?str_eqb_eq, ?existsb_elem_of; split; try (by intros [? ?]);
    try (by intros [? (? & ? & ? & _)]); try done.
  - intros [(known & ? & ?) ->]. eauto 10.
  - intros [[= ->] (? & known & [= <-] & ? & ?)]. eauto.
Qed.

Lemma handle_unrouted b rq : command_route rq = false → (handle b rq).1 = b.
Proof.
  unfold handle, command_route, handle_post.
  destruct (str_eqb (rq_method rq) "GET"); [done|]. destruct (str_eqb (rq_method rq) "POST"); [|done]. cbn [andb].
  destruct (rq_payload rq) as [|a|c|p]; intros Hr; destruct (str_eqb_spec (rq_path rq) "/api/run") as [E1|E1],
    (str_eqb_spec (rq_path rq) "/api/params") as [E2|E2], (str_eqb_spec (rq_path rq) "/api/purchase") as [E3|E3];
    try done; try congruence.
Qed.

(** A routed command reaches its handler. *)
Lemma handle_routed b rq :
  command_route rq = true →
  handle b rq = match rq_payload rq with
                | RunAction a => let '(b', r) := post_run b (rq_headers rq) a in (b', Some r)
                | Params p => let '(b', r) := post_params b (rq_headers rq) p in (b', Some r)
                | Purchase c => post_purchase b (rq_headers rq) c
                | NoPayload => (b, None)
                end.
Proof.
  unfold handle, command_route, handle_post. rewrite andb_true_iff, str_eqb_eq. intros [-> Hp].
  destruct (rq_payload rq) as [|a|c|p]; [done|apply str_eqb_eq in Hp as ->..]; cbn [str_eqb];
    [by destruct (post_run _ _ _)|done|by destruct (post_params _ _ _)].
Qed.

Lemma handle_refused b rq :
  command_route rq = true → authorized b (rq_headers rq) = false →
  ∃ message, handle b rq = (b, Some (error_json 403 message)).
Proof.
  intros Hr Ha. rewrite handle_routed by done. destruct (command_gate_spec b (rq_headers rq)) as [[? _]|[_ [m Hm]]];
    [congruence|]. exists m. unfold post_run, post_params, post_purchase, command_route in *. rewrite Hm.
  by destruct (rq_payload rq); [rewrite andb_false_r in Hr|..].
Qed.

(** The events that may change the bridge under a token: the run's own ticks, and commands
    sent to their route with the origin and the token. *)
Definition permitted (token : string) (e : BridgeEvent) : bool :=
  match e with
  | EvTick _ _ => true
  | EvRequest rq => command_route rq && origin_ok (rq_headers rq) && auth_ok (rq_headers rq) token
  end.

Lemma handle_token b rq : br_token (handle b rq).1 = br_token b.
Proof.
  destruct (command_route rq) eqn:Hr; [|by rewrite handle_unrouted].
  rewrite handle_routed by done. unfold post_run, post_params, post_purchase.
  destruct (command_gate b (rq_headers rq)), (rq_payload rq) as [|a|c|p]; try done.
  - pose proof (run_action_token b a) as Ht. by destruct (run_action b a).
  - by destruct (complete_purchase _ _ _ _ _ _) as [[w [?|?]]|].
Qed.

Lemma step_token b e : br_token (bridge_step b e) = br_token b.
Proof.
  destruct e as [rq|now t]; [apply handle_token|]. unfold bridge_step, tick.
  destruct (br_task b) as [[seen|leader seen|]|]; try done.
  - by destruct (setup_run _ _ _ _ _) as [[w leader]|].
  - by destruct (runner_turn _ _ _ _ _ _ _ _ _ _) as [[[w l] s0]|].
Qed.

Lemma step_not_permitted b e : permitted (br_token b) e = false → bridge_step b e = b.
Proof.
  destruct e as [rq|]; [|done]. cbn [permitted bridge_step]. intros H.
  destruct (command_route rq) eqn:Hr; [|by apply handle_unrouted].
  destruct (handle_refused b rq Hr) as [m ->]; done.
Qed.

(** C34: Only authorized commands and the run itself change anything.  Over any sequence of
    requests and ticks the bridge ends where it would have ended without the requests that
    are not well-formed commands to their own route carrying the session token and an origin
    that contains a loopback name; its token never changes.  A command without them is
    answered 403.  An authorized [start] begins a run when there is none and otherwise
    changes nothing; [stop] removes the run and sets the status; [reset] also replaces the
    page's state by the initial one; any other action is answered 400 and changes nothing.
    New parameters are sanitized, and a changed topology is counted; a purchase that is not
    answered with its transaction leaves the page's state alone.  Neither touches the task,
    the lots in flight or the private payloads. *)
Theorem commands_gated b es rq :
  let b' := (handle b rq).1 in
  let w := br_shared b in
  let w' := br_shared b' in
  bridge_run b es = bridge_run b (List.filter (permitted (br_token b)) es)
  ∧ br_token (bridge_run b es) = br_token b
  ∧ (authorized b (rq_headers rq) = true ↔
     get_header (rq_headers rq) "x-glass-auth" ≫= to_str = Some (br_token b)
     ∧ ∃ origin known, get_header (rq_headers rq) "origin" ≫= to_str = Some origin
         ∧ known ∈ HOSTS ∧ str_contains known origin = true)
  ∧ (command_route rq = true → authorized b (rq_headers rq) = false →
       b' = b ∧ ∃ message, (handle b rq).2 = Some (error_json 403 message))
  ∧ (command_route rq = true → authorized b (rq_headers rq) = true →
       match rq_payload rq with
       | RunAction a =>
           (a = "start" → br_task b = None →
              b' = mkBridge (with_state w (set_run_status "running" (sh_state w)))
                     (Some (Starting (sh_topology w))) (br_token b))
           ∧ (a = "start" → br_task b ≠ None → b' = b)
           ∧ (a = "stop" → b' = mkBridge (with_state w (set_run_status "stopped" (sh_state w))) None (br_token b))
           ∧ (a = "reset" → b' = mkBridge (with_state w (set_run_status "idle" RunState_default)) None (br_token b))
           ∧ (a ∉ ["start"; "stop"; "reset"] → b' = b ∧ ∃ message, (handle b rq).2 = Some (error_json 400 message))
       | Params p =>
           br_task b' = br_task b ∧ sh_params w' = sanitized p
           ∧ sh_topology w' = (if bool_decide (topology_of (sh_params w) = topology_of (sanitized p))
                               then sh_topology w else add64 (sh_topology w) 1)
           ∧ sh_state w' = sh_state w ∧ sh_fed w' = sh_fed w ∧ sh_pipeline w' = sh_pipeline w
           ∧ sh_payloads w' = sh_payloads w
       | Purchase _ =>
           br_task b' = br_task b ∧ sh_params w' = sh_params w ∧ sh_topology w' = sh_topology w
           ∧ sh_pipeline w' = sh_pipeline w ∧ sh_payloads w' = sh_payloads w
           ∧ ((∀ tx, (handle b rq).2 ≠ Some (json_plain (BSubmitted tx))) → sh_state w' = sh_state w)
       | NoPayload => False
       end).
Proof.
  cbv zeta. split_and!.
  - revert b. induction es as [|e es IH]; intros b; [done|]. cbn [List.filter].
    change (bridge_run b (e :: es)) with (bridge_run (bridge_step b e) es). rewrite IH, step_token.
    destruct (permitted (br_token b) e) eqn:Hp; [done|]. by rewrite step_not_permitted.
  - revert b. induction es as [|e es IH]; intros b; [done|].
    change (bridge_run b (e :: es)) with (bridge_run (bridge_step b e) es). by rewrite IH, step_token.
  - apply authorized_spec.
  - intros Hr Ha. destruct (handle_refused b rq Hr Ha) as [m ->]. eauto.
  - intros Hr Ha. rewrite handle_routed by done.
    destruct (command_gate_spec b (rq_headers rq)) as [[_ Hg]|[? _]]; [|congruence].
    unfold post_run, post_params, post_purchase. rewrite Hg.
    destruct (rq_payload rq) as [|a|c|p] eqn:Hp.
    + unfold command_route in Hr. by rewrite Hp, andb_false_r in Hr.
    + split_and!; [intros -> Ht|intros -> Ht|intros ->|intros ->|intros Ha'].
      * unfold run_action. cbn. by rewrite Ht.
      * unfold run_action. cbn. by destruct (br_task b).
      * done.
      * done.
      * unfold run_action. destruct (str_eqb_spec a "start") as [->|_]; [by destruct Ha'; left|].
        destruct (str_eqb_spec a "stop") as [->|_]; [by destruct Ha'; right; left|].
        destruct (str_eqb_spec a "reset") as [->|_]; [by destruct Ha'; right; right; left|]. eauto.
    + unfold complete_purchase. destruct (List.find _ _) as [offer|]; [|done].
      destruct (negb (fed_has _ _)); [done|]. destruct (fed_submit _ _ _) as [f [u|e]]; cbn; [|done].
      split_and!; try done. intros Hn. by edestruct Hn.
    + unfold apply_params. cbn. split_and!; try done. by destruct (bool_decide _).
Qed.

(** ** The origin check *)

Lemma starts_with_refl p s : starts_with p (p +:+ s) = true.
Proof. apply starts_with_app. Qed.

Lemma str_contains_app p a s : str_contains p (a +:+ (p +:+ s)) = true.
Proof.
  induction a as [|c a IH].
  - change ("" +:+ (p +:+ s)) with (p +:+ s). destruct (p +:+ s) eqn:H; cbn [str_contains]; rewrite <- H;
      by rewrite starts_with_refl.
  - rewrite app_str_cons. cbn [str_contains]. by rewrite IH, orb_true_r.
Qed.

(** The origin check looks for a loopback name anywhere in the header, so the origin of any
    site whose name contains one passes it. *)
Theorem origin_check_is_substring headers a known z :
  known ∈ HOSTS → get_header headers "origin" ≫= to_str = Some (a +:+ (known +:+ z)) → origin_ok headers = true.
Proof.
  intros Hk Ho. unfold origin_ok. rewrite Ho. apply existsb_exists. exists known.
  split; [by apply list_elem_of_In|]. apply str_contains_app.
Qed.

(** ** Reading needs no token *)

(** Every request from the loopback host reads every payload's cleartext and every
    company's cash: the admin lens asks for no token, and a viewer is what the query says. *)
Theorem snapshot_needs_no_token b headers query :
  host_header_ok headers = true → query !! "as" = Some "admin" →
  ∃ height rows cash, get_snapshot b headers query = json_plain (BAdmin height rows cash)
    ∧ op_payload <$> rows = (λ r, Some r.1.2) <$> sh_payloads (br_shared b)
    ∧ cash = bk_cash (rs_books (sh_state (br_shared b))).
Proof.
  intros Hh Hq. unfold get_snapshot. rewrite Hh, Hq. cbn [negb is_empty]. unfold org_answer. cbn [str_eqb bool_decide].
  rewrite str_eqb_refl. unfold admin_snapshot. eexists _, _, _. split; [done|]. split; [|done].
  rewrite <- list_fmap_compose. apply list_fmap_ext. intros i [[[coll com] clear] author] _. done.
Qed.

(** Every JSON document the bridge itself writes carries the content security policy; the
    page, its scripts and its styles, where a browser would apply it, do not. *)
Theorem csp_covers_documents_only b rq r :
  (handle b rq).2 = Some r → r ≠ rejection rq →
  rp_csp r = match rp_body r with BAsset _ _ => false | _ => true end.
Proof.
  intros H Hr. revert H.
  assert (∀ x, get_index x = r → rp_csp r = match rp_body r with BAsset _ _ => false | _ => true end) as Hi.
  { intros x <-. unfold get_index. by destruct (host_header_ok x). }
  unfold handle. destruct (str_eqb (rq_method rq) "GET").
  - unfold handle_get. destruct (List.find _ STATIC) as [[f c]|]; [by intros [= <-]|].
    destruct (str_eqb (rq_path rq) "/"); [intros [= ?]; eauto|].
    destruct (str_eqb (rq_path rq) "/api/bootstrap");
      [intros [= <-]; unfold get_bootstrap; by destruct (host_header_ok _)|].
    destruct (str_eqb (rq_path rq) "/api/snapshot").
    { intros [= <-]. unfold get_snapshot. destruct (host_header_ok _); [|done]. cbn.
      destruct (rq_query rq !! "as") as [v|]; [|done]. destruct (is_empty v); [done|]. unfold org_answer.
      destruct (str_eqb v "admin"); [done|]. by destruct (org_snapshot _ _ _ _ _ _). }
    destruct (str_eqb (rq_path rq) "/api/events"); [|by intros [= <-]].
    intros [= <-]. unfold get_events. by destruct (host_header_ok _).
  - destruct (str_eqb (rq_method rq) "POST"); [|by intros [= <-]].
    unfold handle_post, post_run, post_params, post_purchase.
    destruct (command_gate_spec b (rq_headers rq)) as [[_ ->]|[_ [m ->]]];
      destruct (rq_payload rq) as [|a|c|p], (str_eqb (rq_path rq) "/api/run"), (str_eqb (rq_path rq) "/api/params"),
        (str_eqb (rq_path rq) "/api/purchase"); cbn; try (by intros [= <-]).
    all: try (destruct (complete_purchase _ _ _ _ _ _) as [[w [?|?]]|]; intros [= <-]; done).
    all: intros [= <-]; unfold run_action; repeat destruct (str_eqb a _); done.
Qed.

(** ** Starting, stopping and resetting *)

(** A run that ended in a panic stays in its slot: ticks do nothing, and [start] answers
    that it is running and starts nothing; only [stop] or [reset] frees the slot. *)
Theorem dead_run_never_restarts b headers :
  br_task b = Some Dead → authorized b headers = true →
  (∀ now t, tick b now t = b)
  ∧ post_run b headers "start" = (b, json_plain (BResult "running"))
  ∧ (let b' := (post_run (post_run b headers "stop").1 headers "start").1 in
     br_task b' = Some (Starting (sh_topology (br_shared b')))).
Proof.
  intros Hd Ha. assert (∀ b', br_token b' = br_token b → command_gate b' headers = None) as Hg.
  { intros b' Ht. destruct (command_gate_spec b' headers) as [[_ H]|[H _]]; [done|].
    unfold authorized in *. rewrite Ht in H. congruence. }
  split_and!.
  - intros now t. unfold tick. by rewrite Hd.
  - unfold post_run. rewrite Hg by done. unfold run_action. rewrite str_eqb_refl, Hd. done.
  - assert (∀ b' a, br_token b' = br_token b → post_run b' headers a = run_action b' a) as Hp.
    { intros b' a Ht. unfold post_run. by rewrite Hg. }
    cbv zeta. rewrite (Hp b) by done. rewrite Hp by apply run_action_token. reflexivity.
Qed.

Lemma submit_setup_eq f leader k defs : ∃ f' k', submit_setup uuid clock f leader k defs = (f', k').
Proof. destruct (submit_setup _ _ _ _ _ _). eauto. Qed.

(** What the set-up leaves alone. *)
Lemma setup_run_frame now w w' leader :
  setup_run uuid clock build_federation now w = Some (w', leader) →
  sh_pipeline w' = sh_pipeline w ∧ sh_params w' = sh_params w ∧ sh_topology w' = sh_topology w
  ∧ sh_payloads w' = sh_payloads w ∧ rs_books (sh_state w') = rs_books (sh_state w)
  ∧ rs_round (sh_state w') = rs_round (sh_state w).
Proof.
  unfold setup_run. destruct (co_id <$> head _) as [id|]; cbn [mbind option_bind]; [|done].
  destruct (build_federation _ id) as [f posture]. destruct (fed_has f id); [|done]. cbn [negb].
  destruct (submit_setup _ _ _ _ _ _) as [f' k]. intros [= <- _]. done.
Qed.

(** A reset clears the page but keeps the lots in flight, while the next run numbers its lots
    from one again: after reset, start, the set-up and one round, every lot of the new
    round is behind the kept ones, and a kept lot of a first round shares its number (and
    with it its asset id and record ids) with a new one. *)
Theorem reset_repeats_lots b now1 t1 now2 t2 :
  let p := sh_params (br_shared b) in
  let b1 := (run_action (run_action b "reset").1 "start").1 in
  let b2 := tick (tick b1 now1 t1) now2 t2 in
  br_task b2 ≠ Some Dead →
  ∃ fresh, sh_pipeline (br_shared b2) = (lot_turn <$> sh_pipeline (br_shared b)) ++ fresh
    ∧ pl_seq <$> fresh = (λ slot, add64 slot 1) <$> seqZ 0 (lots_per_round p)
    ∧ ∀ i e, sh_pipeline (br_shared b) !! i = Some e → 1 ≤ pl_seq e ≤ lots_per_round p → lots_per_round p ≤ U8_MAX →
        ∃ j e' e'', i ≠ j ∧ sh_pipeline (br_shared b2) !! i = Some e' ∧ sh_pipeline (br_shared b2) !! j = Some e''
          ∧ pl_seq e' = pl_seq e ∧ pl_seq e'' = pl_seq e.
Proof.
  intros p b1 b2 Hd.
  assert (br_task b1 = Some (Starting (sh_topology (br_shared b)))) as T1 by done.
  assert (sh_pipeline (br_shared b1) = sh_pipeline (br_shared b) ∧ sh_params (br_shared b1) = p
    ∧ sh_topology (br_shared b1) = sh_topology (br_shared b)
    ∧ rs_round (sh_state (br_shared b1)) = 0 ∧ rs_books (sh_state (br_shared b1)) = rs_books RunState_default)
    as (P1 & Q1 & V1 & R1 & B1) by done.
  clearbody b1. unfold b2 in *. clear b2. set (b3 := tick b1 now1 t1) in *.
  assert (b3 = match setup_run uuid clock build_federation now1 (br_shared b1) with
               | Some (w, leader) => mkBridge w (Some (Running leader (sh_topology (br_shared b)))) (br_token b1)
               | None => with_task b1 (Some Dead)
               end) as E3 by (unfold b3, tick; by rewrite T1).
  clearbody b3. destruct (setup_run _ _ _ _ _) as [[w leader]|] eqn:Hs; subst b3; [|done].
  apply setup_run_frame in Hs as (P2 & Q2 & V2 & _ & B2 & R2).
  unfold tick in *. cbn [br_task br_shared] in *.
  unfold runner_turn in *. rewrite V2, V1, Z.eqb_refl in *. cbn [mbind option_bind] in *.
  rewrite R2, R1 in *.
  destruct (drive_round _ _ _ _ w leader _ now2 t2) as [w'|] eqn:Hr; cbn [mbind option_bind] in *; [|done].
  apply drive_round_effect in Hr as [_ _ _ _ [d Hdraft]].
  2: { rewrite B2, B1. intros c. cbn. unfold sellable. cbn. by rewrite lookup_empty. }
  apply draft_round_Some in Hdraft as (_ & fresh & Hp & Hent).
  rewrite P2, P1 in Hp. rewrite Q2, Q1 in Hent. cbn [br_shared].
  assert (pl_seq <$> fresh = (λ slot, add64 slot 1) <$> seqZ 0 (lots_per_round p)) as Hseq'.
  { clear -Hent. revert Hent. generalize (seqZ 0 (lots_per_round p)). intros l Hl.
    induction Hl as [|slot e l k He _ IH]; [done|]. csimpl. by rewrite IH, (en_seq _ _ _ _ He). }
  exists fresh. split; [done|]. split; [done|]. intros i e He Hrange Hmax.
  assert (seqZ 0 (lots_per_round p) !! Z.to_nat (pl_seq e - 1) = Some (pl_seq e - 1)) as Hslot.
  { apply lookup_seqZ. lia. }
  assert ((pl_seq <$> fresh) !! Z.to_nat (pl_seq e - 1) = Some (pl_seq e)) as Hf.
  { rewrite Hseq', list_lookup_fmap, Hslot. cbn. rewrite add64_small by (unfold U8_MAX, U64_MAX in *; lia). f_equal. lia. }
  rewrite list_lookup_fmap in Hf. destruct (fresh !! _) as [e''|] eqn:Hj; [|done]. injection Hf as Hf.
  exists (length (sh_pipeline (br_shared b)) + Z.to_nat (pl_seq e - 1))%nat, (lot_turn e), e''.
  pose proof (lookup_lt_Some _ _ _ He). cbn [br_shared]. rewrite Hp. split_and!.
  - lia.
  - apply lookup_app_l_Some. by rewrite list_lookup_fmap, He.
  - rewrite lookup_app_r by (rewrite length_fmap; lia). rewrite length_fmap. rewrite <- Hj. f_equal. lia.
  - unfold lot_turn, advanced. cbn. by destruct (3 <=? pl_stage e).
  - done.
Qed.

(** The public snapshot carries every company's cash and every trade, which the member view
    withholds from everyone but the member, a regulator and the admin lens. *)
Theorem public_snapshot_has_the_books b headers :
  host_header_ok headers = true →
  get_snapshot b headers ∅ = json_plain (BSnapshot (sh_state (br_shared b)))
  ∧ ∀ org s, org_snapshot json_of f64_text cents_text (br_shared b) org None = Some s →
      os_cash s = None ∧ os_sell_offers s = [] ∧ os_purchases s = [].
Proof.
  intros Hh. split.
  - unfold get_snapshot. by rewrite Hh.
  - intros org s. unfold org_snapshot. destruct (fed_has _ _); [|done]. cbn [negb]. by intros [= <-].
Qed.
End bridge.
