(* ===== verification/Codec.v ===== *)
(** Concrete encodings of the data types as texts.

    Several theorems assume of serde_json that what it writes it reads back.  [Coded]
    gives every data type of the development a text encoding with that property, so that
    the hypotheses can be instantiated by executable functions. *)

From S2P Require Import Prelude Types Transient Peers Custody Workflow.

(** A type with an encoding into the positive numbers. *)
Class Coded (A : Type) := {
  code : A → positive;
  uncode : positive → option A;
  uncode_code : ∀ x, uncode (code x) = Some x }.

Definition countable_coded (A : Type) `{Countable A} : Coded A :=
  {| code := encode; uncode := decode; uncode_code := decode_encode |}.

#[export] Instance coded_string : Coded string := countable_coded string.
#[export] Instance coded_Z : Coded Z := countable_coded Z.
#[export] Instance coded_nat : Coded nat := countable_coded nat.
#[export] Instance coded_bool : Coded bool := countable_coded bool.

(** A type that maps into a coded one and back. *)
Program Definition coded_via {A B} `{CB : Coded B} (f : A → B) (g : B → option A)
    (H : ∀ x, g (f x) = Some x) : Coded A :=
  {| code x := code (f x); uncode p := uncode p ≫= g |}.
Next Obligation. intros A B CB f g H x. cbn beta. rewrite uncode_code. apply H. Qed.

#[export] Program Instance coded_prod {A B} `{Coded A, Coded B} : Coded (A * B) :=
  {| code x := encode (code x.1, code x.2);
     uncode p := '(a, b) ← decode (A := positive * positive) p; x ← uncode a; y ← uncode b; Some (x, y) |}.
Next Obligation. intros A B CA CB [a b]. cbn beta. rewrite decode_encode. simpl. by rewrite !uncode_code. Qed.

#[export] Program Instance coded_sum {A B} `{Coded A, Coded B} : Coded (A + B) :=
  {| code x := encode (match x with inl a => inl (code a) | inr b => inr (code b) end : positive + positive);
     uncode p := x ← decode (A := positive + positive) p;
                 match x with inl a => inl <$> uncode a | inr b => inr <$> uncode b end |}.
Next Obligation. intros A B CA CB [a|b]; cbn beta; rewrite decode_encode; simpl; by rewrite uncode_code. Qed.

#[export] Program Instance coded_option {A} `{Coded A} : Coded (option A) :=
  {| code x := encode (code <$> x);
     uncode p := x ← decode (A := option positive) p;
                 match x with Some a => Some <$> uncode a | None => Some None end |}.
Next Obligation. intros A CA [a|]; cbn beta; rewrite decode_encode; simpl; by rewrite ?uncode_code. Qed.

#[export] Program Instance coded_list {A} `{Coded A} : Coded (list A) :=
  {| code x := encode (code <$> x); uncode p := decode (A := list positive) p ≫= mapM uncode |}.
Next Obligation.
  intros A CA l. cbn beta. rewrite decode_encode. apply mapM_fmap_Some, uncode_code.
Qed.

#[export] Instance coded_map {A} `{Coded A} : Coded (gmap string A) :=
  coded_via (B := list (string * A)) map_to_list (λ l, Some (list_to_map l))
    (λ m, f_equal Some (list_to_map_to_list m)).

(** *** JSON values *)

Definition number_pair (n : Number) : Z * Z :=
  match n with PosInt n => (0, n)%Z | NegInt n => (1, n)%Z | Float n => (2, n)%Z end.
Definition pair_number (p : Z * Z) : Number :=
  if (p.1 =? 0)%Z then PosInt p.2 else if (p.1 =? 1)%Z then NegInt p.2 else Float p.2.

Notation Leaf := (option bool + Number + string)%type.

#[export] Instance coded_number : Coded Number :=
  coded_via number_pair (λ p, Some (pair_number p)) (λ n, match n with PosInt _ | NegInt _ | Float _ => eq_refl end).

Fixpoint value_tree (v : Value) : gen_tree positive :=
  match v with
  | VNull => GenLeaf (code (inl (inl None) : Leaf))
  | VBool b => GenLeaf (code (inl (inl (Some b)) : Leaf))
  | VNumber n => GenLeaf (code (inl (inr n) : Leaf))
  | VString s => GenLeaf (code (inr s : Leaf))
  | VArray l => GenNode 0 (value_tree <$> l)
  | VObject m => GenNode 1 (map_fold (λ k v acc, GenNode 2 [GenLeaf (code k); value_tree v] :: acc) [] m)
  end.

Definition leaf_value (p : positive) : Value :=
  match uncode (A := Leaf) p with
  | Some (inl (inl None)) | None => VNull
  | Some (inl (inl (Some b))) => VBool b
  | Some (inl (inr n)) => VNumber n
  | Some (inr s) => VString s
  end.

Definition tree_fields (f : gen_tree positive → Value) : list (gen_tree positive) → gmap string Value :=
  fix fields ts :=
    match ts with
    | GenNode _ [GenLeaf k; t] :: ts =>
        match uncode k with Some k => <[k := f t]> (fields ts) | None => fields ts end
    | _ => ∅
    end.

Fixpoint tree_value (t : gen_tree positive) : Value :=
  match t with
  | GenLeaf p => leaf_value p
  | GenNode 0 ts => VArray (tree_value <$> ts)
  | GenNode _ ts => VObject (tree_fields tree_value ts)
  end.

Lemma tree_fields_cons f n k t ts :
  tree_fields f (GenNode n [GenLeaf (code k); t] :: ts) = <[k := f t]> (tree_fields f ts).
Proof. cbn [tree_fields]. by rewrite uncode_code. Qed.

Fixpoint value_size (v : Value) : nat :=
  match v with
  | VArray l => S (foldr (λ v n, value_size v + n) 0 l)
  | VObject m => S (map_fold (λ _ v n, value_size v + n) 0 m)
  | _ => 1
  end.

Lemma tree_value_tree v : tree_value (value_tree v) = v.
Proof.
  remember (value_size v) as n eqn:Hn. revert v Hn.
  induction (lt_wf n) as [n _ IH]. intros v ->.
  destruct v as [|b|z|s|l|m]; cbn [value_tree tree_value]; unfold leaf_value;
    try (rewrite uncode_code; done).
  - f_equal. simpl in IH. induction l as [|v l IHl]; [done|]. csimpl. f_equal.
    + eapply IH; [|done]. simpl. lia.
    + apply IHl. intros k Hk. apply IH. simpl. lia.
  - f_equal. simpl in IH. rewrite !map_fold_foldr in *. rewrite <- (list_to_map_to_list m) at 2.
    induction (map_to_list m) as [|[k v] l IHl]; [done|].
    cbn [foldr uncurry list_to_map fst snd] in *. rewrite tree_fields_cons.
    f_equal; [by eapply IH; [|done]; lia|]. apply IHl. intros j Hj. apply IH. lia.
Qed.

#[export] Instance coded_value : Coded Value.
Proof.
  refine {| code v := encode (value_tree v);
            uncode p := tree_value <$> decode (A := gen_tree positive) p |}.
  intros v. rewrite decode_encode. simpl. by rewrite tree_value_tree.
Defined.

(** *** Records and enumerations *)

#[export] Instance coded_SignatureAlgorithm : Coded SignatureAlgorithm.
Proof. refine (coded_via is_ed25519 (λ b : bool, Some (if b then Ed25519 else Bls12381)) _). by intros []. Defined.
#[export] Instance coded_RecordSignature : Coded RecordSignature.
Proof. refine (coded_via (λ '(mkRecordSignature a b c), (a, b, c)) (λ '(a, b, c), Some (mkRecordSignature a b c)) _). by intros []. Defined.
#[export] Instance coded_TraceableAsset : Coded TraceableAsset.
Proof. refine (coded_via (λ '(mkTraceableAsset a b c d e f g h i j k), (a, b, c, d, e, f, g, h, i, j, k)) (λ '(a, b, c, d, e, f, g, h, i, j, k), Some (mkTraceableAsset a b c d e f g h i j k)) _). by intros []. Defined.
#[export] Instance coded_ExtensionValue : Coded ExtensionValue.
Proof. refine (coded_via (λ '(mkExtensionValue a b), (a, b)) (λ '(a, b), Some (mkExtensionValue a b)) _). by intros []. Defined.
#[export] Instance coded_CanonicalRecord : Coded CanonicalRecord.
Proof. refine (coded_via (λ '(mkCanonicalRecord a b c d e f g h i j), (a, b, c, d, e, f, g, h, i, j)) (λ '(a, b, c, d, e, f, g, h, i, j), Some (mkCanonicalRecord a b c d e f g h i j)) _). by intros []. Defined.
#[export] Instance coded_CapabilityActivation : Coded CapabilityActivation.
Proof. refine (coded_via (λ '(mkCapabilityActivation a b c d e), (a, b, c, d, e)) (λ '(a, b, c, d, e), Some (mkCapabilityActivation a b c d e)) _). by intros []. Defined.
#[export] Instance coded_ScopedTarget : Coded ScopedTarget.
Proof. refine (coded_via (λ '(mkScopedTarget a b c d), (a, b, c, d)) (λ '(a, b, c, d), Some (mkScopedTarget a b c d)) _). by intros []. Defined.
#[export] Instance coded_EndorserIdentity : Coded EndorserIdentity.
Proof. refine (coded_via (λ '(mkEndorserIdentity a b c d), (a, b, c, d)) (λ '(a, b, c, d), Some (mkEndorserIdentity a b c d)) _). by intros []. Defined.
#[export] Instance coded_TransactionEndorsement : Coded TransactionEndorsement.
Proof. refine (coded_via (λ '(mkTransactionEndorsement a b), (a, b)) (λ '(a, b), Some (mkTransactionEndorsement a b)) _). by intros []. Defined.

Fixpoint policy_tree (p : PolicyExpression) : gen_tree positive :=
  match p with
  | SignedBy s => GenLeaf (code s)
  | NOutOf n ps => GenNode n (policy_tree <$> ps)
  end.
Fixpoint tree_policy (t : gen_tree positive) : PolicyExpression :=
  match t with
  | GenLeaf k => SignedBy (default "" (uncode k))
  | GenNode n ts => NOutOf n (tree_policy <$> ts)
  end.

Fixpoint tree_policy_tree (p : PolicyExpression) : tree_policy (policy_tree p) = p.
Proof.
  destruct p as [s|n ps]; cbn [policy_tree tree_policy]; [by rewrite uncode_code|]. f_equal.
  induction ps as [|p ps IH]; [done|]. csimpl. by rewrite tree_policy_tree, IH.
Qed.

#[export] Instance coded_PolicyExpression : Coded PolicyExpression.
Proof.
  refine {| code v := encode (policy_tree v);
            uncode p := tree_policy <$> decode (A := gen_tree positive) p |}.
  intros v. rewrite decode_encode. simpl. by rewrite tree_policy_tree.
Defined.

#[export] Instance coded_ScopedPolicies : Coded ScopedPolicies.
Proof. refine (coded_via (λ '(mkScopedPolicies a b c d), (a, b, c, d)) (λ '(a, b, c, d), Some (mkScopedPolicies a b c d)) _). by intros []. Defined.
#[export] Instance coded_PolicyUpdate : Coded PolicyUpdate.
Proof. refine (coded_via (λ '(mkPolicyUpdate a b c), (a, b, c)) (λ '(a, b, c), Some (mkPolicyUpdate a b c)) _). by intros []. Defined.
#[export] Instance coded_SupplyOffer : Coded SupplyOffer.
Proof. refine (coded_via (λ '(mkSupplyOffer a b c d e f g), (a, b, c, d, e, f, g)) (λ '(a, b, c, d, e, f, g), Some (mkSupplyOffer a b c d e f g)) _). by intros []. Defined.
#[export] Instance coded_PurchaseOrder : Coded PurchaseOrder.
Proof. refine (coded_via (λ '(mkPurchaseOrder a b c d e f g), (a, b, c, d, e, f, g)) (λ '(a, b, c, d, e, f, g), Some (mkPurchaseOrder a b c d e f g)) _). by intros []. Defined.
#[export] Instance coded_PurchaseConditions : Coded PurchaseConditions.
Proof. refine (coded_via (λ '(mkPurchaseConditions a b c d e f g), (a, b, c, d, e, f, g)) (λ '(a, b, c, d, e, f, g), Some (mkPurchaseConditions a b c d e f g)) _). by intros []. Defined.
#[export] Instance coded_SmartContractDef : Coded SmartContractDef.
Proof. refine (coded_via (λ '(mkSmartContractDef a b c d e), (a, b, c, d, e)) (λ '(a, b, c, d, e), Some (mkSmartContractDef a b c d e)) _). by intros []. Defined.
#[export] Instance coded_TraceableAssetRegistration : Coded TraceableAssetRegistration.
Proof. refine (coded_via (λ '(mkTraceableAssetRegistration a b c d), (a, b, c, d)) (λ '(a, b, c, d), Some (mkTraceableAssetRegistration a b c d)) _). by intros []. Defined.
#[export] Instance coded_ContractExecution : Coded ContractExecution.
Proof. refine (coded_via (λ '(mkContractExecution a b c d e f g h), (a, b, c, d, e, f, g, h)) (λ '(a, b, c, d, e, f, g, h), Some (mkContractExecution a b c d e f g h)) _). by intros []. Defined.
#[export] Instance coded_InventoryUpdate : Coded InventoryUpdate.
Proof. refine (coded_via (λ '(mkInventoryUpdate a b c d), (a, b, c, d)) (λ '(a, b, c, d), Some (mkInventoryUpdate a b c d)) _). by intros []. Defined.

Notation KindSum := (SupplyOffer + PurchaseOrder + SmartContractDef + ContractExecution + InventoryUpdate
  + TraceableAssetRegistration + CanonicalRecord + CapabilityActivation + PolicyUpdate)%type.

Definition kind_sum (k : TransactionKind) : KindSum :=
  match k with
  | KSupplyOffer o => inl (inl (inl (inl (inl (inl (inl (inl o)))))))
  | KPurchaseOrder o => inl (inl (inl (inl (inl (inl (inl (inr o)))))))
  | KContractCreation d => inl (inl (inl (inl (inl (inl (inr d))))))
  | KContractExecution e => inl (inl (inl (inl (inl (inr e)))))
  | KInventoryUpdate u => inl (inl (inl (inl (inr u))))
  | KAssetRegistration r => inl (inl (inl (inr r)))
  | KCanonicalRecord r => inl (inl (inr r))
  | KCapabilityActivation a => inl (inr a)
  | KPolicyUpdate u => inr u
  end.
Definition sum_kind (s : KindSum) : TransactionKind :=
  match s with
  | inl (inl (inl (inl (inl (inl (inl (inl o))))))) => KSupplyOffer o
  | inl (inl (inl (inl (inl (inl (inl (inr o))))))) => KPurchaseOrder o
  | inl (inl (inl (inl (inl (inl (inr d)))))) => KContractCreation d
  | inl (inl (inl (inl (inl (inr e))))) => KContractExecution e
  | inl (inl (inl (inl (inr u)))) => KInventoryUpdate u
  | inl (inl (inl (inr r))) => KAssetRegistration r
  | inl (inl (inr r)) => KCanonicalRecord r
  | inl (inr a) => KCapabilityActivation a
  | inr u => KPolicyUpdate u
  end.

#[export] Instance coded_TransactionKind : Coded TransactionKind.
Proof. refine (coded_via kind_sum (λ s, Some (sum_kind s)) _). by intros []. Defined.
#[export] Instance coded_Transaction : Coded Transaction.
Proof. refine (coded_via (λ '(mkTransaction a b c d), (a, b, c, d)) (λ '(a, b, c, d), Some (mkTransaction a b c d)) _). by intros []. Defined.

#[export] Instance coded_Event : Coded Event.
Proof.
  refine (coded_via (B := CanonicalRecord + TransactionKind + string + string)
    (λ e, match e with
          | RecordCommitted r => inl (inl (inl r)) | TransactionCommitted k => inl (inl (inr k))
          | Woken s => inl (inr s) | Resumed s => inr s end)
    (λ s, Some match s with
          | inl (inl (inl r)) => RecordCommitted r | inl (inl (inr k)) => TransactionCommitted k
          | inl (inr s) => Woken s | inr s => Resumed s end) _).
  by intros [].
Defined.
#[export] Instance coded_Checkpoint : Coded Checkpoint.
Proof. refine (coded_via (λ '(mkCheckpoint a b c d e f g), (a, b, c, d, e, f, g)) (λ '(a, b, c, d, e, f, g), Some (mkCheckpoint a b c d e f g)) _). by intros []. Defined.
#[export] Instance coded_StoredPeerPin : Coded StoredPeerPin.
Proof. refine (coded_via (λ '(mkStoredPin a b c d e), (a, b, c, d, e)) (λ '(a, b, c, d, e), Some (mkStoredPin a b c d e)) _). by intros []. Defined.
#[export] Instance coded_PayloadEnvelope : Coded PayloadEnvelope.
Proof. refine (coded_via (λ '(mkEnvelope a b), (a, b)) (λ '(a, b), Some (mkEnvelope a b)) _). by intros []. Defined.
#[export] Instance coded_RevokedRecord : Coded RevokedRecord.
Proof. refine (coded_via (λ '(mkRevokedRecord a b c), (a, b, c)) (λ '(a, b, c), Some (mkRevokedRecord a b c)) _). by intros []. Defined.
#[export] Instance coded_MemberRecord : Coded MemberRecord.
Proof. refine (coded_via (λ '(mkMemberRecord a b c), (a, b, c)) (λ '(a, b, c), Some (mkMemberRecord a b c)) _). by intros []. Defined.
#[export] Instance coded_OrganizationSnapshot : Coded OrganizationSnapshot.
Proof. refine (coded_via (λ '(mkOrgSnapshot a b c d e f g), (a, b, c, d, e, f, g)) (λ '(a, b, c, d, e, f, g), Some (mkOrgSnapshot a b c d e f g)) _). by intros []. Defined.

(** ** Texts *)

(** Bit strings as texts. *)
Fixpoint pos_string (p : positive) : string :=
  match p with xH => "" | xO p => "0" +:+ pos_string p | xI p => "1" +:+ pos_string p end.
Fixpoint string_pos (s : string) : positive :=
  match s with
  | EmptyString => xH
  | String c s => if Ascii.eqb c (Ascii.ascii_of_nat 48) then xO (string_pos s) else xI (string_pos s)
  end.

Lemma string_pos_string p : string_pos (pos_string p) = p.
Proof. induction p as [p IH|p IH|]; [change (xI (string_pos (pos_string p)) = xI p) | change (xO (string_pos (pos_string p)) = xO p) | done]; by rewrite IH. Qed.

Definition to_text {A} `{Coded A} (x : A) : string := pos_string (code x).
Definition of_text {A} `{Coded A} {Err} (unreadable : Err) (s : string) : result Err A :=
  ok_or (uncode (string_pos s)) unreadable.

Lemma of_text_to_text {A} `{Coded A} {Err} (u : Err) (x : A) : of_text u (to_text x) = Ok x.
Proof. unfold of_text, to_text. by rewrite string_pos_string, uncode_code. Qed.
