(* ===== verification/Witnesses.v ===== *)
(** Concrete instances of the parameters and of the theorems' hypotheses.

    [toy_env] and [toy_bls] instantiate the code outside the repository by small
    executable functions; each witness applies one theorem at inputs where its
    hypotheses hold, with the definitions evaluated. *)

From S2P Require Import Prelude Types Asset WriteSet Canonical Chain Capability Policy Ledger.
From S2P Require Import Codec.
From S2P Require Import Storage Transient Bft Rounds Msp Validators Node.

(** ** Instances *)

(** A digest that shows its input behind two zero digits, and renderings that
    show the fields the examples vary. *)
#[local] Instance toy_env : Env := {|
  sha256 s := "00" +:+ s;
  json_header := λ '(i, t, txs, ws, prev, n),
    pretty i +:+ "/" +:+ prev +:+ "/" +:+ pretty (N.of_nat (length txs)) +:+ "/" +:+ pretty n;
  json_tx tx := tx_id tx;
  json_canonical := λ '(id, s, v, t, iss, pdc, p, ex), id +:+ "/" +:+ s |}.

(** Signatures in the integers: a key is a number, its signature on a message is
    the number times the message's digest, and aggregation is addition.  Not a
    secure scheme, but one with the algebra of BLS. *)
Fixpoint ones (n : nat) : string :=
  match n with 0 => "" | S n => "1" +:+ ones n end.
Fixpoint count_ones (s : string) : nat :=
  match s with
  | EmptyString => 0
  | String c s => (if Ascii.eqb c (Ascii.ascii_of_nat 49) then 1 else 0) + count_ones s
  end.
Definition digest (msg : list Z) : nat := S (Z.to_nat (foldr Z.add 0 msg mod 7)%Z).

#[local] Instance toy_bls : Bls := {|
  PrivateKey := nat; G1 := nat; G2 := nat;
  bls_public_key k := zeros (48 - k) +:+ ones k;
  bls_sign k msg := "0" +:+ ones (k * digest msg);
  pk_from_bytes s := Ok (count_ones s);
  sig_from_bytes s := Ok (count_ones s);
  bls_verify pk s msg := (s =? pk * digest msg)%nat;
  bls_aggregate sigs := Ok ("0" +:+ ones (foldr Nat.add 0 sigs));
  g1_from_compressed s := Some (count_ones s);
  g1_identity := 0; g1_add := Nat.add;
  pairing_check s pk msg := (s =? pk * digest msg)%nat |}.

Lemma count_ones_ones n : count_ones ("0" +:+ ones n) = n.
Proof. induction n as [|n IH]; [done|]. change (S (count_ones ("0" +:+ ones n)) = S n). by rewrite IH. Qed.

Lemma sum_keys_toy keys acc :
  sum_keys keys acc = Some (acc + foldr Nat.add 0 (count_ones <$> keys)).
Proof.
  revert acc. induction keys as [|k keys IH]; intros acc; cbn [sum_keys].
  - by rewrite Nat.add_0_r.
  - cbn [g1_from_compressed toy_bls]. rewrite IH. cbn [g1_add toy_bls fmap list_fmap foldr].
    f_equal. apply eq_sym, Nat.add_assoc.
Qed.

Lemma sum_perm (l k : list nat) : l ≡ₚ k → foldr Nat.add 0 l = foldr Nat.add 0 k.
Proof. induction 1; simpl; lia. Qed.

#[local] Instance toy_bls_laws : BlsLaws toy_bls.
Proof.
  split. intros votes keys msg Hne Hall Hperm. change (list (string * nat)) in votes.
  exists ("0" +:+ ones (foldr Nat.add 0 votes.*2)), (foldr Nat.add 0 votes.*2).
  split; [done|]. split; [done|]. split; [simpl; f_equal; apply count_ones_ones|].
  unfold verify_same_message_multisig. rewrite sum_keys_toy. simpl. apply Nat.eqb_eq.
  rewrite (sum_perm (count_ones <$> keys) (count_ones <$> votes.*1)) by (by rewrite Hperm).
  clear Hne Hperm. induction Hall as [|[k s] votes (pk & Hk & Hv) Hall IH]; [done|].
  injection Hk as <-. apply Nat.eqb_eq in Hv. cbn [fst snd fmap list_fmap foldr] in *.
  change (s + foldr Nat.add 0 votes.*2 =
    (count_ones k + foldr Nat.add 0 (count_ones <$> votes.*1)) * digest msg).
  apply (f_equal (Nat.add s)) in IH. etransitivity; [exact IH|]. simpl in Hv. rewrite Hv.
  symmetry. apply Nat.mul_add_distr_r.
Qed.

(** ** Write sets *)

Definition w_a : PersistentWrite := mkPersistentWrite "ch" "ct" "a" (WSet "1") Public.
Definition w_b : PersistentWrite := mkPersistentWrite "ch" "ct" "b" WDelete Public.

Lemma canonicalize_order_independent_witness :
  ∃ c2, canonicalize (mkExecutionResult [] [w_a; w_b]) = Ok c2 ∧ writes c2 = [w_a; w_b].
Proof.
  apply (canonicalize_order_independent (mkExecutionResult [] [w_b; w_a]) _
    (mkExecutionResult [] [w_a; w_b])); [apply Permutation_swap | by vm_compute].
Defined.

Lemma replay_canonical_witness :
  apply_writes [w_b; w_a] ∅ = apply_writes [w_a; w_b] ∅
  ∧ ∀ w, w ∈ [w_b; w_a] → apply_writes [w_a; w_b] ∅ !! state_key w = op_value (pw_op w).
Proof.
  apply (replay_canonical (mkExecutionResult [] [w_b; w_a]) (mkExecutionResult [] [w_a; w_b])).
  - by vm_compute.
  - repeat constructor; by vm_compute.
  - apply Permutation_swap.
Defined.

(** ** Canonical records *)

Definition sealed (r : CanonicalRecord) : CanonicalRecord :=
  with_signatures (set_commitment r (Some (record_commitment r)))
    [mkRecordSignature "org" "sig" Ed25519].

Definition lot_record : CanonicalRecord :=
  sealed (CanonicalRecord_new "r1" 0 "lot" (lot_payload "7891234567895" "B1" None) "org").

Lemma validate_record_sound_witness :
  validate_record lot_record = Ok tt ∧ ∃ d, canonical_v1 d lot_record.
Proof.
  assert (validate_record lot_record = Ok tt) as H by (by vm_compute).
  split; [exact H | exact (validate_record_sound lot_record H)].
Defined.

Definition legacy_asset : TraceableAsset :=
  mkTraceableAsset (Some "7891234567895") (Some "B1") (Some "2027-01-01") None None None
    "Aspirin" "org" None None 10.

Lemma migrate_legacy_asset_valid_witness :
  let '(p, l) := migrate_legacy_asset "u1" "u2" legacy_asset "org" 0 in
  validate_record (with_signatures p [mkRecordSignature "org" "sig" Ed25519]) = Ok tt.
Proof.
  apply (migrate_legacy_asset_valid "u1" "u2" legacy_asset "org" 0
    [mkRecordSignature "org" "sig" Ed25519]); [done..|].
  split; [split; [by left | by vm_compute] | done].
Defined.

(** Two accepted lots with the same commitment and different signatures. *)
Definition lot_env : Env := {|
  sha256 s := s; json_header _ := ""; json_tx _ := ""; json_canonical f := f.1.1.1.1.1.1.1 |}.
Definition signed_lot (sig : string) : CanonicalRecord :=
  with_signatures (set_commitment
    (CanonicalRecord_new "r1" 0 "lot" (lot_payload "g" "B1" None) "org") (Some "r1"))
    [mkRecordSignature "org" sig Ed25519].

Lemma anchored_tamper_evident_witness :
  signed_lot "b" = with_signatures (signed_lot "a") (signatures (signed_lot "b")).
Proof.
  destruct (anchored_tamper_evident (E := lot_env) (signed_lot "a") (signed_lot "b") "r1") as (_ & _ & H);
    [by vm_compute..|]. by apply H.
Defined.

(** ** Blocks and chains *)

Definition sealed_block (idx : Z) (txs : list Transaction) (prev : string) : Block :=
  let b := plain_block idx txs prev "" in set_hash b (calculate_hash b).
Definition toy_genesis : Block := sealed_block 0 [] (zeros 64).
Definition toy_block : Block := sealed_block 1 [note_tx "x"] (hash toy_genesis).

Lemma chain_tamper_evident_witness :
  header <$> [toy_genesis; toy_block] = header <$> [toy_genesis; toy_block].
Proof.
  apply (chain_tamper_evident toy_genesis [toy_block] toy_genesis [toy_block] toy_block toy_block);
    try by vm_compute.
  intros b b' [->|[->|[]%not_elem_of_nil]%elem_of_cons]%elem_of_cons
    [->|[->|[]%not_elem_of_nil]%elem_of_cons]%elem_of_cons; by vm_compute.
Defined.

(** ** Capabilities *)

Definition activation_block : Block := sealed_block 1 [activation_tx "act" 5] (hash toy_genesis).

Lemma activation_is_future_witness :
  effective_set [pdc_activation 5] 1 = effective_set [] 1.
Proof. apply (activation_is_future [] activation_block); by vm_compute. Defined.

Lemma effective_set_registered_witness :
  capability_build_from_blocks [toy_genesis; activation_block] = Ok [pdc_activation 5]
  ∧ (is_active (effective_set [pdc_activation 5] 5) "pdc" = true ↔
     ∃ a, a ∈ [pdc_activation 5] ∧ ca_capability_id a = "pdc" ∧ (ca_activation_height a ≤ 5)%Z).
Proof.
  split; [by vm_compute|].
  apply (effective_set_registered [toy_genesis; activation_block] [pdc_activation 5] 5); by vm_compute.
Defined.

(** ** Policies *)

Definition org_policy (p : string) : ScopedPolicies := mkScopedPolicies (SignedBy p) None None [].
Definition policy_tx (u : PolicyUpdate) : Transaction := mkTransaction "pol" 0 (KPolicyUpdate u) [].
Definition ch_update : PolicyUpdate := mkPolicyUpdate "ch" "" (org_policy "org").

Lemma policy_update_effect_witness :
  policies_for [ch_update] "ch" "ct" = org_policy "org".
Proof.
  apply (policy_update_effect [] ch_update [ch_update]); [by vm_compute | done |].
  by intros v Hv%elem_of_nil.
Defined.

Lemma policy_replay_sound_witness :
  [ch_update] = [toy_genesis; sealed_block 1 [policy_tx ch_update] (hash toy_genesis)] ≫= pending_updates.
Proof.
  apply (policy_replay_sound [toy_genesis; sealed_block 1 [policy_tx ch_update] (hash toy_genesis)]
    [ch_update]). by vm_compute.
Defined.

Definition signer (p : string) : EndorserIdentity := mkEndorserIdentity p "pk" "sig" Ed25519.
Definition endorsed_tx : Transaction :=
  mkTransaction "t1" 0 (KInventoryUpdate (mkInventoryUpdate "sku" "org" 1 "note"))
    [mkTransactionEndorsement (mkScopedTarget "ch" "ct" ["a"] None) [signer "org"]].

Lemma endorsed_transaction_sound_witness :
  ∃ te, te ∈ tx_endorsements endorsed_tx ∧ covers te w_a = true.
Proof.
  apply (endorsed_transaction_sound (P := claim_provider) [ch_update] endorsed_tx [w_a] 1);
    [by vm_compute | left].
Defined.

Definition receipt_record : CanonicalRecord :=
  sealed (CanonicalRecord_new "r2" 0 "delivery_receipt"
    (list_to_map [("receiver_id", VString "buyer"); ("received_at", VString "2026-01-02")]) "org").
Definition receipt_tx : Transaction :=
  mkTransaction "t2" 0 (KCanonicalRecord receipt_record)
    [mkTransactionEndorsement (mkScopedTarget "ch" "ct" [] None) [signer "org"; signer "buyer"]].

Lemma custody_handoff_two_party_witness :
  ∃ receiver, payload_str receipt_record "receiver_id" = Some receiver
    ∧ {[issuer receipt_record; receiver]} ⊆ claimed (tx_endorsements receipt_tx ≫= te_signers).
Proof.
  apply (custody_handoff_two_party (P := claim_provider) [ch_update] receipt_tx [] 1);
    [by vm_compute | done | done].
Defined.

(** ** Ledger *)

Definition toy_ledger : Ledger := mkLedger [toy_genesis] [note_tx "x"] 2 0 None 0 None.

Lemma toy_history_ok : history_ok toy_ledger.
Proof. by split; [simpl; lia|]. Defined.

Lemma fold_capability_is_rebuild_witness :
  let '(l', r) := fold_capability toy_ledger in same_core toy_ledger l'.
Proof.
  pose proof (fold_capability_is_rebuild toy_ledger toy_history_ok ltac:(done)) as H.
  destruct (fold_capability toy_ledger) as [l' r]. apply H.
Defined.

Lemma admission_invariant_witness :
  let '(l', r) := add_transaction toy_ledger (note_tx "y") in NoDup (pending_ids l').
Proof.
  pose proof (admission_invariant toy_ledger (note_tx "y")) as H.
  destruct (add_transaction toy_ledger (note_tx "y")) as [l' r].
  destruct H as (_ & _ & H & _). apply H, NoDup_singleton.
Defined.

Definition mined_block : Block :=
  let b := with_write_set 7 1 [note_tx "x"] (hash toy_genesis) [w_a] in
  set_hash b (calculate_hash b).

Lemma mining_round_valid_witness :
  ∃ l2, commit_mined_block (mkLedger [toy_genesis] [] 2 0 None 0 None) mined_block
          (hash toy_genesis) = (l2, Ok true)
    ∧ validate_chain l2 = Ok tt ∧ chain l2 = [toy_genesis; mined_block].
Proof.
  eexists. split; [by vm_compute|].
  match goal with |- validate_chain ?l = _ ∧ _ =>
    destruct (mining_round_valid toy_ledger (mkLedger [toy_genesis] [] 2 0 None 0 None) 1
      (hash toy_genesis) [note_tx "x"] 2 3 (λ _, 8%Z) 7 [w_a] mined_block l) as (H1 & H2 & _) end;
    [by vm_compute | exact toy_history_ok | by vm_compute | by vm_compute | by vm_compute |].
  split; [exact H1 | exact H2].
Defined.

Lemma stale_commit_conserves_witness :
  let '(l', r) := commit_mined_block toy_ledger toy_block "elsewhere" in r = Ok false.
Proof.
  pose proof (stale_commit_conserves toy_ledger toy_block "elsewhere" toy_genesis eq_refl) as H.
  destruct (commit_mined_block toy_ledger toy_block "elsewhere") as [l' r]. by apply H.
Defined.

Lemma chain_replacement_safe_witness :
  ∃ l', try_replace_chain toy_ledger [toy_genesis; toy_block] = (l', true)
    ∧ validate_chain l' = Ok tt.
Proof.
  eexists. split; [by vm_compute|].
  match goal with |- validate_chain ?l = _ =>
    destruct (chain_replacement_safe toy_ledger [toy_genesis; toy_block] l true) as [_ H] end;
    [by vm_compute|].
  apply H with (g := toy_genesis); [done | done | by vm_compute | done |].
  intros b1 b2 ->%list_elem_of_singleton ->%list_elem_of_singleton. done.
Defined.

(** ** Storage *)

Definition toy_store : InMemory.Store := InMemory.mkStore {[0%Z := toy_genesis]} ∅.

Lemma in_memory_refines_witness :
  let '(s', r) := InMemory.apply_block toy_store toy_block in
  r = Ok tt ∧ represents s' [toy_genesis; toy_block].
Proof.
  pose proof (in_memory_refines toy_store [toy_genesis] toy_block) as H.
  destruct (InMemory.apply_block toy_store toy_block) as [s' r].
  replace (spec_apply [toy_genesis] toy_block) with
    ([toy_genesis; toy_block], @Ok CoreError unit tt) in H by (by vm_compute).
  destruct H as (-> & H & _); [split; [|split] | by vm_compute | by split].
  - intros i. unfold toy_store. simpl. destruct (decide (i = 0%Z)) as [->|Hi]; [done|].
    rewrite lookup_singleton_ne by done. destruct (Z.leb_spec 0 i); [|done].
    destruct (Z.to_nat i) eqn:Hn; [lia | done].
  - intros [|n] b Hb; [by injection Hb as <- | done].
  - done.
Defined.

(** A file format that names a block by its hash, over the two example blocks. *)
Definition block_of_hash (s : string) : result CoreError Block :=
  if s ==? hash toy_genesis then Ok toy_genesis
  else if s ==? hash toy_block then Ok toy_block else Err (Storage "unreadable").

Lemma redb_apply_atomic_witness :
  let '(t', r) := Redb.apply_block hash block_of_hash (λ l, if l ==? "commit" then Some "disk full" else None)
    (Redb.mkTables {[0%Z := hash toy_genesis]} ∅) toy_block in
  is_ok r = false ∧ t' = Redb.mkTables {[0%Z := hash toy_genesis]} ∅.
Proof.
  pose proof (redb_apply_atomic hash block_of_hash
    (λ l, if l ==? "commit" then Some "disk full" else None)
    (Redb.mkTables {[0%Z := hash toy_genesis]} ∅) toy_store toy_block) as H.
  assert (is_ok (Redb.apply_block hash block_of_hash
    (λ l, if l ==? "commit" then Some "disk full" else None)
    (Redb.mkTables {[0%Z := hash toy_genesis]} ∅) toy_block).2 = false) as Hr by (by vm_compute).
  destruct (Redb.apply_block _ _ _ _ _) as [t' r].
  destruct (InMemory.apply_block toy_store toy_block) as [s' r'].
  split; [exact Hr|]. apply H; [|..|exact Hr].
  - split; [by vm_compute | done].
  - intros i b Hb. simpl in Hb. apply lookup_singleton_Some in Hb as [_ <-]. by vm_compute.
Defined.

(** ** Transient payloads *)

Definition envelope_string : PayloadEnvelope → string := to_text.
Definition string_envelope : string → result CoreError PayloadEnvelope := of_text (Storage "unreadable").

Lemma string_envelope_string e : string_envelope (envelope_string e) = Ok e.
Proof. apply of_text_to_text. Qed.

Lemma transient_roundtrip_witness :
  let '(t', res) := transient_put envelope_string 100 (transient_new toy_store) "c" "h" "p" 10 in
  res = Ok tt ∧ (transient_get string_envelope 109 t' "c" "h").2 = Ok (Some "p").
Proof.
  pose proof (transient_roundtrip envelope_string string_envelope string_envelope_string
    100 109 (transient_new toy_store) "c" "h" "p" 10) as H.
  destruct (transient_put _ _ _ _ _ _ _) as [t' res]. apply H. by unfold U64_MAX.
Defined.

Lemma purge_removes_exactly_expired_witness :
  let t := (transient_put envelope_string 100 (transient_new toy_store) "c" "h" "p" 10).1 in
  let '(t', res) := purge_expired string_envelope 110 t in
  is_ok res = true ∧ world (storage t') !! transient_key "c" "h" = None.
Proof.
  cbv zeta. set (t := (transient_put _ _ _ _ _ _ _).1).
  pose proof (purge_removes_exactly_expired string_envelope 110 t) as H.
  assert (expired_at string_envelope 110 (storage t) (transient_key "c" "h") = true) as He
    by (by vm_compute).
  destruct (purge_expired string_envelope 110 t) as [t' res].
  destruct H as (Hr & Hw & _); [|split; [exact Hr | by rewrite Hw, He]].
  intros k e Hk. unfold t in Hk. simpl in Hk. apply lookup_insert_Some in Hk as [[<- <-]|[_ Hk]].
  - split; [by vm_compute|]. exists (mkEnvelope "p" 110). split; by vm_compute.
  - by rewrite lookup_empty in Hk.
Defined.

(** ** Certificates: four validators, the local key first *)

Definition toy_validator (k : nat) : ValidatorInfo :=
  let key := bls_public_key k in
  mkValidator (pretty (N.of_nat k)) key (bls_sign k (pop_message (mkValidator "" key ""))).
Definition toy_set : list ValidatorInfo := toy_validator <$> [1; 2; 3; 4].
Definition toy_provider : BftConsensusProvider := mkProvider toy_set 1.

Definition toy_vote (k : nat) (ph : VotePhase) (h : string) : BftVote :=
  sign_vote_with (hash toy_genesis) 1 0 ph h k.
Definition toy_votes (ph : VotePhase) (b : Block) : list BftVote :=
  (λ k, toy_vote k ph (hash b)) <$> [1; 2; 3].
Definition toy_certificate (b : Block) : QuorumCertificate :=
  match aggregate_votes toy_provider (toy_votes Prevote b) with
  | Ok (bm, agg) => mkQuorumCertificate (index b) (hash b) bm agg Bls12381
  | Err _ => cert_pow b
  end.
Definition rival_block : Block := sealed_block 1 [] (hash toy_genesis).

Lemma quorum_intersection_witness :
  4 < 3 * size ({[0; 1; 2]} ∩ {[1; 2; 3]} : gset nat) ∧ 2 * 4 < 3 * size ({[0; 1; 2]} : gset nat)
  ∧ (quorum_threshold 4 ≤ 4)%Z.
Proof.
  apply (quorum_intersection 4 {[0; 1; 2]} {[1; 2; 3]});
    [lia | by vm_compute | set_solver | set_solver | by vm_compute | by vm_compute].
Defined.

Lemma vote_messages_injective_witness :
  vote_message "b" ≠ context_message "c" 1 0 Prevote "b'".
Proof.
  apply (vote_messages_injective "c" 1 0 Prevote "b" "c" 1 0 Prevote "b'"); by vm_compute.
Defined.

Lemma certificate_sound_witness :
  verify_certificate toy_provider (toy_certificate toy_block) toy_block = Ok tt
  ∧ (quorum toy_provider ≤ Z.of_nat (size (signers (toy_certificate toy_block))))%Z.
Proof.
  split; [by vm_compute|].
  apply (certificate_sound toy_provider (toy_certificate toy_block) toy_block). by vm_compute.
Defined.

Lemma conflicting_certificates_accountable_witness :
  4 < 3 * size (signers (toy_certificate toy_block) ∩ signers (toy_certificate rival_block)).
Proof.
  apply (conflicting_certificates_accountable toy_provider (toy_certificate toy_block) toy_block
    (toy_certificate rival_block) rival_block);
    [by apply Nat.ltb_lt | by vm_compute ..].
Defined.

Lemma votes_make_certificate_witness :
  ∃ bm agg, aggregate_votes toy_provider (toy_votes Precommit toy_block) = Ok (bm, agg)
    ∧ verify_certificate toy_provider
        (mkQuorumCertificate (index toy_block) (hash toy_block) bm agg Bls12381) toy_block = Ok tt.
Proof.
  apply (votes_make_certificate toy_provider (toy_votes Precommit toy_block) toy_block);
    [|by vm_compute | by vm_compute | by apply Nat.ltb_lt].
  repeat constructor; by vm_compute.
Defined.

Definition toy_evidence : EquivocationProof :=
  mkEquivocation 1 0 Prevote (bls_public_key (Bls := toy_bls) 2)
    (toy_vote 2 Prevote "h1") (toy_vote 2 Prevote "h2").

Lemma equivocation_sound_witness :
  vote_public_key (first_vote toy_evidence) = eq_public_key toy_evidence
  ∧ vote_block_hash (first_vote toy_evidence) ≠ vote_block_hash (second_vote toy_evidence).
Proof. split; apply (equivocation_sound toy_evidence); by vm_compute. Defined.

(** ** Rounds *)

Lemma proposer_rotation_fair_witness :
  exists! k, (0 ≤ k < 4)%Z ∧ proposer_slot 7 (2 + k) 4 = 3%Z.
Proof. apply (proposer_rotation_fair 7 2 4 3); lia. Defined.

Lemma collector_counts_foreign_hash_witness :
  collect_phase_votes toy_provider 2 (toy_vote 1 Prevote "h1") [[toy_vote 2 Prevote "h2"]]
  = [toy_vote 1 Prevote "h1"; toy_vote 2 Prevote "h2"].
Proof.
  apply (collector_counts_foreign_hash toy_provider _ _ 0 1); try done; by vm_compute.
Defined.

Definition toy_validator_state (r : option BftRound) : Validator :=
  mkValidatorState r (Some []) [toy_genesis] (Some toy_provider).

Lemma lock_blocks_other_proposals_witness :
  (handle_proposal (toy_validator_state (Some (mkRound 1 0 (Some (hash toy_block)) None)))
     rival_block 1).2 = None.
Proof.
  pose proof (lock_blocks_other_proposals
    (toy_validator_state (Some (mkRound 1 0 (Some (hash toy_block)) None))) _ (hash toy_block)
    rival_block 1 eq_refl eq_refl eq_refl) as H.
  destruct (handle_proposal _ _ _) as [s' v]. apply H. by vm_compute.
Defined.

Lemma equivocating_leader_gets_both_precommits_witness :
  vote_block_hash <$> (run_validator (toy_validator_state None)
    [MProposal toy_block 0; MProposal rival_block 0;
     MPrecommit toy_block 0 (toy_certificate toy_block);
     MPrecommit rival_block 0 (toy_certificate rival_block)]).2
  = [hash toy_block; hash rival_block; hash toy_block; hash rival_block].
Proof.
  rewrite (equivocating_leader_gets_both_precommits (toy_validator_state None) toy_provider
    toy_genesis); [done | done | done | done | by vm_compute ..].
Defined.

Definition toy_leader : BftConsensusProvider := mkProvider toy_set 2.
Definition toy_arrivals (r : Z) : RoundArrivals :=
  mkArrivals [toy_votes Prevote toy_block] [toy_votes Precommit toy_block].

Lemma vote_round_certifies_witness :
  ∃ st n, run_vote_round None (λ _, Some toy_leader) (hash toy_genesis) toy_arrivals
            toy_block = Some (st, Ok n)
    ∧ certificate (cn_block n) = Some (cn_certificate n).
Proof.
  destruct (vote_round_certifies None (λ _, Some toy_leader) (hash toy_genesis)
    toy_arrivals toy_block) as (_ & Hsound & Hlive).
  - intros r p [= <-]. split; [by vm_compute | by apply Nat.ltb_lt].
  - intros r batch v ->%list_elem_of_singleton (k & -> & _)%list_elem_of_fmap. by vm_compute.
  - assert (∀ ph, quorum_arrives toy_leader
      (sign_vote toy_leader (hash toy_genesis) 1 0 ph (calculate_hash toy_block))
      [toy_votes ph toy_block]) as Hq.
    { intros ph. split; [|by destruct ph; vm_compute].
      intros v Hv _. apply elem_of_cons in Hv as [->|Hv]; [by destruct ph; vm_compute|].
      apply list_elem_of_join in Hv as (l & Hv & ->%list_elem_of_singleton).
      repeat (apply elem_of_cons in Hv as [->|Hv]; [by destruct ph; vm_compute|]).
      by apply elem_of_nil in Hv. }
    edestruct (Hlive toy_leader) as (st & n & Hn);
      [done | by vm_compute | by vm_compute | apply Hq | apply Hq |].
    exists st, n. split; [exact Hn|]. by destruct (Hsound st n Hn) as (_ & Hc & _).
Defined.

(** ** Votes, registry and restart *)

Lemma handle_vote_sound_witness :
  let s := mkVoteState {[receipt_key (toy_vote 2 Prevote "h1") := toy_vote 2 Prevote "h1"]} [] ∅ None in
  ∃ e, e ∈ equivocations (handle_vote true (Some toy_provider) s (toy_vote 2 Prevote "h2"))
    ∧ first_vote e = toy_vote 2 Prevote "h1" ∧ second_vote e = toy_vote 2 Prevote "h2".
Proof.
  cbv zeta. set (s := mkVoteState _ _ _ _).
  apply (handle_vote_sound true toy_provider s (toy_vote 2 Prevote "h2")).
  - split; [|split; [constructor | done]]. split.
    + simpl. rewrite map_size_singleton. by apply Nat.leb_le; vm_compute.
    + intros k v Hk. simpl in Hk. apply lookup_singleton_Some in Hk as [<- <-].
      split; [done | by vm_compute].
  - by vm_compute.
  - unfold s. cbn [bft_receipts].
    by rewrite <- (lookup_singleton_eq (receipt_key (toy_vote 2 Prevote "h1")) (toy_vote 2 Prevote "h1")).
  - done.
  - done.
Defined.

(** A descriptor format: the 48 key bytes, then the proof. *)
Definition toy_parse_value (s : string) : result string Value :=
  Ok (VObject (<["public_key" := VString (String.substring 0 48 s)]>
    {[ "pop" := VString (String.substring 48 (slen s) s) ]})).

Definition registry_block : Block :=
  let b := with_write_set 0 1 [] (hash toy_genesis) ((λ v,
    mkPersistentWrite "governance" "validator-registry" (v_name v)
      (WSet (v_public_key v +:+ v_pop v)) Public) <$> toy_set) in
  set_hash b (calculate_hash b).
Definition certified_block : Block :=
  let b := sealed_block 2 [] (hash registry_block) in set_certificate b (Some (toy_certificate b)).

Definition toy_verifier_key : PrivateKey (Bls := toy_bls) := 0.
Definition toy_bootstrap : BftConsensusProvider := mkProvider [] 2.

Lemma historical_sets_match_live_witness :
  ∃ p, (derive_validator_provider toy_parse_value Some (λ _, 0%Z) None (Some toy_bootstrap)
          (world_of [toy_genesis; registry_block])).2 = Some p
    ∧ verify_certificate p (toy_certificate (sealed_block 2 [] (hash registry_block)))
        certified_block = Ok tt.
Proof.
  apply (historical_sets_match_live toy_parse_value Some toy_verifier_key
    [toy_genesis; registry_block; certified_block] [toy_genesis; registry_block] certified_block []);
    [by vm_compute | done | | by vm_compute | done | done | by vm_compute].
  intros [|[|[|i]]] x Hx; try done; by injection Hx as <-.
Defined.

Definition stored_genesis : Block := sealed_block 0 [] "0".
Definition stored_store : InMemory.Store := InMemory.mkStore {[0%Z := stored_genesis]} ∅.

Lemma restart_restores_witness :
  ∃ l, restore_ledger toy_parse_value Some (S := InMemory.Store) toy_verifier_key 5 (λ _, 9%Z) 2
         stored_store = Some l
    ∧ chain l = [stored_genesis] ∧ pending_transactions l = [] ∧ indexes_ok l.
Proof.
  eapply (restart_restores toy_parse_value Some toy_verifier_key 5 (λ _, 9%Z) 2);
    [by vm_compute| |apply restorable_spec; by vm_compute].
  split; [|split].
  - intros i. unfold stored_store. simpl. destruct (decide (i = 0%Z)) as [->|Hi]; [done|].
    rewrite lookup_singleton_ne by done. destruct (Z.leb_spec 0 i); [|done].
    destruct (Z.to_nat i) eqn:Hn; [lia | done].
  - intros [|n] b Hb; [by injection Hb as <- | done].
  - done.
Defined.

(** ** Membership: keys are 32 bytes, a signature shows the key and the length of
    the message *)

#[local] Instance toy_ed25519 : Ed25519Crate := {|
  ed_key_ok _ := true;
  ed_verify key msg proof := proof ==? key +:+ key |}.
#[local] Instance toy_x509 : X509 := λ pem : string,
  Some (mkCertificate (Some "org") (Some pem)).

Definition org_key : string := zeros 32.
Definition org_signer : EndorserIdentity := mkEndorserIdentity "org" org_key (org_key +:+ org_key) Ed25519.
Definition org_directory : gmap string RegisteredPrincipal := register ∅ org_key "org".
Definition signed_tx_example : Transaction :=
  mkTransaction "t1" 0 (KInventoryUpdate (mkInventoryUpdate "sku" "org" 1 "note"))
    [mkTransactionEndorsement (mkScopedTarget "ch" "ct" ["a"] None) [org_signer]].

Lemma msp_authorization_sound_witness :
  ∃ ps : principals, evaluate ps (SignedBy "org") = true
    ∧ ∀ p, p ∈ ps → verified org_directory (endorsement_payload signed_tx_example) 1 [org_signer] p.
Proof.
  apply (msp_authorization_sound org_directory [ch_update] signed_tx_example [w_a] 1)
    with (te := mkTransactionEndorsement (mkScopedTarget "ch" "ct" ["a"] None) [org_signer]);
    [by vm_compute | done | left | left].
Defined.

Lemma revocation_go_forward_witness :
  is_ok (msp_evaluate (revoke org_directory org_key 5%Z).1 (SignedBy "org")
    (mkEndorsementRequest (mkScopedTarget "ch" "ct" [] None) "payload" [org_signer]) 5%Z) = false.
Proof.
  apply (revocation_go_forward org_directory org_key 5%Z (revoke org_directory org_key 5%Z).1
    (mkRegistered "org" 0 None)) with (s := org_signer);
    [by vm_compute | by vm_compute | lia | left | done].
Defined.

Lemma reregistration_rewrites_history_witness :
  ∃ d', register_certificate (λ _, Ok tt) org_directory org_key (org_key +:+ org_key) "org" 7 = Ok d'
    ∧ is_ok (msp_evaluate d' (SignedBy "org")
        (mkEndorsementRequest (mkScopedTarget "ch" "ct" [] None) "payload" [org_signer]) 3%Z) = false.
Proof.
  eexists. split; [by vm_compute|].
  eapply (reregistration_rewrites_history (λ _, Ok tt) org_directory org_key (org_key +:+ org_key)
    "org" 7) with (s := org_signer); [by vm_compute | by vm_compute | lia | left | done].
Defined.

Lemma possession_messages_bind_witness :
  org_possession_message "a" "b" "c" ≠ tofu_pin_message "a" "b".
Proof. apply (possession_messages_bind "a" "b" "c" "a" "b" "c"); by vm_compute. Defined.

(** ** The node *)

Definition toy_contract : SmartContractDef :=
  mkSmartContractDef "c1" "org" "sku" (mkPurchaseConditions 1 1 1 1 None "BRL" true) (Some "wasm").
Definition exec_tx (id : string) : Transaction :=
  mkTransaction id 0 (KContractExecution (mkContractExecution "c1" "po" "org" "seller" "sku" 1 1 "BRL")) [].
Definition w_private : PersistentWrite := mkPersistentWrite "ch" "ct" "p" (WSet "secret") (Pdc "col").

Definition toy_node (l : Ledger) (h : option CapabilityHistory)
    (execute : string → string → gmap string string → result CoreError ExecutionResult) : Node :=
  mkNode l h [] (Some claim_provider) (Some toy_provider) None None ∅ (Some execute)
    {["c1" := toy_contract]}.

Definition write_both : string → string → gmap string string → result CoreError ExecutionResult :=
  λ _ _ _, Ok (mkExecutionResult [] [w_b; w_a]).

Definition no_rounds : Z → option BftConsensusProvider := λ _, None.


Lemma failed_candidate_drops_slice_witness :
  ∃ e n', mine_async Some 3 (λ _, 8%Z) 7 no_rounds toy_arrivals
      (toy_node (mkLedger [toy_genesis] [exec_tx "e1"; exec_tx "e2"] 2 0 None 0 None) None write_both)
      = Some (n', Err e)
    ∧ pending_transactions (nd_ledger n') = [].
Proof.
  eexists. edestruct (failed_candidate_drops_slice Some 3 (λ _, 8%Z) 7 no_rounds toy_arrivals
    (toy_node (mkLedger [toy_genesis] [exec_tx "e1"; exec_tx "e2"] 2 0 None 0 None) None write_both)
    toy_genesis) as (n' & H1 & _ & H2); [done | left; by vm_compute | exists n'; split; [exact H1 | exact H2]].
Defined.

Lemma peer_block_sound_witness :
  chain (nd_ledger (peer_block toy_parse_value Some (λ _, 0%Z) 0 true
    (toy_node (mkLedger [toy_genesis] [note_tx "x"] 2 0 None 0 None) None write_both) toy_block).1)
  = [toy_genesis] ++ [toy_block].
Proof.
  apply (peer_block_sound toy_parse_value Some (λ _, 0%Z) 0 true
    (toy_node (mkLedger [toy_genesis] [note_tx "x"] 2 0 None 0 None) None write_both) toy_block).
  by vm_compute.
Defined.

Definition bft_activation : CapabilityActivation :=
  mkCapabilityActivation "bft_consensus" 1 (capability_hash "bft_consensus" 1) 2
    [mkRecordSignature "gov" "sig" Ed25519].
Definition bft_block : Block :=
  sealed_block 1 [mkTransaction "act" 0 (KCapabilityActivation bft_activation) []] (hash toy_genesis).
Definition bft_certified : Block :=
  let b := sealed_block 2 [] (hash bft_block) in set_certificate b (Some (toy_certificate b)).

Lemma cold_cache_rejects_certified_witness :
  (admit_peer_block toy_parse_value Some (λ _, 0%Z) 0
     (toy_node (mkLedger [toy_genesis; bft_block] [] 3 0 None 0 None) None write_both)
     bft_certified).2 = Reject.
Proof.
  apply (cold_cache_rejects_certified toy_parse_value Some (λ _, 0%Z) 0
    (toy_node (mkLedger [toy_genesis; bft_block] [] 3 0 None 0 None) None write_both)
    bft_certified (toy_certificate (sealed_block 2 [] (hash bft_block))) [bft_activation]);
    try done; by vm_compute.
Defined.

Definition dropped_block : Block := sealed_block 1 [activation_tx "a" 2] (hash toy_genesis).

Lemma stale_block_takes_effect_witness :
  nd_history (commit_peer_block false
    (toy_node (mkLedger [toy_genesis; toy_block] [] 2 0 None 0 None) (Some []) write_both)
    dropped_block) = Some [pdc_activation 2].
Proof.
  apply (stale_block_takes_effect
    (toy_node (mkLedger [toy_genesis; toy_block] [] 2 0 None 0 None) (Some []) write_both)
    toy_block dropped_block); [done | by vm_compute | done | done].
Defined.

Lemma unsigned_carrier_covers_witness :
  (enforce_block_endorsements
    (mkNode (mkLedger [toy_genesis] [] 2 0 None 0 None)
       (Some [mkCapabilityActivation "endorsement" 1 "" 1 []]) []
       (Some (λ _ _ _, Err (InvalidTransaction "no"))) None None None ∅ None ∅)
    (mkBlock 1 0 [mkTransaction "t" 0 (KCanonicalRecord (CanonicalRecord_new "r" 0 "product" ∅ "x"))
       [mkTransactionEndorsement (mkScopedTarget "ch" "ct" ["a"] None) []]] [w_a] "" 0 "" None)
    []).2 = Ok tt.
Proof.
  rewrite (unsigned_carrier_covers (λ _ _ _, Err (InvalidTransaction "no")) w_a
    (mkNode (mkLedger [toy_genesis] [] 2 0 None 0 None)
       (Some [mkCapabilityActivation "endorsement" 1 "" 1 []]) []
       (Some (λ _ _ _, Err (InvalidTransaction "no"))) None None None ∅ None ∅)
    [mkCapabilityActivation "endorsement" 1 "" 1 []]
    (CanonicalRecord_new "r" 0 "product" ∅ "x")); done.
Defined.

Lemma adopted_chain_enforced_witness :
  let n := toy_node (mkLedger [toy_genesis] [] 2 0 None 0 None) None write_both in
  let n' := (adopt_chain toy_parse_value Some toy_verifier_key (Ok ∅) n [toy_genesis; toy_block]).1 in
  chain (nd_ledger n') = [toy_genesis; toy_block]
  ∧ policy_build_from_blocks [toy_genesis; toy_block] = Ok (nd_policies n').
Proof.
  cbv zeta. set (n := toy_node _ _ _).
  destruct (adopted_chain_enforced toy_parse_value Some toy_verifier_key (Ok ∅) n
    [toy_genesis; toy_block] (adopt_chain toy_parse_value Some toy_verifier_key (Ok ∅) n
    [toy_genesis; toy_block]).1) as (H1 & _ & H2); [by vm_compute|].
  split; [exact H1|]. by apply (H2 claim_provider).
Defined.
