(* ===== verification/AppWitnesses.v ===== *)
(** Concrete instances for the certificate, networking, contract and workflow theorems.

    The libraries these components call are instantiated by small executable functions;
    each witness applies one theorem at inputs where its hypotheses hold. *)

From S2P Require Import Contracts Gas Wasm Workflow Flows.
From S2P Require Import Prelude Utf8 Types WriteSet Chain Capability Storage Transient Msp Ledger Canonical.
From S2P Require Import Ocsp CertVerifier Custody Auth Channel Wire Peers Private Codec.

Local Open Scope Z_scope.

(** ** Libraries *)

(** Certificates whose text is their common name, valid until the second 1000. *)
#[local] Instance demo_pki : Pki := {|
  cert_of_pem s := Ok (byte_list s);
  crl_of_pem s := Ok (byte_list s);
  cert_of_der der := Ok (mkParsedCert der der (Some (Utf8String (of_byte_list der))) None 0 1000 [1]
                           (Some der));
  webpki_crl _ := Ok tt;
  webpki_anchor _ := Ok tt;
  webpki_end_entity _ := Ok tt;
  webpki_verify _ _ _ _ _ := Ok tt |}.

(** A calendar of one day, a constant digest, and signatures that always verify. *)
#[local] Instance demo_ocsp : OcspCrates := {|
  sha256_bytes _ := replicate 32 0;
  civil_of_unix t := Some (mkCivil 1970 1 1 (t / 3600) (t / 60 mod 60) (t mod 60));
  unix_of_civil c := Some (c_hour c * 3600 + c_minute c * 60 + c_second c);
  p256_sign _ _ := Some (replicate 64 1);
  p256_verify _ _ _ := true |}.

#[local] Instance demo_ca : CaCrates := {|
  ed_public seed := seed;
  ed_sign seed _ := seed +:+ seed;
  self_signed p _ := Ok (cp_common_name p, byte_list (cp_common_name p));
  signed_by p _ _ := Ok (cp_common_name p, byte_list (cp_common_name p));
  crl_signed_by _ _ := Ok "crl";
  ed_key_pair seed := Ok (byte_list seed);
  public_key_raw k := k;
  ca_key_restores _ := Ok tt;
  serial_of n := be_bytes 8 n;
  ring_public_key k := Ok k;
  time_of_unix t := Ok (t * 1000000000);
  hex_encode b := to_text b;
  hex_decode s := of_text "not hex" s;
  snapshot_to_json s := Ok (to_text s);
  snapshot_of_json s := of_text "not JSON" s |}.

(** ** OCSP staples *)

Definition demo_mint : OcspMintInput :=
  mkMintInput [0; 0; 0; 0; 0; 0; 0; 7] [48; 0] [4] [1] 1000 OCSP_VALIDITY_SECS.

Lemma demo_time t : 0 ≤ t < 86400 → time_roundtrips t.
Proof.
  intros Ht. eexists. split; [done|]. simpl. unfold I64_MAX. split_and!; [|f_equal|lia|lia].
  - split; simpl; try lia; Z.div_mod_to_equations; lia.
  - simpl. Z.div_mod_to_equations. lia.
Qed.

Lemma minted_staple_verifies_witness :
  ∃ der p, mint_good_response demo_mint = Ok der ∧ parse_staple der = Ok p
    ∧ verify_against p [4] [7] 2000 = Ok Good ∧ verify_against p [4] [8] 2000 = Err CertMismatch
    ∧ verify_against p [4] [7] 999999 = Err Expired.
Proof.
  destruct (minted_staple_verifies demo_mint) as (der & p & Hm & Hp & Hv);
    [done|apply demo_time; simpl; lia|apply demo_time; by vm_compute|done|done| |].
  { intros m. by eexists. }
  exists der, p. split; [exact Hm|]. split; [exact Hp|].
  rewrite !Hv. by vm_compute.
Defined.

(** ** Trust store *)

Lemma trust_store_typed_witness :
  ∃ v, from_der "org" (byte_list "root") = Ok v
    ∧ let s := foldl store_step v [AddRootPem "fed" "fed-root"; AddCrlPem "crl"] in
      root_cert_der s = byte_list "root" ∧ cv_level s = Full
      ∧ ta_cert_der <$> federation_anchors s = [byte_list "fed-root"].
Proof.
  destruct (from_der "org" (byte_list "root")) as [v|] eqn:Hv; [|by vm_compute in Hv]. exists v. split; [done|].
  destruct (trust_store_typed "org" (byte_list "root") v [AddRootPem "fed" "fed-root"; AddCrlPem "crl"] Hv)
    as (H1 & _ & _ & H2 & H3 & _).
  split; [exact H1|]. split; [exact H2|]. rewrite H3. by vm_compute.
Defined.

(** ** The certificate authority *)

Lemma serial_of_inj a b : in_u64 a → in_u64 b → serial_of a = serial_of b → a = b.
Proof. unfold in_u64, U64_MAX. intros Ha Hb. apply (be_bytes_inj 8); simpl; lia. Qed.

Lemma be_bytes_bytes w x : Forall is_byte (be_bytes w x).
Proof.
  induction w as [|w IH]; [constructor|]. cbn [be_bytes]. constructor; [|done].
  unfold is_byte. apply Z.mod_pos_bound. lia.
Qed.

Lemma demo_custody_laws : custody_laws.
Proof.
  split.
  - intros b _. apply of_text_to_text.
  - intros s. eexists. split; [done|]. apply of_text_to_text.
  - intros p k pem der [= <- <-]. done.
  - intros n. apply be_bytes_bytes.
  - done.
Qed.

Definition demo_seed : string := "0123456789abcdef0123456789abcdef".
Definition demo_ops : list CaOp :=
  [CIssue demo_seed "node-a" None; CIssue demo_seed "node-b" (Some ADMIN_ROLE); CRevoke 5000000000 "node-b"].

Definition demo_org : Organization :=
  mkOrganization "org" "org Root CA" (mkIssuer (root_params "org") [1]) [1] (byte_list "org Root CA") [1]
    ∅ 1 ∅ [].

Lemma revocation_final_witness :
  Organization_new [1] "org" = Ok demo_org ∧
  let '(o', r) := revoke_identity 7 (run_ca demo_org demo_ops) "node-a" in
  r = Ok tt ∧ serial_of 1 ∈ revoked_serials (run_ca o' demo_ops).
Proof.
  split; [done|].
  pose proof (revocation_final serial_of_inj [1] "org" demo_org demo_ops 7 "node-a" (serial_of 1) demo_ops eq_refl) as H.
  cbv zeta in H. destruct (revoke_identity _ _ _) as [o' r].
  destruct H as (Hr & Hs & _); [unfold U64_MAX; simpl; lia|by vm_compute|].
  split; [exact Hr|]. exact (Hs 0 0).
Defined.

Lemma custody_roundtrip_witness :
  ∃ j, export_json (run_ca demo_org demo_ops) = Ok j
    ∧ import_json j = Ok (whole_seconds (run_ca demo_org demo_ops)).
Proof.
  destruct (custody_roundtrip demo_custody_laws [1] "org" demo_org demo_ops) as (j & Hj & Hi & _).
  - constructor; [by split|constructor].
  - done.
  - constructor; [done|]. constructor; [done|]. constructor; [by vm_compute|constructor].
  - exists j. split; [exact Hj|exact Hi].
Defined.

(** ** Frames *)

Lemma frames_roundtrip_witness :
  let frame := be_bytes 4 2 ++ [104; 105] in
  receive_all (λ b, Ok (of_byte_list b)) "peer" (mkIncoming (frame ++ frame ++ [0]) ClosedByPeer)
  = (["hi"; "hi"], Some (PeerDisconnected "peer")).
Proof.
  destruct (frames_roundtrip (λ s : string, Ok (byte_list s)) (λ b, Ok (of_byte_list b)) "peer" ["hi"; "hi"]
    [be_bytes 4 2 ++ [104; 105]; be_bytes 4 2 ++ [104; 105]]) as (H & _).
  - intros m b [= <-]. by rewrite of_byte_list_byte_list.
  - constructor; [done|]. constructor; [done|constructor].
  - exact (H ClosedByPeer [0] ltac:(simpl; lia)).
Defined.

(** ** Contracts *)

Module ContractWitnesses.
Import Contracts.

Definition decode_plain (s : string) : result string string := Ok s.
Definition render_offer (o : SupplyOffer) : string := so_product_id o.
Definition demo_clock (_ : string) : Z := 0.

Definition demo_contract : SmartContractDef :=
  mkSmartContractDef "c1" "buyer" "sku" (mkPurchaseConditions 10 1 8 5 None "BRL" true) None.
Definition demo_offer : SupplyOffer := mkSupplyOffer "sku" "name" "seller" 5 9 3 "BRL".

Lemma budget_respected_witness :
  let '(e, txs) := run_ops decode_plain render_offer demo_clock ContractEngine_new
                     [OpRegister demo_contract; OpOffer demo_offer "o1"; OpOffer demo_offer "o2"] in
  executed_quantity "c1" txs = 8 ∧ 0 ≤ executed_quantity "c1" txs ≤ 8.
Proof.
  pose proof (budget_respected decode_plain render_offer demo_clock
    [OpRegister demo_contract; OpOffer demo_offer "o1"; OpOffer demo_offer "o2"]) as H.
  destruct (run_ops _ _ _ _ _) as [e txs] eqn:Hr. specialize (H e txs "c1").
  assert (Hc : executed_quantity "c1" (run_ops decode_plain render_offer demo_clock ContractEngine_new
                     [OpRegister demo_contract; OpOffer demo_offer "o1"; OpOffer demo_offer "o2"]).2 = 8)
    by (by vm_compute).
  assert (Hm : contracts (run_ops decode_plain render_offer demo_clock ContractEngine_new
                     [OpRegister demo_contract; OpOffer demo_offer "o1"; OpOffer demo_offer "o2"]).1 !! "c1"
               = Some (mkContract demo_contract Fulfilled 8 2)) by (by vm_compute).
  rewrite Hr in Hc, Hm. simpl in Hc, Hm. rewrite Hm in H.
  split; [exact Hc|]. apply H; [|done].
  repeat constructor; by unfold op_wf, def_wf, offer_wf, in_u64, U64_MAX; simpl.
Defined.

Definition creation_block : Block :=
  mkBlock 1 0 [mkTransaction "t1" 0 (KContractCreation demo_contract) []] [] "0" 0 "h1" None.
Definition demo_engine : ContractEngine := rebuild_from_chain [creation_block].
Definition order_block : Block :=
  mkBlock 2 0 (evaluate_supply_offer decode_plain render_offer demo_clock demo_engine demo_offer "o1").2 []
    "h1" 0 "h2" None.

Lemma demo_engine_contracts : contracts demo_engine = {["c1" := Contract_new demo_contract]}.
Proof. by vm_compute. Qed.

Lemma rebuild_matches_live_witness :
  contracts (evaluate_supply_offer decode_plain render_offer demo_clock demo_engine demo_offer "o1").1
  = contracts (rebuild_from_chain [creation_block; order_block])
  ∧ length (transactions order_block) = 2%nat.
Proof.
  split; [|by vm_compute].
  destruct (evaluate_supply_offer decode_plain render_offer demo_clock demo_engine demo_offer "o1")
    as [e' txs] eqn:He.
  assert (Ht : transactions order_block = txs) by (unfold order_block; by rewrite He).
  refine (rebuild_matches_live decode_plain render_offer demo_clock demo_engine [creation_block] demo_offer
    "o1" e' txs order_block _ _ eq_refl _ He _ _).
  - unfold engine_wf. rewrite demo_engine_contracts. apply map_Forall_singleton.
    split; [done|]. split; [|split]; unfold def_wf, in_u64; simpl; unfold U64_MAX; lia.
  - unfold offer_wf, in_u64, U64_MAX. simpl. lia.
  - rewrite demo_engine_contracts. apply map_Forall_singleton. simpl. lia.
  - vm_compute. repeat constructor; intros d; discriminate.
  - intros id. by rewrite Ht.
Defined.
End ContractWitnesses.

(** ** Wasm executions *)

Module WasmWitnesses.
Import Contracts Wasm.

(** A guest that stores "v" under "k" in its scope and returns, and one that loops. *)
Definition demo_memory : Memory := Some (byte_list "chctkv").
Definition storing_guest : Guest :=
  GBurn 10 (GCall demo_memory (PersistState 0 2 2 2 4 1 5 1 0 0 0 0) (λ _ _, GReturn)).
Definition burning_guest : Guest := GBurn 100 GReturn.

Definition demo_compile (payload : string) : result string WasmModule :=
  Ok (mkModule GReturn (Ok (if payload ==? "store" then storing_guest else burning_guest))).
Definition demo_trap (_ : GuestEnd) : string := "trap".

Lemma output_within_gas_witness :
  ∃ r, execute_internal demo_compile demo_trap "c" "store" ∅ (mkExecutionLimits 50 5000) = Ok r
    ∧ length (writes r) = 1%nat ∧ 1000 + persisted_gas (writes r) ≤ 5000 ∧ Forall well_scoped (writes r).
Proof.
  destruct (execute_internal demo_compile demo_trap "c" "store" ∅ (mkExecutionLimits 50 5000)) as [r|e] eqn:Hr;
    [|by vm_compute in Hr].
  pose proof (output_within_gas demo_compile demo_trap "c" "store" ∅ (mkExecutionLimits 50 5000) r) as H.
  exists r. split; [done|]. vm_compute in Hr. injection Hr as <-.
  destruct H as (Hg & Hs & _); [by split|done|]. split; [done|]. split; [by vm_compute|exact Hs].
Defined.

Lemma gas_errors_exact_witness :
  execute_internal demo_compile demo_trap "c" "burn" ∅ (mkExecutionLimits 50 5000)
  = Err (GasExhausted Fuel 50 50)
  ∧ ∃ g s, ready (mkModule GReturn (Ok burning_guest)) ∅ (mkExecutionLimits 50 5000) = Some s
    ∧ (run_guest g 50 s).2 ≠ Returned.
Proof.
  split; [by vm_compute|].
  destruct (gas_errors_exact demo_compile demo_trap "c" "burn" ∅ (mkExecutionLimits 50 5000) Fuel 50 50)
    as (_ & m & g & s & s' & f & e & Hm & Hg & Hs & Hrun & He & _); [by vm_compute|].
  injection Hm as <-. exists g, s. split; [exact Hs|]. simpl in Hrun. by rewrite Hrun.
Defined.
End WasmWitnesses.

(** ** Peers and private payloads *)

#[local] Instance demo_env : Env := {|
  sha256 s := "00" +:+ s;
  json_header := λ '(i, t, txs, ws, prev, n), pretty i +:+ "/" +:+ prev;
  json_tx tx := tx_id tx;
  json_canonical := λ '(id, s, v, t, iss, pdc, p, ex), id +:+ "/" +:+ s |}.

(** A signature is its key written twice; a certificate's text is its key. *)
#[local] Instance demo_ed25519 : Ed25519Crate := {|
  ed_key_ok _ := true;
  ed_verify key _ proof := proof ==? key +:+ key |}.
#[local] Instance demo_x509 : X509 := λ pem, Some (mkCertificate (Some pem) (Some pem)).

Definition base64 (s : string) : string := s.
Definition unbase64 (s : string) : result string string := Ok s.
Definition pin_text : StoredPeerPin → string := to_text.
Definition text_pin : string → result string StoredPeerPin := of_text "unreadable".
Definition envelope_text : PayloadEnvelope → string := to_text.
Definition text_envelope : string → result CoreError PayloadEnvelope := of_text (Storage "unreadable").

(** The organization's id is also its certificate and its 32-byte key. *)
Definition peer_id : string := "org-0123456789abcdef0123456789ab".
Definition peer_identity : Identity :=
  mkIdentity peer_id peer_id (λ _, peer_id +:+ peer_id) (Some peer_id).

Definition demo_verifier : CertChainVerifier :=
  mkVerifier (byte_list "root") "org" Full [] [] [byte_list "crl"].
Definition sender_context : PeerContext := mkContext "peer" "10.0.0.2:9000" "fp-peer" (Some "session").
Definition receiver_context : PeerContext := mkContext "self" "10.0.0.1:9000" "fp-self" (Some "session").
Definition peer_hello : HelloMsg := build_local_hello base64 sender_context 1 (Some peer_identity) None.

Lemma hello_verified_on_its_session_witness :
  hello_org_verified unbase64 10 receiver_context (Some demo_verifier) peer_hello = true.
Proof.
  apply (hello_verified_on_its_session unbase64 base64 10 demo_verifier peer_identity peer_id sender_context
    receiver_context 1 "session");
    [split; [done|done|intros m; by vm_compute]|done|by vm_compute|done|by vm_compute..|done].
Defined.

Definition empty_store : InMemory.Store := InMemory.mkStore ∅ ∅.
Definition pinned_peer : VerifiedPeer := mkPeer "peer" "fp-peer" peer_id true (Some peer_id) [].
Definition pinned_node : PeerNode InMemory.Store :=
  mkPeerNode (mkRegistry {["10.0.0.2:9000" := pinned_peer]} ∅) ∅ ∅ ∅ (Some demo_verifier)
    (InMemory.mkStore ∅ {[TOFU_PIN_PREFIX +:+ "10.0.0.2:9000" := pin_text (stored_pin pinned_peer)]}).

(** An impostor's Hello for the pinned address, then a restart. *)
Definition impostor_hello : HelloMsg :=
  mkHello "peer" "fp-other" 1 PROTOCOL_VERSION [] peer_id None None None None "10.0.0.2:9000".

Lemma pins_not_hijacked_witness :
  ∃ p', peers (pn_registry (foldl (peer_event unbase64 pin_text text_pin) pinned_node
                 [EvHello 10 receiver_context 1%N "fp-other" 1 impostor_hello; EvRestart])) !! "10.0.0.2:9000"
        = Some p' ∧ vp_node_id p' = "peer" ∧ vp_org p' = peer_id.
Proof.
  destruct (pins_not_hijacked unbase64 base64 pin_text text_pin (λ p, of_text_to_text _ p) pinned_node
    [EvHello 10 receiver_context 1%N "fp-other" 1 impostor_hello; EvRestart] "10.0.0.2:9000" pinned_peer)
    as (p' & Hp & _ & Hn & Ho).
  - intros a p Hp. change (({["10.0.0.2:9000" := pinned_peer]} : gmap string VerifiedPeer) !! a = Some p) in Hp.
    apply lookup_singleton_Some in Hp as [<- <-]. by vm_compute.
  - by vm_compute.
  - exists p'. split; [exact Hp|]. split; [exact Hn|exact Ho].
Defined.

Definition deals : Channel := Channel_new (mkChannelConfig "deals" [peer_id; "self"] "" None 3600).
Definition fresh_node : PrivNode InMemory.Store :=
  mkPriv (mkPeerNode PeerRegistry_new ∅ ∅ ∅ (Some demo_verifier) empty_store) ∅ [deals] None "self"
    (Some [mkCapabilityActivation PDC_CAPABILITY_ID 1 "h" 0 []]) [] ∅.
Definition hello_events : list NodeEvent := [NHello 10 receiver_context 7%N "fp-peer" peer_hello].
Definition connected : PrivNode InMemory.Store * list Session :=
  run_node unbase64 pin_text text_pin envelope_text text_envelope (fresh_node, []) hello_events.

Lemma cleartext_pushed_to_proven_members_witness :
  (submit_private_payload envelope_text 20 connected.1 "deals" "price").2
  = [(7%N, PrivatePayload "deals" "00price" "price")]
  ∧ proven_member unbase64 connected.1 connected.2 7%N "deals".
Proof.
  assert (Hm : (submit_private_payload envelope_text 20 connected.1 "deals" "price").2
               = [(7%N, PrivatePayload "deals" "00price" "price")]) by (by vm_compute).
  split; [exact Hm|].
  destruct (cleartext_pushed_to_proven_members unbase64 pin_text text_pin envelope_text text_envelope
    fresh_node hello_events connected.1 connected.2) as (H & _);
    [by split|exact (surjective_pairing connected)|].
  apply (H 20 "deals" "price" (7%N, PrivatePayload "deals" "00price" "price")).
  rewrite Hm. by left.
Defined.

Lemma payload_accepted_exactly_witness :
  (process_private_payload envelope_text 20 connected.1 7%N "deals" "00price" "price").2 = true
  ∧ (process_private_payload envelope_text 20 connected.1 7%N "deals" "forged" "price").1 = connected.1.
Proof.
  destruct (payload_accepted_exactly unbase64 text_pin envelope_text text_envelope (λ e, of_text_to_text _ e)
    20 connected.1 7%N "deals" "forged" "price"
    (process_private_payload envelope_text 20 connected.1 7%N "deals" "forged" "price").1
    (process_private_payload envelope_text 20 connected.1 7%N "deals" "forged" "price").2) as (_ & H & _).
  { apply surjective_pairing. }
  split; [by vm_compute|]. apply H. by vm_compute.
Defined.

(** ** Workflows *)

Module FlowWitnesses.
Import Workflow Flows.

#[local] Instance demo_step : FlowState string := λ s, s.

Definition demo_record : CanonicalRecord := mkCanonicalRecord "r1" "s" 1 None 0 "org" [] None ∅ ∅.

(** One transition: a wake-up in the state "open" emits a record and closes the flow. *)
Definition closing : Transition string :=
  mkTransition "close" (λ s ev, (s ==? "open") && match ev with Woken _ => true | _ => false end)
    (λ _ _, mkResult "closed"
       [EmitRecord demo_record] false).
Definition demo_flow : FlowRunner string := mkRunner "demo" [closing].

Definition checkpoint_text : Checkpoint → string := to_text.
Definition text_checkpoint : string → result string Checkpoint := of_text "unreadable".
Definition string_value (s : string) : Value := VString s.
Definition value_string (v : Value) : result string string :=
  match v with VString s => Ok s | _ => Err "not a string" end.
Definition event_debug (_ : Event) : string := "event".
Definition flow_clock (_ : nat) : option Z := Some 5.

Definition pending_checkpoint : Checkpoint :=
  mkCheckpoint "f1" "demo" (VString "open") (Some (Woken "go")) 0 "open" 5.
Definition flow_runtime : Runtime (S := InMemory.Store) :=
  mkRuntime (InMemory.mkStore ∅ {[checkpoint_key "f1" := checkpoint_text pending_checkpoint]}) ∅.

Lemma demo_pending : at_phase checkpoint_text string_value flow_runtime "f1" (Pending "open" (Woken "go") 0).
Proof. exists pending_checkpoint. split_and!; [split; [|done]|done..]. apply lookup_singleton_eq. Qed.

Lemma demo_checkpoints : checkpoints_wf checkpoint_text (rt_storage flow_runtime).
Proof.
  intros k raw Hk _. exists pending_checkpoint.
  change (({[checkpoint_key "f1" := checkpoint_text pending_checkpoint]} : gmap string string) !! k = Some raw) in Hk.
  by apply lookup_singleton_Some in Hk as [<- <-].
Qed.

Lemma runner_refines_witness :
  ∃ w', handle checkpoint_text text_checkpoint event_debug string_value value_string demo_flow flow_clock
          flow_runtime "f1" "open" (Resumed "restart")
        = (w', (spec_handle event_debug demo_flow "f1" "open" (Pending "open" (Woken "go") 0)
                  (Resumed "restart")).2)
    ∧ at_phase checkpoint_text string_value w' "f1" (Pending "open" (Woken "go") 0).
Proof.
  destruct (runner_refines checkpoint_text text_checkpoint event_debug string_value value_string demo_flow
    (λ c, of_text_to_text _ c) (λ s, eq_refl) flow_clock flow_runtime "f1" "open" (Pending "open" (Woken "go") 0))
    as [H _]; [done|exact demo_pending|exact demo_checkpoints|].
  destruct (H (Resumed "restart")) as (w' & Hh & Hp & _). exists w'. split; [exact Hh|exact Hp].
Defined.

Lemma no_action_lost_witness :
  (handle checkpoint_text text_checkpoint event_debug string_value value_string demo_flow flow_clock
     (foldl (flow_op checkpoint_text text_checkpoint event_debug string_value value_string demo_flow flow_clock
        "f1" "open") flow_runtime [OpCrash; OpHandle (Woken "later"); OpCrash]) "f1" "open" (Resumed "restart")).2
  = Ok (Some (mkOutcome "closed" [EmitRecord demo_record] false)).
Proof.
  pose proof (no_action_lost checkpoint_text text_checkpoint event_debug string_value value_string demo_flow
    (λ c, of_text_to_text _ c) (λ s, eq_refl) flow_clock flow_runtime "f1" "open" "open" (Woken "go")
    (mkResult "closed" [EmitRecord demo_record] false) 0
    [OpCrash; OpHandle (Woken "later"); OpCrash]) as H.
  destruct (H ltac:(done) eq_refl ltac:(simpl; lia) demo_pending ltac:(by repeat constructor)) as (Hh & _).
  exact (Hh (Resumed "restart")).
Defined.

Definition flow_ledger : Ledger := mkLedger [mkBlock 0 0 [] [] "0" 0 "h" None] [] 2 0 None 0 None.

Lemma flow_indexes_ok : indexes_ok flow_ledger.
Proof. split; [|done]. split; [simpl; lia|done]. Qed.

Definition offer_action : Action :=
  EmitTransaction (mkTransaction "po:1" 0 (KInventoryUpdate (mkInventoryUpdate "sku" "org" 1 "in")) []).

Lemma redelivery_exactly_once_witness :
  let '(l1, rs1) := submit 5 [offer_action] flow_ledger in
  let '(l2, rs2) := submit 9 [offer_action] l1 in
  length (pending_transactions l1) = 1%nat ∧ pending_transactions l2 = pending_transactions l1.
Proof.
  destruct (submit 5 [offer_action] flow_ledger) as [l1 rs1] eqn:H1.
  destruct (submit 9 [offer_action] l1) as [l2 rs2] eqn:H2.
  vm_compute in H1. injection H1 as <- <-. vm_compute in H2. injection H2 as <- <-.
  split; [done|].
  eapply (redelivery_exactly_once flow_ledger 5 9 [offer_action] 0);
    [exact flow_indexes_ok|by vm_compute|by repeat constructor|by vm_compute|by repeat constructor].
Defined.

Definition buyer_config : Purchase.PurchaseFlowConfig :=
  Purchase.mkPurchaseConfig "buyer" "seller" "sku" 10 "BRL" "lot-1" "rfq-1" 100 "2026-01-01".
Definition seller_config : Purchase.PurchaseFlowConfig :=
  Purchase.mkPurchaseConfig "seller" "buyer" "sku" 10 "BRL" "lot-1" "rfq-1" 100 "2026-01-01".

Lemma deal_settles_witness :
  (run_flow (Purchase.seller_flow seller_config) Purchase.AwaitingPurchaseOrder
     [RecordCommitted (deal_po buyer_config); Woken "ship"; RecordCommitted (deal_receipt buyer_config seller_config);
      Woken "settle"]).1 = Purchase.Settled (record_id (deal_po buyer_config)).
Proof.
  destruct (deal_settles buyer_config seller_config "q1" None) as [_ H]; [by vm_compute|].
  cbv zeta in H. cbn [app] in H. by rewrite H.
Defined.
End FlowWitnesses.
