(* ===== verification/NodeWitnesses.v ===== *)
(** Concrete instances for the theorems about the running node, its console and its
    server.

    The parameters are the executable functions of the other witness files; each witness
    applies one theorem at inputs where its hypotheses hold. *)

From S2P Require Import Prelude Types Asset Text Chain Capability Policy Msp Ledger Storage Bft Rounds.
From S2P Require Import Validators Node Ocsp CertVerifier Custody Auth Indexer Channel Peers Outbound.
From S2P Require Import Contracts Watcher Runtime Repl Boot Server Codec Witnesses AppWitnesses.

Local Open Scope Z_scope.

#[local] Existing Instances demo_env demo_ed25519 demo_pki demo_ocsp demo_ca toy_bls.

(** ** Connections *)

(** Background traffic between two votes' worth of consensus messages. *)
Definition traffic : list QueueOp :=
  [Push MRequestPeers; Push MRequestChain; Turn true; Push (MPeers []); Turn true].

Lemma consensus_unaffected_by_background_witness :
  let '(w, out) := run_queue (PeerWrite_new, []) traffic in
  let '(w', out') := run_queue (PeerWrite_new, []) [Push MRequestChain; Turn true; Turn true] in
  consensus w = consensus w' ∧ consensus_of out = out'
  ∧ (try_send w MRequestChain).2 = (try_send w' MRequestChain).2.
Proof.
  apply (consensus_unaffected_by_background traffic MRequestChain); [|done].
  repeat constructor.
Defined.

(** ** The console *)

Lemma parse_render_witness :
  parse_command "order acme bolt sku-1 3 12.50 BRL" = Ok (Some (Order "acme" "bolt" "sku-1" 3 1250 "BRL")).
Proof.
  apply (parse_render (Order "acme" "bolt" "sku-1" 3 1250 "BRL")).
  split; [repeat constructor; by vm_compute|]. unfold in_u64, U64_MAX. lia.
Defined.

(** ** A chain of two blocks *)

Definition sealed_block (b : Block) : Block := set_hash b (calculate_hash b).
Definition genesis : Block := sealed_block (mkBlock 0 0 [] [] "0" 0 "" None).

Definition plain_unit : TraceableAsset :=
  mkTraceableAsset (Some "789") (Some "B1") None (Some "S1") None None "Aspirin" "org" None None 10.
Definition registration : Transaction :=
  mkTransaction "t1" 5 (KAssetRegistration (mkTraceableAssetRegistration plain_unit "PRODUCTION" "org" None)) [].
Definition second : Block := sealed_block (mkBlock 1 5 [registration] [] (hash genesis) 0 "" None).

Definition node_ledger (c : list Block) : Ledger := mkLedger c [] 2 0 None 0 None.
Definition memory : InMemory.Store := InMemory.mkStore ∅ ∅.

Definition no_value (_ : string) : result string Value := Err "no value".
Definition no_bytes (_ : string) : option string := None.
Definition flat_hash (_ : list (string * string * string)) : Z := 0.
Definition plain_base64 (s : string) : result string string := Ok s.
Definition offer_text (o : SupplyOffer) : string := so_product_id o.
Definition zero_clock (_ : string) : Z := 0.
Definition watcher_text (_ : WatcherStateSnapshot) : result string string := Err "not written".
Definition text_watcher (_ : string) : result string WatcherStateSnapshot := Err "not read".
Definition tx_text (tx : Transaction) : result string string := Ok (tx_id tx).
Definition text_tx (_ : string) : result string Transaction := Ok registration.
Definition block_text (i : Z) (h : string) (_ : nat) : string := pretty i +:+ h.
Definition signed_text (s : SignedTransaction) : result string string := Ok (tx_id (signed_tx s)).
Definition no_proof (_ : string) : result string EquivocationProof := Err "no proof".
Definition no_pin (_ : string) : result string StoredPeerPin := Err "no pin".

Definition verifier_key : @PrivateKey toy_bls := 1%nat.

Definition fresh : FullNode := with_components (node_ledger [genesis]) memory None.
Definition started : FullNode :=
  (start plain_base64 zero_clock text_watcher tx_text text_tx no_proof no_pin InMemory.apply_block fresh).1.
Definition submitted : FullNode := (submit_transaction plain_base64 offer_text zero_clock started registration).1.

Lemma projections_always_current_witness :
  projects tx_text text_tx InMemory.apply_block (fn_chain submitted) submitted.
Proof.
  apply (projections_always_current no_value no_bytes flat_hash plain_base64 offer_text zero_clock watcher_text
    text_watcher tx_text text_tx block_text signed_text no_proof no_pin InMemory.apply_block fresh submitted).
  - split; [exists genesis; split; [done|by vm_compute]|]. right. exists genesis. by vm_compute.
  - apply rtc_once. apply step_submit.
Defined.

(** A peer ahead by two blocks, and a node that holds the genesis block only and has not
    filled its capability cache. *)
Definition third : Block := let b := Block_new 5 2 [] (hash second) in set_hash b (calculate_hash b).
Definition ahead : FullNode := with_components (node_ledger [genesis; second; third]) memory None.
Definition peer_addr : string := "10.0.0.2:9000".
Definition one_peer : PeerRegistry :=
  mkRegistry {[peer_addr := mkPeer "peer" "fp" "org" false None
     [mkAdvert "canonical_schema_v1" 1; mkAdvert STATE_COMMITMENT_CAPABILITY_ID 1]]} ∅.
Definition behind : FullNode :=
  let n := with_components (node_ledger [genesis]) memory None in
  let c := set_cache (fn_core n) None in
  with_peers (with_core n c) (with_registry (fn_peers n) one_peer memory).

Lemma suffix_catches_up_witness :
  let '(n1, out) := receive_block no_value no_bytes flat_hash plain_base64 zero_clock watcher_text tx_text
      text_tx block_text signed_text InMemory.apply_block 10 7%N behind (Some peer_addr) third in
  fn_chain n1 = fn_chain behind
  ∧ out = [(7%N, MRequestChainFrom 1)]
  ∧ answer_chain_from ahead 1 = MChain 1 [second; third]
  ∧ fn_chain (receive_chain no_value no_bytes flat_hash plain_base64 zero_clock watcher_text text_watcher tx_text
      text_tx block_text signed_text InMemory.apply_block verifier_key 10 7%N n1 (Some peer_addr) 1
      [second; third]).1 = [genesis; second; third].
Proof.
  refine (suffix_catches_up no_value no_bytes flat_hash plain_base64 zero_clock watcher_text text_watcher tx_text
    text_tx block_text signed_text InMemory.apply_block 10 7%N peer_addr verifier_key 2 one_peer 1 ahead behind third
    _ _ _ _ _ _ _ _ _ _).
  - split.
    + split; [by vm_compute|split; [by vm_compute|done]].
    + by intros g [= <-].
    + done.
    + intros [|[|[|i]]] b Hi; [lia| | |done]; intros [= <-]; by vm_compute.
    + exists []. by vm_compute.
  - cbn. lia.
  - done.
  - done.
  - done.
  - done.
  - intros i Hi. by left.
  - intros i h Hi Hh. assert (h = []) as ->; [|by vm_compute].
    destruct i as [|[|[|i]]]; [lia|vm_compute in Hh; congruence..|].
    rewrite take_ge in Hh by (cbn; lia). vm_compute in Hh. congruence.
  - by vm_compute.
  - cbn. lia.
Defined.

(** ** Starting the node *)

Definition nothing_fails (_ : string) : option string := None.
Definition first_files : gmap string string :=
  (load_or_create_identity_file nothing_fails nothing_fails [1] demo_seed ∅ "id.json" "org" "node-1").1.
Definition provisioned : Organization := run_ca demo_org [CIssue demo_seed "node-1" None].

Lemma identity_survives_restart_witness :
  ∃ i, load_or_create_identity_file nothing_fails nothing_fails [2] "other" first_files "id.json" "org" "node-1"
       = (first_files, Ok (provisioned, i, false))
  ∧ ∃ e, load_or_create_identity_file nothing_fails nothing_fails [2] "other" first_files "id.json" "rival" "node-1"
         = (first_files, Err e).
Proof.
  destruct (load_or_create_identity_file nothing_fails nothing_fails [1] demo_seed ∅ "id.json" "org" "node-1")
    as [fs' r] eqn:Hl.
  assert (∃ i, r = Ok (provisioned, i, true)) as [i ->].
  { exists (match r with Ok x => x.1.2 | Err _ => mkKeyIdentity "" "" None end).
    pose proof (f_equal snd Hl) as Hr. cbn [snd] in Hr. subst r. by vm_compute. }
  assert (first_files = fs') as -> by (unfold first_files; by rewrite Hl).
  destruct (identity_survives_restart nothing_fails nothing_fails demo_custody_laws [1] [2] demo_seed "other" ∅ fs'
    "id.json" "org" "node-1" provisioned i) as [H1 H2]; [by repeat constructor|done|done|done|].
  exists i. split; [exact H1|]. by apply H2.
Defined.

Definition store_args : CliArgs :=
  mkCliArgs "node-1" "0.0.0.0:8000" [] 2 None (Some "org") None (Some "store") None None.
Definition file_certs (file : string) : result string (list (result string (list Z))) :=
  Ok [Ok (byte_list file)].
Definition store_dir (_ : string) : result string PathKind := Ok (IsDir (Ok ["fed.pem"; "notes.txt"])).
Definition verification_text (_ : CertVerificationError) : string := "refused".
Definition always_up (_ : string) : result string unit := Ok tt.
Definition no_storage (_ : string) : result string InMemory.Store := Err "no database".

Definition first_boot : option (gmap string string * result string (Booted (S := InMemory.Store))) :=
  boot no_value no_bytes plain_base64 zero_clock text_watcher tx_text text_tx no_proof no_pin InMemory.apply_block
    nothing_fails nothing_fails verification_text file_certs file_certs store_dir memory no_storage
    (Err "no sandbox") always_up always_up 10 [1] demo_seed verifier_key 5 (λ _, 0) ∅ store_args.

Definition booted_gate : bool :=
  match first_boot with Some (_, Ok b) => is_some (bt_gate b) | _ => false end.

Lemma admin_gate_follows_trust_store_witness :
  ∃ fs b, first_boot = Some (fs, Ok b) ∧ is_some (bt_gate b) = true
  ∧ in_step (bt_org b) (bt_root_pem b)
      (repl plain_base64 offer_text zero_clock verification_text file_certs file_certs store_dir []
         (bt_org b) (bt_root_pem b) (mkConsole (bt_node b) (bt_gate b)) [(10, "x", "reload-trust-store store")]).1.
Proof.
  assert (booted_gate = true) as Hg by (by vm_compute). unfold booted_gate in Hg.
  destruct first_boot as [[fs [b|]]|] eqn:Hb; [|done|done].
  exists fs, b. split; [done|]. split; [exact Hg|].
  exact (admin_gate_follows_trust_store no_value no_bytes plain_base64 offer_text zero_clock text_watcher tx_text
    text_tx no_proof no_pin InMemory.apply_block nothing_fails nothing_fails verification_text file_certs file_certs
    store_dir memory no_storage (Err "no sandbox") always_up always_up [] 10 [1] demo_seed verifier_key 5
    (λ _, 0) ∅ store_args fs b [(10, "x", "reload-trust-store store")] Hb).
Defined.

(** ** The server *)

Definition indexed (c : list Block) : FullNode :=
  let n := with_components (node_ledger c) memory None in
  with_projections n (fn_indexer n) (fn_bus n) (foldl Provenance.ingest_block Provenance.ProvenanceIndex_new c) [].
Definition served : ServerState (S := InMemory.Store) :=
  mkServer (indexed [genesis; second]) [] "node-1" "0.0.0.0:8000" None.
Definition custody_text (e : Provenance.CustodyEvent) : result string string := Ok "event".

Lemma asset_history_exact_witness :
  query_asset_history custody_text served "789" "S1"
  ≡ₚ [custody_proto custody_text (event_of (second, registration,
       mkTraceableAssetRegistration plain_unit "PRODUCTION" "org" None))].
Proof.
  apply (asset_history_exact custody_text served "789" "S1"); [done| |done|done].
  intros x Hx. change (x ∈ [(second, registration, mkTraceableAssetRegistration plain_unit "PRODUCTION" "org" None)]) in Hx.
  apply list_elem_of_singleton in Hx as ->. split; by try intros s [= <-].
Defined.

Definition envelope : SignedTransaction :=
  mkSigned registration (demo_seed +:+ demo_seed) demo_seed "node-1".
Definition text_envelope_tx (_ : string) : result string SignedTransaction := Ok envelope.

Lemma signed_submission_exact_witness :
  let '(st', r) := rpc_submit_transaction plain_base64 offer_text zero_clock text_tx text_envelope_tx served "" "{}" in
  sr_accepted r = true ∧ sr_error r = "".
Proof.
  pose proof (signed_submission_exact plain_base64 offer_text zero_clock text_tx text_envelope_tx served "" "{}" eq_refl) as H.
  destruct (rpc_submit_transaction plain_base64 offer_text zero_clock text_tx text_envelope_tx served "" "{}")
    as [st' r] eqn:Hr.
  assert (sr_accepted r = true) as Ha by (pose proof (f_equal snd Hr) as Hs; cbn [snd] in Hs; subst r; by vm_compute).
  destruct H as (_ & H & _). split; [exact Ha|]. by apply H.
Defined.

Definition proposal : EndorsementRequest := mkEndorsementRequest (mkScopedTarget "ch" "ct" [] None) "p" [].
Definition text_proposal (_ : string) : result string EndorsementRequest := Ok proposal.
Definition approving : EndorsementProvider := λ _ _ _, Ok (mkEndorsementEvaluation true [] 1).
Definition endorsing : ServerState (S := InMemory.Store) :=
  mkServer (set_endorsement_provider fresh approving) [] "node-1" "0.0.0.0:8000" None.

Lemma endorsement_approved_exactly_witness :
  ∃ r, verify_endorsement text_proposal endorsing "{}" = Ok r ∧ ver_approved r = true.
Proof.
  destruct (verify_endorsement text_proposal endorsing "{}") as [r|] eqn:Hr; [|by vm_compute in Hr].
  exists r. split; [done|].
  apply (endorsement_approved_exactly text_proposal endorsing "{}" proposal r); [done|done|done|].
  exists approving. split; [done|]. intros policy _. by exists (mkEndorsementEvaluation true [] 1).
Defined.

Lemma stream_delivers_all_witness :
  stream_blocks tx_text 0 [genesis] [(REvent (BlockReceived 1 (hash second) (cert_pow second)), [genesis; second])] 5
  = block_to_stream_response tx_text <$> [genesis; second].
Proof.
  apply (stream_delivers_all tx_text 0 1 1 [genesis; second]
    [(REvent (BlockReceived 1 (hash second) (cert_pow second)), [genesis; second])] 5).
  - lia.
  - lia.
  - cbn. lia.
  - split.
    + intros r c Hin. apply list_elem_of_singleton in Hin as [= -> ->]. by eexists.
    + done.
    + intros e c i Hin. apply list_elem_of_singleton in Hin as [= -> ->]. done.
  - cbn. lia.
Defined.
