(* ===== verification/NetWitnesses.v ===== *)
(** Concrete instances for the peer loop, the swarm, the bridge and the command line. *)

From S2P Require Import Prelude Utf8 Types WriteSet Chain Capability Msp Ledger Storage Bft Ocsp CertVerifier Custody Auth.
From S2P Require Import Channel Transient Peers Outbound Private Wire Contracts Watcher Runtime PeerLoop Server Client.
From S2P Require Import Codec Witnesses AppWitnesses NodeWitnesses.

Local Open Scope Z_scope.

#[local] Existing Instances demo_env demo_ed25519 demo_x509 demo_pki demo_ocsp toy_bls.

(** ** A started node that holds a payload, and a member peer that asks for it *)

Definition proof_text (e : EquivocationProof) : result string string := Ok (pretty (eq_height e)).

Definition live_start : FullNode (S := InMemory.Store) → FullNode (S := InMemory.Store) * result CoreError unit :=
  start unbase64 zero_clock text_watcher tx_text text_tx no_proof no_pin InMemory.apply_block.

Definition holding : FullNode :=
  let n := with_components (node_ledger [genesis])
    (InMemory.mkStore ∅ {[transient_key "deals" "00price" := envelope_text (mkEnvelope "price" 1000)]}) None in
  Runtime.with_peers n (mkPeerNode PeerRegistry_new ∅ ∅ ∅ (Some demo_verifier) (fn_storage n)).

Definition listening : Net :=
  mkNet (mkLive (live_start holding).1 "self" "10.0.0.1:9000" "fp-self" None ∅ [deals] ∅ None) ∅.

Definition live_event : Net → NetEvent → Net * list (N * Message) * list (string * Z) :=
  net_event no_value no_bytes flat_hash unbase64 base64 offer_text zero_clock watcher_text text_watcher tx_text text_tx
    block_text signed_text proof_text pin_text envelope_text text_envelope InMemory.apply_block verifier_key.

Definition dialled : Net := (live_event listening (Opened 7%N "10.0.0.2:4000" "fp-peer" (Some "session"))).1.1.
Definition hello_arrives : NetEvent := Read 10 7%N (Ok (MHello peer_hello)).
Definition greeted : Net := (live_event dialled hello_arrives).1.1.
Definition payload_wanted : NetEvent := Read 20 7%N (Ok (MRequestPrivatePayload "deals" "00price")).

Definition greeted_log : list Session :=
  net_log unbase64 pin_text dialled (net_log unbase64 pin_text listening [] (Opened 7%N "10.0.0.2:4000" "fp-peer" (Some "session")))
    hello_arrives.

Lemma listening_fresh :
  fresh_net unbase64 zero_clock text_watcher tx_text text_tx InMemory.apply_block no_proof no_pin listening.
Proof.
  split; [|split; by vm_compute]. exists holding. split; [|done].
  split; [exists genesis; split; [done|by vm_compute]|]. right. exists genesis. by vm_compute.
Qed.

Notation live_step := (PeerLoop.live_step no_value no_bytes flat_hash unbase64 base64 offer_text zero_clock
  watcher_text text_watcher tx_text text_tx block_text signed_text proof_text pin_text envelope_text text_envelope
  InMemory.apply_block verifier_key).

Definition dialled_log : list Session := net_log unbase64 pin_text listening [] (Opened 7%N "10.0.0.2:4000" "fp-peer" (Some "session")).

Lemma live_run : rtc live_step (listening, []) (greeted, greeted_log).
Proof.
  apply rtc_l with (dialled, dialled_log).
  - unfold dialled, live_event, dialled_log. apply live_peer. done.
  - apply rtc_once. unfold greeted, live_event, greeted_log. fold dialled_log. apply live_peer. done.
Qed.

Lemma cleartext_stays_inside_witness :
  (live_event greeted payload_wanted).1.2 = [(7%N, MPrivatePayload "deals" "00price" "price")]
  ∧ proven_address unbase64 greeted greeted_log 7%N "deals".
Proof.
  assert (Ho : (live_event greeted payload_wanted).1.2 = [(7%N, MPrivatePayload "deals" "00price" "price")])
    by (by vm_compute).
  split; [exact Ho|].
  refine (match proj2 (cleartext_stays_inside no_value no_bytes flat_hash unbase64 base64 offer_text zero_clock
    watcher_text text_watcher tx_text text_tx block_text signed_text proof_text pin_text envelope_text text_envelope
    InMemory.apply_block verifier_key no_proof no_pin listening greeted greeted_log listening_fresh live_run)
    payload_wanted 7%N "deals" "00price" "price" _ with conj _ (conj Hp _) => Hp end).
  fold (live_event greeted payload_wanted). rewrite Ho. by left.
Defined.


(** ** An operator and the server it administers *)

Module Operator.
Import Client.Cli.

(** The administrator's name is also its certificate and its 32-byte key. *)
Definition admin_name : string := "adm-0123456789abcdef0123456789ab".

#[local] Instance admin_pki : Pki := {|
  cert_of_pem s := Ok (byte_list s);
  crl_of_pem s := Ok (byte_list s);
  cert_of_der der := Ok (mkParsedCert der der (Some (Utf8String (of_byte_list der))) (Some (Utf8String ADMIN_ROLE))
                           0 1000 [1] (Some der));
  webpki_crl _ := Ok tt;
  webpki_anchor _ := Ok tt;
  webpki_end_entity _ := Ok tt;
  webpki_verify _ _ _ _ _ := Ok tt |}.

#[local] Instance admin_signatures : Ed25519Crate := {| ed_key_ok _ := true; ed_verify _ _ _ := true |}.

#[local] Instance admin_crates : CaCrates := {|
  ed_public _ := admin_name;
  ed_sign _ _ := admin_name +:+ admin_name;
  self_signed p _ := Ok (cp_common_name p, byte_list (cp_common_name p));
  signed_by p _ _ := Ok (cp_common_name p, byte_list (cp_common_name p));
  crl_signed_by _ _ := Ok "crl";
  ed_key_pair seed := Ok (byte_list seed);
  public_key_raw k := k;
  ca_key_restores _ := Ok tt;
  serial_of n := be_bytes 8 n;
  ring_public_key k := Ok k;
  time_of_unix t := Ok (t * 1000000000);
  hex_encode b := to_text b;
  hex_decode s := of_text "not hex" s;
  snapshot_to_json s := Ok (to_text s);
  snapshot_of_json s := of_text "not JSON" s |}.

Lemma operator_laws : rpc_laws Some.
Proof. split; [done|done|by intros; vm_compute|by intros b _; apply of_text_to_text|done|done]. Qed.

Definition text_bytes (s : string) : option (list Z) := match of_text "" s with Ok b => Some b | Err _ => None end.
Definition operator_files : gmap string string := {["admin.pem" := admin_name]}.
Definition remove_member : ChannelAdminArgs :=
  mkAdmin "http://127.0.0.1:50051" "admin.pem" (to_text (replicate 32 7)) (OpRemoveMember "deals" peer_id).
Definition administered : ServerState (S := InMemory.Store) :=
  mkServer fresh [deals] "self" "10.0.0.1:9000" (Some (AdminGate_new demo_verifier)).

Definition no_signed (_ : string) : result string SignedTransaction := Err "not signed".
Definition no_request (_ : string) : result string EndorsementRequest := Err "no request".
Definition custody_text (_ : Indexer.Provenance.CustodyEvent) : result string string := Ok "event".
Definition cert_text (_ : CertVerificationError) : string := "refused".
Definition any_endpoint (_ : string) : option string := None.
Definition readable (_ : string) : option string := None.
Definition plain_header (_ : string) : bool := true.
Definition status_name (_ : Status) : string := "status".

(** The server's interceptor has the administrator's key. *)
Definition operator_interceptor : MspAuthInterceptor := mkInterceptor {[admin_name := admin_name]} true.

Notation rpc := (server_rpc tx_text text_tx plain_base64 offer_text zero_clock no_signed no_request custody_text Some
  text_bytes cert_text 500 (Some operator_interceptor)).

Lemma operator_setup :
  admin_setup readable Some operator_files remove_member 480 500 (Some operator_interceptor) administered admin_name
    (byte_list admin_name).
Proof.
  split.
  - exists admin_name. by vm_compute.
  - eexists. split; [reflexivity|by vm_compute].
  - exists (of_byte_list (replicate 32 7)). split; by vm_compute.
  - by vm_compute.
  - exists (AdminGate_new demo_verifier). by vm_compute.
  - intros m [= <-]. split; [by vm_compute|done].
  - unfold U64_MAX. lia.
  - done.
Qed.

Lemma channel_admin_takes_effect_witness :
  ∃ st', admin_run to_text readable plain_header status_name rpc any_endpoint 480 operator_files administered
      [(None, false)] remove_member
      = Some (st', match view_reply (channel_view (sv_collections administered)) (request_of (ca_op remove_member)) with
                   | Ok resp => ([outcome_text (ca_op remove_member) resp], Ok tt)
                   | Err status => ([], Err (status_name status))
                   end)
    ∧ channel_view (sv_collections st')
      = view_step (channel_view (sv_collections administered)) (RemoveChannelMember "deals" peer_id).
Proof.
  destruct (channel_admin_takes_effect tx_text text_tx to_text readable plain_header status_name plain_base64 offer_text
    zero_clock no_signed no_request custody_text Some text_bytes cert_text any_endpoint operator_laws operator_files
    remove_member 480 500 (Some operator_interceptor) administered admin_name (byte_list admin_name) [(None, false)])
    as (st' & Hrun & Hview & _).
  - done.
  - unfold text_bytes. by rewrite of_text_to_text.
  - done.
  - exact operator_setup.
  - done.
  - done.
  - exists st'. split; [exact Hrun|exact Hview].
Defined.
End Operator.
