(* ===== verification/ScenarioWitnesses.v ===== *)
(** Concrete instances for the theorems about the demo scenario: a fleet of nodes of
    [Runtime] for the companies of the default parameters, and small executable functions
    for the network, the miner and the renderings. *)

From S2P Require Import Prelude Types Chain Canonical Ledger Storage Bft Transient Private Runtime Codec.
From S2P Require Import Witnesses AppWitnesses NodeWitnesses Indexer Scenario ScenarioRun.

Local Open Scope Z_scope.

#[local] Existing Instances demo_env toy_bls.

(** A network that delivers nothing, a clock that brings nothing, and an idle miner. *)
#[local] Instance demo_fleet : Federation Fleet :=
  nodes_federation plain_base64 offer_text zero_clock envelope_text text_envelope 0
    (λ _ _ _ _ n, n) (λ n, n) (λ n, n) (λ l, Z.of_nat (length l)).
#[local] Instance demo_fleet_laws : FederationLaws.
Proof. apply nodes_federation_laws. Qed.

Definition demo_ids : list string := co_id <$> build_companies SimParams_defaults.
Definition demo_members : Fleet := mkFleet (list_to_map ((λ id, (id, fresh)) <$> demo_ids)) ∅.

Definition fresh_id (k : nat) : string := "tx-" +:+ pretty k.
Definition still (_ : nat) : Z := 0.
Definition no_timing : Timings := mkTimings 0 0 0 0 0 0 0 0.
Definition terms_json (v : Value) : string := to_text v.
Definition json_terms (s : string) : option Value := match of_text "" s with Ok v => Some v | Err _ => None end.
Definition no_number (_ : option Number) : string := "0".

Definition first_lot : PipelineLot :=
  mkLot 1 0 "manufacturer-1" "distributor-1" "logistics-1" "pharmacy-1" "certifier-1" false.
Definition demo_run : SharedRun :=
  mkShared RunState_default demo_members [] SimParams_defaults [first_lot] 0 0.

Definition three_rounds : list (Z * Z * Timings) := [(1, 0, no_timing); (2, 0, no_timing); (3, 0, no_timing)].

Lemma demo_staffed : run_staffed demo_run.
Proof.
  split.
  - split; cbn; lia.
  - intros c Hc. change (is_some (ft_nodes demo_members !! co_id c) = true).
    apply (elem_of_forallb (λ c, is_some (ft_nodes demo_members !! co_id c)) c _ Hc). by vm_compute.
  - constructor; [|constructor]. split; [|done]. repeat constructor; by vm_compute.
Qed.

Lemma demo_stock : stock_ok (rs_books (sh_state demo_run)).
Proof. intros c. change (0 ≤ default 0 ((∅ : gmap string Z) !! c)). by rewrite lookup_empty. Qed.

Lemma rounds_deliver_witness :
  ∃ w' e', drive_rounds fresh_id still terms_json json_terms demo_run "manufacturer-1" three_rounds = Some w'
    ∧ sh_pipeline w' !! 0%nat = Some e' ∧ pl_stage e' = 3 ∧ pl_certified e' = true.
Proof.
  destruct (rounds_deliver fresh_id still terms_json json_terms demo_fleet_laws demo_run "manufacturer-1" three_rounds
    demo_staffed demo_stock) as (w' & Hw & _ & _ & Hl & _).
  destruct (Hl 0%nat first_lot eq_refl) as (e' & He & _ & _ & Hs & Hc); [cbn; lia|].
  exists w', e'. split; [exact Hw|]. split; [exact He|]. split; [exact Hs|]. by apply Hc.
Defined.

Definition priced : Value := pricing_terms 3 1 "manufacturer-1".
Definition disclosing : SharedRun :=
  mkShared RunState_default demo_members [("pricing", "commitment", terms_json priced, "manufacturer-1")]
    SimParams_defaults [] 0 0.

Lemma snapshot_disclosure_witness :
  ∃ s row rest, org_snapshot json_terms no_number no_number disclosing "manufacturer-1" None = Some s
    ∧ row ∈ os_pdc_values s ∧ op_payload row = None ∧ os_cash s = None
    ∧ op_summary row = "member $" +:+ "0" +:+ " · list $" +:+ "0" +:+ rest.
Proof.
  destruct (org_snapshot json_terms no_number no_number disclosing "manufacturer-1" None) as [s|] eqn:Hs;
    [|by vm_compute in Hs].
  destruct (snapshot_disclosure json_terms no_number no_number disclosing "manufacturer-1" None s Hs)
    as (Hl & Hp & _ & Hc).
  destruct (Hl "pricing" "commitment" (terms_json priced) "manufacturer-1") as (row & Hr & _ & _ & _ & _ & Hsum).
  - by left.
  - by left.
  - destruct (Hsum priced) as [_ Hprice]; [unfold json_terms, terms_json; by rewrite of_text_to_text|].
    destruct (Hprice eq_refl) as [rest Hrest].
    exists s, row, rest. split; [done|]. split; [done|]. split; [|split; [|exact Hrest]].
    + destruct (op_payload row) as [text|] eqn:Ht; [|done].
      destruct (Hp row Hr) as [_ Hv]. rewrite Ht in Hv. destruct Hv as (v & ? & _); [by eexists|done].
    + apply Hc. by intros (v & ? & _).
Defined.

Definition flat (i : Z) : Flattener.FlatAssetRecord :=
  Flattener.mkFlat i "h" 0 "t" 0 None (Some "B-0001") None None None None "p" "c" None None 1 "manufacture" "org"
    None 80 true "".

Lemma incremental_projection_witness :
  fold_records [flat 1; flat 2] (fold_records [flat 1] (rs_projection RunState_default))
  = fold_records [flat 1; flat 2] (rs_projection RunState_default).
Proof.
  apply (incremental_projection [flat 1] [flat 2] (rs_projection RunState_default)).
  constructor; [by vm_compute|constructor].
Defined.

Lemma attacks_refused_witness :
  ∃ first last_row, security_log (attack fresh_id still 1 demo_run (evil_company 1)).1
    = [first;
       security_row "evil-1" "forged certification with undisclosed payload key" "rejected by schema validation"
         "strict canonical schema validation";
       security_row "evil-1" "lot anchor with tampered commitment" "rejected: commitment does not match the record"
         "anchored families hash-check the commitment";
       security_row "evil-1" "transaction replay (same id twice)" "rejected: duplicate transaction id (replay blocked)"
         "pool idempotency"; last_row].
Proof.
  destruct (attacks_refused fresh_id still demo_fleet_laws 1 demo_run (evil_company 1)) as ((first & last_row & H) & _);
    [done|by vm_compute|].
  exists first, last_row. rewrite H. done.
Defined.
